(** * A shallow embedding of the chess engine of galhamama/chess_project

    The development follows the Python sources:
    - [Py]    : the fragment of Python's list, string and integer semantics
                the program relies on (indexing with negative wrap-around,
                IndexError, floor division), and a state-and-error monad;
    - [AI]    : src/ai/advanced_ai.py (Move, TranspositionTable,
                MoveGenerator, Evaluator, SearchEngine);
    - [Core]  : src/core/move.py and src/core/game_state.py;
    - [Controller] : the search of the clicked move among the valid moves,
                in src/controllers/game_controller.py;
    - [Book]  : [algebraic_to_move] of src/ai/opening_book.py.

    Python integers are unbounded and are modelled by [Z]; a raised
    exception is modelled by [None] in the error monad. *)

From Stdlib Require Import ZArith String Ascii List Bool Lia.
From stdpp Require Import base option list strings gmap.
Import ListNotations.
Local Open Scope string_scope.
Local Open Scope list_scope.
Local Open Scope Z_scope.

(* ===================================================================== *)
(** ** Python semantics used by the program *)
(* ===================================================================== *)

Module Py.

(** [l[i]] for a Python list: indices [-len .. len-1] are valid, negative
    ones count from the end, everything else raises IndexError. *)
Definition index {A} (l : list A) (i : Z) : option A :=
  let n := Z.of_nat (length l) in
  if (0 <=? i) && (i <? n) then l !! Z.to_nat i
  else if (- n <=? i) && (i <? 0) then l !! Z.to_nat (i + n)
  else None.

(** [l[i] = x]: same index discipline as [index]. *)
Definition setitem {A} (l : list A) (i : Z) (x : A) : option (list A) :=
  let n := Z.of_nat (length l) in
  if (0 <=? i) && (i <? n) then Some (<[Z.to_nat i := x]> l)
  else if (- n <=? i) && (i <? 0) then Some (<[Z.to_nat (i + n) := x]> l)
  else None.

(** [b[r][c]] on a list of lists. *)
Definition index2 {A} (b : list (list A)) (r c : Z) : option A :=
  match index b r with
  | Some row => index row c
  | None => None
  end.

(** [b[r][c] = x] on a list of lists (the row object is updated in place). *)
Definition setitem2 {A} (b : list (list A)) (r c : Z) (x : A)
  : option (list (list A)) :=
  match index b r with
  | Some row =>
      match setitem row c x with
      | Some row' => setitem b r row'
      | None => None
      end
  | None => None
  end.

(** [s[i]] for a string, with the same index discipline. *)
Definition chr (s : string) (i : Z) : option ascii :=
  index (list_ascii_of_string s) i.

(** [range(a, b)] as the list of the integers it yields. *)
Definition range (a b : Z) : list Z :=
  map (fun k => a + Z.of_nat k) (seq 0 (Z.to_nat (b - a))).

(** The state-and-error monad in which the methods of a Python object are
    written: a method reads and updates [self] and may raise. *)
Definition M (S A : Type) : Type := S -> option (A * S).

Definition ret {S A} (a : A) : M S A := fun s => Some (a, s).
Definition bind {S A B} (m : M S A) (k : A -> M S B) : M S B :=
  fun s => match m s with
           | Some (a, s') => k a s'
           | None => None
           end.
Definition get {S} : M S S := fun s => Some (s, s).
Definition put {S} (s : S) : M S unit := fun _ => Some (tt, s).
Definition modify {S} (f : S -> S) : M S unit := fun s => Some (tt, f s).
Definition gets {S A} (f : S -> A) : M S A := fun s => Some (f s, s).
Definition raise {S A} : M S A := fun _ => None.
Definition lift {S A} (o : option A) : M S A :=
  fun s => match o with Some a => Some (a, s) | None => None end.

End Py.

Declare Scope py_scope.
Delimit Scope py_scope with py.
Notation "x <- c1 ;; c2" := (Py.bind c1 (fun x => c2))
  (at level 100, c1 at next level, right associativity) : py_scope.
Notation "c1 ;;; c2" := (Py.bind c1 (fun _ => c2))
  (at level 100, right associativity) : py_scope.

(* ===================================================================== *)
(** ** src/core/move.py and src/core/game_state.py *)
(* ===================================================================== *)

Module Core.
Local Open Scope py_scope.

Definition Board : Type := list (list string).

(** *** move.py *)

(** [class CastleRights]; the constructor takes [wks, bks, wqs, bqs]. *)
Record CastleRights := mkCastleRights {
  wks : bool;
  bks : bool;
  wqs : bool;
  bqs : bool
}.

#[export] Instance CastleRights_eq_dec : EqDecision CastleRights.
Proof. solve_decision. Defined.

(** A tuple of integers: [()] is [[]] and [(r, c)] is [[r; c]]; a field
    that may also hold Python's [None] is an [option] of it. *)
Definition PyTuple : Type := list Z.

(** [class Move].  [last_moved] and [fifty_move_counter] are written by
    the controller only and are left out. *)
Record Move := mkMove {
  start_row : Z;
  start_col : Z;
  end_row : Z;
  end_col : Z;
  piece_moved : string;
  piece_captured : string;
  enPassant : bool;
  pawn_promotion : bool;
  is_castle_move : bool;
  promoted_to : option string;
  castle_rights_before : option CastleRights;
  en_passant_before : option PyTuple;
  move_id : Z;
  special_id : Z
}.

#[export] Instance Move_eq_dec : EqDecision Move.
Proof. solve_decision. Defined.

(** [ord(s[i])] *)
Definition ord_at (s : string) (i : Z) : option Z :=
  c ← Py.chr s i; Some (Z.of_nat (nat_of_ascii c)).

(** [Move.get_special_id] *)
Definition get_special_id (pm pc : string) (ep promo castle : bool) : option Z :=
  id1 ← (if negb (String.eqb pm "--")
         then a ← ord_at pm 0; b ← ord_at pm 1; Some (a + b)
         else Some 0);
  let id2 := if ep then id1 + 3 else id1 in
  let id3 := if promo then id2 + 7 else id2 in
  let id4 := if castle then id3 + 9 else id3 in
  a ← ord_at pc 0; b ← ord_at pc 1;
  Some (id4 + (a + b)).

(** [Move.__init__] *)
Definition Move_init (start_sq end_sq : Z * Z) (board : Board)
    (enPassant pawn_promotion is_castle_move : bool) : option Move :=
  let '(sr, sc) := start_sq in
  let '(er, ec) := end_sq in
  pm ← Py.index2 board sr sc;
  pc ← Py.index2 board er ec;
  let pc := if enPassant
            then (if String.eqb pm "wp" then "bp" else "wp")
            else pc in
  sid ← get_special_id pm pc enPassant pawn_promotion is_castle_move;
  Some {| start_row := sr; start_col := sc; end_row := er; end_col := ec;
          piece_moved := pm; piece_captured := pc;
          enPassant := enPassant; pawn_promotion := pawn_promotion;
          is_castle_move := is_castle_move;
          promoted_to := None;
          castle_rights_before := None;
          en_passant_before := None;
          move_id := sr * 1000 + sc * 100 + er * 10 + ec;
          special_id := sid |}.

(** [Move.__eq__] *)
Definition Move_eqb (a b : Move) : bool :=
  (start_row a =? start_row b) && (start_col a =? start_col b) &&
  (end_row a =? end_row b) && (end_col a =? end_col b) &&
  String.eqb (piece_moved a) (piece_moved b) &&
  Bool.eqb (pawn_promotion a) (pawn_promotion b) &&
  Bool.eqb (enPassant a) (enPassant b) &&
  Bool.eqb (is_castle_move a) (is_castle_move b).

Definition set_promotion_piece (m : Move) (p : string) : Move :=
  {| start_row := start_row m; start_col := start_col m;
     end_row := end_row m; end_col := end_col m;
     piece_moved := piece_moved m; piece_captured := piece_captured m;
     enPassant := enPassant m; pawn_promotion := pawn_promotion m;
     is_castle_move := is_castle_move m;
     promoted_to := Some p;
     castle_rights_before := castle_rights_before m;
     en_passant_before := en_passant_before m;
     move_id := move_id m; special_id := special_id m |}.

(** [set_castle_rights_before]: a [CastleRights] object is always truthy,
    so the copy is always taken. *)
Definition set_castle_rights_before (m : Move) (cr : CastleRights) : Move :=
  {| start_row := start_row m; start_col := start_col m;
     end_row := end_row m; end_col := end_col m;
     piece_moved := piece_moved m; piece_captured := piece_captured m;
     enPassant := enPassant m; pawn_promotion := pawn_promotion m;
     is_castle_move := is_castle_move m;
     promoted_to := promoted_to m;
     castle_rights_before := Some cr;
     en_passant_before := en_passant_before m;
     move_id := move_id m; special_id := special_id m |}.

Definition set_en_passant_before (m : Move) (ep : option PyTuple) : Move :=
  {| start_row := start_row m; start_col := start_col m;
     end_row := end_row m; end_col := end_col m;
     piece_moved := piece_moved m; piece_captured := piece_captured m;
     enPassant := enPassant m; pawn_promotion := pawn_promotion m;
     is_castle_move := is_castle_move m;
     promoted_to := promoted_to m;
     castle_rights_before := castle_rights_before m;
     en_passant_before := ep;
     move_id := move_id m; special_id := special_id m |}.

(** *** game_state.py *)

(** An entry of [pins] or of [checks]: [(row, col, d0, d1)]. *)
Definition Ray : Type := (Z * Z * Z * Z)%type.

(** [class GameState].  The fields only the user interface reads and
    writes ([sq_selected], [player_clicks], [move_made], [animate_move],
    [game_over], [turn_num]) are left out. *)
Record GameState := mkGameState {
  board : Board;
  white_to_move : bool;
  move_log : list Move;
  white_king_location : Z * Z;
  black_king_location : Z * Z;
  enPassant_possible : option PyTuple;
  enPassant_possible_log : list (option PyTuple);
  current_castling_rights : CastleRights;
  castle_rights_log : list CastleRights;
  pins : list Ray;
  checks : list Ray;
  promotion_piece : string;
  ai_promotion_piece : string;
  player_promote : bool;
  in_check : bool;
  checkmate : bool;
  stalemate : bool;
  hash_board : Board
}.

Definition initial_board : Board :=
  [ ["bR";"bN";"bB";"bQ";"bK";"bB";"bN";"bR"];
    ["bp";"bp";"bp";"bp";"bp";"bp";"bp";"bp"];
    ["--";"--";"--";"--";"--";"--";"--";"--"];
    ["--";"--";"--";"--";"--";"--";"--";"--"];
    ["--";"--";"--";"--";"--";"--";"--";"--"];
    ["--";"--";"--";"--";"--";"--";"--";"--"];
    ["wp";"wp";"wp";"wp";"wp";"wp";"wp";"wp"];
    ["wR";"wN";"wB";"wQ";"wK";"wB";"wN";"wR"] ].

(** [GameState.__init__] *)
Definition GameState_init : GameState :=
  {| board := initial_board;
     white_to_move := true;
     move_log := [];
     white_king_location := (7, 4);
     black_king_location := (0, 4);
     enPassant_possible := Some [];
     enPassant_possible_log := [Some []];
     current_castling_rights := mkCastleRights true true true true;
     castle_rights_log := [mkCastleRights true true true true];
     pins := [];
     checks := [];
     promotion_piece := "Q";
     ai_promotion_piece := "Q";
     player_promote := false;
     in_check := false;
     checkmate := false;
     stalemate := false;
     hash_board := initial_board |}.

(** Field updates of [self]. *)
Definition set_board (b : Board) (s : GameState) : GameState :=
  {| board := b; white_to_move := white_to_move s; move_log := move_log s;
     white_king_location := white_king_location s;
     black_king_location := black_king_location s;
     enPassant_possible := enPassant_possible s;
     enPassant_possible_log := enPassant_possible_log s;
     current_castling_rights := current_castling_rights s;
     castle_rights_log := castle_rights_log s;
     pins := pins s; checks := checks s;
     promotion_piece := promotion_piece s;
     ai_promotion_piece := ai_promotion_piece s;
     player_promote := player_promote s;
     in_check := in_check s; checkmate := checkmate s;
     stalemate := stalemate s; hash_board := hash_board s |}.

Definition set_white_to_move (w : bool) (s : GameState) : GameState :=
  {| board := board s; white_to_move := w; move_log := move_log s;
     white_king_location := white_king_location s;
     black_king_location := black_king_location s;
     enPassant_possible := enPassant_possible s;
     enPassant_possible_log := enPassant_possible_log s;
     current_castling_rights := current_castling_rights s;
     castle_rights_log := castle_rights_log s;
     pins := pins s; checks := checks s;
     promotion_piece := promotion_piece s;
     ai_promotion_piece := ai_promotion_piece s;
     player_promote := player_promote s;
     in_check := in_check s; checkmate := checkmate s;
     stalemate := stalemate s; hash_board := hash_board s |}.

Definition set_move_log (l : list Move) (s : GameState) : GameState :=
  {| board := board s; white_to_move := white_to_move s; move_log := l;
     white_king_location := white_king_location s;
     black_king_location := black_king_location s;
     enPassant_possible := enPassant_possible s;
     enPassant_possible_log := enPassant_possible_log s;
     current_castling_rights := current_castling_rights s;
     castle_rights_log := castle_rights_log s;
     pins := pins s; checks := checks s;
     promotion_piece := promotion_piece s;
     ai_promotion_piece := ai_promotion_piece s;
     player_promote := player_promote s;
     in_check := in_check s; checkmate := checkmate s;
     stalemate := stalemate s; hash_board := hash_board s |}.

Definition set_white_king_location (k : Z * Z) (s : GameState) : GameState :=
  {| board := board s; white_to_move := white_to_move s; move_log := move_log s;
     white_king_location := k;
     black_king_location := black_king_location s;
     enPassant_possible := enPassant_possible s;
     enPassant_possible_log := enPassant_possible_log s;
     current_castling_rights := current_castling_rights s;
     castle_rights_log := castle_rights_log s;
     pins := pins s; checks := checks s;
     promotion_piece := promotion_piece s;
     ai_promotion_piece := ai_promotion_piece s;
     player_promote := player_promote s;
     in_check := in_check s; checkmate := checkmate s;
     stalemate := stalemate s; hash_board := hash_board s |}.

Definition set_black_king_location (k : Z * Z) (s : GameState) : GameState :=
  {| board := board s; white_to_move := white_to_move s; move_log := move_log s;
     white_king_location := white_king_location s;
     black_king_location := k;
     enPassant_possible := enPassant_possible s;
     enPassant_possible_log := enPassant_possible_log s;
     current_castling_rights := current_castling_rights s;
     castle_rights_log := castle_rights_log s;
     pins := pins s; checks := checks s;
     promotion_piece := promotion_piece s;
     ai_promotion_piece := ai_promotion_piece s;
     player_promote := player_promote s;
     in_check := in_check s; checkmate := checkmate s;
     stalemate := stalemate s; hash_board := hash_board s |}.

Definition set_enPassant_possible (e : option PyTuple) (s : GameState) : GameState :=
  {| board := board s; white_to_move := white_to_move s; move_log := move_log s;
     white_king_location := white_king_location s;
     black_king_location := black_king_location s;
     enPassant_possible := e;
     enPassant_possible_log := enPassant_possible_log s;
     current_castling_rights := current_castling_rights s;
     castle_rights_log := castle_rights_log s;
     pins := pins s; checks := checks s;
     promotion_piece := promotion_piece s;
     ai_promotion_piece := ai_promotion_piece s;
     player_promote := player_promote s;
     in_check := in_check s; checkmate := checkmate s;
     stalemate := stalemate s; hash_board := hash_board s |}.

Definition set_enPassant_possible_log (l : list (option PyTuple)) (s : GameState)
  : GameState :=
  {| board := board s; white_to_move := white_to_move s; move_log := move_log s;
     white_king_location := white_king_location s;
     black_king_location := black_king_location s;
     enPassant_possible := enPassant_possible s;
     enPassant_possible_log := l;
     current_castling_rights := current_castling_rights s;
     castle_rights_log := castle_rights_log s;
     pins := pins s; checks := checks s;
     promotion_piece := promotion_piece s;
     ai_promotion_piece := ai_promotion_piece s;
     player_promote := player_promote s;
     in_check := in_check s; checkmate := checkmate s;
     stalemate := stalemate s; hash_board := hash_board s |}.

Definition set_current_castling_rights (c : CastleRights) (s : GameState)
  : GameState :=
  {| board := board s; white_to_move := white_to_move s; move_log := move_log s;
     white_king_location := white_king_location s;
     black_king_location := black_king_location s;
     enPassant_possible := enPassant_possible s;
     enPassant_possible_log := enPassant_possible_log s;
     current_castling_rights := c;
     castle_rights_log := castle_rights_log s;
     pins := pins s; checks := checks s;
     promotion_piece := promotion_piece s;
     ai_promotion_piece := ai_promotion_piece s;
     player_promote := player_promote s;
     in_check := in_check s; checkmate := checkmate s;
     stalemate := stalemate s; hash_board := hash_board s |}.

Definition set_castle_rights_log (l : list CastleRights) (s : GameState)
  : GameState :=
  {| board := board s; white_to_move := white_to_move s; move_log := move_log s;
     white_king_location := white_king_location s;
     black_king_location := black_king_location s;
     enPassant_possible := enPassant_possible s;
     enPassant_possible_log := enPassant_possible_log s;
     current_castling_rights := current_castling_rights s;
     castle_rights_log := l;
     pins := pins s; checks := checks s;
     promotion_piece := promotion_piece s;
     ai_promotion_piece := ai_promotion_piece s;
     player_promote := player_promote s;
     in_check := in_check s; checkmate := checkmate s;
     stalemate := stalemate s; hash_board := hash_board s |}.

Definition set_pins (p : list Ray) (s : GameState) : GameState :=
  {| board := board s; white_to_move := white_to_move s; move_log := move_log s;
     white_king_location := white_king_location s;
     black_king_location := black_king_location s;
     enPassant_possible := enPassant_possible s;
     enPassant_possible_log := enPassant_possible_log s;
     current_castling_rights := current_castling_rights s;
     castle_rights_log := castle_rights_log s;
     pins := p; checks := checks s;
     promotion_piece := promotion_piece s;
     ai_promotion_piece := ai_promotion_piece s;
     player_promote := player_promote s;
     in_check := in_check s; checkmate := checkmate s;
     stalemate := stalemate s; hash_board := hash_board s |}.

(** [self.in_check, self.pins, self.checks = ...] *)
Definition set_check_info (ic : bool) (p c : list Ray) (s : GameState) : GameState :=
  {| board := board s; white_to_move := white_to_move s; move_log := move_log s;
     white_king_location := white_king_location s;
     black_king_location := black_king_location s;
     enPassant_possible := enPassant_possible s;
     enPassant_possible_log := enPassant_possible_log s;
     current_castling_rights := current_castling_rights s;
     castle_rights_log := castle_rights_log s;
     pins := p; checks := c;
     promotion_piece := promotion_piece s;
     ai_promotion_piece := ai_promotion_piece s;
     player_promote := player_promote s;
     in_check := ic; checkmate := checkmate s;
     stalemate := stalemate s; hash_board := hash_board s |}.

Definition set_player_promote (b : bool) (s : GameState) : GameState :=
  {| board := board s; white_to_move := white_to_move s; move_log := move_log s;
     white_king_location := white_king_location s;
     black_king_location := black_king_location s;
     enPassant_possible := enPassant_possible s;
     enPassant_possible_log := enPassant_possible_log s;
     current_castling_rights := current_castling_rights s;
     castle_rights_log := castle_rights_log s;
     pins := pins s; checks := checks s;
     promotion_piece := promotion_piece s;
     ai_promotion_piece := ai_promotion_piece s;
     player_promote := b;
     in_check := in_check s; checkmate := checkmate s;
     stalemate := stalemate s; hash_board := hash_board s |}.

Definition set_checkmate (b : bool) (s : GameState) : GameState :=
  {| board := board s; white_to_move := white_to_move s; move_log := move_log s;
     white_king_location := white_king_location s;
     black_king_location := black_king_location s;
     enPassant_possible := enPassant_possible s;
     enPassant_possible_log := enPassant_possible_log s;
     current_castling_rights := current_castling_rights s;
     castle_rights_log := castle_rights_log s;
     pins := pins s; checks := checks s;
     promotion_piece := promotion_piece s;
     ai_promotion_piece := ai_promotion_piece s;
     player_promote := player_promote s;
     in_check := in_check s; checkmate := b;
     stalemate := stalemate s; hash_board := hash_board s |}.

Definition set_stalemate (b : bool) (s : GameState) : GameState :=
  {| board := board s; white_to_move := white_to_move s; move_log := move_log s;
     white_king_location := white_king_location s;
     black_king_location := black_king_location s;
     enPassant_possible := enPassant_possible s;
     enPassant_possible_log := enPassant_possible_log s;
     current_castling_rights := current_castling_rights s;
     castle_rights_log := castle_rights_log s;
     pins := pins s; checks := checks s;
     promotion_piece := promotion_piece s;
     ai_promotion_piece := ai_promotion_piece s;
     player_promote := player_promote s;
     in_check := in_check s; checkmate := checkmate s;
     stalemate := b; hash_board := hash_board s |}.

Definition set_hash_board (b : Board) (s : GameState) : GameState :=
  {| board := board s; white_to_move := white_to_move s; move_log := move_log s;
     white_king_location := white_king_location s;
     black_king_location := black_king_location s;
     enPassant_possible := enPassant_possible s;
     enPassant_possible_log := enPassant_possible_log s;
     current_castling_rights := current_castling_rights s;
     castle_rights_log := castle_rights_log s;
     pins := pins s; checks := checks s;
     promotion_piece := promotion_piece s;
     ai_promotion_piece := ai_promotion_piece s;
     player_promote := player_promote s;
     in_check := in_check s; checkmate := checkmate s;
     stalemate := stalemate s; hash_board := b |}.

Definition GS (A : Type) : Type := Py.M GameState A.

(** [self.board[r][c]] *)
Definition board_at (r c : Z) : GS string :=
  fun s => match Py.index2 (board s) r c with
           | Some x => Some (x, s)
           | None => None
           end.

(** [self.board[r][c] = x] *)
Definition board_put (r c : Z) (x : string) : GS unit :=
  fun s => match Py.setitem2 (board s) r c x with
           | Some b => Some (tt, set_board b s)
           | None => None
           end.

(** [Move(start, end, self.board, ...)] *)
Definition new_move (start_sq end_sq : Z * Z) (ep promo castle : bool) : GS Move :=
  fun s => match Move_init start_sq end_sq (board s) ep promo castle with
           | Some m => Some (m, s)
           | None => None
           end.

(** [list.pop()]: the last element and what is left, [None] on an empty
    list. *)
Definition pop {A} (l : list A) : option (A * list A) :=
  match reverse l with
  | [] => None
  | x :: r => Some (x, reverse r)
  end.

(** [list.remove(x)] with the equality [eqb]: drops the first element equal
    to [x]; ValueError when there is none. *)
Fixpoint remove_first {A} (eqb : A -> A -> bool) (x : A) (l : list A)
  : option (list A) :=
  match l with
  | [] => None
  | y :: rest =>
      if eqb y x then Some rest
      else rest' ← remove_first eqb x rest; Some (y :: rest')
  end.

Definition sq_eqb (a b : Z * Z) : bool :=
  (fst a =? fst b) && (snd a =? snd b).

Definition ray_eqb (a b : Ray) : bool :=
  let '(a1, a2, a3, a4) := a in
  let '(b1, b2, b3, b4) := b in
  (a1 =? b1) && (a2 =? b2) && (a3 =? b3) && (a4 =? b4).

(** [pin_direction == (d0, d1)], where [pin_direction] is [()] ([None]
    here) or a pair. *)
Definition dir_is (pin_direction : option (Z * Z)) (d : Z * Z) : bool :=
  match pin_direction with
  | Some p => sq_eqb p d
  | None => false
  end.

(** [(r, c) == self.enPassant_possible] *)
Definition ep_is (ep : option PyTuple) (r c : Z) : bool :=
  match ep with
  | Some [a; b] => (r =? a) && (c =? b)
  | _ => false
  end.

Definition in_board (r c : Z) : bool :=
  (0 <=? r) && (r <? 8) && (0 <=? c) && (c <? 8).

(** [GameState.handle_king_move] *)
Definition handle_king_move (move : Move) : GS unit :=
  if String.eqb (piece_moved move) "wK"
  then Py.modify (set_white_king_location (end_row move, end_col move))
  else if String.eqb (piece_moved move) "bK"
  then Py.modify (set_black_king_location (end_row move, end_col move))
  else Py.ret tt.

(** [GameState.handle_en_passant] *)
Definition handle_en_passant (move : Move) : GS unit :=
  k <- Py.lift (Py.chr (piece_moved move) 1) ;;
  (if Ascii.eqb k "p" && (Z.abs (start_row move - end_row move) =? 2)
   then Py.modify (set_enPassant_possible
                     (Some [(end_row move + start_row move) `div` 2; end_col move]))
   else Py.modify (set_enPassant_possible (Some []))) ;;;
  if enPassant move then
    c0 <- Py.lift (Py.chr (piece_moved move) 0) ;;
    let captured_pawn_row :=
      if Ascii.eqb c0 "w" then end_row move + 1 else end_row move - 1 in
    board_put captured_pawn_row (end_col move) "--"
  else Py.ret tt.

(** The move object handed to [make_move] is also the last element of
    [move_log]: a write to it is seen there. *)
Definition update_logged_move (move : Move) : GS unit :=
  Py.modify (fun s =>
    match pop (move_log s) with
    | Some (_, rest) => set_move_log (rest ++ [move]) s
    | None => s
    end).

(** [GameState.handle_pawn_promotion]; returns the move object as it is
    after the call. *)
Definition handle_pawn_promotion (move : Move) : GS Move :=
  if pawn_promotion move then
    s <- Py.get ;;
    let promoted_piece :=
      if player_promote s then promotion_piece s else ai_promotion_piece s in
    let move' := set_promotion_piece move promoted_piece in
    update_logged_move move' ;;;
    c0 <- Py.lift (Py.chr (piece_moved move) 0) ;;
    board_put (end_row move) (end_col move) (String c0 promoted_piece) ;;;
    Py.modify (set_player_promote false) ;;;
    Py.ret move'
  else Py.ret move.

(** [GameState.handle_castling] *)
Definition handle_castling (move : Move) : GS unit :=
  if is_castle_move move then
    if end_col move - start_col move =? 2 then
      rook <- board_at (end_row move) (end_col move + 1) ;;
      board_put (end_row move) (end_col move - 1) rook ;;;
      board_put (end_row move) (end_col move + 1) "--"
    else
      rook <- board_at (end_row move) (end_col move - 2) ;;
      board_put (end_row move) (end_col move + 1) rook ;;;
      board_put (end_row move) (end_col move - 2) "--"
  else Py.ret tt.

(** [GameState.update_castle_rights], as a function of the rights object
    it updates in place. *)
Definition update_castle_rights (move : Move) (cr : CastleRights) : CastleRights :=
  let pm := piece_moved move in
  let cr1 :=
    if String.eqb pm "wK" then mkCastleRights false (bks cr) false (bqs cr)
    else if String.eqb pm "bK" then mkCastleRights (wks cr) false (wqs cr) false
    else if String.eqb pm "wR" then
      if start_row move =? 7 then
        if start_col move =? 0 then mkCastleRights (wks cr) (bks cr) false (bqs cr)
        else if start_col move =? 7 then mkCastleRights false (bks cr) (wqs cr) (bqs cr)
        else cr
      else cr
    else if String.eqb pm "bR" then
      if start_row move =? 0 then
        if start_col move =? 0 then mkCastleRights (wks cr) (bks cr) (wqs cr) false
        else if start_col move =? 7 then mkCastleRights (wks cr) false (wqs cr) (bqs cr)
        else cr
      else cr
    else cr in
  let pc := piece_captured move in
  if String.eqb pc "wR" then
    if (end_col move =? 0) && (end_row move =? 7)
    then mkCastleRights (wks cr1) (bks cr1) false (bqs cr1)
    else if (end_col move =? 7) && (end_row move =? 7)
    then mkCastleRights false (bks cr1) (wqs cr1) (bqs cr1)
    else cr1
  else if String.eqb pc "bR" then
    if (end_col move =? 0) && (end_row move =? 0)
    then mkCastleRights (wks cr1) (bks cr1) (wqs cr1) false
    else if (end_col move =? 7) && (end_row move =? 0)
    then mkCastleRights (wks cr1) false (wqs cr1) (bqs cr1)
    else cr1
  else cr1.

(** [GameState.make_move] *)
Definition make_move (move : Move) : GS unit :=
  s0 <- Py.get ;;
  let move := set_castle_rights_before move (current_castling_rights s0) in
  let move := set_en_passant_before move (enPassant_possible s0) in
  board_put (end_row move) (end_col move) (piece_moved move) ;;;
  board_put (start_row move) (start_col move) "--" ;;;
  Py.modify (fun s => set_move_log (move_log s ++ [move]) s) ;;;
  Py.modify (fun s => set_white_to_move (negb (white_to_move s)) s) ;;;
  handle_king_move move ;;;
  handle_en_passant move ;;;
  move <- handle_pawn_promotion move ;;
  handle_castling move ;;;
  Py.modify (fun s => set_current_castling_rights
                        (update_castle_rights move (current_castling_rights s)) s) ;;;
  Py.modify (fun s => set_castle_rights_log
                        (castle_rights_log s ++ [current_castling_rights s]) s) ;;;
  Py.modify (fun s => set_enPassant_possible_log
                        (enPassant_possible_log s ++ [enPassant_possible s]) s) ;;;
  Py.modify (fun s => set_hash_board (board s) s).

(** [GameState.undo_king_move] *)
Definition undo_king_move (move : Move) : GS unit :=
  if String.eqb (piece_moved move) "wK"
  then Py.modify (set_white_king_location (start_row move, start_col move))
  else if String.eqb (piece_moved move) "bK"
  then Py.modify (set_black_king_location (start_row move, start_col move))
  else Py.ret tt.

(** [GameState.undo_en_passant] *)
Definition undo_en_passant (move : Move) : GS unit :=
  if enPassant move then
    c0 <- Py.lift (Py.chr (piece_moved move) 0) ;;
    if Ascii.eqb c0 "w"
    then board_put (end_row move + 1) (end_col move) "bp"
    else board_put (end_row move - 1) (end_col move) "wp"
  else Py.ret tt.

(** [GameState.undo_castling] *)
Definition undo_castling (move : Move) : GS unit :=
  if is_castle_move move then
    if end_col move - start_col move =? 2 then
      rook <- board_at (end_row move) (end_col move - 1) ;;
      board_put (end_row move) (end_col move + 1) rook ;;;
      board_put (end_row move) (end_col move - 1) "--"
    else
      rook <- board_at (end_row move) (end_col move + 1) ;;
      board_put (end_row move) (end_col move - 2) rook ;;;
      board_put (end_row move) (end_col move + 1) "--"
  else Py.ret tt.

(** [GameState.undo_move].  [hasattr(move, 'en_passant_before')] is true
    of every [Move] ([__init__] sets the attribute), so only that branch
    of the source is modelled. *)
Definition undo_move : GS bool :=
  s0 <- Py.get ;;
  match pop (move_log s0) with
  | None => Py.ret false
  | Some (move, rest) =>
      Py.modify (set_move_log rest) ;;;
      board_put (start_row move) (start_col move) (piece_moved move) ;;;
      (if pawn_promotion move
       then board_put (end_row move) (end_col move) (piece_captured move)
       else board_put (end_row move) (end_col move) (piece_captured move)) ;;;
      Py.modify (fun s => set_white_to_move (negb (white_to_move s)) s) ;;;
      undo_king_move move ;;;
      undo_en_passant move ;;;
      undo_castling move ;;;
      (match castle_rights_before move with
       | Some cr => Py.modify (set_current_castling_rights cr)
       | None =>
           s <- Py.get ;;
           if 1 <? Z.of_nat (length (castle_rights_log s)) then
             match pop (castle_rights_log s) with
             | Some (_, l) =>
                 match last l with
                 | Some cr =>
                     Py.modify (fun s => set_current_castling_rights cr
                                           (set_castle_rights_log l s))
                 | None => Py.raise
                 end
             | None => Py.raise
             end
           else Py.ret tt
       end) ;;;
      Py.modify (set_enPassant_possible (en_passant_before move)) ;;;
      Py.modify (set_checkmate false) ;;;
      Py.modify (set_stalemate false) ;;;
      Py.modify (fun s => set_hash_board (board s) s) ;;;
      Py.ret true
  end.

(** *** Pins and checks *)

Definition directions : list (Z * Z) :=
  [(-1, 0); (0, -1); (1, 0); (0, 1); (-1, -1); (-1, 1); (1, -1); (1, 1)].

Definition knight_moves : list (Z * Z) :=
  [(-2, -1); (-2, 1); (-1, -2); (-1, 2); (1, -2); (1, 2); (2, -1); (2, 1)].

(** What [check_for_pins_and_checks] accumulates: [(in_check, pins, checks)]. *)
Definition CheckInfo : Type := (bool * list Ray * list Ray)%type.

(** "Can this piece attack in this direction": the condition on the enemy
    piece met at distance [i] along direction number [j]. *)
Definition attacks_along (enemy_color : ascii) (j i : Z) (piece_type : ascii) : bool :=
  ((0 <=? j) && (j <=? 3) && Ascii.eqb piece_type "R") ||
  ((4 <=? j) && (j <=? 7) && Ascii.eqb piece_type "B") ||
  ((i =? 1) && Ascii.eqb piece_type "p" &&
   ((Ascii.eqb enemy_color "w" && (6 <=? j) && (j <=? 7)) ||
    (Ascii.eqb enemy_color "b" && (4 <=? j) && (j <=? 5)))) ||
  Ascii.eqb piece_type "Q" ||
  ((i =? 1) && Ascii.eqb piece_type "K").

(** The loop [for i in range(1, 8)] along direction number [j]. *)
Fixpoint ray_scan (b : Board) (enemy_color ally_color : ascii)
    (start_row start_col j d0 d1 : Z) (steps : list Z)
    (possible_pin : option Ray) (acc : CheckInfo) : option CheckInfo :=
  match steps with
  | [] => Some acc
  | i :: rest =>
      let end_row := start_row + d0 * i in
      let end_col := start_col + d1 * i in
      if in_board end_row end_col then
        end_piece ← Py.index2 b end_row end_col;
        c0 ← Py.chr end_piece 0;
        ally ← (if Ascii.eqb c0 ally_color
                then k ← Py.chr end_piece 1; Some (negb (Ascii.eqb k "K"))
                else Some false);
        if (ally : bool) then
          match possible_pin with
          | None =>
              ray_scan b enemy_color ally_color start_row start_col j d0 d1 rest
                (Some (end_row, end_col, d0, d1)) acc
          | Some _ => Some acc
          end
        else if Ascii.eqb c0 enemy_color then
          piece_type ← Py.chr end_piece 1;
          if attacks_along enemy_color j i piece_type then
            let '(ic, ps, cs) := acc in
            match possible_pin with
            | None => Some (true, ps, cs ++ [(end_row, end_col, d0, d1)])
            | Some p => Some (ic, ps ++ [p], cs)
            end
          else Some acc
        else
          ray_scan b enemy_color ally_color start_row start_col j d0 d1 rest
            possible_pin acc
      else Some acc
  end.

(** The loop [for j in range(len(directions))]. *)
Fixpoint rays_scan (b : Board) (enemy_color ally_color : ascii)
    (start_row start_col : Z) (j : Z) (dirs : list (Z * Z)) (acc : CheckInfo)
  : option CheckInfo :=
  match dirs with
  | [] => Some acc
  | (d0, d1) :: rest =>
      acc' ← ray_scan b enemy_color ally_color start_row start_col j d0 d1
               (Py.range 1 8) None acc;
      rays_scan b enemy_color ally_color start_row start_col (j + 1) rest acc'
  end.

(** The loop [for move in knight_moves]. *)
Fixpoint knight_scan (b : Board) (enemy_color : ascii) (start_row start_col : Z)
    (offs : list (Z * Z)) (acc : CheckInfo) : option CheckInfo :=
  match offs with
  | [] => Some acc
  | (m0, m1) :: rest =>
      let end_row := start_row + m0 in
      let end_col := start_col + m1 in
      if in_board end_row end_col then
        end_piece ← Py.index2 b end_row end_col;
        c0 ← Py.chr end_piece 0;
        hit ← (if Ascii.eqb c0 enemy_color
               then k ← Py.chr end_piece 1; Some (Ascii.eqb k "N")
               else Some false);
        if (hit : bool) then
          let '(ic, ps, cs) := acc in
          knight_scan b enemy_color start_row start_col rest
            (true, ps, cs ++ [(end_row, end_col, m0, m1)])
        else knight_scan b enemy_color start_row start_col rest acc
      else knight_scan b enemy_color start_row start_col rest acc
  end.

(** [GameState.check_for_pins_and_checks]: reads [self], writes nothing. *)
Definition check_for_pins_and_checks (s : GameState) : option CheckInfo :=
  let '(enemy_color, ally_color, (start_row, start_col)) :=
    if white_to_move s
    then ("b"%char, "w"%char, white_king_location s)
    else ("w"%char, "b"%char, black_king_location s) in
  acc ← rays_scan (board s) enemy_color ally_color start_row start_col 0
          directions (false, [], []);
  knight_scan (board s) enemy_color start_row start_col knight_moves acc.

Definition check_for_pins_and_checks_m : GS CheckInfo :=
  fun s => match check_for_pins_and_checks s with
           | Some r => Some (r, s)
           | None => None
           end.

(** *** Move generation *)

(** The loop [for i in range(len(self.pins) - 1, -1, -1)] that looks for
    the pin entry of square [(r, c)]: the entry found is the last one of
    the list that matches. *)
Fixpoint find_pin (ps : list Ray) (r c : Z) : option Ray :=
  match ps with
  | [] => None
  | p :: rest =>
      match find_pin rest r c with
      | Some q => Some q
      | None =>
          let '(p0, p1, _, _) := p in
          if (p0 =? r) && (p1 =? c) then Some p else None
      end
  end.

Definition pin_dir (p : Ray) : Z * Z := let '(_, _, d0, d1) := p in (d0, d1).

(** [self.pins.remove(self.pins[i])] *)
Definition remove_pin (p : Ray) : GS unit :=
  s <- Py.get ;;
  ps <- Py.lift (remove_first ray_eqb p (pins s)) ;;
  Py.put (set_pins ps s).

(** One of the two capture blocks of [get_pawn_move], towards column
    [c + dc]; [st] is [(moves, pawn_promotion)]. *)
Definition pawn_captures (r c move_amount back_row : Z) (enemy_color : ascii)
    (piece_pinned : bool) (pin_direction : option (Z * Z)) (dc : Z)
    (st : list Move * bool) : GS (list Move * bool) :=
  if negb piece_pinned || dir_is pin_direction (move_amount, dc) then
    t <- board_at (r + move_amount) (c + dc) ;;
    t0 <- Py.lift (Py.chr t 0) ;;
    st1 <- (if Ascii.eqb t0 enemy_color then
              let pp := if r + move_amount =? back_row then true else snd st in
              m <- new_move (r, c) (r + move_amount, c + dc) false pp false ;;
              Py.ret (fst st ++ [m], pp)
            else Py.ret st) ;;
    s <- Py.get ;;
    if ep_is (enPassant_possible s) (r + move_amount) (c + dc) then
      m <- new_move (r, c) (r + move_amount, c + dc) true false false ;;
      Py.ret (fst st1 ++ [m], snd st1)
    else Py.ret st1
  else Py.ret st.

(** [GameState.get_pawn_move]; the list [moves] is extended in place, the
    extended list is returned. *)
Definition get_pawn_move (r c : Z) (moves : list Move) : GS (list Move) :=
  s <- Py.get ;;
  let found := find_pin (pins s) r c in
  let piece_pinned := match found with Some _ => true | None => false end in
  let pin_direction := pin_dir <$> found in
  (match found with Some p => remove_pin p | None => Py.ret tt end) ;;;
  let '(move_amount, start_row, back_row, enemy_color) :=
    if white_to_move s then (-1, 6, 0, "b"%char) else (1, 1, 7, "w"%char) in
  let pawn_promotion := false in
  f <- board_at (r + move_amount) c ;;
  st <- (if String.eqb f "--" then
           if negb piece_pinned || dir_is pin_direction (move_amount, 0) then
             let pp := if r + move_amount =? back_row then true else pawn_promotion in
             m <- new_move (r, c) (r + move_amount, c) false pp false ;;
             if r =? start_row then
               f2 <- board_at (r + 2 * move_amount) c ;;
               if String.eqb f2 "--" then
                 m2 <- new_move (r, c) (r + 2 * move_amount, c) false false false ;;
                 Py.ret (moves ++ [m] ++ [m2], pp)
               else Py.ret (moves ++ [m], pp)
             else Py.ret (moves ++ [m], pp)
           else Py.ret (moves, pawn_promotion)
         else Py.ret (moves, pawn_promotion)) ;;
  st <- (if 0 <=? c - 1
         then pawn_captures r c move_amount back_row enemy_color
                piece_pinned pin_direction (-1) st
         else Py.ret st) ;;
  st <- (if c + 1 <=? 7
         then pawn_captures r c move_amount back_row enemy_color
                piece_pinned pin_direction 1 st
         else Py.ret st) ;;
  Py.ret (fst st).

(** The loop [for i in range(1, 8)] of [get_sliding_moves] along one
    direction. *)
Fixpoint slide_ray (r c : Z) (enemy_color : ascii) (piece_pinned : bool)
    (pin_direction : option (Z * Z)) (d0 d1 : Z) (steps : list Z)
    (moves : list Move) : GS (list Move) :=
  match steps with
  | [] => Py.ret moves
  | i :: rest =>
      let end_row := r + d0 * i in
      let end_col := c + d1 * i in
      if in_board end_row end_col then
        if negb piece_pinned || dir_is pin_direction (d0, d1)
           || dir_is pin_direction (- d0, - d1) then
          end_piece <- board_at end_row end_col ;;
          if String.eqb end_piece "--" then
            m <- new_move (r, c) (end_row, end_col) false false false ;;
            slide_ray r c enemy_color piece_pinned pin_direction d0 d1 rest
              (moves ++ [m])
          else
            e0 <- Py.lift (Py.chr end_piece 0) ;;
            if Ascii.eqb e0 enemy_color then
              m <- new_move (r, c) (end_row, end_col) false false false ;;
              Py.ret (moves ++ [m])
            else Py.ret moves
        else
          slide_ray r c enemy_color piece_pinned pin_direction d0 d1 rest moves
      else Py.ret moves
  end.

(** The loop [for direction in directions]. *)
Fixpoint slide_dirs (r c : Z) (enemy_color : ascii) (piece_pinned : bool)
    (pin_direction : option (Z * Z)) (dirs : list (Z * Z))
    (moves : list Move) : GS (list Move) :=
  match dirs with
  | [] => Py.ret moves
  | (d0, d1) :: rest =>
      moves' <- slide_ray r c enemy_color piece_pinned pin_direction d0 d1
                  (Py.range 1 8) moves ;;
      slide_dirs r c enemy_color piece_pinned pin_direction rest moves'
  end.

(** [GameState.get_sliding_moves] *)
Definition get_sliding_moves (r c : Z) (moves : list Move) (dirs : list (Z * Z))
  : GS (list Move) :=
  s <- Py.get ;;
  let found := find_pin (pins s) r c in
  let piece_pinned := match found with Some _ => true | None => false end in
  let pin_direction := pin_dir <$> found in
  (match found with
   | Some p =>
       pc <- board_at r c ;;
       k <- Py.lift (Py.chr pc 1) ;;
       if negb (Ascii.eqb k "Q") then remove_pin p else Py.ret tt
   | None => Py.ret tt
   end) ;;;
  let enemy_color : ascii := if white_to_move s then "b"%char else "w"%char in
  slide_dirs r c enemy_color piece_pinned pin_direction dirs moves.

(** [GameState.get_rook_move] *)
Definition get_rook_move (r c : Z) (moves : list Move) : GS (list Move) :=
  get_sliding_moves r c moves [(-1, 0); (0, -1); (1, 0); (0, 1)].

(** [GameState.get_bishop_move] *)
Definition get_bishop_move (r c : Z) (moves : list Move) : GS (list Move) :=
  get_sliding_moves r c moves [(-1, -1); (-1, 1); (1, -1); (1, 1)].

(** [GameState.get_queen_move] *)
Definition get_queen_move (r c : Z) (moves : list Move) : GS (list Move) :=
  get_sliding_moves r c moves directions.

(** The loop [for move in knight_moves] of [get_knight_move]. *)
Fixpoint knight_loop (r c : Z) (ally_color : ascii) (piece_pinned : bool)
    (offs : list (Z * Z)) (moves : list Move) : GS (list Move) :=
  match offs with
  | [] => Py.ret moves
  | (m0, m1) :: rest =>
      let end_row := r + m0 in
      let end_col := c + m1 in
      if in_board end_row end_col then
        if negb piece_pinned then
          end_piece <- board_at end_row end_col ;;
          e0 <- Py.lift (Py.chr end_piece 0) ;;
          if negb (Ascii.eqb e0 ally_color) then
            m <- new_move (r, c) (end_row, end_col) false false false ;;
            knight_loop r c ally_color piece_pinned rest (moves ++ [m])
          else knight_loop r c ally_color piece_pinned rest moves
        else knight_loop r c ally_color piece_pinned rest moves
      else knight_loop r c ally_color piece_pinned rest moves
  end.

(** [GameState.get_knight_move] *)
Definition get_knight_move (r c : Z) (moves : list Move) : GS (list Move) :=
  s <- Py.get ;;
  let found := find_pin (pins s) r c in
  let piece_pinned := match found with Some _ => true | None => false end in
  (match found with Some p => remove_pin p | None => Py.ret tt end) ;;;
  let ally_color : ascii := if white_to_move s then "w"%char else "b"%char in
  knight_loop r c ally_color piece_pinned knight_moves moves.

(** [self.white_king_location = sq] or [self.black_king_location = sq],
    according to [ally_color]. *)
Definition set_king_location (ally_color : ascii) (sq : Z * Z) : GS unit :=
  if Ascii.eqb ally_color "w"
  then Py.modify (set_white_king_location sq)
  else Py.modify (set_black_king_location sq).

Definition king_steps : list (Z * Z) :=
  [(-1, -1); (-1, 0); (-1, 1); (0, -1); (0, 1); (1, -1); (1, 0); (1, 1)].

(** The loop [for i in range(8)] of [get_king_move]; [king_steps] pairs
    [row_moves[i]] with [col_moves[i]]. *)
Fixpoint king_loop (r c : Z) (ally_color : ascii) (offs : list (Z * Z))
    (moves : list Move) : GS (list Move) :=
  match offs with
  | [] => Py.ret moves
  | (m0, m1) :: rest =>
      let end_row := r + m0 in
      let end_col := c + m1 in
      if in_board end_row end_col then
        end_piece <- board_at end_row end_col ;;
        e0 <- Py.lift (Py.chr end_piece 0) ;;
        if negb (Ascii.eqb e0 ally_color) then
          set_king_location ally_color (end_row, end_col) ;;;
          info <- check_for_pins_and_checks_m ;;
          let '(in_check, _, _) := info in
          moves' <- (if negb in_check then
                       m <- new_move (r, c) (end_row, end_col) false false false ;;
                       Py.ret (moves ++ [m])
                     else Py.ret moves) ;;
          set_king_location ally_color (r, c) ;;;
          king_loop r c ally_color rest moves'
        else king_loop r c ally_color rest moves
      else king_loop r c ally_color rest moves
  end.

(** [GameState.get_king_move] *)
Definition get_king_move (r c : Z) (moves : list Move) : GS (list Move) :=
  s <- Py.get ;;
  let ally_color : ascii := if white_to_move s then "w"%char else "b"%char in
  king_loop r c ally_color king_steps moves.

(** [self.move_functions[piece](row, col, moves)], after
    [if piece in self.move_functions]. *)
Definition dispatch (kind : ascii) (r c : Z) (moves : list Move) : GS (list Move) :=
  if Ascii.eqb kind "p" then get_pawn_move r c moves
  else if Ascii.eqb kind "R" then get_rook_move r c moves
  else if Ascii.eqb kind "N" then get_knight_move r c moves
  else if Ascii.eqb kind "B" then get_bishop_move r c moves
  else if Ascii.eqb kind "Q" then get_queen_move r c moves
  else if Ascii.eqb kind "K" then get_king_move r c moves
  else Py.ret moves.

(** [for row in range(8): for col in range(8)] *)
Definition squares : list (Z * Z) :=
  r ← Py.range 0 8; c ← Py.range 0 8; [(r, c)].

(** The double loop of [get_all_possible_moves]. *)
Fixpoint all_moves_loop (sqs : list (Z * Z)) (moves : list Move) : GS (list Move) :=
  match sqs with
  | [] => Py.ret moves
  | (row, col) :: rest =>
      pc <- board_at row col ;;
      turn <- Py.lift (Py.chr pc 0) ;;
      s <- Py.get ;;
      if (Ascii.eqb turn "w" && white_to_move s) ||
         (Ascii.eqb turn "b" && negb (white_to_move s)) then
        kind <- Py.lift (Py.chr pc 1) ;;
        moves' <- dispatch kind row col moves ;;
        all_moves_loop rest moves'
      else all_moves_loop rest moves
  end.

(** [GameState.get_all_possible_moves] *)
Definition get_all_possible_moves : GS (list Move) :=
  all_moves_loop squares [].

(** [GameState.square_under_attack] *)
Definition square_under_attack (row col : Z) : GS bool :=
  Py.modify (fun s => set_white_to_move (negb (white_to_move s)) s) ;;;
  opponent_moves <- get_all_possible_moves ;;
  Py.modify (fun s => set_white_to_move (negb (white_to_move s)) s) ;;;
  Py.ret (existsb (fun m => (end_row m =? row) && (end_col m =? col)) opponent_moves).

(** [GameState.get_kingside_castle_moves] *)
Definition get_kingside_castle_moves (row col : Z) (moves : list Move)
  : GS (list Move) :=
  a <- board_at row (col + 1) ;;
  free <- (if String.eqb a "--"
           then b <- board_at row (col + 2) ;; Py.ret (String.eqb b "--")
           else Py.ret false) ;;
  if (free : bool) then
    u1 <- square_under_attack row (col + 1) ;;
    safe <- (if negb u1
             then u2 <- square_under_attack row (col + 2) ;; Py.ret (negb u2)
             else Py.ret false) ;;
    if (safe : bool) then
      m <- new_move (row, col) (row, col + 2) false false true ;;
      Py.ret (moves ++ [m])
    else Py.ret moves
  else Py.ret moves.

(** [GameState.get_queenside_castle_moves] *)
Definition get_queenside_castle_moves (row col : Z) (moves : list Move)
  : GS (list Move) :=
  a <- board_at row (col - 1) ;;
  free <- (if String.eqb a "--" then
             b <- board_at row (col - 2) ;;
             if String.eqb b "--"
             then d <- board_at row (col - 3) ;; Py.ret (String.eqb d "--")
             else Py.ret false
           else Py.ret false) ;;
  if (free : bool) then
    u1 <- square_under_attack row (col - 1) ;;
    safe <- (if negb u1
             then u2 <- square_under_attack row (col - 2) ;; Py.ret (negb u2)
             else Py.ret false) ;;
    if (safe : bool) then
      m <- new_move (row, col) (row, col - 2) false false true ;;
      Py.ret (moves ++ [m])
    else Py.ret moves
  else Py.ret moves.

(** [GameState.get_castle_moves] *)
Definition get_castle_moves (row col : Z) (moves : list Move) : GS (list Move) :=
  u <- square_under_attack row col ;;
  if (u : bool) then Py.ret moves
  else
    s <- Py.get ;;
    moves1 <- (if (white_to_move s && wks (current_castling_rights s)) ||
                  (negb (white_to_move s) && bks (current_castling_rights s))
               then get_kingside_castle_moves row col moves
               else Py.ret moves) ;;
    s <- Py.get ;;
    if (white_to_move s && wqs (current_castling_rights s)) ||
       (negb (white_to_move s) && bqs (current_castling_rights s))
    then get_queenside_castle_moves row col moves1
    else Py.ret moves1.

(** The loop building [valid_squares] when the checking piece is not a
    knight. *)
Fixpoint block_squares (king_row king_col check_row check_col c2 c3 : Z)
    (steps : list Z) : list (Z * Z) :=
  match steps with
  | [] => []
  | i :: rest =>
      let valid_square := (king_row + c2 * i, king_col + c3 * i) in
      if (fst valid_square =? check_row) && (snd valid_square =? check_col)
      then [valid_square]
      else valid_square ::
             block_squares king_row king_col check_row check_col c2 c3 rest
  end.

(** The loop [for i in range(len(moves) - 1, -1, -1)] that removes the
    moves which do not address the check; [moves.remove] drops the first
    element equal (by [Move.__eq__]) to [moves[i]]. *)
Fixpoint drop_unhelpful (idxs : list Z) (valid_squares : list (Z * Z))
    (moves : list Move) : option (list Move) :=
  match idxs with
  | [] => Some moves
  | i :: rest =>
      m ← Py.index moves i;
      k ← Py.chr (piece_moved m) 1;
      if negb (Ascii.eqb k "K") then
        if negb (existsb (sq_eqb (end_row m, end_col m)) valid_squares) then
          moves' ← remove_first Move_eqb m moves;
          drop_unhelpful rest valid_squares moves'
        else drop_unhelpful rest valid_squares moves
      else drop_unhelpful rest valid_squares moves
  end.

(** [range(n - 1, -1, -1)] *)
Definition range_down (n : Z) : list Z := reverse (Py.range 0 n).

(** [GameState.get_valid_moves] *)
Definition get_valid_moves : GS (list Move) :=
  info <- check_for_pins_and_checks_m ;;
  let '(ic, ps, cs) := info in
  Py.modify (set_check_info ic ps cs) ;;;
  s <- Py.get ;;
  let '(king_row, king_col) :=
    if white_to_move s then white_king_location s else black_king_location s in
  moves <-
    (if in_check s then
       if Z.of_nat (length (checks s)) =? 1 then
         moves <- get_all_possible_moves ;;
         s1 <- Py.get ;;
         check <- Py.lift (Py.index (checks s1) 0) ;;
         let '(check_row, check_col, c2, c3) := check in
         piece_checking <- board_at check_row check_col ;;
         k <- Py.lift (Py.chr piece_checking 1) ;;
         let valid_squares :=
           if Ascii.eqb k "N" then [(check_row, check_col)]
           else block_squares king_row king_col check_row check_col c2 c3
                  (Py.range 1 8) in
         Py.lift (drop_unhelpful (range_down (Z.of_nat (length moves)))
                    valid_squares moves)
       else get_king_move king_row king_col []
     else get_all_possible_moves) ;;
  s2 <- Py.get ;;
  moves <- (if negb (in_check s2)
            then get_castle_moves king_row king_col moves
            else Py.ret moves) ;;
  (if Z.of_nat (length moves) =? 0 then
     s3 <- Py.get ;;
     if in_check s3 then Py.modify (set_checkmate true)
     else Py.modify (set_stalemate true)
   else
     Py.modify (set_checkmate false) ;;;
     Py.modify (set_stalemate false)) ;;;
  Py.ret moves.

(** *** Games *)

(** The states of a game: the initial one, and what [get_valid_moves],
    [make_move] on a move of the list of valid moves, and [undo_move] make
    of them. *)
Inductive reachable : GameState -> Prop :=
| reach_init : reachable GameState_init
| reach_valid_moves s ms s' :
    reachable s -> get_valid_moves s = Some (ms, s') -> reachable s'
| reach_make_move s ms s' m s'' :
    reachable s -> get_valid_moves s = Some (ms, s') -> m ∈ ms ->
    make_move m s' = Some (tt, s'') -> reachable s''
| reach_undo_move s s' :
    reachable s -> undo_move s = Some (true, s') -> reachable s'.

(** A move of a game given by its squares: the first valid move of the
    list from and to these squares. *)
Definition pick (c : Z * Z * Z * Z) (ms : list Move) : option Move :=
  let '(sr, sc, er, ec) := c in
  find (fun m => (start_row m =? sr) && (start_col m =? sc) &&
                 (end_row m =? er) && (end_col m =? ec)) ms.

(** Playing one move: the valid moves are computed, the move is picked
    among them and made. *)
Definition play1 (c : Z * Z * Z * Z) (s : GameState) : option GameState :=
  match get_valid_moves s with
  | Some (ms, s1) =>
      match pick c ms with
      | Some m =>
          match make_move m s1 with
          | Some (_, s2) => Some s2
          | None => None
          end
      | None => None
      end
  | None => None
  end.

Fixpoint play (cs : list (Z * Z * Z * Z)) (s : GameState) : option GameState :=
  match cs with
  | [] => Some s
  | c :: rest =>
      match play1 c s with
      | Some s' => play rest s'
      | None => None
      end
  end.

(** Is the king of the side that has just moved attacked?  The side to
    move is switched back and the position is scanned from that king. *)
Definition mover_in_check (s : GameState) : option bool :=
  match check_for_pins_and_checks
          (set_white_to_move (negb (white_to_move s)) s) with
  | Some (ic, _, _) => Some ic
  | None => None
  end.

(** 1. h4 g5 2. hxg5 h5 3. Nf3 h4 4. e3 h3 5. Be2 h2 *)
Definition game_pawn_on_h2 : list (Z * Z * Z * Z) :=
  [(6,7,4,7); (1,6,3,6); (4,7,3,6); (1,7,3,7); (7,6,5,5);
   (3,7,4,7); (6,4,5,4); (4,7,5,7); (7,5,6,4); (5,7,6,7)].

(** 1. a4 f5 2. Ra3 f4 3. Rd3 Kf7 4. Rd4 Kg6 5. b3 Kh5 6. c3 Kh4 7. g4 *)
Definition game_rook_on_fourth_rank : list (Z * Z * Z * Z) :=
  [(6,0,4,0); (1,5,3,5); (7,0,5,0); (3,5,4,5); (5,0,5,3); (0,4,1,5);
   (5,3,4,3); (1,5,2,6); (6,1,5,1); (2,6,3,7); (6,2,5,2); (3,7,4,7);
   (6,6,4,6)].

(** 1. e4 d5 2. e5 f5 *)
Definition game_en_passant : list (Z * Z * Z * Z) :=
  [(6,4,4,4); (1,3,3,3); (4,4,3,4); (1,5,3,5)].

(** The part of a state the make/unmake identity speaks of. *)
Definition position (s : GameState)
  : Board * bool * CastleRights * option PyTuple * (Z * Z) * (Z * Z) :=
  (board s, white_to_move s, current_castling_rights s, enPassant_possible s,
   white_king_location s, black_king_location s).

(** *** The end-of-game flags *)

(** What [get_valid_moves] reports about the end of the game. *)
Definition flags (s : GameState) : bool * bool * bool :=
  (in_check s, checkmate s, stalemate s).

(** A computation that leaves these three fields as they are. *)
Definition keeps_flags {A} (m : GS A) : Prop :=
  forall s a s', m s = Some (a, s') -> flags s' = flags s.

(** The positions of a game and of its analysis: the initial one, those
    after a move taken from the list [get_valid_moves] returned, and those
    after [undo_move]. *)
Inductive played : GameState -> Prop :=
| played_init : played GameState_init
| played_make_move s ms s' m s'' :
    get_valid_moves s = Some (ms, s') -> m ∈ ms ->
    make_move m s' = Some (tt, s'') -> played s''
| played_undo_move s s' :
    undo_move s = Some (true, s') -> played s'.

(** Black to move, stalemated: 7k/5Q2/6K1/8/8/8/8/8. *)
Definition stalemate_board : Board :=
  [ ["--";"--";"--";"--";"--";"--";"--";"bK"];
    ["--";"--";"--";"--";"--";"wQ";"--";"--"];
    ["--";"--";"--";"--";"--";"--";"wK";"--"];
    ["--";"--";"--";"--";"--";"--";"--";"--"];
    ["--";"--";"--";"--";"--";"--";"--";"--"];
    ["--";"--";"--";"--";"--";"--";"--";"--"];
    ["--";"--";"--";"--";"--";"--";"--";"--"];
    ["--";"--";"--";"--";"--";"--";"--";"--"] ].

Definition stalemate_state : GameState :=
  set_white_to_move false
    (set_current_castling_rights (mkCastleRights false false false false)
       (set_white_king_location (2, 6)
          (set_black_king_location (0, 7)
             (set_board stalemate_board GameState_init)))).

(** *** The notation of a move (move.py) *)

(** A dict built from its items in order: a later item replaces an earlier
    one with the same key. *)
Definition dict_of `{Countable K} {V} (items : list (K * V)) : gmap K V :=
  foldl (fun d kv => <[kv.1 := kv.2]> d) ∅ items.

(** [Move.ranks_to_rows] and [Move.files_to_cols], as the items of the
    dict literals. *)
Definition ranks_to_rows_items : list (string * Z) :=
  [("1", 7); ("2", 6); ("3", 5); ("4", 4); ("5", 3); ("6", 2); ("7", 1); ("8", 0)].

Definition files_to_cols_items : list (string * Z) :=
  [("a", 0); ("b", 1); ("c", 2); ("d", 3); ("e", 4); ("f", 5); ("g", 6); ("h", 7)].

(** [{v: k for k, v in ranks_to_rows.items()}] *)
Definition rows_to_ranks : gmap Z string :=
  dict_of (map (fun kv => (kv.2, kv.1)) ranks_to_rows_items).

(** [{v: k for k, v in files_to_cols.items()}] *)
Definition cols_to_files : gmap Z string :=
  dict_of (map (fun kv => (kv.2, kv.1)) files_to_cols_items).

(** [Move.get_rank_file]: KeyError outside the board. *)
Definition get_rank_file (r c : Z) : option string :=
  f ← cols_to_files !! c;
  k ← rows_to_ranks !! r;
  Some (String.append f k).

(** [Move.get_chess_notation] *)
Definition get_chess_notation (m : Move) : option string :=
  a ← get_rank_file (start_row m) (start_col m);
  b ← get_rank_file (end_row m) (end_col m);
  Some (String.append a b).

(** [Move.is_valid] *)
Definition is_valid (m : Move) : bool :=
  (0 <=? start_row m) && (start_row m <? 8) &&
  (0 <=? start_col m) && (start_col m <? 8) &&
  (0 <=? end_row m) && (end_row m <? 8) &&
  (0 <=? end_col m) && (end_col m <? 8) &&
  negb (String.eqb (piece_moved m) "--").

(** The letter of column [c] and the digit of row [r]. *)
Definition file_letter (c : Z) : ascii := ascii_of_nat (Z.to_nat (97 + c)).
Definition rank_digit (r : Z) : ascii := ascii_of_nat (Z.to_nat (56 - r)).

(** *** Python indices as positions *)

(** The position in a list of length [n] that the index [i] denotes, if
    any: [i] itself, or [i + n] for a negative [i]. *)
Definition slot (n : nat) (i : Z) : option nat :=
  if (0 <=? i) && (i <? Z.of_nat n) then Some (Z.to_nat i)
  else if (- Z.of_nat n <=? i) && (i <? 0) then Some (Z.to_nat (i + Z.of_nat n))
  else None.

(** The row and column positions that [b[r][c]] denotes. *)
Definition slot2 (b : Board) (r c : Z) : option (nat * nat) :=
  kr ← slot (length b) r; row ← b !! kr; kc ← slot (length row) c; Some (kr, kc).

Definition get2 (b : Board) (k : nat * nat) : option string :=
  row ← b !! k.1; row !! k.2.

Definition put2 (k : nat * nat) (x : string) (b : Board) : Board :=
  match b !! k.1 with
  | Some row => <[k.1 := <[k.2 := x]> row]> b
  | None => b
  end.

(** In [stalemate_state], the white king steps from g6 to f6. *)
Definition king_g6_f6 : Move :=
  mkMove 2 6 2 5 "wK" "--" false false false None None None 2625 0.

(** What the special-move handlers of [make_move] leave alone. *)
Definition bookkeeping (s : GameState)
  : CastleRights * bool * list CastleRights * list (option PyTuple) * nat :=
  (current_castling_rights s, white_to_move s, castle_rights_log s,
   enPassant_possible_log s, length (move_log s)).

Definition keeps_bookkeeping {A} (m : GS A) : Prop :=
  forall s a s', m s = Some (a, s') -> bookkeeping s' = bookkeeping s.

(** The rights of [a] are among those of [b]. *)
Definition rights_within (a b : CastleRights) : Prop :=
  (wks a = true -> wks b = true) /\ (bks a = true -> bks b = true) /\
  (wqs a = true -> wqs b = true) /\ (bqs a = true -> bqs b = true).

(** *** The scan for pins and checks *)

(** The square of a pin or check entry is on the board and holds a piece
    of colour [color]. *)
Definition ray_on (b : Board) (color : ascii) (e : Ray) : Prop :=
  let '(r, c, _, _) := e in
  in_board r c = true /\
  exists pc, Py.index2 b r c = Some pc /\ Py.chr pc 0 = Some color.

(** The piece on the square of the entry is not a king. *)
Definition ray_not_king (b : Board) (e : Ray) : Prop :=
  let '(r, c, _, _) := e in
  forall pc, Py.index2 b r c = Some pc -> Py.chr pc 1 <> Some "K"%char.

(** What the scan keeps true of its accumulator. *)
Definition scan_ok (b : Board) (enemy_color ally_color : ascii)
    (acc : CheckInfo) : Prop :=
  let '(ic, ps, cs) := acc in
  (ic = true <-> cs <> []) /\
  Forall (ray_on b enemy_color) cs /\
  Forall (fun e => ray_on b ally_color e /\ ray_not_king b e) ps.

(** *** The removal of the moves that do not answer a check *)

(** A move that answers a check given by one piece: a move of the king, or
    a move onto one of the squares [valid_squares]. *)
Definition answers_check (valid_squares : list (Z * Z)) (m : Move) : bool :=
  match Py.chr (piece_moved m) 1 with
  | Some k => Ascii.eqb k "K" ||
              existsb (sq_eqb (end_row m, end_col m)) valid_squares
  | None => false
  end.

(** e2-e4 and Ng1-f3 on the initial board. *)
Definition pawn_and_knight : list Move :=
  [ mkMove 6 4 4 4 "wp" "--" false false false None None None 6444 321;
    mkMove 7 6 5 5 "wN" "--" false false false None None None 7655 287 ].

(** *** What move generation works from

    The fields of the state that the generation of moves reads and has no
    reason to change: everything but the two cached king squares, the
    pins and checks, and the three flags. *)
Record View := mkView {
  v_board : Board;
  v_white_to_move : bool;
  v_enPassant_possible : option PyTuple;
  v_move_log : list Move;
  v_castling_rights : CastleRights;
  v_logs : list (option PyTuple) * list CastleRights;
  v_promotion : string * string * bool;
  v_hash_board : Board
}.

Definition view (s : GameState) : View :=
  {| v_board := board s;
     v_white_to_move := white_to_move s;
     v_enPassant_possible := enPassant_possible s;
     v_move_log := move_log s;
     v_castling_rights := current_castling_rights s;
     v_logs := (enPassant_possible_log s, castle_rights_log s);
     v_promotion := (promotion_piece s, ai_promotion_piece s, player_promote s);
     v_hash_board := hash_board s |}.

(** The colour letter of the side to move, and the row its pawns promote
    on. *)
Definition side (w : bool) : ascii := if w then "w"%char else "b"%char.
Definition last_row (w : bool) : Z := if w then 0 else 7.

(** What holds of every move of a list of valid moves, relative to the
    position it was generated from. *)
Definition listed (p : View) (m : Move) : Prop :=
  Py.index2 (v_board p) (start_row m) (start_col m) = Some (piece_moved m) /\
  (enPassant m = false ->
     Py.index2 (v_board p) (end_row m) (end_col m) = Some (piece_captured m) /\
     Py.chr (piece_captured m) 0 <> Some (side (v_white_to_move p))) /\
  (pawn_promotion m = true ->
     Py.chr (piece_moved m) 1 = Some "p"%char /\
     end_row m = last_row (v_white_to_move p) /\
     enPassant m = false /\ is_castle_move m = false) /\
  (enPassant m = true ->
     Py.chr (piece_moved m) 1 = Some "p"%char /\
     v_enPassant_possible p = Some [end_row m; end_col m] /\
     is_castle_move m = false) /\
  (is_castle_move m = true ->
     end_row m = start_row m /\
     (end_col m = start_col m + 2 \/ end_col m = start_col m - 2) /\
     piece_captured m = "--").

(** A computation that, started in a state with the view [p], ends in a
    state with the view [p] and returns a value that satisfies [R]. *)
Definition gen {A} (p : View) (m : GS A) (R : A -> Prop) : Prop :=
  forall s a s', view s = p -> m s = Some (a, s') -> view s' = p /\ R a.

(** *** The valid moves of a side in check *)

(** A computation that leaves the part [f] of the state as it is. *)
Definition keeps_on {X A} (f : GameState -> X) (m : GS A) : Prop :=
  forall s a s', m s = Some (a, s') -> f s' = f s.

(** The king of the side to move, as the state has it cached. *)
Definition king_location (s : GameState) : Z * Z :=
  if white_to_move s then white_king_location s else black_king_location s.

(** The squares [get_valid_moves] computes when one piece gives check from
    [check]: the square of a knight, or the squares from the king up to
    the piece. *)
Definition check_squares (king : Z * Z) (check : Ray) (k : ascii) : list (Z * Z) :=
  let '(check_row, check_col, c2, c3) := check in
  if Ascii.eqb k "N" then [(check_row, check_col)]
  else block_squares king.1 king.2 check_row check_col c2 c3 (Py.range 1 8).

(** White to move, the king on e1 in check from the rook on e8; the
    bishop on f1 can go to e2. *)
Definition rook_check_board : Board :=
  [ ["--";"--";"--";"--";"bR";"--";"--";"bK"];
    ["--";"--";"--";"--";"--";"--";"--";"--"];
    ["--";"--";"--";"--";"--";"--";"--";"--"];
    ["--";"--";"--";"--";"--";"--";"--";"--"];
    ["--";"--";"--";"--";"--";"--";"--";"--"];
    ["--";"--";"--";"--";"--";"--";"--";"--"];
    ["--";"--";"--";"--";"--";"--";"--";"--"];
    ["--";"--";"--";"--";"wK";"wB";"--";"--"] ].

Definition rook_check_state : GameState :=
  set_current_castling_rights (mkCastleRights false false false false)
    (set_white_king_location (7, 4)
       (set_black_king_location (0, 7)
          (set_board rook_check_board GameState_init))).

(** *** Castling *)

(** The column the rook of a castling comes from, and the column it goes
    to: [handle_castling] takes the castling for a king-side one when the
    king goes two columns up, and for a queen-side one otherwise. *)
Definition rook_from (m : Move) : Z :=
  if end_col m - start_col m =? 2 then end_col m + 1 else end_col m - 2.

Definition rook_to (m : Move) : Z :=
  if end_col m - start_col m =? 2 then end_col m - 1 else end_col m + 1.

(** After 1. h4 g5 2. hxg5 h5 3. Nf3 h4 4. e3 h3 5. Be2 h2, White may
    castle on the king side. *)
Definition castle_ready : GameState :=
  match play game_pawn_on_h2 GameState_init with
  | Some s => s
  | None => GameState_init
  end.

Definition castle_e1_g1 : Move :=
  mkMove 7 4 7 6 "wK" "--" false false true None None None 7476 0.

(** What [get_castle_moves] has found before it appends the move [m] for
    the king on [(row, col)]: a king-side castling needs the king-side
    right of the side to move and two empty squares beside the king, a
    queen-side castling the queen-side right and three empty squares. *)
Definition castle_offer (p : View) (row col : Z) (m : Move) : Prop :=
  is_castle_move m = true /\ enPassant m = false /\ pawn_promotion m = false /\
  start_row m = row /\ start_col m = col /\ end_row m = row /\
  (end_col m = col + 2 /\
   (v_white_to_move p && wks (v_castling_rights p))
     || (negb (v_white_to_move p) && bks (v_castling_rights p)) = true /\
   Py.index2 (v_board p) row (col + 1) = Some "--" /\
   Py.index2 (v_board p) row (col + 2) = Some "--"
   \/
   end_col m = col - 2 /\
   (v_white_to_move p && wqs (v_castling_rights p))
     || (negb (v_white_to_move p) && bqs (v_castling_rights p)) = true /\
   Py.index2 (v_board p) row (col - 1) = Some "--" /\
   Py.index2 (v_board p) row (col - 2) = Some "--" /\
   Py.index2 (v_board p) row (col - 3) = Some "--").

(** The moves [ms] are the moves [moves] followed by at most [n]
    castlings of the king on [(row, col)]. *)
Definition castles_added (p : View) (row col : Z) (moves : list Move) (n : nat)
    (ms : list Move) : Prop :=
  exists added, ms = moves ++ added /\ (length added <= n)%nat /\
                Forall (castle_offer p row col) added.

(** *** The end-of-game flags and the position *)

(** No flag raised in [s] contradicts what the scan of its position finds:
    [checkmate] is raised only if the side to move is in check, and
    [stalemate] only if it is not. *)
Definition flags_fit (s : GameState) : bool :=
  match check_for_pins_and_checks s with
  | Some (ic, _, _) =>
      (negb (checkmate s) || ic) && (negb (stalemate s) || negb ic)
  | None => true
  end.

(** Is [pc] the name of a king of the side [w]? *)
Definition own_king (w : bool) (pc : string) : bool :=
  match Py.chr pc 0, Py.chr pc 1 with
  | Some colour, Some kind => Ascii.eqb colour (side w) && Ascii.eqb kind "K"
  | _, _ => false
  end.

(** Every king of the side to move stands on the square that the state
    has cached for it. *)
Definition own_king_cached (s : GameState) : bool :=
  forallb (fun sq : Z * Z =>
             match Py.index2 (board s) sq.1 sq.2 with
             | Some pc => negb (own_king (white_to_move s) pc)
                          || sq_eqb sq (king_location s)
             | None => true
             end) squares.

(** 1. f3 e5 2. g4 Qh4 mate *)
Definition game_fools_mate : list (Z * Z * Z * Z) :=
  [(6,5,5,5); (1,4,3,4); (6,6,4,6); (0,3,4,7)].

(** 1. e3 a5 2. Qh5 Ra6 3. Qxa5 h5 4. h4 Rah6 5. Qxc7 f6 6. Qxd7+ Kf7
    7. Qxb7 Qd3 8. Qxb8 Qh7 9. Qxc8 Kg6 10. Qe6, and Black is stalemated. *)
Definition game_stalemate : list (Z * Z * Z * Z) :=
  [(6,4,5,4); (1,0,3,0); (7,3,3,7); (0,0,2,0); (3,7,3,0); (1,7,3,7);
   (6,7,4,7); (2,0,2,7); (3,0,1,2); (1,5,2,5); (1,2,1,3); (0,4,1,5);
   (1,3,1,1); (0,3,5,3); (1,1,0,1); (5,3,1,7); (0,1,0,2); (1,5,2,6);
   (0,2,2,4)].

(** The cached king square of the side [w]. *)
Definition king_of (w : bool) (s : GameState) : Z * Z :=
  if w then white_king_location s else black_king_location s.

(** What the scan for pins and checks reads, with the cached king square
    of the side [w]. *)
Definition place (w : bool) (s : GameState) : Board * bool * (Z * Z) :=
  (board s, white_to_move s, king_of w s).

(** A computation that, started with the board [b], the side to move [t]
    and the cached king square [k] of the side [w], ends with them. *)
Definition steady {A} (w : bool) (p : Board * bool * (Z * Z)) (m : GS A) : Prop :=
  forall s a s', place w s = p -> m s = Some (a, s') -> place w s' = p.

(** On the board [b], every king of the side [w] stands on [k]. *)
Definition kings_at (b : Board) (w : bool) (k : Z * Z) : Prop :=
  forall sq pc, sq ∈ squares -> Py.index2 b sq.1 sq.2 = Some pc ->
                own_king w pc = true -> sq = k.

(** The position after [game_fools_mate]: White is mated. *)
Definition mated_state : GameState :=
  match play game_fools_mate GameState_init with
  | Some s => s
  | None => GameState_init
  end.

(** The position after [game_stalemate]: Black is stalemated. *)
Definition stalemated_state : GameState :=
  match play game_stalemate GameState_init with
  | Some s => s
  | None => GameState_init
  end.

End Core.

(* ===================================================================== *)
(** ** src/controllers/game_controller.py *)
(* ===================================================================== *)

Module Controller.
Import Core.

(** [GameController.handle_mouse_click], once two squares are selected:
    [attempted_move = Move(player_clicks[0], player_clicks[1], board)],
    then the loop [for valid_move in self.valid_moves] up to its [break].
    The result is the move handed to [make_move], if any. *)
Definition clicked_move (player_clicks : (Z * Z) * (Z * Z)) (board : Board)
    (valid_moves : list Move) : option (option Move) :=
  attempted_move ← Move_init player_clicks.1 player_clicks.2 board false false false;
  Some (find (fun valid_move => Move_eqb attempted_move valid_move) valid_moves).

End Controller.

(* ===================================================================== *)
(** ** src/ai/advanced_ai.py *)
(* ===================================================================== *)

Module AI.

(** [class Move(NamedTuple)]: the lightweight move of the search. *)
Record Move := mkMove {
  from_row : Z;
  from_col : Z;
  to_row : Z;
  to_col : Z;
  piece : string;
  captured : string;
  special_flag : string
}.

#[export] Instance Move_eq_dec : EqDecision Move.
Proof. solve_decision. Defined.

(** [class TranspositionEntry(NamedTuple)]. *)
Record TranspositionEntry := mkEntry {
  score : Z;
  depth : Z;
  flag : Z;
  best_move : option Move;
  age : Z
}.

#[export] Instance TranspositionEntry_eq_dec : EqDecision TranspositionEntry.
Proof. solve_decision. Defined.

Definition EXACT : Z := 0.
Definition LOWER_BOUND : Z := 1.
Definition UPPER_BOUND : Z := 2.

(** [class TranspositionTable]: the dict [table] is a finite map. *)
Record TranspositionTable := mkTT {
  size : Z;
  table : gmap Z TranspositionEntry;
  generation : Z;
  hits : Z;
  misses : Z
}.

(** [TranspositionTable.__init__]; Python's [//] is floor division. *)
Definition tt_init (size_mb : Z) : TranspositionTable :=
  {| size := (size_mb * 1024 * 1024) `div` 32;
     table := ∅;
     generation := 0;
     hits := 0;
     misses := 0 |}.

(** [TranspositionTable.clear]. *)
Definition tt_clear (t : TranspositionTable) : TranspositionTable :=
  {| size := size t; table := ∅; generation := 0; hits := 0; misses := 0 |}.

(** [TranspositionTable.new_search]. *)
Definition tt_new_search (t : TranspositionTable) : TranspositionTable :=
  {| size := size t; table := table t; generation := generation t + 1;
     hits := hits t; misses := misses t |}.

Definition with_table (t : TranspositionTable) (m : gmap Z TranspositionEntry)
  : TranspositionTable :=
  {| size := size t; table := m; generation := generation t;
     hits := hits t; misses := misses t |}.

(** [TranspositionTable.store]. *)
Definition tt_store (t : TranspositionTable) (key dep sc fl : Z)
    (bm : option Move) : TranspositionTable :=
  match table t !! key with
  | Some old_entry =>
      if (depth old_entry <=? dep) || (2 <? Z.abs (generation t - age old_entry))
      then with_table t (<[key := mkEntry sc dep fl bm (generation t)]> (table t))
      else t
  | None =>
      if Z.of_nat (base.size (table t)) <? size t
      then with_table t (<[key := mkEntry sc dep fl bm (generation t)]> (table t))
      else t
  end.

(** [TranspositionTable.probe]: returns [(score or None, move or None)]. *)
Definition tt_probe (t : TranspositionTable) (key dep alpha beta : Z)
  : (option Z * option Move) * TranspositionTable :=
  match table t !! key with
  | None =>
      ((None, None),
       {| size := size t; table := table t; generation := generation t;
          hits := hits t; misses := misses t + 1 |})
  | Some entry =>
      let t' := {| size := size t; table := table t; generation := generation t;
                   hits := hits t + 1; misses := misses t |} in
      if dep <=? depth entry then
        if flag entry =? EXACT then ((Some (score entry), best_move entry), t')
        else if (flag entry =? LOWER_BOUND) && (beta <=? score entry)
        then ((Some (score entry), best_move entry), t')
        else if (flag entry =? UPPER_BOUND) && (score entry <=? alpha)
        then ((Some (score entry), best_move entry), t')
        else ((None, best_move entry), t')
      else ((None, best_move entry), t')
  end.

(** *** MoveGenerator *)

Definition Board : Type := list (list string).

Inductive MoveType := ALL | CAPTURES | QUIET.

(** [move_type in [MoveType.ALL, MoveType.QUIET]] *)
Definition wants_quiet (mt : MoveType) : bool :=
  match mt with ALL | QUIET => true | CAPTURES => false end.

(** [move_type in [MoveType.ALL, MoveType.CAPTURES]] *)
Definition wants_captures (mt : MoveType) : bool :=
  match mt with ALL | CAPTURES => true | QUIET => false end.

(** [MoveGenerator.is_valid_square] *)
Definition is_valid_square (row col : Z) : bool :=
  (0 <=? row) && (row <? 8) && (0 <=? col) && (col <? 8).

(** [color + 'p'] and the like: a one-character string put in front. *)
Definition tag (color : ascii) (kind : string) : string := String color kind.

(** [str.lower] on one character. *)
Definition lower (c : ascii) : ascii :=
  let n := nat_of_ascii c in
  if (Nat.leb 65 n && Nat.leb n 90)%bool then ascii_of_nat (n + 32) else c.

(** One iteration of the capture loop of [_get_pawn_moves], for a given
    [dc]. *)
Definition pawn_capture (board : Board) (row col : Z) (color : ascii)
    (direction dc : Z) : option (list Move) :=
  let new_row := row + direction in
  let new_col := col + dc in
  if is_valid_square new_row new_col then
    t ← Py.index2 board new_row new_col;
    if negb (String.eqb t "--") then
      c0 ← Py.chr t 0;
      if negb (Ascii.eqb c0 color)
      then Some [mkMove row col new_row new_col (tag color "p") t ""]
      else Some []
    else Some []
  else Some [].

(** [MoveGenerator._get_pawn_moves] *)
Definition _get_pawn_moves (board : Board) (row col : Z) (color : ascii)
    (move_type : MoveType) : option (list Move) :=
  let direction := if Ascii.eqb color "w" then -1 else 1 in
  let start_row := if Ascii.eqb color "w" then 6 else 1 in
  quiet ←
    (if wants_quiet move_type then
       let new_row := row + direction in
       if is_valid_square new_row col then
         t ← Py.index2 board new_row col;
         if String.eqb t "--" then
           let single := mkMove row col new_row col (tag color "p") "" "" in
           if row =? start_row then
             t2 ← Py.index2 board (new_row + direction) col;
             if String.eqb t2 "--"
             then Some [single;
                        mkMove row col (new_row + direction) col (tag color "p") "" ""]
             else Some [single]
           else Some [single]
         else Some []
       else Some []
     else Some []);
  caps ←
    (if wants_captures move_type then
       left ← pawn_capture board row col color direction (-1);
       right ← pawn_capture board row col color direction 1;
       Some (left ++ right)
     else Some []);
  Some (quiet ++ caps).

(** The inner loop [for i in range(1, 8)] of [_get_sliding_moves] along one
    direction; [steps] is what is left of the range. *)
Fixpoint slide_ray (board : Board) (row col : Z) (color : ascii) (pc : string)
    (dr dc : Z) (move_type : MoveType) (steps : list Z) : option (list Move) :=
  match steps with
  | [] => Some []
  | i :: rest =>
      let new_row := row + i * dr in
      let new_col := col + i * dc in
      if negb (is_valid_square new_row new_col) then Some []
      else
        target ← Py.index2 board new_row new_col;
        if String.eqb target "--" then
          more ← slide_ray board row col color pc dr dc move_type rest;
          Some ((if wants_quiet move_type
                 then [mkMove row col new_row new_col pc "" ""] else []) ++ more)
        else
          c0 ← Py.chr target 0;
          if negb (Ascii.eqb c0 color) then
            Some (if wants_captures move_type
                  then [mkMove row col new_row new_col pc target ""] else [])
          else Some []
  end.

(** The outer loop [for dr, dc in directions]. *)
Fixpoint slide_dirs (board : Board) (row col : Z) (color : ascii) (pc : string)
    (move_type : MoveType) (directions : list (Z * Z)) : option (list Move) :=
  match directions with
  | [] => Some []
  | (dr, dc) :: rest =>
      here ← slide_ray board row col color pc dr dc move_type (Py.range 1 8);
      more ← slide_dirs board row col color pc move_type rest;
      Some (here ++ more)
  end.

(** [MoveGenerator._get_sliding_moves] *)
Definition _get_sliding_moves (board : Board) (row col : Z) (color : ascii)
    (directions : list (Z * Z)) (move_type : MoveType) : option (list Move) :=
  pc ← Py.index2 board row col;
  slide_dirs board row col color pc move_type directions.

(** The loop over the offsets of a knight or of a king: both bodies are
    the same in the source. *)
Fixpoint step_offsets (board : Board) (row col : Z) (color : ascii) (pc : string)
    (move_type : MoveType) (offsets : list (Z * Z)) : option (list Move) :=
  match offsets with
  | [] => Some []
  | (dr, dc) :: rest =>
      let new_row := row + dr in
      let new_col := col + dc in
      here ←
        (if is_valid_square new_row new_col then
           target ← Py.index2 board new_row new_col;
           if String.eqb target "--" then
             Some (if wants_quiet move_type
                   then [mkMove row col new_row new_col pc "" ""] else [])
           else
             c0 ← Py.chr target 0;
             if negb (Ascii.eqb c0 color) then
               Some (if wants_captures move_type
                     then [mkMove row col new_row new_col pc target ""] else [])
             else Some []
         else Some []);
      more ← step_offsets board row col color pc move_type rest;
      Some (here ++ more)
  end.

Definition knight_offsets : list (Z * Z) :=
  [(-2,-1); (-2,1); (-1,-2); (-1,2); (1,-2); (1,2); (2,-1); (2,1)].

Definition king_offsets : list (Z * Z) :=
  [(0,1); (0,-1); (1,0); (-1,0); (1,1); (1,-1); (-1,1); (-1,-1)].

(** [MoveGenerator._get_knight_moves] *)
Definition _get_knight_moves (board : Board) (row col : Z) (color : ascii)
    (move_type : MoveType) : option (list Move) :=
  pc ← Py.index2 board row col;
  step_offsets board row col color pc move_type knight_offsets.

(** [MoveGenerator._get_king_moves] *)
Definition _get_king_moves (board : Board) (row col : Z) (color : ascii)
    (move_type : MoveType) : option (list Move) :=
  pc ← Py.index2 board row col;
  step_offsets board row col color pc move_type king_offsets.

Definition rook_dirs : list (Z * Z) := [(0,1); (0,-1); (1,0); (-1,0)].
Definition bishop_dirs : list (Z * Z) := [(1,1); (1,-1); (-1,1); (-1,-1)].
Definition queen_dirs : list (Z * Z) :=
  [(0,1); (0,-1); (1,0); (-1,0); (1,1); (1,-1); (-1,1); (-1,-1)].

(** [MoveGenerator._get_piece_moves] *)
Definition _get_piece_moves (board : Board) (row col : Z) (pc : string)
    (move_type : MoveType) : option (list Move) :=
  k ← Py.chr pc 1;
  color ← Py.chr pc 0;
  let piece_type := lower k in
  if Ascii.eqb piece_type "p" then _get_pawn_moves board row col color move_type
  else if Ascii.eqb piece_type "r"
  then _get_sliding_moves board row col color rook_dirs move_type
  else if Ascii.eqb piece_type "n"
  then _get_knight_moves board row col color move_type
  else if Ascii.eqb piece_type "b"
  then _get_sliding_moves board row col color bishop_dirs move_type
  else if Ascii.eqb piece_type "q"
  then _get_sliding_moves board row col color queen_dirs move_type
  else if Ascii.eqb piece_type "k"
  then _get_king_moves board row col color move_type
  else Some [].

(** The body of the double loop of [generate_moves] at one square. *)
Definition moves_at (board : Board) (color : ascii) (move_type : MoveType)
    (sq : Z * Z) : option (list Move) :=
  let '(row, col) := sq in
  pc ← Py.index2 board row col;
  if negb (String.eqb pc "--") then
    c0 ← Py.chr pc 0;
    if Ascii.eqb c0 color then _get_piece_moves board row col pc move_type
    else Some []
  else Some [].

(** [for row in range(8): for col in range(8)] as the list of squares in
    the order the loops visit them. *)
Definition squares : list (Z * Z) :=
  r ← Py.range 0 8; c ← Py.range 0 8; [(r, c)].

(** Running a loop body over a list of items and extending [moves] with
    what each iteration yields; an exception aborts the loop. *)
Fixpoint extend_all {A B} (f : A -> option (list B)) (items : list A)
  : option (list B) :=
  match items with
  | [] => Some []
  | x :: rest =>
      here ← f x;
      more ← extend_all f rest;
      Some (here ++ more)
  end.

(** [MoveGenerator.generate_moves] *)
Definition generate_moves (board : Board) (is_white_turn : bool)
    (move_type : MoveType) : option (list Move) :=
  let color : ascii := if is_white_turn then "w"%char else "b"%char in
  extend_all (moves_at board color move_type) squares.

(** *** AIConfig

    [time_limit] is a float that is only compared with a difference of
    clock readings; the outcome of that comparison is observed through the
    environment (see [Env] below), so the field is not kept. *)
Record AIConfig := mkConfig {
  max_depth : Z;
  tt_size_mb : Z;
  use_opening_book : bool;
  use_null_move_pruning : bool;
  use_lmr : bool;
  use_killer_moves : bool;
  piece_values : gmap string Z
}.

(** The defaults of the dataclass, with [__post_init__]. *)
Definition default_piece_values : gmap string Z :=
  <["K" := 0]> (<["Q" := 900]> (<["R" := 500]> (<["B" := 330]>
    (<["N" := 320]> (<["p" := 100]> ∅))))).

Definition default_config : AIConfig :=
  {| max_depth := 6; tt_size_mb := 64; use_opening_book := true;
     use_null_move_pruning := true; use_lmr := true; use_killer_moves := true;
     piece_values := default_piece_values |}.

(** [piece_values.get(k, 0)] for a one-character key. *)
Definition value_of (pv : gmap string Z) (k : ascii) : Z :=
  default 0 (pv !! String k "").

(** *** BoardAnalyzer *)

(** [BoardAnalyzer.BoardInfo]; [piece_positions] is a [defaultdict(list)],
    kept in insertion order. *)
Record BoardInfo := mkInfo {
  material_balance : Z;
  white_king_pos : option (Z * Z);
  black_king_pos : option (Z * Z);
  white_pawns : list (Z * Z);
  black_pawns : list (Z * Z);
  piece_positions : list (string * list (Z * Z))
}.

(** [d[key].append(pos)] on a [defaultdict(list)]. *)
Fixpoint dd_append (d : list (string * list (Z * Z))) (key : string) (pos : Z * Z)
  : list (string * list (Z * Z)) :=
  match d with
  | [] => [(key, [pos])]
  | (k, l) :: rest =>
      if String.eqb k key then (k, l ++ [pos]) :: rest
      else (k, l) :: dd_append rest key pos
  end.

(** The body of the double loop of [analyze_board]. *)
Definition analyze_square (board : Board) (pv : gmap string Z)
    (info : BoardInfo) (sq : Z * Z) : option BoardInfo :=
  let '(row, col) := sq in
  pc ← Py.index2 board row col;
  if String.eqb pc "--" then Some info
  else
    color ← Py.chr pc 0;
    piece_type ← Py.chr pc 1;
    let value := value_of pv piece_type in
    let mb := if Ascii.eqb color "w"
              then material_balance info + value
              else material_balance info - value in
    let wk := if String.eqb pc "wK" then Some sq else white_king_pos info in
    let bk := if String.eqb pc "wK" then black_king_pos info
              else if String.eqb pc "bK" then Some sq else black_king_pos info in
    let wp := if String.eqb pc "wK" then white_pawns info
              else if String.eqb pc "bK" then white_pawns info
              else if String.eqb pc "wp" then white_pawns info ++ [sq]
              else white_pawns info in
    let bp := if String.eqb pc "wK" then black_pawns info
              else if String.eqb pc "bK" then black_pawns info
              else if String.eqb pc "wp" then black_pawns info
              else if String.eqb pc "bp" then black_pawns info ++ [sq]
              else black_pawns info in
    Some {| material_balance := mb; white_king_pos := wk; black_king_pos := bk;
            white_pawns := wp; black_pawns := bp;
            piece_positions := dd_append (piece_positions info) pc sq |}.

Fixpoint analyze_loop (board : Board) (pv : gmap string Z) (sqs : list (Z * Z))
    (info : BoardInfo) : option BoardInfo :=
  match sqs with
  | [] => Some info
  | sq :: rest =>
      info' ← analyze_square board pv info sq;
      analyze_loop board pv rest info'
  end.

(** [BoardAnalyzer.analyze_board] *)
Definition analyze_board (board : Board) (pv : gmap string Z) : option BoardInfo :=
  analyze_loop board pv squares (mkInfo 0 None None [] [] []).

(** *** Evaluator *)

Definition pawn_table : list (list Z) :=
  [ [0;   0;   0;   0;   0;   0;   0;   0];
    [50;  50;  50;  50;  50;  50;  50;  50];
    [10;  10;  20;  30;  30;  20;  10;  10];
    [5;   5;   10;  27;  27;  10;  5;   5];
    [0;   0;   0;   25;  25;  0;   0;   0];
    [5;   -5;  -10; 0;   0;   -10; -5;  5];
    [5;   10;  10;  -25; -25; 10;  10;  5];
    [0;   0;   0;   0;   0;   0;   0;   0] ].

Definition knight_table : list (list Z) :=
  [ [-50; -40; -30; -30; -30; -30; -40; -50];
    [-40; -20; 0;   0;   0;   0;   -20; -40];
    [-30; 0;   10;  15;  15;  10;  0;   -30];
    [-30; 5;   15;  20;  20;  15;  5;   -30];
    [-30; 0;   15;  20;  20;  15;  0;   -30];
    [-30; 5;   10;  15;  15;  10;  5;   -30];
    [-40; -20; 0;   5;   5;   0;   -20; -40];
    [-50; -40; -30; -30; -30; -30; -40; -50] ].

Definition bishop_table : list (list Z) :=
  [ [-20; -10; -10; -10; -10; -10; -10; -20];
    [-10; 0;   0;   0;   0;   0;   0;   -10];
    [-10; 0;   5;   10;  10;  5;   0;   -10];
    [-10; 5;   5;   10;  10;  5;   5;   -10];
    [-10; 0;   10;  10;  10;  10;  0;   -10];
    [-10; 10;  10;  10;  10;  10;  10;  -10];
    [-10; 5;   0;   0;   0;   0;   5;   -10];
    [-20; -10; -40; -10; -10; -40; -10; -20] ].

(** [self.piece_square_tables], a dict with the keys ['p'], ['N'], ['B']:
    [None] when the key is not in the dict. *)
Definition piece_square_tables (k : ascii) : option (list (list Z)) :=
  if Ascii.eqb k "p" then Some pawn_table
  else if Ascii.eqb k "N" then Some knight_table
  else if Ascii.eqb k "B" then Some bishop_table
  else None.

(** The loop [for row, col in positions]. *)
Fixpoint bonus_loop (tbl : list (list Z)) (color : ascii)
    (positions : list (Z * Z)) (score : Z) : option Z :=
  match positions with
  | [] => Some score
  | (row, col) :: rest =>
      let eval_row := if Ascii.eqb color "w" then row else 7 - row in
      bonus ← Py.index2 tbl eval_row col;
      bonus_loop tbl color rest
        (if Ascii.eqb color "w" then score + bonus else score - bonus)
  end.

(** The loop [for piece, positions in info.piece_positions.items()]. *)
Fixpoint psq_loop (items : list (string * list (Z * Z))) (score : Z) : option Z :=
  match items with
  | [] => Some score
  | (pc, positions) :: rest =>
      if Z.of_nat (length positions) =? 0 then psq_loop rest score
      else
        color ← Py.chr pc 0;
        k ← Py.chr pc 1;
        match piece_square_tables (lower k) with
        | None => psq_loop rest score
        | Some tbl =>
            score' ← bonus_loop tbl color positions score;
            psq_loop rest score'
        end
  end.

(** [Evaluator._evaluate_piece_square_bonus] *)
Definition _evaluate_piece_square_bonus (info : BoardInfo) : option Z :=
  psq_loop (piece_positions info) 0.

(** The loop [for dc in [-1, 0, 1]] of [_evaluate_pawn_shield]. *)
Fixpoint shield_loop (board : Board) (row col direction : Z) (color : ascii)
    (dcs : list Z) (shield_score : Z) : option Z :=
  match dcs with
  | [] => Some shield_score
  | dc :: rest =>
      let shield_col := col + dc in
      if (0 <=? shield_col) && (shield_col <? 8) then
        let shield_row := row + direction in
        if (0 <=? shield_row) && (shield_row <? 8) then
          pc ← Py.index2 board shield_row shield_col;
          shield_loop board row col direction color rest
            (if String.eqb pc (tag color "p")
             then shield_score + 10 else shield_score - 15)
        else shield_loop board row col direction color rest shield_score
      else shield_loop board row col direction color rest shield_score
  end.

(** [Evaluator._evaluate_pawn_shield] *)
Definition _evaluate_pawn_shield (board : Board) (king_pos : Z * Z) (color : ascii)
  : option Z :=
  let '(row, col) := king_pos in
  let direction := if Ascii.eqb color "w" then -1 else 1 in
  shield_loop board row col direction color [-1; 0; 1] 0.

(** [Evaluator._evaluate_king_safety] *)
Definition _evaluate_king_safety (board : Board) (info : BoardInfo) : option Z :=
  s1 ← match white_king_pos info with
       | Some kp => v ← _evaluate_pawn_shield board kp "w"; Some (0 + v)
       | None => Some 0
       end;
  match black_king_pos info with
  | Some kp => v ← _evaluate_pawn_shield board kp "b"; Some (s1 - v)
  | None => Some s1
  end.

(** The [while 0 <= check_row < 8] loop of [_is_passed_pawn]; [true] when
    the column holds no enemy pawn ahead.  The loop runs at most eight
    times when it starts next to a row of the board; [fuel] bounds it. *)
Fixpoint column_clear (fuel : nat) (board : Board) (check_row check_col direction : Z)
    (enemy_pawn : string) : option bool :=
  if (0 <=? check_row) && (check_row <? 8) then
    match fuel with
    | O => None
    | S fuel' =>
        pc ← Py.index2 board check_row check_col;
        if String.eqb pc enemy_pawn then Some false
        else column_clear fuel' board (check_row + direction) check_col direction
               enemy_pawn
    end
  else Some true.

(** The loop [for check_col in [col - 1, col, col + 1]]. *)
Fixpoint passed_loop (board : Board) (row direction : Z) (enemy_pawn : string)
    (cols : list Z) : option bool :=
  match cols with
  | [] => Some true
  | check_col :: rest =>
      if (0 <=? check_col) && (check_col <? 8) then
        clear ← column_clear 8 board (row + direction) check_col direction enemy_pawn;
        if (clear : bool) then passed_loop board row direction enemy_pawn rest
        else Some false
      else passed_loop board row direction enemy_pawn rest
  end.

(** [Evaluator._is_passed_pawn] *)
Definition _is_passed_pawn (board : Board) (row col : Z) (color : ascii) : option bool :=
  let direction := if Ascii.eqb color "w" then -1 else 1 in
  let enemy_color : ascii := if Ascii.eqb color "w" then "b"%char else "w"%char in
  passed_loop board row direction (tag enemy_color "p") [col - 1; col; col + 1].

(** [files.count(file)] *)
Definition count_file (files : list Z) (file : Z) : Z :=
  Z.of_nat (length (filter (fun f => f = file) files)).

(** The loop [for file in range(8)] (doubled pawns). *)
Fixpoint doubled_loop (white_files black_files : list Z) (files : list Z) (score : Z)
  : Z :=
  match files with
  | [] => score
  | file :: rest =>
      let white_count := count_file white_files file in
      let black_count := count_file black_files file in
      let s1 := if 1 <? white_count then score - 10 * (white_count - 1) else score in
      let s2 := if 1 <? black_count then s1 + 10 * (black_count - 1) else s1 in
      doubled_loop white_files black_files rest s2
  end.

Fixpoint white_passed_loop (board : Board) (pawns : list (Z * Z)) (score : Z)
  : option Z :=
  match pawns with
  | [] => Some score
  | (row, col) :: rest =>
      p ← _is_passed_pawn board row col "w";
      white_passed_loop board rest
        (if (p : bool) then score + (20 + (7 - row) * 5) else score)
  end.

Fixpoint black_passed_loop (board : Board) (pawns : list (Z * Z)) (score : Z)
  : option Z :=
  match pawns with
  | [] => Some score
  | (row, col) :: rest =>
      p ← _is_passed_pawn board row col "b";
      black_passed_loop board rest
        (if (p : bool) then score - (20 + row * 5) else score)
  end.

(** [Evaluator._evaluate_pawn_structure] *)
Definition _evaluate_pawn_structure (board : Board) (info : BoardInfo) : option Z :=
  let white_files := map snd (white_pawns info) in
  let black_files := map snd (black_pawns info) in
  let s1 := doubled_loop white_files black_files (Py.range 0 8) 0 in
  s2 ← white_passed_loop board (white_pawns info) s1;
  black_passed_loop board (black_pawns info) s2.

(** [Evaluator._evaluate_mobility] *)
Definition _evaluate_mobility (board : Board) (is_white_turn : bool) : option Z :=
  wm ← generate_moves board true ALL;
  bm ← generate_moves board false ALL;
  Some ((Z.of_nat (length wm) - Z.of_nat (length bm)) * 2).

(** [Evaluator.evaluate_position] *)
Definition evaluate_position (cfg : AIConfig) (board : Board) (is_white_turn : bool)
  : option Z :=
  info ← analyze_board board (piece_values cfg);
  let score := 0 + material_balance info in
  a ← _evaluate_piece_square_bonus info;
  b ← _evaluate_king_safety board info;
  c ← _evaluate_pawn_structure board info;
  d ← _evaluate_mobility board is_white_turn;
  let score := score + a + b + c + d in
  Some (if is_white_turn then score else - score).

(** *** SearchEngine

    The search runs on a worker thread.  What it observes of the outside
    is collected in an environment:
    - [stop_now n] is what the [n]-th evaluation of
      [_should_stop_search] returns: the flag [cancel_search] is written
      by the controller thread at any moment and the clock is external,
      so any sequence of answers is possible;
    - [choose n k] is the index [random.choice] picks in a list of length
      [k] at its [n]-th call;
    - [hash_tuple p r c] is Python's [hash((p, r, c))], which is salted per
      process.

    Boards are Python lists of row lists.  The rows are mutable objects:
    they live in a heap (a list of rows, an address is a position in it,
    allocation appends), and a board is the list of the addresses of its
    rows.  [print] calls are left out. *)

Record Env := mkEnv {
  stop_now : nat -> bool;
  choose : nat -> nat -> nat;
  hash_tuple : string -> Z -> Z -> Z
}.

Definition BoardRef : Type := list nat.

Record Stats := mkStats {
  beta_cutoffs : Z;
  first_move_cutoffs : Z;
  null_move_cuts : Z;
  lmr_saves : Z
}.

(** The fields of [SearchEngine] ([start_time] holds a clock reading that
    only [_should_stop_search] and the statistics use), then the heap of
    rows and the number of observations made of the environment. *)
Record World := mkWorld {
  config : AIConfig;
  tt : TranspositionTable;
  nodes_searched : Z;
  cancel_search : bool;
  killer_moves : gmap Z (list Move);
  history_scores : gmap (string * Z) Z;
  stats : Stats;
  heap : list (list string);
  polls : nat;
  draws : nat
}.

Definition set_tt (t : TranspositionTable) (w : World) : World :=
  {| config := config w; tt := t; nodes_searched := nodes_searched w;
     cancel_search := cancel_search w; killer_moves := killer_moves w;
     history_scores := history_scores w; stats := stats w;
     heap := heap w; polls := polls w; draws := draws w |}.

Definition set_nodes_searched (n : Z) (w : World) : World :=
  {| config := config w; tt := tt w; nodes_searched := n;
     cancel_search := cancel_search w; killer_moves := killer_moves w;
     history_scores := history_scores w; stats := stats w;
     heap := heap w; polls := polls w; draws := draws w |}.

Definition set_cancel_search (b : bool) (w : World) : World :=
  {| config := config w; tt := tt w; nodes_searched := nodes_searched w;
     cancel_search := b; killer_moves := killer_moves w;
     history_scores := history_scores w; stats := stats w;
     heap := heap w; polls := polls w; draws := draws w |}.

Definition set_killer_moves (k : gmap Z (list Move)) (w : World) : World :=
  {| config := config w; tt := tt w; nodes_searched := nodes_searched w;
     cancel_search := cancel_search w; killer_moves := k;
     history_scores := history_scores w; stats := stats w;
     heap := heap w; polls := polls w; draws := draws w |}.

Definition set_history_scores (h : gmap (string * Z) Z) (w : World) : World :=
  {| config := config w; tt := tt w; nodes_searched := nodes_searched w;
     cancel_search := cancel_search w; killer_moves := killer_moves w;
     history_scores := h; stats := stats w;
     heap := heap w; polls := polls w; draws := draws w |}.

Definition set_stats (st : Stats) (w : World) : World :=
  {| config := config w; tt := tt w; nodes_searched := nodes_searched w;
     cancel_search := cancel_search w; killer_moves := killer_moves w;
     history_scores := history_scores w; stats := st;
     heap := heap w; polls := polls w; draws := draws w |}.

Definition set_heap (h : list (list string)) (w : World) : World :=
  {| config := config w; tt := tt w; nodes_searched := nodes_searched w;
     cancel_search := cancel_search w; killer_moves := killer_moves w;
     history_scores := history_scores w; stats := stats w;
     heap := h; polls := polls w; draws := draws w |}.

Definition set_polls (n : nat) (w : World) : World :=
  {| config := config w; tt := tt w; nodes_searched := nodes_searched w;
     cancel_search := cancel_search w; killer_moves := killer_moves w;
     history_scores := history_scores w; stats := stats w;
     heap := heap w; polls := n; draws := draws w |}.

Definition set_draws (n : nat) (w : World) : World :=
  {| config := config w; tt := tt w; nodes_searched := nodes_searched w;
     cancel_search := cancel_search w; killer_moves := killer_moves w;
     history_scores := history_scores w; stats := stats w;
     heap := heap w; polls := polls w; draws := n |}.

(** [SearchEngine.__init__], on a given heap. *)
Definition SearchEngine_init (cfg : AIConfig) (h : list (list string)) : World :=
  {| config := cfg; tt := tt_init (tt_size_mb cfg); nodes_searched := 0;
     cancel_search := false; killer_moves := ∅; history_scores := ∅;
     stats := mkStats 0 0 0 0; heap := h; polls := 0; draws := 0 |}.

Definition SE (A : Type) : Type := Py.M World A.

Local Open Scope py_scope.

(** Reading a board: the rows its addresses point to. *)
Fixpoint rows_of (h : list (list string)) (b : BoardRef) : option Board :=
  match b with
  | [] => Some []
  | l :: rest =>
      row ← h !! l;
      more ← rows_of h rest;
      Some (row :: more)
  end.

Definition load (b : BoardRef) : SE Board :=
  fun w => match rows_of (heap w) b with
           | Some rows => Some (rows, w)
           | None => None
           end.

(** Allocation of a new row object. *)
Definition alloc (row : list string) : SE nat :=
  fun w => Some (length (heap w), set_heap (heap w ++ [row]) w).

(** [[row[:] for row in board]] *)
Fixpoint copy_rows (rows : Board) : SE BoardRef :=
  match rows with
  | [] => Py.ret []
  | row :: rest =>
      l <- alloc row ;;
      more <- copy_rows rest ;;
      Py.ret (l :: more)
  end.

(** [b[r][c]] through the heap. *)
Definition read2 (b : BoardRef) (r c : Z) : SE string :=
  l <- Py.lift (Py.index b r) ;;
  w <- Py.get ;;
  row <- Py.lift (heap w !! l) ;;
  Py.lift (Py.index row c).

(** [b[r][c] = x]: the row object at [b[r]] is updated in place. *)
Definition write2 (b : BoardRef) (r c : Z) (x : string) : SE unit :=
  l <- Py.lift (Py.index b r) ;;
  w <- Py.get ;;
  row <- Py.lift (heap w !! l) ;;
  row' <- Py.lift (Py.setitem row c x) ;;
  Py.put (set_heap (<[l := row']> (heap w)) w).

(** [SearchEngine._make_move] *)
Definition _make_move (board : BoardRef) (move : Move) : SE BoardRef :=
  rows <- load board ;;
  new_board <- copy_rows rows ;;
  write2 new_board (to_row move) (to_col move) (piece move) ;;;
  write2 new_board (from_row move) (from_col move) "--" ;;;
  (if String.eqb (special_flag move) "promotion" then
     c0 <- Py.lift (Py.chr (piece move) 0) ;;
     write2 new_board (to_row move) (to_col move) (tag c0 "Q")
   else if String.eqb (special_flag move) "en_passant" then
     c0 <- Py.lift (Py.chr (piece move) 0) ;;
     let capture_row := to_row move + (if Ascii.eqb c0 "w" then 1 else -1) in
     write2 new_board capture_row (to_col move) "--"
   else if String.eqb (special_flag move) "castle" then
     if from_col move <? to_col move then
       rook <- read2 new_board (from_row move) 7 ;;
       write2 new_board (from_row move) 5 rook ;;;
       write2 new_board (from_row move) 7 "--"
     else
       rook <- read2 new_board (from_row move) 0 ;;
       write2 new_board (from_row move) 3 rook ;;;
       write2 new_board (from_row move) 0 "--"
   else Py.ret ()) ;;;
  Py.ret new_board.

(** The double loop of [_get_position_key]. *)
Fixpoint key_loop (env : Env) (board : Board) (sqs : list (Z * Z)) (key : Z)
  : option Z :=
  match sqs with
  | [] => Some key
  | (row, col) :: rest =>
      pc ← Py.index2 board row col;
      key_loop env board rest
        (if negb (String.eqb pc "--")
         then Z.lxor key (hash_tuple env pc row col) else key)
  end.

(** [SearchEngine._get_position_key]; [0x7FFFFFFF] is [2147483647]. *)
Definition _get_position_key (env : Env) (board : Board) (is_white_turn : bool)
  : option Z :=
  key ← key_loop env board squares 0;
  let key := if is_white_turn then Z.lxor key 1 else key in
  Some (Z.land key 2147483647).

(** The king search of [_is_king_in_check]: the [break] leaves the inner
    loop only, so the scan goes on with the next row. *)
Fixpoint find_in_row (row_cells : list string) (king_piece : string) (col : Z)
  : option Z :=
  match row_cells with
  | [] => None
  | x :: rest =>
      if String.eqb x king_piece then Some col
      else find_in_row rest king_piece (col + 1)
  end.

Fixpoint find_king (board : Board) (king_piece : string) (rows : list Z)
    (king_pos : option (Z * Z)) : option (option (Z * Z)) :=
  match rows with
  | [] => Some king_pos
  | row :: rest =>
      cells ← Py.index board row;
      (* [for col in range(8)] reads [board[row][col]] up to the match *)
      match find_in_row (take 8 cells) king_piece 0 with
      | Some col => find_king board king_piece rest (Some (row, col))
      | None =>
          if Z.of_nat (length cells) <? 8 then None
          else find_king board king_piece rest king_pos
      end
  end.

(** [SearchEngine._is_king_in_check] *)
Definition _is_king_in_check (board : Board) (is_white_turn : bool) : option bool :=
  let king_piece := if is_white_turn then "wK" else "bK" in
  king_pos ← find_king board king_piece (Py.range 0 8) None;
  match king_pos with
  | None => Some false
  | Some (kr, kc) =>
      enemy_moves ← generate_moves board (negb is_white_turn) ALL;
      Some (existsb (fun m => (to_row m =? kr) && (to_col m =? kc)) enemy_moves)
  end.

(** [SearchEngine._has_non_pawn_pieces] *)
Fixpoint non_pawn_loop (board : Board) (color : ascii) (sqs : list (Z * Z))
  : option bool :=
  match sqs with
  | [] => Some false
  | (row, col) :: rest =>
      pc ← Py.index2 board row col;
      if negb (String.eqb pc "--") then
        c0 ← Py.chr pc 0;
        if Ascii.eqb c0 color then
          k ← Py.chr pc 1;
          if negb (Ascii.eqb (lower k) "k" || Ascii.eqb (lower k) "p")
          then Some true
          else non_pawn_loop board color rest
        else non_pawn_loop board color rest
      else non_pawn_loop board color rest
  end.

Definition _has_non_pawn_pieces (board : Board) (is_white_turn : bool) : option bool :=
  let color : ascii := if is_white_turn then "w"%char else "b"%char in
  non_pawn_loop board color squares.

(** [SearchEngine._should_stop_search]: an observation of the
    environment. *)
Definition _should_stop_search (env : Env) : SE bool :=
  fun w => Some (stop_now env (polls w), set_polls (S (polls w)) w).

(** [self.killer_moves[ply]] on a [defaultdict(list)]: a missing key is
    inserted with an empty list. *)
Definition killers_at (ply : Z) : SE (list Move) :=
  fun w => match killer_moves w !! ply with
           | Some l => Some (l, w)
           | None => Some ([], set_killer_moves (<[ply := []]> (killer_moves w)) w)
           end.

(** [self.history_scores[key]] on a [defaultdict(int)]. *)
Definition history_at (key : string * Z) : SE Z :=
  fun w => match history_scores w !! key with
           | Some v => Some (v, w)
           | None => Some (0, set_history_scores (<[key := 0]> (history_scores w)) w)
           end.

(** [list.index(x)] *)
Fixpoint index_of (x : Move) (l : list Move) (i : Z) : option Z :=
  match l with
  | [] => None
  | y :: rest => if bool_decide (y = x) then Some i else index_of x rest (i + 1)
  end.

(** The score [_order_moves] gives to one move. *)
Definition order_score (ply : Z) (tt_move : option Move) (move : Move) : SE Z :=
  w <- Py.get ;;
  if match tt_move with Some t => bool_decide (move = t) | None => false end
  then Py.ret (0 + 10000000)
  else if negb (String.eqb (captured move) "") then
    v <- Py.lift (Py.chr (captured move) 1) ;;
    a <- Py.lift (Py.chr (piece move) 1) ;;
    let victim_value := value_of (piece_values (config w)) v in
    let attacker_value := value_of (piece_values (config w)) a in
    Py.ret (0 + (1000000 + victim_value * 10 - attacker_value))
  else
    is_killer <- (if use_killer_moves (config w)
                  then ks <- killers_at ply ;;
                       Py.ret (bool_decide (move ∈ ks))
                  else Py.ret false) ;;
    if (is_killer : bool) then
      ks <- killers_at ply ;;
      killer_index <- Py.lift (index_of move ks 0) ;;
      Py.ret (0 + (900000 - killer_index * 1000))
    else
      h <- history_at (piece move, to_row move * 8 + to_col move) ;;
      Py.ret (0 + h).

Fixpoint score_moves (ply : Z) (tt_move : option Move) (moves : list Move)
  : SE (list (Z * Move)) :=
  match moves with
  | [] => Py.ret []
  | move :: rest =>
      sc <- order_score ply tt_move move ;;
      more <- score_moves ply tt_move rest ;;
      Py.ret ((sc, move) :: more)
  end.

(** [list.sort(key=lambda x: x[0], reverse=True)]: a stable sort by
    decreasing score, here by insertion. *)
Fixpoint insert_desc (x : Z * Move) (l : list (Z * Move)) : list (Z * Move) :=
  match l with
  | [] => [x]
  | y :: rest =>
      if fst x <? fst y then y :: insert_desc x rest else x :: y :: rest
  end.

Definition sort_desc (l : list (Z * Move)) : list (Z * Move) :=
  foldr insert_desc [] l.

(** [SearchEngine._order_moves]; the board is not read. *)
Definition _order_moves (moves : list Move) (ply : Z) (tt_move : option Move)
  : SE (list Move) :=
  scored_moves <- score_moves ply tt_move moves ;;
  Py.ret (map snd (sort_desc scored_moves)).

(** [SearchEngine._add_killer_move] *)
Definition _add_killer_move (move : Move) (ply : Z) : SE unit :=
  ks <- killers_at ply ;;
  if negb (bool_decide (move ∈ ks)) then
    let ks1 := move :: ks in
    let ks2 := if 2 <? Z.of_nat (length ks1) then removelast ks1 else ks1 in
    Py.modify (fun w => set_killer_moves (<[ply := ks2]> (killer_moves w)) w)
  else Py.ret ().

(** [SearchEngine._update_history] *)
Definition _update_history (move : Move) (depth : Z) (is_good : bool) : SE unit :=
  let history_key := (piece move, to_row move * 8 + to_col move) in
  let bonus := if is_good then depth * depth else - depth * depth in
  current <- history_at history_key ;;
  Py.modify (fun w => set_history_scores
    (<[history_key := current + bonus - (current * Z.abs bonus) `div` 512]>
       (history_scores w)) w).

(** The bound stored at the end of a node of [_alpha_beta]. *)
Definition tt_flag_of (best_score beta : Z) : Z :=
  if (-999999 <? best_score) && (best_score <? beta) then EXACT
  else if beta <=? best_score then LOWER_BOUND
  else UPPER_BOUND.

Definition bump_nodes : SE unit :=
  Py.modify (fun w => set_nodes_searched (nodes_searched w + 1) w).

Definition add_beta_cutoff (first : bool) : SE unit :=
  Py.modify (fun w =>
    set_stats (mkStats (beta_cutoffs (stats w) + 1)
                       (if first then first_move_cutoffs (stats w) + 1
                        else first_move_cutoffs (stats w))
                       (null_move_cuts (stats w))
                       (lmr_saves (stats w))) w).

Definition add_null_move_cut : SE unit :=
  Py.modify (fun w =>
    set_stats (mkStats (beta_cutoffs (stats w)) (first_move_cutoffs (stats w))
                       (null_move_cuts (stats w) + 1) (lmr_saves (stats w))) w).

Definition add_lmr_saves (n : Z) : SE unit :=
  Py.modify (fun w =>
    set_stats (mkStats (beta_cutoffs (stats w)) (first_move_cutoffs (stats w))
                       (null_move_cuts (stats w)) (lmr_saves (stats w) + n)) w).

(** The loop [for capture in captures] of [_quiescence_search]; [rec] is
    the recursive call. *)
Fixpoint qs_loop (rec : BoardRef -> Z -> Z -> SE Z) (board : BoardRef)
    (captures : list Move) (alpha beta : Z) : SE Z :=
  match captures with
  | [] => Py.ret alpha
  | capture :: rest =>
      new_board <- _make_move board capture ;;
      v <- rec new_board (- beta) (- alpha) ;;
      let score := - v in
      if beta <=? score then Py.ret beta
      else qs_loop rec board rest (if alpha <? score then score else alpha) beta
  end.

(** [SearchEngine._quiescence_search]; [fuel] bounds the depth of the
    recursion, as the interpreter's recursion limit does. *)
Fixpoint _quiescence_search (fuel : nat) (board : BoardRef) (is_white_turn : bool)
    (alpha beta : Z) {struct fuel} : SE Z :=
  match fuel with
  | O => Py.raise
  | S fuel' =>
      bump_nodes ;;;
      w <- Py.get ;;
      b <- load board ;;
      stand_pat <- Py.lift (evaluate_position (config w) b is_white_turn) ;;
      if beta <=? stand_pat then Py.ret beta
      else
        let alpha := if alpha <? stand_pat then stand_pat else alpha in
        captures <- Py.lift (generate_moves b is_white_turn CAPTURES) ;;
        qs_loop (fun nb a b' => _quiescence_search fuel' nb (negb is_white_turn) a b')
          board captures alpha beta
  end.

(** The loop [for i, move in enumerate(ordered_moves)] of [_alpha_beta];
    [rec] is the recursive call.  Returns [best_score]. *)
Fixpoint ab_loop (rec : BoardRef -> bool -> Z -> Z -> Z -> Z -> SE Z)
    (board : BoardRef) (is_white_turn : bool) (depth beta ply : Z)
    (ms : list Move) (i alpha best_score moves_searched : Z) : SE Z :=
  match ms with
  | [] => Py.ret best_score
  | move :: rest =>
      new_board <- _make_move board move ;;
      w <- Py.get ;;
      reduction <-
        (if use_lmr (config w) && (3 <? i) && (2 <? depth) && (0 <? moves_searched)
            && String.eqb (captured move) "" then
           nb <- load new_board ;;
           chk <- Py.lift (_is_king_in_check nb (negb is_white_turn)) ;;
           if negb chk
           then Py.ret (Z.min (depth - 1) (1 + ((depth - 1) * (i - 3)) `div` 20))
           else Py.ret 0
         else Py.ret 0) ;;
      score <-
        (if moves_searched =? 0 then
           v <- rec new_board (negb is_white_turn) (depth - 1) (- beta) (- alpha)
                  (ply + 1) ;;
           Py.ret (- v)
         else
           v <- rec new_board (negb is_white_turn) (depth - 1 - reduction)
                  (- alpha - 1) (- alpha) (ply + 1) ;;
           let score := - v in
           if (alpha <? score) && ((0 <? reduction) || (score <? beta)) then
             add_lmr_saves (if 0 <? reduction then 1 else 0) ;;;
             v2 <- rec new_board (negb is_white_turn) (depth - 1) (- beta) (- alpha)
                     (ply + 1) ;;
             Py.ret (- v2)
           else Py.ret score) ;;
      let moves_searched := moves_searched + 1 in
      let best_score := if best_score <? score then score else best_score in
      alpha <- (if alpha <? score
                then _update_history move depth true ;;; Py.ret score
                else Py.ret alpha) ;;
      if beta <=? alpha then
        add_beta_cutoff (i =? 0) ;;;
        (if String.eqb (captured move) "" && use_killer_moves (config w)
         then _add_killer_move move ply else Py.ret ()) ;;;
        _update_history move depth true ;;;
        Py.ret best_score
      else
        ab_loop rec board is_white_turn depth beta ply rest (i + 1) alpha
          best_score moves_searched
  end.

(** [self.tt.probe(...)] on the engine's table. *)
Definition probe (key depth alpha beta : Z) : SE (option Z * option Move) :=
  fun w => let '(r, t) := tt_probe (tt w) key depth alpha beta in
           Some (r, set_tt t w).

(** [self.tt.store(...)] on the engine's table. *)
Definition store (key depth sc fl : Z) (bm : option Move) : SE unit :=
  Py.modify (fun w => set_tt (tt_store (tt w) key depth sc fl bm) w).

(** The end of a node of [_alpha_beta]: the bound, the store, the
    result. *)
Definition store_node (pos_key depth best_score beta : Z) (ordered_moves : list Move)
  : SE Z :=
  let tt_flag := tt_flag_of best_score beta in
  store pos_key depth best_score tt_flag (head ordered_moves) ;;;
  Py.ret best_score.

(** [SearchEngine._alpha_beta] *)
Fixpoint _alpha_beta (env : Env) (fuel : nat) (board : BoardRef)
    (is_white_turn : bool) (depth alpha beta ply : Z) {struct fuel} : SE Z :=
  match fuel with
  | O => Py.raise
  | S fuel' =>
      stop <- _should_stop_search env ;;
      if (stop : bool) then Py.ret 0
      else
        bump_nodes ;;;
        b <- load board ;;
        pos_key <- Py.lift (_get_position_key env b is_white_turn) ;;
        pr <- probe pos_key depth alpha beta ;;
        let '(tt_score, tt_move) := pr in
        match tt_score, 0 <? depth with
        | Some v, true => Py.ret v
        | _, _ =>
            if depth <=? 0
            then _quiescence_search fuel' board is_white_turn alpha beta
            else
              moves <- Py.lift (generate_moves b is_white_turn ALL) ;;
              match moves with
              | [] =>
                  chk <- Py.lift (_is_king_in_check b is_white_turn) ;;
                  Py.ret (if (chk : bool) then -999999 + ply else 0)
              | _ :: _ =>
                  w <- Py.get ;;
                  try_null <-
                    (if use_null_move_pruning (config w) && (3 <=? depth) then
                       chk <- Py.lift (_is_king_in_check b is_white_turn) ;;
                       if negb chk
                       then Py.lift (_has_non_pawn_pieces b is_white_turn)
                       else Py.ret false
                     else Py.ret false) ;;
                  cut <-
                    (if (try_null : bool) then
                       let reduction := 3 + depth `div` 4 in
                       v <- _alpha_beta env fuel' board (negb is_white_turn)
                              (depth - reduction - 1) (- beta) (- beta + 1) (ply + 1) ;;
                       let null_score := - v in
                       if beta <=? null_score
                       then add_null_move_cut ;;; Py.ret (Some beta)
                       else Py.ret None
                     else Py.ret None) ;;
                  match cut with
                  | Some v => Py.ret v
                  | None =>
                      ordered_moves <- _order_moves moves ply tt_move ;;
                      best_score <-
                        ab_loop (_alpha_beta env fuel') board is_white_turn depth
                          beta ply ordered_moves 0 alpha (-999999) 0 ;;
                      store_node pos_key depth best_score beta ordered_moves
                  end
              end
        end
  end.

(** The loop [for move in ordered_moves] of [_search_root]. *)
Fixpoint root_loop (env : Env) (fuel : nat) (board : BoardRef) (is_white_turn : bool)
    (depth : Z) (ms : list Move) (best_move : option Move) (best_score : Z)
  : SE (option Move) :=
  match ms with
  | [] => Py.ret best_move
  | move :: rest =>
      stop <- _should_stop_search env ;;
      if (stop : bool) then Py.ret best_move
      else
        new_board <- _make_move board move ;;
        v <- _alpha_beta env fuel new_board (negb is_white_turn) (depth - 1)
               (-999999) 999999 1 ;;
        let score := - v in
        if best_score <? score
        then root_loop env fuel board is_white_turn depth rest (Some move) score
        else root_loop env fuel board is_white_turn depth rest best_move best_score
  end.

(** [SearchEngine._search_root] *)
Definition _search_root (env : Env) (fuel : nat) (board : BoardRef)
    (is_white_turn : bool) (moves : list Move) (depth : Z) : SE (option Move) :=
  ordered_moves <- _order_moves moves 0 None ;;
  root_loop env fuel board is_white_turn depth ordered_moves None (-999999).

(** One move of [_convert_moves]. *)
Definition convert_move (board : Board) (move : Core.Move) : option Move :=
  pc ← Py.index2 board (Core.start_row move) (Core.start_col move);
  target ← Py.index2 board (Core.end_row move) (Core.end_col move);
  let captured := if negb (String.eqb target "--") then target else "" in
  let special_flag :=
    if Core.pawn_promotion move then "promotion"
    else if Core.enPassant move then "en_passant"
    else if Core.is_castle_move move then "castle"
    else "" in
  Some (mkMove (Core.start_row move) (Core.start_col move)
               (Core.end_row move) (Core.end_col move) pc captured special_flag).

(** [SearchEngine._convert_moves] *)
Fixpoint _convert_moves (board : Board) (original_moves : list Core.Move)
  : option (list Move) :=
  match original_moves with
  | [] => Some []
  | move :: rest =>
      m ← convert_move board move;
      more ← _convert_moves board rest;
      Some (m :: more)
  end.

(** [SearchEngine._convert_back_to_original_move] *)
Fixpoint _convert_back_to_original_move (internal_move : Move)
    (original_moves : list Core.Move) : option Core.Move :=
  match original_moves with
  | [] => None
  | move :: rest =>
      if (Core.start_row move =? from_row internal_move) &&
         (Core.start_col move =? from_col internal_move) &&
         (Core.end_row move =? to_row internal_move) &&
         (Core.end_col move =? to_col internal_move)
      then Some move
      else _convert_back_to_original_move internal_move rest
  end.

(** [random.choice(l)]: some element of the list, IndexError on an empty
    one. *)
Definition random_choice {A} (env : Env) (l : list A) : SE A :=
  fun w =>
    match l !! (choose env (draws w) (length l) `mod` length l)%nat with
    | Some x => Some (x, set_draws (S (draws w)) w)
    | None => None
    end.

(** The loop [for depth in range(1, self.config.max_depth + 1)] of
    [find_best_move]. *)
Fixpoint deepening_loop (env : Env) (fuel : nat) (board : BoardRef)
    (is_white_turn : bool) (moves : list Move) (depths : list Z)
    (best_move : option Move) : SE (option Move) :=
  match depths with
  | [] => Py.ret best_move
  | depth :: rest =>
      stop <- _should_stop_search env ;;
      if (stop : bool) then Py.ret best_move
      else
        current_best <- _search_root env fuel board is_white_turn moves depth ;;
        stop2 <- _should_stop_search env ;;
        let best_move :=
          match current_best with
          | Some _ => if negb stop2 then current_best else best_move
          | None => best_move
          end in
        deepening_loop env fuel board is_white_turn moves rest best_move
  end.

(** The resets at the start of [find_best_move]. *)
Definition reset_search : SE unit :=
  Py.modify (set_nodes_searched 0) ;;;
  Py.modify (set_cancel_search false) ;;;
  Py.modify (fun w => set_tt (tt_new_search (tt w)) w) ;;;
  Py.modify (set_killer_moves ∅) ;;;
  Py.modify (set_history_scores ∅) ;;;
  Py.modify (set_stats (mkStats 0 0 0 0)).

(** [SearchEngine.find_best_move] *)
Definition find_best_move (env : Env) (fuel : nat) (board : BoardRef)
    (is_white_turn : bool) (valid_moves : list Core.Move) : SE (option Core.Move) :=
  reset_search ;;;
  match valid_moves with
  | [] => Py.ret None
  | [m] => Py.ret (Some m)
  | _ =>
      b <- load board ;;
      moves <- Py.lift (_convert_moves b valid_moves) ;;
      w <- Py.get ;;
      best_move <- deepening_loop env fuel board is_white_turn moves
                     (Py.range 1 (max_depth (config w) + 1)) None ;;
      match best_move with
      | Some bm => Py.ret (_convert_back_to_original_move bm valid_moves)
      | None => m <- random_choice env valid_moves ;; Py.ret (Some m)
      end
  end.

(** *** States of a transposition table

    The tables an engine can hold: the one [__init__] builds from a
    megabyte budget, and what the four methods make of it. *)
Inductive tt_reachable (size_mb : Z) : TranspositionTable -> Prop :=
| tt_reach_init : tt_reachable size_mb (tt_init size_mb)
| tt_reach_store t key dep sc fl bm :
    tt_reachable size_mb t ->
    tt_reachable size_mb (tt_store t key dep sc fl bm)
| tt_reach_probe t key dep alpha beta :
    tt_reachable size_mb t ->
    tt_reachable size_mb (snd (tt_probe t key dep alpha beta))
| tt_reach_new_search t :
    tt_reachable size_mb t ->
    tt_reachable size_mb (tt_new_search t)
| tt_reach_clear t :
    tt_reachable size_mb t ->
    tt_reachable size_mb (tt_clear t).

(** The entry [store] writes. *)
Definition new_entry (t : TranspositionTable) (dep sc fl : Z) (bm : option Move)
  : TranspositionEntry :=
  mkEntry sc dep fl bm (generation t).

(** How many searches lie between an entry and the current one. *)
Definition searches_old (t : TranspositionTable) (e : TranspositionEntry) : Z :=
  Z.abs (generation t - age e).

(** *** Boards of the expected shape *)

(** Eight rows of eight cells. *)
Definition wf_board (b : Board) : Prop :=
  length b = 8%nat /\ Forall (fun row => length row = 8%nat) b.

(** *** The fingerprint as a combination of contributions *)

(** The contribution of every occupied square, in the order of the scan. *)
Definition contributions (env : Env) (board : Board) : list Z :=
  omap (fun sq : Z * Z =>
          match Py.index2 board (fst sq) (snd sq) with
          | Some pc =>
              if String.eqb pc "--" then None
              else Some (hash_tuple env pc (fst sq) (snd sq))
          | None => None
          end) squares.

Definition xor_all (l : list Z) : Z := foldr Z.lxor 0 l.

(** The side-to-move contribution: one bit. *)
Definition side_bit (is_white_turn : bool) : Z := if is_white_turn then 1 else 0.

(** The XOR-combination the fingerprint is cut from. *)
Definition combined (env : Env) (board : Board) (is_white_turn : bool) : Z :=
  Z.lxor (xor_all (contributions env board)) (side_bit is_white_turn).

(** A board with the two kings only, and a hash whose values for the two
    occupied squares have bits above bit 30 set. *)
Definition two_kings_board : Board :=
  [ ["--";"--";"--";"--";"bK";"--";"--";"--"];
    ["--";"--";"--";"--";"--";"--";"--";"--"];
    ["--";"--";"--";"--";"--";"--";"--";"--"];
    ["--";"--";"--";"--";"--";"--";"--";"--"];
    ["--";"--";"--";"--";"--";"--";"--";"--"];
    ["--";"--";"--";"--";"--";"--";"--";"--"];
    ["--";"--";"--";"--";"--";"--";"--";"--"];
    ["--";"--";"--";"--";"wK";"--";"--";"--"] ].

Definition high_bits_env : Env :=
  {| stop_now := fun _ => false;
     choose := fun _ _ => 0%nat;
     hash_tuple := fun pc _ _ => if String.eqb pc "wK" then 2 ^ 40 else 2 ^ 35 |}.

(** *** Boards for the capture generator *)

(** A white pawn on its seventh rank next to a black rook it can capture
    on the last rank. *)
Definition promotion_capture_board : Board :=
  [ ["--";"bR";"--";"--";"bK";"--";"--";"--"];
    ["wp";"--";"--";"--";"--";"--";"--";"--"];
    ["--";"--";"--";"--";"--";"--";"--";"--"];
    ["--";"--";"--";"--";"--";"--";"--";"--"];
    ["--";"--";"--";"--";"--";"--";"--";"--"];
    ["--";"--";"--";"--";"--";"--";"--";"--"];
    ["--";"--";"--";"--";"--";"--";"--";"--"];
    ["--";"--";"--";"--";"wK";"--";"--";"--"] ].

(** What it means for a listed move to capture: it carries the piece that
    stands on its target square, and no special flag. *)
Definition plain_capture (board : Board) (m : Move) : Prop :=
  special_flag m = "" /\
  Py.index2 board (to_row m) (to_col m) = Some (captured m) /\
  captured m ≠ "--" /\ captured m ≠ "".

(** *** The effect of a computation on the heap of rows *)

(** From [w] to [w'] the heap has only been extended (every row object of
    [w] is unchanged in [w']) and no observation of the environment has
    been taken back. *)
Definition advances (w w' : World) : Prop :=
  heap w `prefix_of` heap w' /\ (polls w <= polls w')%nat.

(** A computation keeps the heap when every state it ends in advances the
    state it started from. *)
Definition keeps_heap {A} (m : SE A) : Prop :=
  forall w a w', m w = Some (a, w') -> advances w w'.

(** What a computation returns satisfies [P]. *)
Definition returns {A} (m : SE A) (P : A -> Prop) : Prop :=
  forall w a w', m w = Some (a, w') -> P a.

(** A position to search: white mates in one with the rook. *)
Definition mate_in_one_board : Board :=
  [ ["--";"--";"--";"--";"--";"--";"bK";"--"];
    ["--";"--";"--";"--";"--";"bp";"bp";"bp"];
    ["--";"--";"--";"--";"--";"--";"--";"--"];
    ["--";"--";"--";"--";"--";"--";"--";"--"];
    ["--";"--";"--";"--";"--";"--";"--";"--"];
    ["--";"--";"--";"--";"--";"--";"--";"--"];
    ["--";"--";"--";"--";"--";"wp";"wp";"wp"];
    ["--";"--";"--";"--";"wR";"--";"wK";"--"] ].

Definition mate_in_one_state : Core.GameState :=
  Core.set_current_castling_rights (Core.mkCastleRights false false false false)
    (Core.set_white_king_location (7, 6)
       (Core.set_black_king_location (0, 6)
          (Core.set_board mate_in_one_board Core.GameState_init))).

(** Its valid moves, as the game computes them. *)
Definition mate_in_one_moves : list Core.Move :=
  match Core.get_valid_moves mate_in_one_state with
  | Some (ms, _) => ms
  | None => []
  end.

(** A stand-in for Python's hash of [(piece, row, col)]. *)
Definition sample_hash (pc : string) (row col : Z) : Z :=
  match pc with
  | String a (String b _) =>
      (Z.of_nat (nat_of_ascii a) * 7919 + Z.of_nat (nat_of_ascii b) * 104729)
      * 4294967311 + (row * 8 + col + 1) * 1000003
  | _ => row * 8 + col
  end.

(** An environment in which the search is never stopped, and one in which
    it is stopped (cancelled, or out of time) from the [n]-th poll on. *)
Definition patient_env : Env :=
  {| stop_now := fun _ => false;
     choose := fun _ _ => 0%nat;
     hash_tuple := sample_hash |}.

Definition stopping_env (n : nat) : Env :=
  {| stop_now := fun k => (n <=? k)%nat;
     choose := fun _ _ => 0%nat;
     hash_tuple := sample_hash |}.

Definition small_config (d : Z) : AIConfig :=
  {| max_depth := d; tt_size_mb := 1; use_opening_book := true;
     use_null_move_pruning := true; use_lmr := true; use_killer_moves := true;
     piece_values := default_piece_values |}.

(** What a run of the search returned, and the entry it left in the
    transposition table under a key. *)
Definition returned {A} (run : option (A * World)) : option A :=
  match run with
  | Some (a, _) => Some a
  | None => None
  end.

Definition finished {A} (run : option (A * World)) : bool :=
  match run with
  | Some _ => true
  | None => false
  end.

Definition stored_at {A} (key : Z) (run : option (A * World))
  : option TranspositionEntry :=
  match run with
  | Some (_, w') => table (tt w') !! key
  | None => None
  end.

(** An engine whose heap holds the rows of the position, and the board
    made of these rows. *)
Definition mate_in_one_world (d : Z) : World :=
  SearchEngine_init (small_config d) mate_in_one_board.

Definition mate_in_one_ref : BoardRef := [0; 1; 2; 3; 4; 5; 6; 7]%nat.

(** The resets of [find_best_move] as a function on the state. *)
Definition after_reset (w : World) : World :=
  set_stats (mkStats 0 0 0 0)
    (set_history_scores ∅
       (set_killer_moves ∅
          (set_tt (tt_new_search (tt w))
             (set_cancel_search false (set_nodes_searched 0 w))))).

(** *** What a search does to the engine

    The elementary updates of the engine's state during a search, each
    with what the code guarantees at the place where it is made; [B]
    bounds the bonus of a history update. *)
Inductive step (B : Z) : World -> World -> Prop :=
| step_node w :
    step B w (set_nodes_searched (nodes_searched w + 1) w)
| step_poll w :
    step B w (set_polls (S (polls w)) w)
| step_draw w :
    step B w (set_draws (S (draws w)) w)
| step_rows w h :
    heap w `prefix_of` h -> step B w (set_heap h w)
| step_probe w key d a b :
    step B w (set_tt (tt_probe (tt w) key d a b).2 w)
| step_store w key d sc beta m :
    0 < d ->
    step B w (set_tt (tt_store (tt w) key d sc (tt_flag_of sc beta) (Some m)) w)
| step_killers_new w ply :
    killer_moves w !! ply = None ->
    step B w (set_killer_moves (<[ply := []]> (killer_moves w)) w)
| step_killer w ply ks move :
    killer_moves w !! ply = Some ks -> move ∉ ks -> captured move = "" ->
    step B w (set_killer_moves
              (<[ply := if 2 <? Z.of_nat (length (move :: ks))
                        then removelast (move :: ks) else move :: ks]>
                 (killer_moves w)) w)
| step_history_new w key :
    history_scores w !! key = None ->
    step B w (set_history_scores (<[key := 0]> (history_scores w)) w)
| step_history w key current bonus :
    history_scores w !! key = Some current -> Z.abs bonus <= B ->
    step B w (set_history_scores
              (<[key := current + bonus - (current * Z.abs bonus) `div` 512]>
                 (history_scores w)) w)
| step_beta_cutoff w (first : bool) :
    step B w (set_stats (mkStats (beta_cutoffs (stats w) + 1)
                         (if first then first_move_cutoffs (stats w) + 1
                          else first_move_cutoffs (stats w))
                         (null_move_cuts (stats w)) (lmr_saves (stats w))) w)
| step_null_move_cut w :
    step B w (set_stats (mkStats (beta_cutoffs (stats w)) (first_move_cutoffs (stats w))
                         (null_move_cuts (stats w) + 1) (lmr_saves (stats w))) w)
| step_lmr w n :
    n = 0 \/ n = 1 ->
    step B w (set_stats (mkStats (beta_cutoffs (stats w)) (first_move_cutoffs (stats w))
                         (null_move_cuts (stats w)) (lmr_saves (stats w) + n)) w).

(** A computation whose effect on the engine is a sequence of such
    updates. *)
Definition evolving {A} (B : Z) (m : SE A) : Prop :=
  forall w a w', m w = Some (a, w') -> rtc (step B) w w'.

(** An entry as the search writes it in the search number [g]. *)
Definition search_entry (g : Z) (e : TranspositionEntry) : Prop :=
  0 < depth e /\ is_Some (best_move e) /\ age e = g /\
  (flag e = EXACT \/ flag e = LOWER_BOUND \/ flag e = UPPER_BOUND).

(** The killer moves of every ply: at most two, all different, none a
    capture. *)
Definition killers_ok (w : World) : Prop :=
  forall ply ks, killer_moves w !! ply = Some ks ->
    (length ks <= 2)%nat /\ NoDup ks /\ Forall (fun m => captured m = "") ks.

(** The counters of the statistics. *)
Definition stats_ok (w : World) : Prop :=
  0 <= first_move_cutoffs (stats w) <= beta_cutoffs (stats w) /\
  0 <= null_move_cuts (stats w) /\ 0 <= lmr_saves (stats w) /\
  0 <= nodes_searched w.

(** *** The moves of the generator *)

(** What every move of the generator satisfies on the board it was
    generated from, for the side [color]: it stays on the board, it moves
    a piece of that side, it carries no special flag, and it goes to an
    empty square (then [captured] is empty) or to a square that holds a
    piece of the other side (then [captured] is that piece). *)
Definition sound_move (board : Board) (color : ascii) (m : Move) : Prop :=
  is_valid_square (from_row m) (from_col m) = true /\
  is_valid_square (to_row m) (to_col m) = true /\
  (from_row m, from_col m) <> (to_row m, to_col m) /\
  Py.chr (piece m) 0 = Some color /\
  special_flag m = "" /\
  exists t, Py.index2 board (to_row m) (to_col m) = Some t /\
    (t = "--" /\ captured m = "" \/
     t <> "--" /\ t <> "" /\ Py.chr t 0 <> Some color /\ captured m = t).

(** A move in a list of the given type: a move to an empty square is
    there when quiet moves were asked for, a move that takes a piece when
    captures were. *)
Definition fits (move_type : MoveType) (m : Move) : Prop :=
  (if String.eqb (captured m) "" then wants_quiet move_type
   else wants_captures move_type) = true.

#[export] Instance fits_dec (move_type : MoveType) (m : Move)
  : Decision (fits move_type m).
Proof. unfold fits. apply _. Defined.

(** An entry of [piece_positions] whose piece is a pawn for
    [_evaluate_piece_square_bonus]: the second character is [p] once
    lowered. *)
Definition pawn_entry (item : string * list (Z * Z)) : bool :=
  match Py.chr item.1 1 with
  | Some k => Ascii.eqb (lower k) "p"
  | None => false
  end.

(** The board has no cell equal to [pc]. *)
Definition absent (pc : string) (board : Board) : Prop :=
  Forall (fun row => pc ∉ row) board.

#[export] Instance absent_dec (pc : string) (board : Board)
  : Decision (absent pc board).
Proof. unfold absent. apply _. Defined.

(** A board on which Black has lost the king. *)
Definition kingless_board : Board :=
  [ ["--";"--";"--";"--";"--";"--";"--";"--"];
    ["--";"--";"--";"--";"bp";"--";"--";"--"];
    ["--";"--";"--";"--";"--";"--";"--";"--"];
    ["--";"--";"--";"--";"--";"--";"--";"--"];
    ["--";"--";"--";"--";"--";"--";"--";"--"];
    ["--";"--";"--";"--";"--";"--";"--";"--"];
    ["--";"--";"--";"--";"--";"wQ";"--";"--"];
    ["--";"--";"--";"--";"wK";"--";"--";"--"] ].

(** *** The moves of the game and the moves of the engine *)

(** The four coordinates by which the engine recognises a move of the
    game among the moves it was given. *)
Definition squares_of (m : Core.Move) : Z * Z * Z * Z :=
  (Core.start_row m, Core.start_col m, Core.end_row m, Core.end_col m).

Definition move_squares (m : Move) : Z * Z * Z * Z :=
  (from_row m, from_col m, to_row m, to_col m).


(** *** The history scores *)

(** Every history score lies within [-512, 512]. *)
Definition history_bounded (w : World) : Prop :=
  forall k v, history_scores w !! k = Some v -> -512 <= v <= 512.

(** A move without a special flag, as the generator of the engine makes
    them. *)
Definition unflagged (m : Move) : Prop :=
  special_flag m <> "promotion" /\ special_flag m <> "en_passant" /\
  special_flag m <> "castle".

End AI.

(* ===================================================================== *)
(** ** src/ai/opening_book.py *)
(* ===================================================================== *)

Module Book.

(** [ord(c)] *)
Definition ord (c : ascii) : Z := Z.of_nat (nat_of_ascii c).

(** [int(c)] for a string of one character: its value when it is a
    decimal digit, ValueError otherwise.  A [str] is modelled by a string
    of one-byte characters, so this is Python's [int] on ASCII text only:
    Python also reads the decimal digits of other scripts, and its [len]
    counts code points. *)
Definition int_of_char (c : ascii) : option Z :=
  if (48 <=? ord c) && (ord c <=? 57) then Some (ord c - 48) else None.

(** [OpeningBook.algebraic_to_move]: the outer [None] is an exception, the
    inner one the value [None]. *)
Definition algebraic_to_move (move_str : string)
  : option (option ((Z * Z) * (Z * Z))) :=
  if negb (Z.of_nat (String.length move_str) =? 4) then Some None
  else
    c0 ← Py.chr move_str 0;
    let from_col := ord c0 - ord "a" in
    c1 ← Py.chr move_str 1;
    d1 ← int_of_char c1;
    let from_row := 8 - d1 in
    c2 ← Py.chr move_str 2;
    let to_col := ord c2 - ord "a" in
    c3 ← Py.chr move_str 3;
    d3 ← int_of_char c3;
    let to_row := 8 - d3 in
    Some (Some ((from_row, from_col), (to_row, to_col))).

End Book.


(* ===================================================================== *)
(** ** Properties of the transposition table *)
(* ===================================================================== *)

Module TranspositionTableFacts.
Import AI.

Lemma tt_store_other t key dep sc fl bm k :
  k ≠ key -> table (tt_store t key dep sc fl bm) !! k = table t !! k.
Proof.
  intros Hk. unfold tt_store.
  destruct (table t !! key) as [old|]; repeat case_match; simpl;
    try reflexivity; by rewrite lookup_insert_ne.
Qed.

Lemma tt_store_fields t key dep sc fl bm :
  size (tt_store t key dep sc fl bm) = size t /\
  generation (tt_store t key dep sc fl bm) = generation t /\
  hits (tt_store t key dep sc fl bm) = hits t /\
  misses (tt_store t key dep sc fl bm) = misses t.
Proof.
  unfold tt_store. destruct (table t !! key); repeat case_match; simpl; auto.
Qed.

(** C6.  [store] on a key that is present writes the new entry exactly
    when the incoming depth is at least the stored depth or the stored
    entry is more than two searches old, and changes nothing otherwise;
    on a key that is absent it inserts the entry exactly when the table
    holds fewer entries than its capacity, and changes nothing otherwise.
    The other keys are never touched. *)
Theorem tt_store_policy (t : TranspositionTable) (key dep sc fl : Z)
    (bm : option Move) :
  let t' := tt_store t key dep sc fl bm in
  let e := new_entry t dep sc fl bm in
  match table t !! key with
  | Some old =>
      (table t' !! key = Some e <-> depth old <= dep \/ 2 < searches_old t old) /\
      (table t' !! key = Some e \/ t' = t)
  | None =>
      (table t' !! key = Some e <-> Z.of_nat (base.size (table t)) < size t) /\
      (table t' !! key = Some e \/ t' = t)
  end.
Proof.
  intros t' e. subst t' e. unfold tt_store, new_entry, searches_old.
  destruct (table t !! key) as [old|] eqn:Hk.
  - destruct (orb _ _) eqn:Hc.
    + simpl. rewrite lookup_insert_eq. split; [|by left].
      split; [intros _|done].
      apply orb_true_iff in Hc as [H|H]; [left|right]; lia.
    + apply orb_false_iff in Hc as [H1 H2]. split; [|by right].
      rewrite Hk. split.
      * intros [= ->]. simpl in H1. lia.
      * intros [H|H]; lia.
  - destruct (_ <? _) eqn:Hc.
    + simpl. rewrite lookup_insert_eq. split; [|by left].
      split; [intros _; lia|done].
    + split; [|by right]. rewrite Hk. split; [done|lia].
Qed.

Lemma tt_store_size t key dep sc fl bm :
  Z.of_nat (base.size (table t)) <= size t ->
  Z.of_nat (base.size (table (tt_store t key dep sc fl bm))) <= size t.
Proof.
  intros Hb. unfold tt_store.
  destruct (table t !! key) as [old|] eqn:Hk; repeat case_match; simpl; try done.
  - rewrite map_size_insert_Some; [done|eauto].
  - rewrite map_size_insert_None; [lia|done].
Qed.

(** C7.  A table built from a positive megabyte budget has the capacity
    [size_mb * 1024 * 1024 / 32] and never holds more entries than that,
    whatever sequence of [store], [probe], [new_search] and [clear]
    follows its construction. *)
Theorem tt_capacity_bound (size_mb : Z) (t : TranspositionTable) :
  0 < size_mb ->
  tt_reachable size_mb t ->
  size t = (size_mb * 1024 * 1024) `div` 32 /\
  Z.of_nat (base.size (table t)) <= size t.
Proof.
  intros Hpos Hr. induction Hr as [|t key dep sc fl bm _ [IHs IHb]
    |t key dep alpha beta _ [IHs IHb]|t _ [IHs IHb]|t _ [IHs IHb]].
  - split; [done|]. simpl. rewrite map_size_empty.
    apply Z.div_pos; lia.
  - destruct (tt_store_fields t key dep sc fl bm) as (-> & _).
    split; [done|]. by apply tt_store_size.
  - unfold tt_probe. destruct (table t !! key); repeat case_match; simpl; auto.
  - done.
  - split; [done|]. simpl. rewrite map_size_empty. simpl in *. rewrite IHs.
    apply Z.div_pos; lia.
Qed.

Lemma tt_capacity_bound_witness :
  tt_reachable 1 (tt_store (tt_new_search (tt_init 1)) 42 3 10 EXACT None) /\
  size (tt_store (tt_new_search (tt_init 1)) 42 3 10 EXACT None) = 32768 /\
  Z.of_nat (base.size (table (tt_store (tt_new_search (tt_init 1)) 42 3 10 EXACT None)))
    <= size (tt_store (tt_new_search (tt_init 1)) 42 3 10 EXACT None).
Proof.
  assert (Hr : tt_reachable 1 (tt_store (tt_new_search (tt_init 1)) 42 3 10 EXACT None))
    by (apply tt_reach_store, tt_reach_new_search, tt_reach_init).
  split; [exact Hr|].
  exact (tt_capacity_bound 1 _ ltac:(lia) Hr).
Defined.

(** On the tables an engine can hold, no entry is younger than the
    current generation, so "searches old" is the plain difference. *)
Lemma tt_ages_bounded (size_mb : Z) (t : TranspositionTable) :
  tt_reachable size_mb t ->
  0 <= generation t /\
  forall k e, table t !! k = Some e -> 0 <= age e <= generation t.
Proof.
  induction 1 as [|t key dep sc fl bm _ [IHg IH]
    |t key dep alpha beta _ [IHg IH]|t _ [IHg IH]|t _ [IHg IH]].
  - split; [done|]. intros k e. simpl. by rewrite lookup_empty.
  - destruct (tt_store_fields t key dep sc fl bm) as (_ & -> & _).
    split; [done|]. intros k e.
    destruct (decide (k = key)) as [->|Hne].
    + unfold tt_store. destruct (table t !! key) as [old|] eqn:Hk;
        repeat case_match; simpl; rewrite ?lookup_insert_eq, ?Hk;
        intros [= <-]; simpl; eauto; lia.
    + rewrite tt_store_other by done. apply IH.
  - unfold tt_probe. destruct (table t !! key); repeat case_match; simpl; auto.
  - simpl. split; [lia|]. intros k e He. specialize (IH k e He). lia.
  - simpl. split; [done|]. intros k e. by rewrite lookup_empty.
Qed.

Lemma searches_old_reachable (size_mb : Z) (t : TranspositionTable) k e :
  tt_reachable size_mb t -> table t !! k = Some e ->
  searches_old t e = generation t - age e.
Proof.
  intros Hr He. destruct (tt_ages_bounded _ _ Hr) as [_ H].
  specialize (H k e He). unfold searches_old. lia.
Qed.

End TranspositionTableFacts.

(* ===================================================================== *)
(** ** Properties of the position fingerprint *)
(* ===================================================================== *)

Module FingerprintFacts.
Import AI.

Lemma index_in_range {A} (l : list A) (i : Z) :
  0 <= i < Z.of_nat (length l) -> Py.index l i = l !! Z.to_nat i.
Proof.
  intros Hi. unfold Py.index.
  destruct (Z.leb_spec 0 i); [|lia]. destruct (Z.ltb_spec i (Z.of_nat (length l))); [|lia].
  reflexivity.
Qed.

Lemma index2_wf (b : Board) (r c : Z) :
  wf_board b -> 0 <= r < 8 -> 0 <= c < 8 -> is_Some (Py.index2 b r c).
Proof.
  intros [Hl Hrows] Hr Hc. unfold Py.index2.
  rewrite index_in_range by lia.
  destruct (lookup_lt_is_Some_2 b (Z.to_nat r)) as [row Hrow]; [lia|].
  rewrite Hrow.
  assert (length row = 8%nat) as Hlen
    by (eapply (proj1 (Forall_forall _ _) Hrows), list_elem_of_lookup_2, Hrow).
  rewrite index_in_range by lia.
  apply lookup_lt_is_Some_2. lia.
Qed.

Lemma squares_in_range : Forall (fun sq : Z * Z => 0 <= sq.1 < 8 /\ 0 <= sq.2 < 8) squares.
Proof. repeat constructor; simpl; lia. Qed.

Lemma key_loop_xor (env : Env) (board : Board) (sqs : list (Z * Z)) (key k : Z) :
  key_loop env board sqs key = Some k ->
  k = Z.lxor key
        (xor_all (omap (fun sq : Z * Z =>
                          match Py.index2 board sq.1 sq.2 with
                          | Some pc =>
                              if String.eqb pc "--" then None
                              else Some (hash_tuple env pc sq.1 sq.2)
                          | None => None
                          end) sqs)).
Proof.
  revert key. induction sqs as [|[row col] rest IH]; intros key; simpl.
  - intros [= <-]. by rewrite Z.lxor_0_r.
  - destruct (Py.index2 board row col) as [pc|] eqn:Hpc; simpl; [|done].
    intros Hk. apply IH in Hk. subst k.
    destruct (String.eqb pc "--"); simpl; [done|].
    by rewrite Z.lxor_assoc.
Qed.

Lemma key_loop_total (env : Env) (board : Board) (sqs : list (Z * Z)) (key : Z) :
  wf_board board ->
  Forall (fun sq : Z * Z => 0 <= sq.1 < 8 /\ 0 <= sq.2 < 8) sqs ->
  is_Some (key_loop env board sqs key).
Proof.
  intros Hwf Hsq. revert key.
  induction Hsq as [|[row col] rest [Hr Hc] _ IH]; intros key; simpl; [eauto|].
  destruct (index2_wf board row col Hwf Hr Hc) as [pc ->]. simpl. apply IH.
Qed.

(** C5, as the code has it.  On every board of eight rows of eight cells
    the fingerprint is computed, and it is the XOR-combination of the
    contributions of the occupied squares and of the side-to-move bit
    reduced to its low 31 bits: an integer of [0, 2^31). *)
Theorem position_key_low_31_bits (env : Env) (board : Board) (is_white_turn : bool) :
  wf_board board ->
  exists k,
    _get_position_key env board is_white_turn = Some k /\
    k = combined env board is_white_turn `mod` 2 ^ 31 /\
    0 <= k < 2 ^ 31.
Proof.
  intros Hwf. unfold _get_position_key.
  destruct (key_loop_total env board squares 0 Hwf squares_in_range) as [k0 Hk0].
  rewrite Hk0. simpl. eexists. split; [reflexivity|].
  apply key_loop_xor in Hk0. rewrite Z.lxor_0_l in Hk0.
  assert (Z.land (if is_white_turn then Z.lxor k0 1 else k0) 2147483647
          = combined env board is_white_turn `mod` 2 ^ 31) as ->.
  { change 2147483647 with (Z.ones 31). rewrite Z.land_ones by lia.
    f_equal. unfold combined, side_bit, contributions. rewrite <- Hk0.
    destruct is_white_turn; rewrite ?Z.lxor_0_r; reflexivity. }
  split; [done|]. apply Z.mod_pos_bound. lia.
Qed.

Lemma two_kings_board_wf : wf_board two_kings_board.
Proof. split; [reflexivity|]. repeat constructor. Qed.

Lemma position_key_low_31_bits_witness :
  exists k,
    _get_position_key high_bits_env two_kings_board true = Some k /\
    k = combined high_bits_env two_kings_board true `mod` 2 ^ 31 /\
    0 <= k < 2 ^ 31.
Proof.
  exact (position_key_low_31_bits high_bits_env two_kings_board true
           two_kings_board_wf).
Defined.

(** C5, as the claim words it, fails: with hash values that have bits
    above bit 30 set, the fingerprint is not the low 63 bits of the
    combination. *)
Lemma position_key_not_low_63_bits :
  _get_position_key high_bits_env two_kings_board true = Some 1 /\
  combined high_bits_env two_kings_board true `mod` 2 ^ 63 = 2 ^ 40 + 2 ^ 35 + 1 /\
  _get_position_key high_bits_env two_kings_board true
    <> Some (combined high_bits_env two_kings_board true `mod` 2 ^ 63).
Proof.
  assert (H1 : _get_position_key high_bits_env two_kings_board true = Some 1)
    by (vm_compute; reflexivity).
  assert (H2 : combined high_bits_env two_kings_board true `mod` 2 ^ 63
               = 2 ^ 40 + 2 ^ 35 + 1) by (vm_compute; reflexivity).
  split; [exact H1|]. split; [exact H2|].
  rewrite H1, H2. intros H. vm_compute in H. discriminate H.
Qed.

End FingerprintFacts.

(* ===================================================================== *)
(** ** Properties of the capture generator *)
(* ===================================================================== *)

Module CaptureGeneratorFacts.
Import AI.

Lemma extend_all_Forall {A B} (P : B -> Prop) (f : A -> option (list B))
    (items : list A) (l : list B) :
  (forall i li, i ∈ items -> f i = Some li -> Forall P li) ->
  extend_all f items = Some l -> Forall P l.
Proof.
  revert l. induction items as [|x rest IH]; intros l Hf; simpl.
  - intros [= <-]. constructor.
  - intros H. apply bind_Some in H as (here & Hhere & H).
    apply bind_Some in H as (more & Hmore & [= <-]).
    apply Forall_app. split.
    + eapply Hf; [left|done].
    + apply IH; [|done]. intros i li Hi. apply Hf. by right.
Qed.

Lemma extend_all_elem {A B} (f : A -> option (list B)) (items : list A)
    (l : list B) (i : A) (li : list B) (x : B) :
  extend_all f items = Some l -> i ∈ items -> f i = Some li -> x ∈ li -> x ∈ l.
Proof.
  revert l. induction items as [|y rest IH]; intros l; simpl.
  - intros _ Hi. by apply elem_of_nil in Hi.
  - intros H Hi Hfi Hx. apply bind_Some in H as (here & Hhere & H).
    apply bind_Some in H as (more & Hmore & [= <-]).
    apply elem_of_app. apply elem_of_cons in Hi as [->|Hi].
    + left. congruence.
    + right. by eapply IH.
Qed.

Lemma chr_nonempty (t : string) (c : ascii) : Py.chr t 0 = Some c -> t ≠ "".
Proof. intros H ->. discriminate H. Qed.

Lemma pawn_capture_plain board row col color direction dc l :
  pawn_capture board row col color direction dc = Some l ->
  Forall (plain_capture board) l.
Proof.
  unfold pawn_capture. destruct (is_valid_square _ _); [|intros [= <-]; constructor].
  intros H. apply bind_Some in H as (t & Ht & H).
  destruct (String.eqb_spec t "--") as [->|Hne]; simpl in H;
    [injection H as <-; constructor|].
  apply bind_Some in H as (c0 & Hc0 & H).
  destruct (negb _); injection H as <-; repeat constructor; simpl; try done.
  by eapply chr_nonempty.
Qed.

Lemma slide_ray_plain board row col color pc dr dc steps l :
  slide_ray board row col color pc dr dc CAPTURES steps = Some l ->
  Forall (plain_capture board) l.
Proof.
  revert l. induction steps as [|i rest IH]; intros l; simpl.
  - intros [= <-]. constructor.
  - destruct (negb (is_valid_square _ _)); [intros [= <-]; constructor|].
    intros H. apply bind_Some in H as (t & Ht & H).
    destruct (String.eqb_spec t "--") as [->|Hne].
    + apply bind_Some in H as (more & Hmore & [= <-]). simpl. by apply IH.
    + apply bind_Some in H as (c0 & Hc0 & H).
      destruct (negb _); injection H as <-; repeat constructor; simpl; try done.
      by eapply chr_nonempty.
Qed.

Lemma slide_dirs_plain board row col color pc dirs l :
  slide_dirs board row col color pc CAPTURES dirs = Some l ->
  Forall (plain_capture board) l.
Proof.
  revert l. induction dirs as [|[dr dc] rest IH]; intros l; cbn [slide_dirs].
  - intros [= <-]. constructor.
  - intros H. apply bind_Some in H as (here & Hhere & H).
    apply bind_Some in H as (more & Hmore & [= <-]).
    apply Forall_app. split; [by eapply slide_ray_plain|by apply IH].
Qed.

Lemma step_offsets_plain board row col color pc offs l :
  step_offsets board row col color pc CAPTURES offs = Some l ->
  Forall (plain_capture board) l.
Proof.
  revert l. induction offs as [|[dr dc] rest IH]; intros l; simpl.
  - intros [= <-]. constructor.
  - intros H. apply bind_Some in H as (here & Hhere & H).
    apply bind_Some in H as (more & Hmore & [= <-]).
    apply Forall_app. split; [|by apply IH].
    destruct (is_valid_square _ _); [|injection Hhere as <-; constructor].
    apply bind_Some in Hhere as (t & Ht & H).
    destruct (String.eqb_spec t "--") as [->|Hne];
      [injection H as <-; constructor|].
    apply bind_Some in H as (c0 & Hc0 & H).
    destruct (negb _); injection H as <-; repeat constructor; simpl; try done.
    by eapply chr_nonempty.
Qed.

Lemma pawn_moves_captures board row col color l :
  _get_pawn_moves board row col color CAPTURES = Some l ->
  exists left right,
    pawn_capture board row col color (if Ascii.eqb color "w" then -1 else 1) (-1)
      = Some left /\
    pawn_capture board row col color (if Ascii.eqb color "w" then -1 else 1) 1
      = Some right /\
    l = left ++ right.
Proof.
  unfold _get_pawn_moves. simpl. intros H.
  apply bind_Some in H as (caps & Hcaps & [= <-]).
  apply bind_Some in Hcaps as (left & Hl & H).
  apply bind_Some in H as (right & Hr & [= <-]). eauto.
Qed.

Lemma piece_moves_plain board row col pc l :
  _get_piece_moves board row col pc CAPTURES = Some l ->
  Forall (plain_capture board) l.
Proof.
  unfold _get_piece_moves. intros H.
  apply bind_Some in H as (k & Hk & H). apply bind_Some in H as (color & Hc & H).
  repeat case_match.
  - apply pawn_moves_captures in H as (left & right & Hl & Hr & ->).
    apply Forall_app. split; by eapply pawn_capture_plain.
  - unfold _get_sliding_moves in H. apply bind_Some in H as (p & _ & H).
    by eapply slide_dirs_plain.
  - unfold _get_knight_moves in H. apply bind_Some in H as (p & _ & H).
    by eapply step_offsets_plain.
  - unfold _get_sliding_moves in H. apply bind_Some in H as (p & _ & H).
    by eapply slide_dirs_plain.
  - unfold _get_sliding_moves in H. apply bind_Some in H as (p & _ & H).
    by eapply slide_dirs_plain.
  - unfold _get_king_moves in H. apply bind_Some in H as (p & _ & H).
    by eapply step_offsets_plain.
  - injection H as <-. constructor.
Qed.

Lemma moves_at_plain board color sq l :
  moves_at board color CAPTURES sq = Some l -> Forall (plain_capture board) l.
Proof.
  destruct sq as [row col]. unfold moves_at. intros H.
  apply bind_Some in H as (pc & Hpc & H).
  destruct (negb _); [|injection H as <-; constructor].
  apply bind_Some in H as (c0 & Hc0 & H).
  destruct (Ascii.eqb _ _); [|injection H as <-; constructor].
  by eapply piece_moves_plain.
Qed.

Lemma squares_elem (r c : Z) : 0 <= r < 8 -> 0 <= c < 8 -> (r, c) ∈ squares.
Proof.
  intros Hr Hc.
  assert (r = 0 \/ r = 1 \/ r = 2 \/ r = 3 \/ r = 4 \/ r = 5 \/ r = 6 \/ r = 7)
    as Hr' by lia.
  assert (c = 0 \/ c = 1 \/ c = 2 \/ c = 3 \/ c = 4 \/ c = 5 \/ c = 6 \/ c = 7)
    as Hc' by lia.
  apply list_elem_of_In.
  repeat (destruct Hr' as [->|Hr']); try subst r;
    repeat (destruct Hc' as [->|Hc']); try subst c;
    vm_compute; tauto.
Qed.

Lemma extend_all_item {A B} (f : A -> option (list B)) (items : list A)
    (l : list B) (i : A) :
  extend_all f items = Some l -> i ∈ items ->
  exists li, f i = Some li /\ forall x, x ∈ li -> x ∈ l.
Proof.
  revert l. induction items as [|y rest IH]; intros l; simpl.
  - intros _ Hi. by apply elem_of_nil in Hi.
  - intros H Hi. apply bind_Some in H as (here & Hhere & H).
    apply bind_Some in H as (more & Hmore & [= <-]).
    apply elem_of_cons in Hi as [->|Hi].
    + exists here. split; [done|]. intros x Hx. apply elem_of_app. by left.
    + destruct (IH more Hmore Hi) as (li & Hli & Hsub).
      exists li. split; [done|]. intros x Hx. apply elem_of_app. right. by apply Hsub.
Qed.

(** C4, as the code has it.  Every move of the list quiescence searches is
    a capture of the piece that stands on the target square and carries no
    special flag; so no move is flagged en-passant or promotion, and no
    move goes to an empty square, as an en-passant capture would.  Every
    capture a pawn of the side to move can make on a diagonal, also onto
    the last rank, is in the list, as such a plain capture. *)
Theorem quiescence_captures_are_plain (board : Board) (is_white_turn : bool)
    (l : list Move) :
  generate_moves board is_white_turn CAPTURES = Some l ->
  (forall m, m ∈ l -> plain_capture board m) /\
  (forall (r c dc : Z) (t : string) (c0 : ascii),
      let color : ascii := if is_white_turn then "w"%char else "b"%char in
      let direction := if is_white_turn then -1 else 1 in
      0 <= r < 8 -> 0 <= c < 8 -> dc = -1 \/ dc = 1 ->
      Py.index2 board r c = Some (tag color "p") ->
      is_valid_square (r + direction) (c + dc) = true ->
      Py.index2 board (r + direction) (c + dc) = Some t ->
      t ≠ "--" -> Py.chr t 0 = Some c0 -> c0 ≠ color ->
      mkMove r c (r + direction) (c + dc) (tag color "p") t "" ∈ l).
Proof.
  intros Hgen. split.
  - apply Forall_forall. unfold generate_moves in Hgen.
    eapply extend_all_Forall; [|exact Hgen].
    intros sq li _. apply moves_at_plain.
  - intros r c dc t c0 color direction Hr Hc Hdc Hpawn Hvalid Ht Hne Hc0 Hcol.
    unfold generate_moves in Hgen. fold color in Hgen.
    destruct (extend_all_item _ _ _ (r, c) Hgen (squares_elem r c Hr Hc))
      as (li & Hli & Hsub).
    apply Hsub. clear Hsub Hgen.
    assert (color = "w"%char \/ color = "b"%char) as Hwb
      by (subst color; destruct is_white_turn; auto).
    assert ((if Ascii.eqb color "w" then -1 else 1) = direction) as Hdir
      by (subst color direction; by destruct is_white_turn).
    clearbody color direction.
    unfold moves_at in Hli. rewrite Hpawn in Hli.
    assert (_get_pawn_moves board r c color CAPTURES = Some li) as Hpm
      by (destruct Hwb; subst color; exact Hli).
    clear Hli.
    apply pawn_moves_captures in Hpm as (left & right & Hl & Hr' & ->).
    rewrite Hdir in Hl, Hr'.
    assert (pawn_capture board r c color direction dc
            = Some [mkMove r c (r + direction) (c + dc) (tag color "p") t ""])
      as Hcap.
    { unfold pawn_capture. rewrite Hvalid, Ht. simpl.
      destruct (String.eqb_spec t "--") as [->|_]; [done|]. simpl.
      rewrite Hc0. simpl.
      destruct (Ascii.eqb_spec c0 color) as [->|_]; [done|]. reflexivity. }
    apply elem_of_app. destruct Hdc as [-> | ->].
    + left. rewrite Hcap in Hl. injection Hl as <-. left.
    + right. rewrite Hcap in Hr'. injection Hr' as <-. left.
Qed.

Lemma quiescence_captures_are_plain_witness :
  generate_moves promotion_capture_board true CAPTURES
    = Some [mkMove 1 0 0 1 "wp" "bR" ""] /\
  (forall m, m ∈ [mkMove 1 0 0 1 "wp" "bR" ""] ->
             plain_capture promotion_capture_board m) /\
  mkMove 1 0 0 1 "wp" "bR" "" ∈ [mkMove 1 0 0 1 "wp" "bR" ""].
Proof.
  assert (Hg : generate_moves promotion_capture_board true CAPTURES
               = Some [mkMove 1 0 0 1 "wp" "bR" ""]) by (vm_compute; reflexivity).
  destruct (quiescence_captures_are_plain _ _ _ Hg) as [H1 H2].
  split; [exact Hg|]. split; [exact H1|].
  apply (H2 1 0 1 "bR" "b"%char); try lia; try reflexivity; try discriminate.
Defined.

(** C4, as the claim words it, fails.  A white pawn on its seventh rank
    can capture a rook on the last rank: the list holds no move flagged
    as a promotion.  After 1. e4 d5 2. e5 f5 the valid moves of the game
    hold an en-passant capture: the list holds no move flagged as
    en-passant (it is empty). *)
Lemma quiescence_captures_miss_special_moves :
  (Py.index2 promotion_capture_board 1 0 = Some "wp" /\
   Py.index2 promotion_capture_board 0 1 = Some "bR" /\
   exists l, generate_moves promotion_capture_board true CAPTURES = Some l /\
             Forall (fun m => special_flag m <> "promotion") l) /\
  (exists s ms s',
     Core.play Core.game_en_passant Core.GameState_init = Some s /\
     Core.get_valid_moves s = Some (ms, s') /\
     existsb Core.enPassant ms = true /\
     exists l, generate_moves (Core.board s') (Core.white_to_move s') CAPTURES
               = Some l /\
               Forall (fun m => special_flag m <> "en_passant") l).
Proof.
  split.
  - split; [reflexivity|]. split; [reflexivity|].
    eexists. split; [vm_compute; reflexivity|].
    repeat constructor; discriminate.
  - do 3 eexists. split; [vm_compute; reflexivity|].
    split; [vm_compute; reflexivity|].
    split; [vm_compute; reflexivity|].
    eexists. split; [vm_compute; reflexivity|]. constructor.
Qed.

End CaptureGeneratorFacts.

(* ===================================================================== *)
(** ** Games: legality of the listed moves, making and unmaking *)
(* ===================================================================== *)

Module GameFacts.
Import Core.

Lemma pick_elem (c : Z * Z * Z * Z) (ms : list Move) (m : Move) :
  pick c ms = Some m -> m ∈ ms.
Proof.
  destruct c as [[[sr sc] er] ec]. unfold pick. intros H.
  apply find_some in H as [H _]. by apply list_elem_of_In.
Qed.

Lemma play1_reachable (c : Z * Z * Z * Z) (s s' : GameState) :
  reachable s -> play1 c s = Some s' -> reachable s'.
Proof.
  unfold play1. intros Hr H.
  destruct (get_valid_moves s) as [[ms s1]|] eqn:Hv; [|done].
  destruct (pick c ms) as [m|] eqn:Hp; [|done].
  destruct (make_move m s1) as [[[] s2]|] eqn:Hm; [|done].
  injection H as <-.
  eapply reach_make_move; eauto using pick_elem.
Qed.

Lemma play_reachable (cs : list (Z * Z * Z * Z)) (s s' : GameState) :
  reachable s -> play cs s = Some s' -> reachable s'.
Proof.
  revert s. induction cs as [|c rest IH]; intros s Hr; simpl.
  - by intros [= <-].
  - destruct (play1 c s) as [s1|] eqn:H1; [|done].
    intros H. eapply IH; [|exact H]. by eapply play1_reachable.
Qed.

(** After 1. h4 g5 2. hxg5 h5 3. Nf3 h4 4. e3 h3 5. Be2 h2 the list of
    valid moves holds the castling e1-g1, and after it the white king
    stands on g1, attacked by the pawn on h2. *)
Lemma castling_into_pawn_attack_is_listed :
  exists s ms s1 m s2,
    play game_pawn_on_h2 GameState_init = Some s /\
    reachable s /\
    get_valid_moves s = Some (ms, s1) /\
    pick (7, 4, 7, 6) ms = Some m /\
    is_castle_move m = true /\
    make_move m s1 = Some (tt, s2) /\
    Py.index2 (board s2) 7 6 = Some "wK" /\
    Py.index2 (board s2) 6 7 = Some "bp" /\
    mover_in_check s2 = Some true.
Proof.
  do 5 eexists.
  split; [vm_compute; reflexivity|].
  split; [apply (play_reachable game_pawn_on_h2 GameState_init); [apply reach_init|vm_compute; reflexivity]|].
  split; [vm_compute; reflexivity|].
  split; [vm_compute; reflexivity|].
  split; [reflexivity|].
  split; [vm_compute; reflexivity|].
  repeat split; vm_compute; reflexivity.
Qed.

(** After 1. a4 f5 2. Ra3 f4 3. Rd3 Kf7 4. Rd4 Kg6 5. b3 Kh5 6. c3 Kh4
    7. g4 the list of valid moves holds the en-passant capture f4xg3, and
    after it the black king on h4 is attacked along the rank by the rook
    on d4. *)
Lemma en_passant_into_rook_attack_is_listed :
  exists s ms s1 m s2,
    play game_rook_on_fourth_rank GameState_init = Some s /\
    reachable s /\
    get_valid_moves s = Some (ms, s1) /\
    pick (4, 5, 5, 6) ms = Some m /\
    enPassant m = true /\
    make_move m s1 = Some (tt, s2) /\
    Py.index2 (board s2) 4 7 = Some "bK" /\
    Py.index2 (board s2) 4 3 = Some "wR" /\
    mover_in_check s2 = Some true.
Proof.
  do 5 eexists.
  split; [vm_compute; reflexivity|].
  split; [apply (play_reachable game_rook_on_fourth_rank GameState_init); [apply reach_init|vm_compute; reflexivity]|].
  split; [vm_compute; reflexivity|].
  split; [vm_compute; reflexivity|].
  split; [reflexivity|].
  split; [vm_compute; reflexivity|].
  repeat split; vm_compute; reflexivity.
Qed.

(** C1: what the code does against the claim.  There are states of a game
    and moves of their list of valid moves, a castling and an en-passant
    capture, after which the king of the side that moved is attacked. *)
Theorem valid_moves_leave_king_attacked :
  (exists s ms s1 m s2,
     reachable s /\ get_valid_moves s = Some (ms, s1) /\ m ∈ ms /\
     is_castle_move m = true /\
     make_move m s1 = Some (tt, s2) /\ mover_in_check s2 = Some true) /\
  (exists s ms s1 m s2,
     reachable s /\ get_valid_moves s = Some (ms, s1) /\ m ∈ ms /\
     enPassant m = true /\
     make_move m s1 = Some (tt, s2) /\ mover_in_check s2 = Some true).
Proof.
  split.
  - destruct castling_into_pawn_attack_is_listed
      as (s & ms & s1 & m & s2 & _ & Hr & Hv & Hp & Hc & Hm & _ & _ & Hk).
    exists s, ms, s1, m, s2. eauto 10 using pick_elem.
  - destruct en_passant_into_rook_attack_is_listed
      as (s & ms & s1 & m & s2 & _ & Hr & Hv & Hp & He & Hm & _ & _ & Hk).
    exists s, ms, s1, m, s2. eauto 10 using pick_elem.
Qed.

(** C2: what the code does against the claim.  After 1. e4 d5 2. e5 f5
    the en-passant capture e5xf6 is a valid move; making it and undoing
    it gives back the side to move, the castling rights, the en-passant
    target and the king locations, but not the board: a black pawn is
    left on f6, which was empty. *)
Theorem undo_en_passant_leaves_pawn :
  exists s ms s1 m s2 s3,
    play game_en_passant GameState_init = Some s /\
    reachable s /\
    get_valid_moves s = Some (ms, s1) /\
    m ∈ ms /\ enPassant m = true /\
    make_move m s1 = Some (tt, s2) /\
    undo_move s2 = Some (true, s3) /\
    Py.index2 (board s1) 2 5 = Some "--" /\
    Py.index2 (board s3) 2 5 = Some "bp" /\
    board s3 <> board s1 /\
    white_to_move s3 = white_to_move s1 /\
    current_castling_rights s3 = current_castling_rights s1 /\
    enPassant_possible s3 = enPassant_possible s1 /\
    white_king_location s3 = white_king_location s1 /\
    black_king_location s3 = black_king_location s1.
Proof.
  do 6 eexists.
  split; [vm_compute; reflexivity|].
  split; [apply (play_reachable game_en_passant GameState_init); [apply reach_init|vm_compute; reflexivity]|].
  split; [vm_compute; reflexivity|].
  split; [eapply (pick_elem (3, 4, 2, 5)); vm_compute; reflexivity|].
  split; [reflexivity|].
  split; [vm_compute; reflexivity|].
  split; [vm_compute; reflexivity|].
  split; [reflexivity|]. split; [reflexivity|].
  split; [intros H; vm_compute in H; discriminate H|].
  repeat split; reflexivity.
Qed.

(** *** The flags set by [get_valid_moves] *)

Lemma kf_ret {A} (a : A) : keeps_flags (Py.ret a).
Proof. by intros s a' s' [= _ <-]. Qed.

Lemma kf_bind {A B} (m : GS A) (k : A -> GS B) :
  keeps_flags m -> (forall a, keeps_flags (k a)) -> keeps_flags (Py.bind m k).
Proof.
  intros Hm Hk s b s'. unfold Py.bind.
  destruct (m s) as [[a s1]|] eqn:E; [|done].
  intros H. etrans; [eapply Hk, H|eapply Hm, E].
Qed.

Lemma kf_lift {A} (o : option A) : keeps_flags (Py.lift o).
Proof. intros s a s'. unfold Py.lift. destruct o; [|done]. by intros [= _ <-]. Qed.

Lemma kf_get : keeps_flags (Py.get (S := GameState)).
Proof. by intros s a s' [= _ <-]. Qed.

Lemma kf_modify (f : GameState -> GameState) :
  (forall s, flags (f s) = flags s) -> keeps_flags (Py.modify f).
Proof. intros Hf s a s' [= _ <-]. apply Hf. Qed.

Lemma kf_board_at (r c : Z) : keeps_flags (board_at r c).
Proof.
  intros s a s'. unfold board_at. destruct (Py.index2 _ _ _); [|done].
  by intros [= _ <-].
Qed.

Lemma kf_new_move (start_sq end_sq : Z * Z) (ep promo castle : bool) :
  keeps_flags (new_move start_sq end_sq ep promo castle).
Proof.
  intros s a s'. unfold new_move. destruct (Move_init _ _ _ _ _ _); [|done].
  by intros [= _ <-].
Qed.

Lemma kf_check_scan : keeps_flags check_for_pins_and_checks_m.
Proof.
  intros s a s'. unfold check_for_pins_and_checks_m.
  destruct (check_for_pins_and_checks s); [|done]. by intros [= _ <-].
Qed.

Lemma kf_remove_pin (p : Ray) : keeps_flags (remove_pin p).
Proof.
  intros s a s'. unfold remove_pin, Py.bind, Py.get, Py.lift, Py.put.
  destruct (remove_first _ _ _); [|done]. by intros [= _ <-].
Qed.

Create HintDb flags.
#[local] Hint Resolve kf_board_at kf_new_move kf_check_scan kf_remove_pin : flags.

Ltac kf_step :=
  match goal with
  | |- keeps_flags (Py.ret _) => apply kf_ret
  | |- keeps_flags (Py.bind _ _) => apply kf_bind; [|intros ?]
  | |- keeps_flags (Py.lift _) => apply kf_lift
  | |- keeps_flags Py.get => apply kf_get
  | |- keeps_flags (Py.modify _) => apply kf_modify; intros ?; reflexivity
  | H : _ |- keeps_flags _ => solve [apply H]
  | |- keeps_flags _ => solve [auto with flags]
  | |- keeps_flags (if ?b then _ else _) => destruct b
  | |- keeps_flags (match ?x with _ => _ end) => destruct x
  | |- keeps_flags (let '(_, _) := ?x in _) => destruct x
  end.

Ltac kf := repeat kf_step.

Lemma kf_pawn_captures r c move_amount back_row enemy_color piece_pinned
    pin_direction dc st :
  keeps_flags (pawn_captures r c move_amount back_row enemy_color piece_pinned
                 pin_direction dc st).
Proof. unfold pawn_captures. kf. Qed.

#[local] Hint Resolve kf_pawn_captures : flags.

Lemma kf_get_pawn_move r c moves : keeps_flags (get_pawn_move r c moves).
Proof. unfold get_pawn_move. kf. Qed.

Lemma kf_slide_ray r c enemy_color piece_pinned pin_direction d0 d1 steps moves :
  keeps_flags (slide_ray r c enemy_color piece_pinned pin_direction d0 d1 steps moves).
Proof. revert moves. induction steps as [|i rest IH]; intros moves; simpl; kf. Qed.

#[local] Hint Resolve kf_slide_ray : flags.

Lemma kf_slide_dirs r c enemy_color piece_pinned pin_direction dirs moves :
  keeps_flags (slide_dirs r c enemy_color piece_pinned pin_direction dirs moves).
Proof.
  revert moves. induction dirs as [|[d0 d1] rest IH]; intros moves;
    cbn [slide_dirs]; kf.
Qed.

#[local] Hint Resolve kf_slide_dirs : flags.

Lemma kf_get_sliding_moves r c moves dirs :
  keeps_flags (get_sliding_moves r c moves dirs).
Proof. unfold get_sliding_moves. kf. Qed.

#[local] Hint Resolve kf_get_pawn_move kf_get_sliding_moves : flags.

Lemma kf_knight_loop r c ally_color piece_pinned offs moves :
  keeps_flags (knight_loop r c ally_color piece_pinned offs moves).
Proof. revert moves. induction offs as [|[m0 m1] rest IH]; intros moves; simpl; kf. Qed.

#[local] Hint Resolve kf_knight_loop : flags.

Lemma kf_get_knight_move r c moves : keeps_flags (get_knight_move r c moves).
Proof. unfold get_knight_move. kf. Qed.

Lemma kf_set_king_location ally_color sq :
  keeps_flags (set_king_location ally_color sq).
Proof. unfold set_king_location. kf. Qed.

#[local] Hint Resolve kf_set_king_location : flags.

Lemma kf_king_loop r c ally_color offs moves :
  keeps_flags (king_loop r c ally_color offs moves).
Proof. revert moves. induction offs as [|[m0 m1] rest IH]; intros moves; simpl; kf. Qed.

#[local] Hint Resolve kf_king_loop : flags.

Lemma kf_get_king_move r c moves : keeps_flags (get_king_move r c moves).
Proof. unfold get_king_move. kf. Qed.

#[local] Hint Resolve kf_get_knight_move kf_get_king_move : flags.

Lemma kf_dispatch kind r c moves : keeps_flags (dispatch kind r c moves).
Proof.
  unfold dispatch, get_rook_move, get_bishop_move, get_queen_move. kf.
Qed.

#[local] Hint Resolve kf_dispatch : flags.

Lemma kf_all_moves_loop sqs moves : keeps_flags (all_moves_loop sqs moves).
Proof. revert moves. induction sqs as [|[row col] rest IH]; intros moves; simpl; kf. Qed.

Lemma kf_get_all_possible_moves : keeps_flags get_all_possible_moves.
Proof. apply kf_all_moves_loop. Qed.

#[local] Hint Resolve kf_get_all_possible_moves : flags.

Lemma kf_square_under_attack row col : keeps_flags (square_under_attack row col).
Proof. unfold square_under_attack. kf. Qed.

#[local] Hint Resolve kf_square_under_attack : flags.

Lemma kf_get_castle_moves row col moves : keeps_flags (get_castle_moves row col moves).
Proof.
  unfold get_castle_moves, get_kingside_castle_moves, get_queenside_castle_moves. kf.
Qed.

#[local] Hint Resolve kf_get_castle_moves : flags.

Lemma bind_inv {S A B} (m : Py.M S A) (k : A -> Py.M S B) (s s' : S) (b : B) :
  Py.bind m k s = Some (b, s') ->
  exists a s1, m s = Some (a, s1) /\ k a s1 = Some (b, s').
Proof.
  unfold Py.bind. destruct (m s) as [[a s1]|]; [eauto|done].
Qed.

(** What a call of [get_valid_moves] does to the flags, in any state:
    [in_check] is what the scan of the position from the king of the side
    to move finds; a non-empty list lowers both flags; an empty list
    raises the flag of the case at hand and leaves the other as it was. *)
Lemma get_valid_moves_flags (s s' : GameState) (ms : list Move) :
  get_valid_moves s = Some (ms, s') ->
  (exists ps cs, check_for_pins_and_checks s = Some (in_check s', ps, cs)) /\
  (ms <> [] -> checkmate s' = false /\ stalemate s' = false) /\
  (ms = [] -> in_check s' = true ->
   checkmate s' = true /\ stalemate s' = stalemate s) /\
  (ms = [] -> in_check s' = false ->
   stalemate s' = true /\ checkmate s' = checkmate s).
Proof.
  unfold get_valid_moves. intros H.
  apply bind_inv in H as (info & s0 & Hscan & H).
  unfold check_for_pins_and_checks_m in Hscan.
  destruct (check_for_pins_and_checks s) as [info'|] eqn:Hinfo; [|done].
  injection Hscan as -> <-. destruct info as [[ic ps] cs].
  apply bind_inv in H as ([] & s1 & Hset & H).
  injection Hset as <-.
  apply bind_inv in H as (sg & s1' & Hget & H). injection Hget as <- <-.
  set (s1 := set_check_info ic ps cs s) in *.
  destruct (if white_to_move s1 then white_king_location s1
            else black_king_location s1) as [king_row king_col].
  apply bind_inv in H as (moves1 & s2 & Hgen & H).
  assert (flags s2 = flags s1) as Hf2.
  { revert Hgen. match goal with |- ?m s1 = _ -> _ => assert (keeps_flags m) as Hk end.
    { kf. }
    apply Hk. }
  apply bind_inv in H as (sg & s2' & Hget & H). injection Hget as <- <-.
  apply bind_inv in H as (moves2 & s3 & Hcastle & H).
  assert (flags s3 = flags s2) as Hf3.
  { revert Hcastle. match goal with |- ?m s2 = _ -> _ => assert (keeps_flags m) as Hk end.
    { kf. }
    apply Hk. }
  apply bind_inv in H as ([] & s4 & Hfin & H). injection H as <- <-.
  assert (flags s3 = (ic, checkmate s, stalemate s)) as Hf
    by (rewrite Hf3, Hf2; reflexivity).
  unfold flags in Hf. injection Hf as Hic Hcm Hsm.
  destruct (Z.eqb_spec (Z.of_nat (length moves2)) 0) as [Hlen|Hlen].
  - assert (moves2 = []) as -> by (destruct moves2; [done|simpl in Hlen; lia]).
    apply bind_inv in Hfin as (sg & s3' & Hget & Hfin). injection Hget as <- <-.
    destruct (in_check s3) eqn:Hc; injection Hfin as <-; simpl;
      (split; [exists ps, cs; rewrite Hc, <- Hic; reflexivity|]);
      intuition congruence.
  - assert (moves2 <> []) by (intros ->; simpl in Hlen; lia).
    apply bind_inv in Hfin as ([] & s3' & Hm1 & Hfin).
    injection Hm1 as <-. injection Hfin as <-. simpl.
    split; [exists ps, cs; rewrite Hic; reflexivity|]. intuition congruence.
Qed.

Lemma kf_board_put (r c : Z) (x : string) : keeps_flags (board_put r c x).
Proof.
  intros s a s'. unfold board_put. destruct (Py.setitem2 _ _ _ _); [|done].
  by intros [= _ <-].
Qed.

#[local] Hint Resolve kf_board_put : flags.

Lemma kf_update_logged_move (m : Move) : keeps_flags (update_logged_move m).
Proof.
  unfold update_logged_move. apply kf_modify. intros s.
  by destruct (pop (move_log s)) as [[? ?]|].
Qed.

#[local] Hint Resolve kf_update_logged_move : flags.

Lemma kf_make_move (m : Move) : keeps_flags (make_move m).
Proof.
  unfold make_move, handle_king_move, handle_en_passant, handle_pawn_promotion,
    handle_castling.
  kf.
Qed.

Lemma make_move_flags (m : Move) (s s' : GameState) :
  make_move m s = Some (tt, s') ->
  checkmate s' = checkmate s /\ stalemate s' = stalemate s.
Proof.
  intros H. apply kf_make_move in H. unfold flags in H. by injection H.
Qed.

Lemma undo_move_flags (s s' : GameState) :
  undo_move s = Some (true, s') -> checkmate s' = false /\ stalemate s' = false.
Proof.
  unfold undo_move. intros H.
  apply bind_inv in H as (s0 & s0' & Hget & H). injection Hget as <- <-.
  destruct (pop (move_log s)) as [[move rest]|]; [|done].
  do 8 (apply bind_inv in H as (? & ? & _ & H)).
  apply bind_inv in H as ([] & s1 & E1 & H). injection E1 as <-.
  apply bind_inv in H as ([] & s2 & E2 & H). injection E2 as <-.
  apply bind_inv in H as ([] & s3 & E3 & H). injection E3 as <-.
  apply bind_inv in H as ([] & s4 & E4 & H). injection E4 as <-.
  injection H as <-. done.
Qed.

(** In the positions of a game no flag is raised. *)
Lemma played_flags_clear (s : GameState) :
  played s -> checkmate s = false /\ stalemate s = false.
Proof.
  destruct 1 as [|s ms s' m s'' Hv Hm Hmk|s s' Hu].
  - done.
  - destruct (get_valid_moves_flags _ _ _ Hv) as (_ & Hne & _).
    destruct (make_move_flags _ _ _ Hmk) as [-> ->].
    apply Hne. intros ->. by apply elem_of_nil in Hm.
  - by eapply undo_move_flags.
Qed.

End GameFacts.

(* ===================================================================== *)
(** ** The search: frame, results, stored bounds *)
(* ===================================================================== *)

Module SearchFacts.
Import AI.

(** *** Rules for [keeps_heap] *)

Lemma advances_refl (w : World) : advances w w.
Proof. by split. Qed.

Lemma advances_trans (w1 w2 w3 : World) :
  advances w1 w2 -> advances w2 w3 -> advances w1 w3.
Proof. intros [H1 H2] [H3 H4]. split; [by etrans|lia]. Qed.

Lemma advances_fields (w w' : World) :
  heap w' = heap w -> polls w' = polls w -> advances w w'.
Proof. intros H1 H2. split; [by rewrite H1|lia]. Qed.

Lemma keeps_ret {A} (a : A) : keeps_heap (Py.ret a).
Proof. intros w a' w' [= _ <-]. apply advances_refl. Qed.

Lemma keeps_bind {A B} (m : SE A) (k : A -> SE B) :
  keeps_heap m -> (forall a, keeps_heap (k a)) -> keeps_heap (Py.bind m k).
Proof.
  intros Hm Hk w b w'. unfold Py.bind.
  destruct (m w) as [[a w1]|] eqn:E; [|done].
  intros H. eapply advances_trans; [eapply Hm, E|eapply Hk, H].
Qed.

Lemma keeps_lift {A} (o : option A) : keeps_heap (Py.lift o).
Proof.
  intros w a w'. unfold Py.lift. destruct o; [|done].
  intros [= _ <-]. apply advances_refl.
Qed.

Lemma keeps_get : keeps_heap (Py.get (S := World)).
Proof. intros w a w' [= _ <-]. apply advances_refl. Qed.

Lemma keeps_raise {A} : keeps_heap (Py.raise (S := World) (A := A)).
Proof. by intros w a w'. Qed.

Lemma keeps_modify (f : World -> World) :
  (forall w, heap (f w) = heap w /\ polls (f w) = polls w) ->
  keeps_heap (Py.modify f).
Proof.
  intros Hf w a w' [= _ <-]. destruct (Hf w). by apply advances_fields.
Qed.

Lemma keeps_load (b : BoardRef) : keeps_heap (load b).
Proof.
  intros w a w'. unfold load. destruct (rows_of _ _); [|done].
  intros [= _ <-]. apply advances_refl.
Qed.

Lemma keeps_should_stop (env : Env) : keeps_heap (_should_stop_search env).
Proof. intros w a w' [= _ <-]. split; simpl; [done|lia]. Qed.

Lemma keeps_killers_at (ply : Z) : keeps_heap (killers_at ply).
Proof.
  intros w a w'. unfold killers_at.
  destruct (_ !! _); intros [= _ <-]; by apply advances_fields.
Qed.

Lemma keeps_history_at (key : string * Z) : keeps_heap (history_at key).
Proof.
  intros w a w'. unfold history_at.
  destruct (_ !! _); intros [= _ <-]; by apply advances_fields.
Qed.

Lemma keeps_probe (key depth alpha beta : Z) : keeps_heap (probe key depth alpha beta).
Proof.
  intros w a w'. unfold probe. destruct (tt_probe _ _ _ _ _).
  intros [= _ <-]. by apply advances_fields.
Qed.

Lemma keeps_random_choice {A} (env : Env) (l : list A) :
  keeps_heap (random_choice env l).
Proof.
  intros w a w'. unfold random_choice. destruct (_ !! _); [|done].
  intros [= _ <-]. by apply advances_fields.
Qed.

(** Goals of the form [keeps_heap m], for [m] built from the operations
    above, by following the structure of [m]. *)
Create HintDb keeps.

Ltac keeps_step :=
  match goal with
  | |- keeps_heap (Py.ret _) => apply keeps_ret
  | |- keeps_heap (Py.bind _ _) => apply keeps_bind; [|intros ?]
  | |- keeps_heap (Py.lift _) => apply keeps_lift
  | |- keeps_heap Py.get => apply keeps_get
  | |- keeps_heap Py.raise => apply keeps_raise
  | |- keeps_heap (Py.modify _) => apply keeps_modify; intros ?; split; reflexivity
  | |- keeps_heap (load _) => apply keeps_load
  | |- keeps_heap (_should_stop_search _) => apply keeps_should_stop
  | |- keeps_heap (killers_at _) => apply keeps_killers_at
  | |- keeps_heap (history_at _) => apply keeps_history_at
  | |- keeps_heap (probe _ _ _ _) => apply keeps_probe
  | |- keeps_heap (random_choice _ _) => apply keeps_random_choice
  | H : _ |- keeps_heap _ => solve [apply H]
  | |- keeps_heap _ => solve [auto with keeps]
  | |- keeps_heap (if ?b then _ else _) => destruct b
  | |- keeps_heap (match ?x with _ => _ end) => destruct x
  | |- keeps_heap (let '(_, _) := ?x in _) => destruct x
  end.

Ltac keeps := repeat keeps_step.

(** *** [_make_move] writes to its copy only *)

Lemma copy_rows_spec (rows : Board) (w : World) :
  copy_rows rows w
  = Some (seq (length (heap w)) (length rows), set_heap (heap w ++ rows) w).
Proof.
  revert w. induction rows as [|row rest IH]; intros w; simpl.
  - unfold Py.ret. rewrite app_nil_r. by destruct w.
  - unfold Py.bind, alloc. rewrite IH. simpl.
    rewrite length_app. simpl. rewrite Nat.add_1_r.
    unfold Py.ret. simpl. rewrite <- app_assoc. reflexivity.
Qed.

Lemma index_elem {A} (l : list A) (i : Z) (x : A) : Py.index l i = Some x -> x ∈ l.
Proof.
  unfold Py.index. repeat case_match; try done; apply list_elem_of_lookup_2.
Qed.

(** A write through a board whose rows were all allocated after the heap
    [h0] leaves [h0] as it is. *)
Lemma write2_fresh (h0 : list (list string)) (b : BoardRef) (r c : Z) (x : string)
    (w w' : World) (u : unit) :
  Forall (fun l => (length h0 <= l)%nat) b ->
  h0 `prefix_of` heap w ->
  write2 b r c x w = Some (u, w') ->
  h0 `prefix_of` heap w'.
Proof.
  intros Hb [tail Htail]. unfold write2, Py.bind, Py.lift, Py.get, Py.put.
  destruct (Py.index b r) as [l|] eqn:Hl; [|done].
  destruct (heap w !! l) as [row|]; [|done].
  destruct (Py.setitem row c x) as [row'|]; [|done].
  intros [= _ <-]. simpl.
  apply index_elem in Hl.
  assert (length h0 <= l)%nat as Hge
    by (exact (proj1 (Forall_forall _ _) Hb l Hl)).
  rewrite Htail. rewrite insert_app_r_alt by done.
  by eexists.
Qed.

Lemma read2_state (b : BoardRef) (r c : Z) (w w' : World) (x : string) :
  read2 b r c w = Some (x, w') -> w' = w.
Proof.
  unfold read2, Py.bind, Py.lift, Py.get.
  destruct (Py.index b r) as [l|]; [|done].
  destruct (heap w !! l) as [row|]; [|done].
  destruct (Py.index row c); [|done]. by intros [= _ <-].
Qed.

(** The board [_make_move] returns is made of new rows, and the rows that
    existed before the call are unchanged. *)
Lemma make_move_fresh (board : BoardRef) (move : Move) (w w' : World)
    (new_board : BoardRef) :
  _make_move board move w = Some (new_board, w') ->
  Forall (fun l => (length (heap w) <= l)%nat) new_board /\
  heap w `prefix_of` heap w'.
Proof.
  unfold _make_move. unfold Py.bind at 1. unfold load.
  destruct (rows_of (heap w) board) as [rows|]; [|done].
  unfold Py.bind at 1. rewrite copy_rows_spec.
  set (nb := seq (length (heap w)) (length rows)).
  assert (Hnb : Forall (fun l => (length (heap w) <= l)%nat) nb).
  { apply Forall_forall. intros l Hl. apply elem_of_seq in Hl. lia. }
  set (w1 := set_heap (heap w ++ rows) w).
  assert (H1 : heap w `prefix_of` heap w1) by (by eexists).
  clearbody nb w1.
  unfold Py.bind at 1.
  destruct (write2 nb (to_row move) (to_col move) (piece move) w1)
    as [[[] w2]|] eqn:E2; [|done].
  pose proof (write2_fresh _ _ _ _ _ _ _ _ Hnb H1 E2) as H2.
  unfold Py.bind at 1.
  destruct (write2 nb (from_row move) (from_col move) "--" w2)
    as [[[] w3]|] eqn:E3; [|done].
  pose proof (write2_fresh _ _ _ _ _ _ _ _ Hnb H2 E3) as H3.
  unfold Py.bind at 1.
  match goal with
  | |- match ?special w3 with _ => _ end = _ -> _ =>
      destruct (special w3) as [[[] w4]|] eqn:E4; [|done];
      assert (H4 : heap w `prefix_of` heap w4)
  end.
  { revert E4. repeat case_match; unfold Py.bind, Py.lift, Py.ret;
      repeat case_match; try done; intros;
      repeat match goal with
      | H : Some _ = Some _ |- _ => injection H as ?; subst
      | H : read2 _ _ _ _ = Some _ |- _ => apply read2_state in H; subst
      end; eauto using write2_fresh. }
  unfold Py.ret. intros [= <- <-]. done.
Qed.

Lemma write2_polls (b : BoardRef) (r c : Z) (x : string) (w w' : World) (u : unit) :
  write2 b r c x w = Some (u, w') -> polls w' = polls w.
Proof.
  unfold write2, Py.bind, Py.lift, Py.get, Py.put.
  destruct (Py.index b r) as [l|]; [|done].
  destruct (heap w !! l) as [row|]; [|done].
  destruct (Py.setitem row c x) as [row'|]; [|done].
  by intros [= _ <-].
Qed.

Lemma make_move_polls (board : BoardRef) (move : Move) (w w' : World)
    (new_board : BoardRef) :
  _make_move board move w = Some (new_board, w') -> polls w' = polls w.
Proof.
  unfold _make_move. unfold Py.bind at 1. unfold load.
  destruct (rows_of (heap w) board) as [rows|]; [|done].
  unfold Py.bind at 1. rewrite copy_rows_spec.
  set (nb := seq (length (heap w)) (length rows)).
  set (w1 := set_heap (heap w ++ rows) w).
  assert (H1 : polls w1 = polls w) by reflexivity.
  clearbody nb w1.
  unfold Py.bind at 1.
  destruct (write2 nb (to_row move) (to_col move) (piece move) w1)
    as [[[] w2]|] eqn:E2; [|done].
  apply write2_polls in E2.
  unfold Py.bind at 1.
  destruct (write2 nb (from_row move) (from_col move) "--" w2)
    as [[[] w3]|] eqn:E3; [|done].
  apply write2_polls in E3.
  unfold Py.bind at 1.
  match goal with
  | |- match ?special w3 with _ => _ end = _ -> _ =>
      destruct (special w3) as [[[] w4]|] eqn:E4; [|done];
      assert (H4 : polls w4 = polls w3)
  end.
  { revert E4. repeat case_match; unfold Py.bind, Py.lift, Py.ret;
      repeat case_match; try done; intros;
      repeat match goal with
      | H : Some _ = Some _ |- _ => injection H as ?; subst
      | H : read2 _ _ _ _ = Some _ |- _ => apply read2_state in H; subst
      | H : write2 _ _ _ _ _ = Some _ |- _ => apply write2_polls in H
      end; congruence. }
  unfold Py.ret. intros [= _ <-]. congruence.
Qed.

Lemma keeps_make_move (board : BoardRef) (move : Move) :
  keeps_heap (_make_move board move).
Proof.
  intros w nb w' H. split.
  - by apply make_move_fresh in H as [_ H].
  - apply make_move_polls in H. lia.
Qed.

#[local] Hint Resolve keeps_make_move : keeps.

Lemma keeps_store (key depth sc fl : Z) (bm : option Move) :
  keeps_heap (store key depth sc fl bm).
Proof. unfold store. keeps. Qed.

Lemma keeps_bump_nodes : keeps_heap bump_nodes.
Proof. unfold bump_nodes. keeps. Qed.

Lemma keeps_add_beta_cutoff (first : bool) : keeps_heap (add_beta_cutoff first).
Proof. unfold add_beta_cutoff. keeps. Qed.

Lemma keeps_add_null_move_cut : keeps_heap add_null_move_cut.
Proof. unfold add_null_move_cut. keeps. Qed.

Lemma keeps_add_lmr_saves (n : Z) : keeps_heap (add_lmr_saves n).
Proof. unfold add_lmr_saves. keeps. Qed.

Lemma keeps_add_killer_move (move : Move) (ply : Z) :
  keeps_heap (_add_killer_move move ply).
Proof. unfold _add_killer_move. keeps. Qed.

Lemma keeps_update_history (move : Move) (depth : Z) (is_good : bool) :
  keeps_heap (_update_history move depth is_good).
Proof. unfold _update_history. keeps. Qed.

Lemma keeps_order_score (ply : Z) (tt_move : option Move) (move : Move) :
  keeps_heap (order_score ply tt_move move).
Proof. unfold order_score. keeps. Qed.

#[local] Hint Resolve keeps_store keeps_bump_nodes keeps_add_beta_cutoff
  keeps_add_null_move_cut keeps_add_lmr_saves keeps_add_killer_move
  keeps_update_history keeps_order_score : keeps.

Lemma keeps_score_moves (ply : Z) (tt_move : option Move) (moves : list Move) :
  keeps_heap (score_moves ply tt_move moves).
Proof. induction moves as [|m rest IH]; simpl; keeps. Qed.

#[local] Hint Resolve keeps_score_moves : keeps.

Lemma keeps_order_moves (moves : list Move) (ply : Z) (tt_move : option Move) :
  keeps_heap (_order_moves moves ply tt_move).
Proof. unfold _order_moves. keeps. Qed.

Lemma keeps_store_node (pos_key depth best_score beta : Z) (ordered : list Move) :
  keeps_heap (store_node pos_key depth best_score beta ordered).
Proof. unfold store_node. keeps. Qed.

#[local] Hint Resolve keeps_order_moves keeps_store_node : keeps.

Lemma keeps_qs_loop (rec : BoardRef -> Z -> Z -> SE Z) (board : BoardRef)
    (captures : list Move) (alpha beta : Z) :
  (forall b a be, keeps_heap (rec b a be)) ->
  keeps_heap (qs_loop rec board captures alpha beta).
Proof.
  intros Hrec. revert alpha.
  induction captures as [|m rest IH]; intros alpha; simpl; keeps.
Qed.

Lemma keeps_quiescence_search (fuel : nat) (board : BoardRef) (is_white_turn : bool)
    (alpha beta : Z) :
  keeps_heap (_quiescence_search fuel board is_white_turn alpha beta).
Proof.
  revert board is_white_turn alpha beta.
  induction fuel as [|fuel IH]; intros board is_white_turn alpha beta; simpl.
  - keeps.
  - keeps. apply keeps_qs_loop. intros. apply IH.
Qed.

#[local] Hint Resolve keeps_quiescence_search : keeps.

Lemma keeps_ab_loop (rec : BoardRef -> bool -> Z -> Z -> Z -> Z -> SE Z)
    (board : BoardRef) (is_white_turn : bool) (depth beta ply : Z)
    (ms : list Move) (i alpha best_score moves_searched : Z) :
  (forall b w d a be p, keeps_heap (rec b w d a be p)) ->
  keeps_heap (ab_loop rec board is_white_turn depth beta ply ms i alpha
                best_score moves_searched).
Proof.
  intros Hrec. revert i alpha best_score moves_searched.
  induction ms as [|m rest IH]; intros i alpha best_score moves_searched;
    simpl; keeps.
Qed.

Lemma keeps_alpha_beta (env : Env) (fuel : nat) (board : BoardRef)
    (is_white_turn : bool) (depth alpha beta ply : Z) :
  keeps_heap (_alpha_beta env fuel board is_white_turn depth alpha beta ply).
Proof.
  revert board is_white_turn depth alpha beta ply.
  induction fuel as [|fuel IH]; intros board is_white_turn depth alpha beta ply;
    simpl.
  - keeps.
  - keeps; apply keeps_ab_loop; intros; apply IH.
Qed.

#[local] Hint Resolve keeps_alpha_beta : keeps.

Lemma keeps_root_loop (env : Env) (fuel : nat) (board : BoardRef)
    (is_white_turn : bool) (depth : Z) (ms : list Move) (best_move : option Move)
    (best_score : Z) :
  keeps_heap (root_loop env fuel board is_white_turn depth ms best_move best_score).
Proof.
  revert best_move best_score.
  induction ms as [|m rest IH]; intros best_move best_score; simpl; keeps.
Qed.

#[local] Hint Resolve keeps_root_loop : keeps.

Lemma keeps_search_root (env : Env) (fuel : nat) (board : BoardRef)
    (is_white_turn : bool) (moves : list Move) (depth : Z) :
  keeps_heap (_search_root env fuel board is_white_turn moves depth).
Proof. unfold _search_root. keeps. Qed.

#[local] Hint Resolve keeps_search_root : keeps.

Lemma keeps_deepening_loop (env : Env) (fuel : nat) (board : BoardRef)
    (is_white_turn : bool) (moves : list Move) (depths : list Z)
    (best_move : option Move) :
  keeps_heap (deepening_loop env fuel board is_white_turn moves depths best_move).
Proof.
  revert best_move.
  induction depths as [|d rest IH]; intros best_move; simpl; keeps.
Qed.

Lemma keeps_reset_search : keeps_heap reset_search.
Proof. unfold reset_search. keeps. Qed.

#[local] Hint Resolve keeps_deepening_loop keeps_reset_search : keeps.

Lemma keeps_find_best_move (env : Env) (fuel : nat) (board : BoardRef)
    (is_white_turn : bool) (valid_moves : list Core.Move) :
  keeps_heap (find_best_move env fuel board is_white_turn valid_moves).
Proof. unfold find_best_move. keeps. Qed.

Lemma rows_of_prefix (h h' : list (list string)) (b : BoardRef) (rows : Board) :
  h `prefix_of` h' -> rows_of h b = Some rows -> rows_of h' b = Some rows.
Proof.
  intros Hp. revert rows. induction b as [|l rest IH]; intros rows; simpl; [done|].
  intros H. apply bind_Some in H as (row & Hrow & H).
  apply bind_Some in H as (more & Hmore & [= <-]).
  rewrite (prefix_lookup_Some _ _ _ _ Hrow Hp). simpl.
  by rewrite (IH _ Hmore).
Qed.

(** C9.  Whatever the environment answers when the search asks whether to
    stop (the cancel flag may be raised at any poll, the time budget may
    run out at any poll), a call of [find_best_move] that returns leaves
    the board it was given as it was: the rows of the board, and every
    other row object that existed before the call, are unchanged; the
    search has only added row objects, those of the copies [_make_move]
    makes. *)
Theorem find_best_move_leaves_board_unchanged (env : Env) (fuel : nat)
    (board : BoardRef) (is_white_turn : bool) (valid_moves : list Core.Move)
    (w w' : World) (result : option Core.Move) (rows : Board) :
  rows_of (heap w) board = Some rows ->
  find_best_move env fuel board is_white_turn valid_moves w = Some (result, w') ->
  rows_of (heap w') board = Some rows /\ heap w `prefix_of` heap w'.
Proof.
  intros Hrows Hrun.
  destruct (keeps_find_best_move env fuel board is_white_turn valid_moves
              w result w' Hrun) as [Hp _].
  split; [by eapply rows_of_prefix|done].
Qed.

Lemma finished_inv {A} (run : option (A * World)) :
  finished run = true -> exists a w', run = Some (a, w').
Proof. destruct run as [[a w']|]; [eauto|done]. Qed.

Lemma find_best_move_leaves_board_unchanged_witness :
  exists result w',
    find_best_move (stopping_env 30) 100 mate_in_one_ref true mate_in_one_moves
      (mate_in_one_world 2) = Some (result, w') /\
    rows_of (heap w') mate_in_one_ref = Some mate_in_one_board /\
    heap (mate_in_one_world 2) `prefix_of` heap w'.
Proof.
  destruct (finished_inv
              (find_best_move (stopping_env 30) 100 mate_in_one_ref true
                 mate_in_one_moves (mate_in_one_world 2)))
    as (result & w' & Hrun); [vm_compute; reflexivity|].
  exists result, w'. split; [exact Hrun|].
  apply (find_best_move_leaves_board_unchanged (stopping_env 30) 100
           mate_in_one_ref true mate_in_one_moves (mate_in_one_world 2) w' result).
  - vm_compute; reflexivity.
  - exact Hrun.
Defined.

(** *** Results of the search *)

Lemma returns_ret {A} (a : A) (P : A -> Prop) : P a -> returns (Py.ret a) P.
Proof. intros Ha w a' w' [= <- _]. done. Qed.

Lemma returns_bind {A B} (m : SE A) (k : A -> SE B) (Q : A -> Prop) (P : B -> Prop) :
  returns m Q -> (forall a, Q a -> returns (k a) P) -> returns (Py.bind m k) P.
Proof.
  intros Hm Hk w b w'. unfold Py.bind.
  destruct (m w) as [[a w1]|] eqn:E; [|done].
  intros H. eapply Hk; [eapply Hm, E|exact H].
Qed.

Lemma returns_bind_any {A B} (m : SE A) (k : A -> SE B) (P : B -> Prop) :
  (forall a, returns (k a) P) -> returns (Py.bind m k) P.
Proof.
  intros Hk. apply (returns_bind m k (fun _ => True)); [done|]. intros a _. apply Hk.
Qed.

Lemma score_moves_moves (ply : Z) (tt_move : option Move) (moves : list Move) :
  returns (score_moves ply tt_move moves) (fun l => map snd l = moves).
Proof.
  induction moves as [|m rest IH]; simpl.
  - by apply returns_ret.
  - apply returns_bind_any. intros sc.
    eapply returns_bind; [exact IH|]. intros more Hmore.
    apply returns_ret. simpl. by rewrite Hmore.
Qed.

Lemma insert_desc_perm (x : Z * Move) (l : list (Z * Move)) :
  insert_desc x l ≡ₚ x :: l.
Proof.
  induction l as [|y rest IH]; simpl; [done|].
  destruct (_ <? _); [|done]. rewrite IH. apply Permutation_swap.
Qed.

Lemma sort_desc_perm (l : list (Z * Move)) : sort_desc l ≡ₚ l.
Proof.
  induction l as [|x rest IH]; simpl; [done|].
  unfold sort_desc in *. simpl. rewrite insert_desc_perm. by rewrite IH.
Qed.

Lemma order_moves_perm (moves : list Move) (ply : Z) (tt_move : option Move) :
  returns (_order_moves moves ply tt_move) (fun l => l ≡ₚ moves).
Proof.
  unfold _order_moves.
  eapply returns_bind; [apply score_moves_moves|]. intros scored Hs.
  apply returns_ret. rewrite <- Hs. by rewrite sort_desc_perm.
Qed.

Lemma root_loop_result (env : Env) (fuel : nat) (board : BoardRef)
    (is_white_turn : bool) (depth : Z) (ms : list Move) (best_move : option Move)
    (best_score : Z) :
  returns (root_loop env fuel board is_white_turn depth ms best_move best_score)
    (fun r => r = best_move \/ exists m, r = Some m /\ m ∈ ms).
Proof.
  revert best_move best_score.
  induction ms as [|m rest IH]; intros best_move best_score; simpl.
  - apply returns_ret. by left.
  - apply returns_bind_any. intros stop. destruct stop.
    + apply returns_ret. by left.
    + apply returns_bind_any. intros nb. apply returns_bind_any. intros v.
      destruct (_ <? _).
      * intros w r w' H. apply IH in H as [->|(m' & -> & Hm')].
        -- right. exists m. split; [done|left].
        -- right. exists m'. split; [done|by right].
      * intros w r w' H. apply IH in H as [->|(m' & -> & Hm')].
        -- by left.
        -- right. exists m'. split; [done|by right].
Qed.

Lemma search_root_result (env : Env) (fuel : nat) (board : BoardRef)
    (is_white_turn : bool) (moves : list Move) (depth : Z) :
  returns (_search_root env fuel board is_white_turn moves depth)
    (fun r => forall m, r = Some m -> m ∈ moves).
Proof.
  unfold _search_root.
  eapply returns_bind; [apply order_moves_perm|]. intros ordered Hperm.
  intros w r w' H. apply root_loop_result in H as [->|(m' & -> & Hm')].
  - done.
  - intros m [= <-]. by rewrite <- Hperm.
Qed.

Lemma deepening_loop_result (env : Env) (fuel : nat) (board : BoardRef)
    (is_white_turn : bool) (moves : list Move) (depths : list Z)
    (best_move : option Move) :
  returns (deepening_loop env fuel board is_white_turn moves depths best_move)
    (fun r => r = best_move \/ exists m, r = Some m /\ m ∈ moves).
Proof.
  revert best_move.
  induction depths as [|d rest IH]; intros best_move; simpl.
  - apply returns_ret. by left.
  - apply returns_bind_any. intros stop. destruct stop.
    + apply returns_ret. by left.
    + eapply returns_bind; [apply search_root_result|]. intros current Hcur.
      apply returns_bind_any. intros stop2.
      intros w r w' H. apply IH in H as [->|H]; [|by right].
      destruct current as [m|]; [|by left].
      destruct (negb stop2); [|by left].
      right. exists m. split; [done|by apply Hcur].
Qed.

Lemma convert_back_found (b : Board) (valid_moves : list Core.Move)
    (moves : list Move) (bm : Move) :
  _convert_moves b valid_moves = Some moves -> bm ∈ moves ->
  is_Some (_convert_back_to_original_move bm valid_moves).
Proof.
  revert moves. induction valid_moves as [|vm rest IH]; intros moves; simpl.
  - intros [= <-] H. by apply elem_of_nil in H.
  - intros H Hin. apply bind_Some in H as (m & Hm & H).
    apply bind_Some in H as (more & Hmore & [= <-]).
    apply elem_of_cons in Hin as [->|Hin].
    + unfold convert_move in Hm.
      apply bind_Some in Hm as (pc & _ & Hm).
      apply bind_Some in Hm as (target & _ & [= <-]). simpl.
      rewrite !Z.eqb_refl. simpl. eauto.
    + destruct (_ && _); [eauto|]. by eapply IH.
Qed.

Lemma reset_search_spec (w : World) : reset_search w = Some ((), after_reset w).
Proof. reflexivity. Qed.

Lemma poll_first (env : Env) {A} (k : bool -> SE A) (w w' : World) (a : A) :
  (forall stop, keeps_heap (k stop)) ->
  Py.bind (_should_stop_search env) k w = Some (a, w') ->
  (polls w < polls w')%nat.
Proof.
  intros Hk. unfold Py.bind, _should_stop_search. intros H.
  apply Hk in H as [_ H]. simpl in H. lia.
Qed.

(** Every call of [_alpha_beta] that returns has asked the environment
    whether to stop: the number of polls has grown. *)
Lemma alpha_beta_polls (env : Env) (fuel : nat) (board : BoardRef)
    (is_white_turn : bool) (depth alpha beta ply v : Z) (w w' : World) :
  _alpha_beta env fuel board is_white_turn depth alpha beta ply w = Some (v, w') ->
  (polls w < polls w')%nat.
Proof.
  destruct fuel as [|fuel]; [done|].
  assert (forall m : SE Z,
            m = _alpha_beta env (S fuel) board is_white_turn depth alpha beta ply ->
            m w = Some (v, w') -> (polls w < polls w')%nat) as H; [|by apply H].
  intros m Hm. simpl in Hm. subst m. apply poll_first.
  intros stop. keeps; apply keeps_ab_loop; intros; apply keeps_alpha_beta.
Qed.

(** C10.  [find_best_move] returns [None] exactly when the list of valid
    moves it is given is empty; with exactly one move in the list it
    returns that move at once: the node counter is zero, no row has been
    allocated and the environment has not been polled, as every call of
    [_alpha_beta] would have done. *)
Theorem find_best_move_trivial_lists (env : Env) (fuel : nat) (board : BoardRef)
    (is_white_turn : bool) :
  (forall w, find_best_move env fuel board is_white_turn [] w
             = Some (None, after_reset w)) /\
  (forall valid_moves w result w',
      find_best_move env fuel board is_white_turn valid_moves w = Some (result, w') ->
      (result = None <-> valid_moves = [])) /\
  (forall m w,
      find_best_move env fuel board is_white_turn [m] w
        = Some (Some m, after_reset w) /\
      nodes_searched (after_reset w) = 0 /\
      polls (after_reset w) = polls w /\
      heap (after_reset w) = heap w /\
      table (tt (after_reset w)) = table (tt w)).
Proof.
  split; [reflexivity|]. split; [|intros m w; by repeat split].
  intros valid_moves w result w' Hrun.
  destruct valid_moves as [|m1 [|m2 rest]].
  - injection Hrun as <- _. done.
  - injection Hrun as <- _. done.
  - split; [|done]. intros ->. exfalso.
    unfold find_best_move in Hrun. unfold Py.bind at 1 in Hrun.
    rewrite reset_search_spec in Hrun.
    unfold Py.bind at 1 in Hrun.
    destruct (load board (after_reset w)) as [[b w1]|]; [|done].
    unfold Py.bind at 1 in Hrun.
    destruct (Py.lift (_convert_moves b (m1 :: m2 :: rest)) w1)
      as [[moves w2]|] eqn:Hconv; [|done].
    unfold Py.lift in Hconv.
    destruct (_convert_moves b (m1 :: m2 :: rest)) as [moves'|] eqn:Hc; [|done].
    injection Hconv as <- <-.
    unfold Py.bind at 1 in Hrun. unfold Py.get at 1 in Hrun.
    unfold Py.bind at 1 in Hrun.
    destruct (deepening_loop _ _ _ _ _ _ _ w1) as [[bm w3]|] eqn:Hd; [|done].
    apply deepening_loop_result in Hd.
    destruct bm as [bm|].
    + destruct Hd as [Hd|(m & [= <-] & Hin)]; [done|].
      destruct (convert_back_found _ _ _ _ Hc Hin) as [x Hx].
      unfold Py.ret in Hrun. rewrite Hx in Hrun. done.
    + unfold Py.bind in Hrun.
      destruct (random_choice env (m1 :: m2 :: rest) w3) as [[x w4]|]; done.
Qed.

Lemma find_best_move_trivial_lists_witness :
  exists result w',
    find_best_move patient_env 100 mate_in_one_ref true mate_in_one_moves
      (mate_in_one_world 1) = Some (result, w') /\
    (result = None <-> mate_in_one_moves = []).
Proof.
  destruct (finished_inv
              (find_best_move patient_env 100 mate_in_one_ref true
                 mate_in_one_moves (mate_in_one_world 1)))
    as (result & w' & Hrun); [vm_compute; reflexivity|].
  exists result, w'. split; [exact Hrun|].
  exact (proj1 (proj2 (find_best_move_trivial_lists patient_env 100
                         mate_in_one_ref true))
           mate_in_one_moves (mate_in_one_world 1) result w' Hrun).
Defined.

(** *** The bound stored at the end of a node *)

Lemma tt_flag_of_cases (best_score beta : Z) :
  (tt_flag_of best_score beta = EXACT <-> -999999 < best_score < beta) /\
  (tt_flag_of best_score beta = LOWER_BOUND <-> beta <= best_score) /\
  (tt_flag_of best_score beta = UPPER_BOUND <->
     best_score <= -999999 /\ best_score < beta).
Proof.
  unfold tt_flag_of, EXACT, LOWER_BOUND, UPPER_BOUND.
  destruct (Z.ltb_spec (-999999) best_score), (Z.ltb_spec best_score beta),
    (Z.leb_spec beta best_score); simpl; repeat split; intros; try lia.
Qed.

(** The entry a node stores: key, depth and score of the node, the bound
    computed from the score and beta only, the first move of the ordered
    list; the initial alpha does not enter. *)
Lemma store_node_entry (pos_key depth best_score beta : Z) (ordered : list Move)
    (w : World) :
  store_node pos_key depth best_score beta ordered w
  = Some (best_score,
          set_tt (tt_store (tt w) pos_key depth best_score
                    (tt_flag_of best_score beta) (head ordered)) w).
Proof. reflexivity. Qed.

(** C3: what the code does against the claim.  The node of the position
    [mate_in_one_board] searched at depth 1 with the window (700, 701)
    returns best_score = 700, which is not above its initial alpha, so
    not strictly between alpha and beta, and not at least beta: the claim
    asks for the bound [upper]; the entry stored under the fingerprint of
    the position has the bound [exact].  Its move is the first of the
    ordered list. *)
Theorem fail_low_node_is_stored_exact :
  let run := _alpha_beta patient_env 100 mate_in_one_ref true 1 700 701 0
               (mate_in_one_world 2) in
  returned run = Some 700 /\
  ~ (700 < 700 < 701) /\ ~ (701 <= 700) /\
  _get_position_key patient_env mate_in_one_board true = Some 219891139 /\
  stored_at 219891139 run
  = Some (mkEntry 700 1 EXACT (Some (mkMove 6 5 5 5 "wp" "" "")) 0) /\
  EXACT <> UPPER_BOUND.
Proof.
  cbv zeta. split; [vm_compute; reflexivity|].
  split; [lia|]. split; [lia|].
  split; [vm_compute; reflexivity|].
  split; [vm_compute; reflexivity|]. done.
Qed.

End SearchFacts.

(* ===================================================================== *)
(** ** Storing and probing *)
(* ===================================================================== *)

Module TableUseFacts.
Import AI.

(** X1. An entry that [store] accepts (the key is new and the table is
    under capacity, or the entry in place is not deeper than the new one
    or is more than two searches old) is what the next [probe] of that key
    finds.  The probe returns the stored best move; it returns the stored
    score exactly when the probing depth is at most the stored depth and
    the bound fits the window (an exact score, a lower bound not below
    [beta], an upper bound not above [alpha]), and no score otherwise; it
    counts one hit and leaves the entries as they are. *)
Theorem store_then_probe (t : TranspositionTable) (key dep sc fl : Z)
    (bm : option Move) (d alpha beta : Z) :
  match table t !! key with
  | Some old => depth old <= dep \/ 2 < searches_old t old
  | None => Z.of_nat (base.size (table t)) < size t
  end ->
  let t1 := tt_store t key dep sc fl bm in
  let r := tt_probe t1 key d alpha beta in
  snd (fst r) = bm /\
  (fst (fst r) = Some sc <->
     d <= dep /\ (fl = EXACT \/ fl = LOWER_BOUND /\ beta <= sc
                  \/ fl = UPPER_BOUND /\ sc <= alpha)) /\
  (fst (fst r) = None \/ fst (fst r) = Some sc) /\
  table (snd r) = table t1 /\
  hits (snd r) = hits t + 1 /\ misses (snd r) = misses t.
Proof.
  intros Hst t1 r.
  assert (Hl : table t1 !! key = Some (mkEntry sc dep fl bm (generation t))).
  { subst t1. unfold tt_store, searches_old in *.
    destruct (table t !! key) as [old|] eqn:E.
    - destruct ((depth old <=? dep) || (2 <? Z.abs (generation t - age old))) eqn:C.
      + simpl. apply lookup_insert_eq.
      + apply orb_false_iff in C as [C1 C2]. lia.
    - destruct (Z.of_nat (base.size (table t)) <? size t) eqn:C; [|lia].
      simpl. apply lookup_insert_eq. }
  assert (Hh : hits t1 = hits t /\ misses t1 = misses t).
  { subst t1. unfold tt_store.
    destruct (table t !! key); [destruct (_ || _)|destruct (_ <? _)]; done. }
  destruct Hh as [Hh Hm].
  subst r. unfold tt_probe. rewrite Hl. cbn [score depth flag best_move].
  unfold EXACT, LOWER_BOUND, UPPER_BOUND.
  repeat match goal with
         | |- context [Z.leb ?a ?b] => destruct (Z.leb_spec a b)
         | |- context [Z.eqb ?a ?b] => destruct (Z.eqb_spec a b)
         end; cbn [andb fst snd table hits misses];
    rewrite ?Hh, ?Hm;
    (split; [reflexivity|]);
    (split; [split; [intros ?; first [discriminate | lia]
                    |intros ?; first [reflexivity | exfalso; lia]]|]);
    (split; [auto|done]).
Qed.

Lemma store_then_probe_witness :
  let t1 := tt_store (tt_init 1) 42 3 10 LOWER_BOUND None in
  let r := tt_probe t1 42 2 0 5 in
  snd (fst r) = None /\
  (fst (fst r) = Some 10 <->
     2 <= 3 /\ (LOWER_BOUND = EXACT \/ LOWER_BOUND = LOWER_BOUND /\ 5 <= 10
                \/ LOWER_BOUND = UPPER_BOUND /\ 10 <= 0)) /\
  (fst (fst r) = None \/ fst (fst r) = Some 10) /\
  table (snd r) = table t1 /\
  hits (snd r) = hits (tt_init 1) + 1 /\ misses (snd r) = misses (tt_init 1).
Proof.
  apply (store_then_probe (tt_init 1) 42 3 10 LOWER_BOUND None 2 0 5).
  vm_compute. reflexivity.
Defined.

End TableUseFacts.

(* ===================================================================== *)
(** ** What a search returns *)
(* ===================================================================== *)

Module SearchResultFacts.
Import AI SearchFacts.

Lemma convert_back_elem (im : Move) (vs : list Core.Move) (m : Core.Move) :
  _convert_back_to_original_move im vs = Some m -> m ∈ vs.
Proof.
  induction vs as [|v vs IH]; simpl; [done|].
  destruct (_ && _).
  - intros [= ->]. left.
  - intros H. right. by apply IH.
Qed.

Lemma random_choice_elem {A} (env : Env) (l : list A) :
  returns (random_choice env l) (fun x => x ∈ l).
Proof.
  intros w a w'. unfold random_choice.
  destruct (l !! _) as [x|] eqn:E; [|done].
  intros [= <- _]. by eapply list_elem_of_lookup_2.
Qed.

(** X2. When [find_best_move] returns a move, it is one of the moves of
    the list [valid_moves] it was given. *)
Theorem find_best_move_returns_listed_move (env : Env) (fuel : nat)
    (board : BoardRef) (is_white_turn : bool) (valid_moves : list Core.Move)
    (w w' : World) (m : Core.Move) :
  find_best_move env fuel board is_white_turn valid_moves w = Some (Some m, w') ->
  m ∈ valid_moves.
Proof.
  unfold find_best_move. intros H.
  apply GameFacts.bind_inv in H as (u & w1 & _ & H).
  destruct valid_moves as [|m1 [|m2 rest]].
  - discriminate H.
  - injection H as <- _. left.
  - set (vs := m1 :: m2 :: rest) in *.
    apply GameFacts.bind_inv in H as (b & w2 & _ & H).
    apply GameFacts.bind_inv in H as (moves & w3 & _ & H).
    apply GameFacts.bind_inv in H as (w4 & w5 & _ & H).
    apply GameFacts.bind_inv in H as (best & w6 & _ & H).
    destruct best as [bm|].
    + injection H as H _. apply (convert_back_elem bm). exact H.
    + apply GameFacts.bind_inv in H as (x & w7 & Hx & H).
      injection H as <- _. exact (random_choice_elem env vs _ _ _ Hx).
Qed.

Lemma find_best_move_returns_listed_move_witness :
  exists m w',
    find_best_move patient_env 100 mate_in_one_ref true mate_in_one_moves
      (mate_in_one_world 1) = Some (Some m, w') /\
    m ∈ mate_in_one_moves.
Proof.
  assert (Hrun : match find_best_move patient_env 100 mate_in_one_ref true
                         mate_in_one_moves (mate_in_one_world 1) with
                 | Some (Some _, _) => true
                 | _ => false
                 end = true) by (vm_compute; reflexivity).
  destruct (find_best_move patient_env 100 mate_in_one_ref true
              mate_in_one_moves (mate_in_one_world 1))
    as [[[m|] w']|] eqn:E; try discriminate Hrun.
  exists m, w'. split; [reflexivity|].
  exact (find_best_move_returns_listed_move patient_env 100 mate_in_one_ref true
           mate_in_one_moves (mate_in_one_world 1) w' m E).
Defined.

(** X3. [_order_moves] returns a permutation of the moves it was given:
    the same moves, as many of them. *)
Theorem order_moves_keeps_the_moves (moves : list Move) (ply : Z)
    (tt_move : option Move) (w w' : World) (ordered : list Move) :
  _order_moves moves ply tt_move w = Some (ordered, w') ->
  ordered ≡ₚ moves /\ length ordered = length moves /\
  (forall m, m ∈ ordered <-> m ∈ moves).
Proof.
  intros H. pose proof (order_moves_perm moves ply tt_move w ordered w' H) as Hp.
  split; [done|]. split; [by rewrite Hp|].
  intros m. by rewrite Hp.
Qed.

Lemma order_moves_keeps_the_moves_witness :
  exists ordered w',
    _order_moves [mkMove 6 4 4 4 "wp" "" ""; mkMove 6 3 1 3 "wQ" "bp" ""] 0 None
      (mate_in_one_world 1) = Some (ordered, w') /\
    ordered ≡ₚ [mkMove 6 4 4 4 "wp" "" ""; mkMove 6 3 1 3 "wQ" "bp" ""] /\
    length ordered = 2%nat.
Proof.
  destruct (finished_inv
              (_order_moves
                 [mkMove 6 4 4 4 "wp" "" ""; mkMove 6 3 1 3 "wQ" "bp" ""]
                 0 None (mate_in_one_world 1)))
    as (ordered & w' & E); [vm_compute; reflexivity|].
  exists ordered, w'. split; [exact E|].
  destruct (order_moves_keeps_the_moves _ _ _ _ _ _ E) as (Hp & Hl & _).
  split; [exact Hp|exact Hl].
Defined.

Lemma qs_loop_window (rec : BoardRef -> Z -> Z -> SE Z) (board : BoardRef)
    (captures : list Move) (alpha beta : Z) :
  alpha <= beta ->
  returns (qs_loop rec board captures alpha beta) (fun v => alpha <= v <= beta).
Proof.
  revert alpha. induction captures as [|m rest IH]; intros alpha Hab; simpl.
  - apply returns_ret. lia.
  - apply returns_bind_any. intros nb. apply returns_bind_any. intros v.
    destruct (Z.leb_spec beta (- v)).
    + apply returns_ret. lia.
    + destruct (Z.ltb_spec alpha (- v)).
      * intros w a w' H'. apply IH in H'; lia.
      * by apply IH.
Qed.

(** X4. With [alpha <= beta], the value [_quiescence_search] returns lies
    between [alpha] and [beta]. *)
Theorem quiescence_within_window (fuel : nat) (board : BoardRef)
    (is_white_turn : bool) (alpha beta v : Z) (w w' : World) :
  alpha <= beta ->
  _quiescence_search fuel board is_white_turn alpha beta w = Some (v, w') ->
  alpha <= v <= beta.
Proof.
  intros Hab. revert w v w'.
  change (returns (_quiescence_search fuel board is_white_turn alpha beta)
            (fun v => alpha <= v <= beta)).
  destruct fuel as [|fuel]; simpl; [by intros w v w'|].
  apply returns_bind_any. intros _. apply returns_bind_any. intros w0.
  apply returns_bind_any. intros b. apply returns_bind_any. intros stand_pat.
  destruct (Z.leb_spec beta stand_pat).
  - apply returns_ret. lia.
  - apply returns_bind_any. intros captures.
    destruct (Z.ltb_spec alpha stand_pat).
    + intros w a w' H'. apply qs_loop_window in H'; lia.
    + by apply qs_loop_window.
Qed.

Lemma quiescence_within_window_witness :
  exists v w',
    _quiescence_search 50 mate_in_one_ref true (-100) 100 (mate_in_one_world 1)
      = Some (v, w') /\ -100 <= v <= 100.
Proof.
  destruct (finished_inv
              (_quiescence_search 50 mate_in_one_ref true (-100) 100
                 (mate_in_one_world 1)))
    as (v & w' & E); [vm_compute; reflexivity|].
  exists v, w'. split; [exact E|].
  apply (quiescence_within_window 50 mate_in_one_ref true (-100) 100 v
           (mate_in_one_world 1) w'); [lia|exact E].
Defined.

End SearchResultFacts.

(* ===================================================================== *)
(** ** The history scores *)
(* ===================================================================== *)

Module HistoryFacts.
Import AI.

Lemma gravity_bound (c b : Z) :
  -512 <= c <= 512 -> -512 <= b <= 512 ->
  -512 <= c + b - (c * Z.abs b) `div` 512 <= 512.
Proof.
  intros Hc Hb.
  pose proof (Z.mul_div_le (c * Z.abs b) 512 ltac:(lia)) as H1.
  pose proof (Z.mul_succ_div_gt (c * Z.abs b) 512 ltac:(lia)) as H2.
  set (q := (c * Z.abs b) `div` 512) in *. clearbody q.
  destruct (Z.abs_spec b) as [[Hb0 Ha]|[Hb0 Ha]]; rewrite Ha in H1, H2; nia.
Qed.

(** X20. While [depth * depth <= 512], [_update_history] keeps every
    history score between -512 and 512; it writes the entry of the piece
    and target square of the move and leaves the other entries as they
    are. *)
Theorem history_update_stays_bounded (move : Move) (depth : Z) (is_good : bool)
    (w w' : World) (u : unit) :
  depth * depth <= 512 ->
  history_bounded w ->
  _update_history move depth is_good w = Some (u, w') ->
  history_bounded w' /\
  (forall k, k <> (piece move, to_row move * 8 + to_col move) ->
             history_scores w' !! k = history_scores w !! k) /\
  is_Some (history_scores w' !! (piece move, to_row move * 8 + to_col move)).
Proof.
  intros Hd Hw. unfold _update_history, Py.bind, history_at, Py.modify.
  set (key := (piece move, to_row move * 8 + to_col move)).
  set (bonus := if is_good then depth * depth else - depth * depth).
  assert (-512 <= bonus <= 512) as Hb by (subst bonus; destruct is_good; nia).
  destruct (history_scores w !! key) as [v|] eqn:E; intros [= <- <-];
    unfold history_bounded; cbn [history_scores set_history_scores].
  - split; [|split].
    + intros k x. destruct (decide (k = key)) as [->|Hne].
      * rewrite lookup_insert_eq. intros [= <-].
        apply gravity_bound; [by eapply Hw|done].
      * rewrite lookup_insert_ne by done. apply Hw.
    + intros k Hne. by rewrite lookup_insert_ne.
    + rewrite lookup_insert_eq. eauto.
  - split; [|split].
    + intros k x. destruct (decide (k = key)) as [->|Hne].
      * rewrite lookup_insert_eq. intros [= <-].
        apply gravity_bound; [lia|done].
      * rewrite !lookup_insert_ne by done. apply Hw.
    + intros k Hne. by rewrite !lookup_insert_ne.
    + rewrite lookup_insert_eq. eauto.
Qed.

Lemma history_update_stays_bounded_witness :
  exists w',
    _update_history (mkMove 6 4 4 4 "wp" "" "") 3 true (mate_in_one_world 1)
      = Some ((), w') /\
    history_bounded w'.
Proof.
  eexists. split; [reflexivity|].
  refine (proj1 (history_update_stays_bounded (mkMove 6 4 4 4 "wp" "" "") 3 true
                   (mate_in_one_world 1) _ () _ _ eq_refl)).
  - lia.
  - intros k v. vm_compute. discriminate.
Defined.

End HistoryFacts.

(* ===================================================================== *)
(** ** What a search does to the engine *)
(* ===================================================================== *)

Module EngineFacts.
Import AI SearchFacts.
Local Open Scope py_scope.

Section Bounded.
(** The bound on the bonus of a history update. *)
Variable bound : Z.

Lemma evolving_ret {A} (a : A) : evolving bound (Py.ret a).
Proof. intros w a' w' [= _ <-]. done. Qed.

Lemma evolving_bind {A B} (m : SE A) (k : A -> SE B) :
  evolving bound m -> (forall a, evolving bound (k a)) -> evolving bound (Py.bind m k).
Proof.
  intros Hm Hk w b w'. unfold Py.bind.
  destruct (m w) as [[a w1]|] eqn:E; [|done].
  intros H. etrans; [eapply Hm, E|eapply Hk, H].
Qed.

Lemma evolving_bind_returns {A B} (m : SE A) (k : A -> SE B) (Q : A -> Prop) :
  evolving bound m -> returns m Q -> (forall a, Q a -> evolving bound (k a)) ->
  evolving bound (Py.bind m k).
Proof.
  intros Hm Hq Hk w b w'. unfold Py.bind.
  destruct (m w) as [[a w1]|] eqn:E; [|done].
  intros H. etrans; [eapply Hm, E|eapply Hk, H]. eapply Hq, E.
Qed.

Lemma evolving_lift {A} (o : option A) : evolving bound (Py.lift o).
Proof.
  intros w a w'. unfold Py.lift. destruct o; [|done]. by intros [= _ <-].
Qed.

Lemma evolving_get : evolving bound (Py.get (S := World)).
Proof. by intros w a w' [= _ <-]. Qed.

Lemma evolving_raise {A} : evolving bound (Py.raise (S := World) (A := A)).
Proof. by intros w a w'. Qed.

Lemma evolving_load (b : BoardRef) : evolving bound (load b).
Proof.
  intros w a w'. unfold load. destruct (rows_of _ _); [|done]. by intros [= _ <-].
Qed.

Lemma evolving_should_stop (env : Env) : evolving bound (_should_stop_search env).
Proof. intros w a w' [= _ <-]. apply rtc_once, step_poll. Qed.

Lemma evolving_killers_at (ply : Z) : evolving bound (killers_at ply).
Proof.
  intros w a w'. unfold killers_at.
  destruct (_ !! _) eqn:E; intros [= _ <-]; [done|].
  by apply rtc_once, step_killers_new.
Qed.

Lemma evolving_history_at (key : string * Z) : evolving bound (history_at key).
Proof.
  intros w a w'. unfold history_at.
  destruct (_ !! _) eqn:E; intros [= _ <-]; [done|].
  by apply rtc_once, step_history_new.
Qed.

Lemma evolving_probe (key depth alpha beta : Z) : evolving bound (probe key depth alpha beta).
Proof.
  intros w a w'. unfold probe.
  pose proof (step_probe bound w key depth alpha beta) as Hs.
  destruct (tt_probe _ _ _ _ _). intros [= _ <-]. by apply rtc_once.
Qed.

Lemma evolving_random_choice {A} (env : Env) (l : list A) :
  evolving bound (random_choice env l).
Proof.
  intros w a w'. unfold random_choice. destruct (_ !! _); [|done].
  intros [= _ <-]. apply rtc_once, step_draw.
Qed.

Lemma evolving_bump_nodes : evolving bound bump_nodes.
Proof. intros w a w' [= _ <-]. apply rtc_once, step_node. Qed.

Lemma evolving_add_beta_cutoff (first : bool) : evolving bound (add_beta_cutoff first).
Proof. intros w a w' [= _ <-]. apply rtc_once, step_beta_cutoff. Qed.

Lemma evolving_add_null_move_cut : evolving bound add_null_move_cut.
Proof. intros w a w' [= _ <-]. apply rtc_once, step_null_move_cut. Qed.

Lemma evolving_add_lmr_saves (b : bool) : evolving bound (add_lmr_saves (if b then 1 else 0)).
Proof.
  intros w a w' [= _ <-]. apply rtc_once, step_lmr. destruct b; auto.
Qed.

(** [_make_move] changes the heap only. *)
Lemma only_heap_refl (w : World) : w = set_heap (heap w) w.
Proof. by destruct w. Qed.

Lemma only_heap_trans (w1 w2 w3 : World) :
  w2 = set_heap (heap w2) w1 -> w3 = set_heap (heap w3) w2 ->
  w3 = set_heap (heap w3) w1.
Proof. intros H1 H2. rewrite H2, H1. reflexivity. Qed.

Lemma write2_only_heap (b : BoardRef) (r c : Z) (x : string) (w w' : World) (u : unit) :
  write2 b r c x w = Some (u, w') -> w' = set_heap (heap w') w.
Proof.
  unfold write2, Py.bind, Py.lift, Py.get, Py.put.
  destruct (Py.index b r) as [l|]; [|done].
  destruct (heap w !! l) as [row|]; [|done].
  destruct (Py.setitem row c x) as [row'|]; [|done].
  by intros [= _ <-].
Qed.

Lemma make_move_only_heap (board : BoardRef) (move : Move) (w w' : World)
    (new_board : BoardRef) :
  _make_move board move w = Some (new_board, w') -> w' = set_heap (heap w') w.
Proof.
  unfold _make_move. unfold Py.bind at 1. unfold load.
  destruct (rows_of (heap w) board) as [rows|]; [|done].
  unfold Py.bind at 1. rewrite copy_rows_spec.
  set (nb := seq (length (heap w)) (length rows)).
  set (w1 := set_heap (heap w ++ rows) w).
  assert (H1 : w1 = set_heap (heap w1) w) by reflexivity.
  clearbody nb w1.
  unfold Py.bind at 1.
  destruct (write2 nb (to_row move) (to_col move) (piece move) w1)
    as [[[] w2]|] eqn:E2; [|done].
  apply write2_only_heap in E2.
  unfold Py.bind at 1.
  destruct (write2 nb (from_row move) (from_col move) "--" w2)
    as [[[] w3]|] eqn:E3; [|done].
  apply write2_only_heap in E3.
  unfold Py.bind at 1.
  match goal with
  | |- match ?special w3 with _ => _ end = _ -> _ =>
      destruct (special w3) as [[[] w4]|] eqn:E4; [|done];
      assert (H4 : w4 = set_heap (heap w4) w3)
  end.
  { revert E4. repeat case_match; unfold Py.bind, Py.lift, Py.ret;
      repeat case_match; try done; intros;
      repeat match goal with
      | H : Some _ = Some _ |- _ => injection H as ?; subst
      | H : read2 _ _ _ _ = Some _ |- _ => apply read2_state in H; subst
      end;
      repeat match goal with
      | H : write2 _ _ _ _ _ = Some _ |- _ => apply write2_only_heap in H
      end; eauto using only_heap_refl, only_heap_trans. }
  unfold Py.ret. intros [= _ <-].
  eauto using only_heap_trans.
Qed.

Lemma evolving_make_move (board : BoardRef) (move : Move) :
  evolving bound (_make_move board move).
Proof.
  intros w nb w' H.
  pose proof (make_move_only_heap _ _ _ _ _ H) as Hw.
  apply make_move_fresh in H as [_ Hp].
  rewrite Hw. by apply rtc_once, step_rows.
Qed.

Lemma evolving_add_killer_move (move : Move) (ply : Z) :
  captured move = "" -> evolving bound (_add_killer_move move ply).
Proof.
  intros Hq w a w'. unfold _add_killer_move, Py.bind, killers_at.
  destruct (killer_moves w !! ply) as [ks|] eqn:E.
  - destruct (bool_decide (move ∈ ks)) eqn:D; simpl.
    + by intros [= _ <-].
    + intros [= _ <-]. apply bool_decide_eq_false in D.
      by apply rtc_once, (step_killer bound w ply ks move).
  - rewrite bool_decide_eq_false_2 by apply not_elem_of_nil. simpl.
    intros [= _ <-].
    eapply rtc_l; [by apply step_killers_new|].
    apply rtc_once.
    pose proof (step_killer bound (set_killer_moves (<[ply:=[]]> (killer_moves w)) w)
                  ply [] move) as Hs.
    simpl in Hs. rewrite lookup_insert_eq in Hs.
    apply Hs; [done|apply not_elem_of_nil|done].
Qed.

Lemma evolving_guarded_killer (move : Move) (ply : Z) (b : bool) :
  evolving bound (if String.eqb (captured move) "" && b
            then _add_killer_move move ply else Py.ret ()).
Proof.
  destruct (String.eqb_spec (captured move) ""); simpl.
  - destruct b; [by apply evolving_add_killer_move|apply evolving_ret].
  - apply evolving_ret.
Qed.

Lemma evolving_update_history (move : Move) (depth : Z) (is_good : bool) :
  depth * depth <= bound ->
  evolving bound (_update_history move depth is_good).
Proof.
  intros Hd w a w'. unfold _update_history, Py.bind, history_at.
  assert (Z.abs (if is_good then depth * depth else - depth * depth) <= bound)
    as Hb by (destruct is_good; nia).
  destruct (history_scores w !! _) as [v|] eqn:E.
  - intros [= _ <-]. by apply rtc_once, step_history.
  - intros [= _ <-].
    eapply rtc_l; [by apply step_history_new|].
    apply rtc_once. apply step_history; [|done]. simpl. by rewrite lookup_insert_eq.
Qed.

(** Goals of the form [evolving bound m], by following the structure of [m]. *)
Create HintDb evolving.

Ltac evo_step :=
  match goal with
  | |- evolving bound (Py.ret _) => apply evolving_ret
  | |- evolving bound (Py.bind (_order_moves _ _ _) _) =>
      eapply evolving_bind_returns;
      [|apply order_moves_perm|intros ? ?]
  | |- evolving bound (Py.bind _ _) => apply evolving_bind; [|intros ?]
  | |- evolving bound (Py.lift _) => apply evolving_lift
  | |- evolving bound Py.get => apply evolving_get
  | |- evolving bound Py.raise => apply evolving_raise
  | |- evolving bound (load _) => apply evolving_load
  | |- evolving bound (_should_stop_search _) => apply evolving_should_stop
  | |- evolving bound (killers_at _) => apply evolving_killers_at
  | |- evolving bound (history_at _) => apply evolving_history_at
  | |- evolving bound (probe _ _ _ _) => apply evolving_probe
  | |- evolving bound (random_choice _ _) => apply evolving_random_choice
  | |- evolving bound (_make_move _ _) => apply evolving_make_move
  | |- evolving bound bump_nodes => apply evolving_bump_nodes
  | |- evolving bound (add_beta_cutoff _) => apply evolving_add_beta_cutoff
  | |- evolving bound add_null_move_cut => apply evolving_add_null_move_cut
  | |- evolving bound (add_lmr_saves _) => apply evolving_add_lmr_saves
  | |- evolving bound (_update_history _ _ _) =>
      apply evolving_update_history; assumption
  | |- evolving bound (if String.eqb (captured _) "" && _
                 then _add_killer_move _ _ else _) =>
      apply evolving_guarded_killer
  | H : _ |- evolving bound _ =>
      solve [apply H; first [lia | Z.div_mod_to_equations; lia]]
  | |- evolving bound _ => solve [auto with evolving]
  | |- evolving bound (if ?b then _ else _) => destruct b eqn:?
  | |- evolving bound (match ?x with _ => _ end) => destruct x eqn:?
  | |- evolving bound (let '(_, _) := ?x in _) => destruct x eqn:?
  end.

Ltac evo := repeat evo_step.

Lemma evolving_order_score (ply : Z) (tt_move : option Move) (move : Move) :
  evolving bound (order_score ply tt_move move).
Proof. unfold order_score. evo. Qed.

#[local] Hint Resolve evolving_order_score : evolving.

Lemma evolving_score_moves (ply : Z) (tt_move : option Move) (moves : list Move) :
  evolving bound (score_moves ply tt_move moves).
Proof. induction moves as [|m rest IH]; simpl; evo. Qed.

#[local] Hint Resolve evolving_score_moves : evolving.

Lemma evolving_order_moves (moves : list Move) (ply : Z) (tt_move : option Move) :
  evolving bound (_order_moves moves ply tt_move).
Proof. unfold _order_moves. evo. Qed.

#[local] Hint Resolve evolving_order_moves : evolving.

Lemma evolving_store_node (pos_key depth best_score beta : Z) (ordered : list Move) :
  0 < depth -> ordered <> [] ->
  evolving bound (store_node pos_key depth best_score beta ordered).
Proof.
  intros Hd Ho w a w'. destruct ordered as [|m rest]; [done|].
  unfold store_node, store, Py.bind, Py.modify, Py.ret. simpl.
  intros [= _ <-]. by apply rtc_once, step_store.
Qed.

Lemma evolving_qs_loop (rec : BoardRef -> Z -> Z -> SE Z) (board : BoardRef)
    (captures : list Move) (alpha beta : Z) :
  (forall b a be, evolving bound (rec b a be)) ->
  evolving bound (qs_loop rec board captures alpha beta).
Proof.
  intros Hrec. revert alpha.
  induction captures as [|m rest IH]; intros alpha; simpl; evo.
Qed.

Lemma evolving_quiescence_search (fuel : nat) (board : BoardRef) (is_white_turn : bool)
    (alpha beta : Z) :
  evolving bound (_quiescence_search fuel board is_white_turn alpha beta).
Proof.
  revert board is_white_turn alpha beta.
  induction fuel as [|fuel IH]; intros board is_white_turn alpha beta; simpl.
  - evo.
  - evo. apply evolving_qs_loop. intros. apply IH.
Qed.

#[local] Hint Resolve evolving_quiescence_search : evolving.

(** The reduction of a late move is not negative. *)
Lemma reduction_not_negative (new_board : BoardRef) (is_white_turn : bool)
    (depth i moves_searched : Z) (lmr : bool) (quiet : bool) :
  returns
    (if lmr && (3 <? i) && (2 <? depth) && (0 <? moves_searched) && quiet then
       nb <- load new_board ;;
       chk <- Py.lift (_is_king_in_check nb (negb is_white_turn)) ;;
       if negb chk
       then Py.ret (Z.min (depth - 1) (1 + ((depth - 1) * (i - 3)) `div` 20))
       else Py.ret 0
     else Py.ret 0)
    (fun reduction => 0 <= reduction).
Proof.
  destruct (lmr && (3 <? i) && (2 <? depth) && (0 <? moves_searched) && quiet)
    eqn:E; [|by apply returns_ret].
  apply andb_true_iff in E as [E _]. apply andb_true_iff in E as [E _].
  apply andb_true_iff in E as [E Hd]. apply andb_true_iff in E as [_ Hi].
  apply returns_bind_any. intros nb. apply returns_bind_any. intros chk.
  destruct (negb chk); apply returns_ret; [|done].
  apply Z.min_glb; [lia|].
  assert (0 <= ((depth - 1) * (i - 3)) `div` 20) by (apply Z.div_pos; nia). lia.
Qed.

Lemma evolving_ab_loop (rec : BoardRef -> bool -> Z -> Z -> Z -> Z -> SE Z)
    (board : BoardRef) (is_white_turn : bool) (depth beta ply : Z)
    (ms : list Move) (i alpha best_score moves_searched : Z) :
  depth * depth <= bound ->
  (forall b w d a be p, d <= depth - 1 -> evolving bound (rec b w d a be p)) ->
  evolving bound (ab_loop rec board is_white_turn depth beta ply ms i alpha
              best_score moves_searched).
Proof.
  intros Hd Hrec. revert i alpha best_score moves_searched.
  induction ms as [|m rest IH]; intros i alpha best_score moves_searched;
    cbn [ab_loop]; [by apply evolving_ret|].
  apply evolving_bind; [apply evolving_make_move|]. intros new_board.
  apply evolving_bind; [apply evolving_get|]. intros w.
  eapply evolving_bind_returns;
    [|apply reduction_not_negative|intros reduction Hred; cbv beta in Hred];
    evo.
Qed.

(** The deepest search: no call of [_alpha_beta] has a greater depth, and
    the bonus of that depth is within the bound. *)
Variable deepest : Z.
Hypothesis deepest_pos : 0 <= deepest.
Hypothesis deepest_fits : deepest * deepest <= bound.

Lemma evolving_alpha_beta (env : Env) (fuel : nat) (board : BoardRef)
    (is_white_turn : bool) (depth alpha beta ply : Z) :
  depth <= deepest ->
  evolving bound (_alpha_beta env fuel board is_white_turn depth alpha beta ply).
Proof.
  revert board is_white_turn depth alpha beta ply.
  induction fuel as [|fuel IH];
    intros board is_white_turn depth alpha beta ply Hd; simpl.
  - evo.
  - evo;
      try (apply evolving_ab_loop; [nia|intros; apply IH; lia]);
      (apply evolving_store_node;
       [lia | intros ->;
              match goal with
              | H : [] ≡ₚ _ :: _ |- _ => by apply Permutation_nil_cons in H
              end]).
Qed.

Lemma evolving_root_loop (env : Env) (fuel : nat) (board : BoardRef)
    (is_white_turn : bool) (depth : Z) (ms : list Move) (best_move : option Move)
    (best_score : Z) :
  depth - 1 <= deepest ->
  evolving bound (root_loop env fuel board is_white_turn depth ms best_move best_score).
Proof.
  intros Hd. revert best_move best_score.
  induction ms as [|m rest IH]; intros best_move best_score; simpl;
    [apply evolving_ret|].
  apply evolving_bind; [apply evolving_should_stop|]. intros [|];
    [apply evolving_ret|].
  apply evolving_bind; [apply evolving_make_move|]. intros new_board.
  apply evolving_bind; [by apply evolving_alpha_beta|]. intros v.
  destruct (_ <? _); apply IH.
Qed.

Lemma evolving_search_root (env : Env) (fuel : nat) (board : BoardRef)
    (is_white_turn : bool) (moves : list Move) (depth : Z) :
  depth - 1 <= deepest ->
  evolving bound (_search_root env fuel board is_white_turn moves depth).
Proof.
  intros Hd. unfold _search_root.
  apply evolving_bind; [apply evolving_order_moves|]. intros ordered.
  by apply evolving_root_loop.
Qed.

Lemma evolving_deepening_loop (env : Env) (fuel : nat) (board : BoardRef)
    (is_white_turn : bool) (moves : list Move) (depths : list Z)
    (best_move : option Move) :
  Forall (fun d => d - 1 <= deepest) depths ->
  evolving bound (deepening_loop env fuel board is_white_turn moves depths best_move).
Proof.
  intros Hds. revert best_move.
  induction Hds as [|d rest Hd _ IH]; intros best_move; simpl;
    [apply evolving_ret|].
  apply evolving_bind; [apply evolving_should_stop|]. intros [|];
    [apply evolving_ret|].
  apply evolving_bind; [by apply evolving_search_root|]. intros current_best.
  apply evolving_bind; [apply evolving_should_stop|]. intros stop2.
  apply IH.
Qed.

Lemma range_from_one_bound (n d : Z) : d ∈ Py.range 1 (n + 1) -> d <= n.
Proof.
  unfold Py.range. intros H.
  apply list_elem_of_fmap in H as (k & -> & Hk).
  apply elem_of_seq in Hk. lia.
Qed.

(** A call of [find_best_move]: the resets, then a sequence of updates. *)
Lemma find_best_move_evolves (env : Env) (fuel : nat) (board : BoardRef)
    (is_white_turn : bool) (valid_moves : list Core.Move) (w w' : World)
    (result : option Core.Move) :
  max_depth (config w) - 1 <= deepest ->
  find_best_move env fuel board is_white_turn valid_moves w = Some (result, w') ->
  rtc (step bound) (after_reset w) w'.
Proof.
  intros Hmax.
  unfold find_best_move, Py.bind at 1. rewrite reset_search_spec.
  assert (Hc : config (after_reset w) = config w) by reflexivity.
  destruct valid_moves as [|m1 [|m2 rest]].
  - by intros [= _ <-].
  - by intros [= _ <-].
  - set (w0 := after_reset w).
    unfold Py.bind at 1. unfold load.
    destruct (rows_of (heap w0) board) as [rows|]; [|done].
    unfold Py.bind at 1. unfold Py.lift.
    destruct (_convert_moves rows _) as [moves|]; [|done].
    unfold Py.bind at 1. unfold Py.get at 1.
    change (config w0) with (config w).
    clearbody w0. clear Hc. revert w0 result w'.
    match goal with
    | |- forall w0 r w', ?m w0 = Some (r, w') -> _ => change (evolving bound m)
    end.
    apply evolving_bind.
    + apply evolving_deepening_loop. apply Forall_forall. intros d Hd.
      apply range_from_one_bound in Hd. lia.
    + intros [bm|]; evo.
Qed.

End Bounded.

(** *** What the updates keep *)

Section Steps.
Variable bound : Z.

Lemma tt_probe_fields t key d a b :
  size (tt_probe t key d a b).2 = size t /\
  generation (tt_probe t key d a b).2 = generation t /\
  table (tt_probe t key d a b).2 = table t.
Proof. unfold tt_probe. repeat case_match; done. Qed.

Lemma step_frame (w w' : World) :
  step bound w w' ->
  config w' = config w /\ size (tt w') = size (tt w) /\
  generation (tt w') = generation (tt w).
Proof.
  destruct 1; simpl; try done.
  - destruct (tt_probe_fields (tt w) key d a b) as (? & ? & _). done.
  - destruct (TranspositionTableFacts.tt_store_fields (tt w) key d sc
                (tt_flag_of sc beta) (Some m)) as (? & ? & _). done.
Qed.

Lemma steps_frame (w w' : World) :
  rtc (step bound) w w' ->
  config w' = config w /\ size (tt w') = size (tt w) /\
  generation (tt w') = generation (tt w).
Proof.
  induction 1 as [|w1 w2 w3 H12 _ IH]; [done|].
  destruct (step_frame _ _ H12) as (? & ? & ?). destruct IH as (? & ? & ?).
  repeat split; congruence.
Qed.

Lemma steps_capacity (w w' : World) :
  rtc (step bound) w w' ->
  Z.of_nat (base.size (table (tt w))) <= size (tt w) ->
  Z.of_nat (base.size (table (tt w'))) <= size (tt w').
Proof.
  induction 1 as [|w1 w2 w3 H12 _ IH]; [done|].
  intros H1. apply IH. clear IH. destruct H12; simpl; try done.
  - destruct (tt_probe_fields (tt w) key d a b) as (-> & _ & ->). done.
  - destruct (TranspositionTableFacts.tt_store_fields (tt w) key d sc
                (tt_flag_of sc beta) (Some m)) as (-> & _).
    by apply TranspositionTableFacts.tt_store_size.
Qed.

Lemma tt_flag_of_range (sc beta : Z) :
  tt_flag_of sc beta = EXACT \/ tt_flag_of sc beta = LOWER_BOUND \/
  tt_flag_of sc beta = UPPER_BOUND.
Proof. unfold tt_flag_of. repeat case_match; auto. Qed.

Lemma step_entries (w w' : World) (k : Z) (e : TranspositionEntry) :
  step bound w w' -> table (tt w') !! k = Some e ->
  table (tt w) !! k = Some e \/ search_entry (generation (tt w)) e.
Proof.
  destruct 1; simpl; auto.
  - destruct (tt_probe_fields (tt w) key d a b) as (_ & _ & ->). auto.
  - unfold tt_store.
    assert (Hnew : search_entry (generation (tt w))
                     (mkEntry sc d (tt_flag_of sc beta) (Some m) (generation (tt w)))).
    { repeat split; simpl; [done|by eexists|apply tt_flag_of_range]. }
    repeat case_match; simpl; auto;
      (destruct (decide (k = key)) as [->|Hk];
       [rewrite lookup_insert_eq; intros [= <-]; by right
       |rewrite lookup_insert_ne by done; auto]).
Qed.

Lemma steps_entries (w w' : World) (k : Z) (e : TranspositionEntry) :
  rtc (step bound) w w' -> table (tt w') !! k = Some e ->
  table (tt w) !! k = Some e \/ search_entry (generation (tt w)) e.
Proof.
  induction 1 as [|w1 w2 w3 H12 H23 IH]; [auto|].
  intros H3. destruct (IH H3) as [H2|H2].
  - by eapply step_entries.
  - right. destruct (step_frame _ _ H12) as (_ & _ & <-). done.
Qed.

Lemma step_killers (w w' : World) : step bound w w' -> killers_ok w -> killers_ok w'.
Proof.
  destruct 1; simpl; try done.
  - intros Hk p l. simpl. destruct (decide (p = ply)) as [->|Hp].
    + rewrite lookup_insert_eq. intros [= <-].
      repeat split; [simpl; lia|constructor|constructor].
    + rewrite lookup_insert_ne by done. apply Hk.
  - intros Hk p l. simpl. destruct (decide (p = ply)) as [->|Hp].
    + rewrite lookup_insert_eq. intros [= <-].
      destruct (Hk _ _ H) as (Hlen & Hnd & Hq).
      destruct ks as [|a [|b [|c rest]]]; simpl in *; try lia.
      * repeat split; [lia|apply NoDup_singleton|by repeat constructor].
      * repeat split; [lia| |].
        -- apply NoDup_cons. split; [done|apply NoDup_singleton].
        -- constructor; [done|]. done.
      * repeat split; [lia| |].
        -- apply NoDup_cons. split; [|apply NoDup_singleton].
           rewrite list_elem_of_singleton. intros ->.
           match goal with Hn : _ ∉ _ |- _ => apply Hn; left end.
        -- constructor; [done|]. constructor; [|done].
           by apply Forall_cons in Hq as [? _].
    + rewrite lookup_insert_ne by done. apply Hk.
Qed.

Lemma steps_killers (w w' : World) : rtc (step bound) w w' -> killers_ok w -> killers_ok w'.
Proof. induction 1; eauto using step_killers. Qed.

Lemma step_stats (w w' : World) : step bound w w' -> stats_ok w -> stats_ok w'.
Proof.
  unfold stats_ok. destruct 1; simpl; try done; try (destruct first); lia.
Qed.

Lemma steps_stats (w w' : World) : rtc (step bound) w w' -> stats_ok w -> stats_ok w'.
Proof. induction 1; eauto using step_stats. Qed.

Lemma step_history_bounded (w w' : World) :
  bound <= 512 -> step bound w w' -> history_bounded w -> history_bounded w'.
Proof.
  intros Hb. unfold history_bounded. destruct 1; simpl; try done.
  - intros Hw k v. destruct (decide (k = key)) as [->|Hk].
    + rewrite lookup_insert_eq. intros [= <-]. lia.
    + rewrite lookup_insert_ne by done. apply Hw.
  - intros Hw k v. destruct (decide (k = key)) as [->|Hk].
    + rewrite lookup_insert_eq. intros [= <-].
      apply HistoryFacts.gravity_bound; [by eapply Hw|lia].
    + rewrite lookup_insert_ne by done. apply Hw.
Qed.

Lemma steps_history_bounded (w w' : World) :
  bound <= 512 -> rtc (step bound) w w' -> history_bounded w -> history_bounded w'.
Proof. intros Hb. induction 1; eauto using step_history_bounded. Qed.

End Steps.

(** A call of [find_best_move] is a sequence of updates, for the bonus of
    its deepest search. *)
Lemma find_best_move_steps (env : Env) (fuel : nat) (board : BoardRef)
    (is_white_turn : bool) (valid_moves : list Core.Move) (w w' : World)
    (result : option Core.Move) :
  find_best_move env fuel board is_white_turn valid_moves w = Some (result, w') ->
  exists B, rtc (step B) (after_reset w) w'.
Proof.
  intros H. set (deepest := Z.max 0 (max_depth (config w) - 1)).
  exists (deepest * deepest).
  apply (find_best_move_evolves (deepest * deepest) deepest) in H;
    [done|lia..].
Qed.

(** X5. Through a call of [find_best_move] the configuration and the
    capacity of the transposition table stay as they are and the search
    number goes up by one; a table within its capacity stays within it;
    every entry of the table afterwards was there before, or was written
    by this search: it has a positive depth, a best move, the new search
    number and one of the three bound flags. *)
Theorem search_keeps_table_sound (env : Env) (fuel : nat) (board : BoardRef)
    (is_white_turn : bool) (valid_moves : list Core.Move) (w w' : World)
    (result : option Core.Move) :
  find_best_move env fuel board is_white_turn valid_moves w = Some (result, w') ->
  config w' = config w /\
  size (tt w') = size (tt w) /\
  generation (tt w') = generation (tt w) + 1 /\
  (Z.of_nat (base.size (table (tt w))) <= size (tt w) ->
   Z.of_nat (base.size (table (tt w'))) <= size (tt w')) /\
  (forall k e, table (tt w') !! k = Some e ->
     table (tt w) !! k = Some e \/ search_entry (generation (tt w')) e).
Proof.
  intros H. apply find_best_move_steps in H as [B H].
  destruct (steps_frame B _ _ H) as (Hc & Hs & Hg). simpl in *.
  repeat split; try done.
  - by apply (steps_capacity B _ _ H).
  - intros k e Hk. rewrite Hg. by apply (steps_entries B _ _ k e H).
Qed.

Lemma search_keeps_table_sound_witness :
  exists result w',
    find_best_move patient_env 100 mate_in_one_ref true mate_in_one_moves
      (mate_in_one_world 2) = Some (result, w') /\
    size (tt w') = size (tt (mate_in_one_world 2)) /\
    generation (tt w') = generation (tt (mate_in_one_world 2)) + 1.
Proof.
  destruct (finished_inv
              (find_best_move patient_env 100 mate_in_one_ref true
                 mate_in_one_moves (mate_in_one_world 2)))
    as (result & w' & E); [vm_compute; reflexivity|].
  exists result, w'. split; [exact E|].
  destruct (search_keeps_table_sound patient_env 100 mate_in_one_ref true
              mate_in_one_moves (mate_in_one_world 2) w' result E)
    as (_ & Hs & Hg & _).
  split; [exact Hs|exact Hg].
Defined.

(** X6. After a call of [find_best_move], every ply has at most two killer
    moves, they are different, and none of them is a capture. *)
Theorem search_keeps_killers_ok (env : Env) (fuel : nat) (board : BoardRef)
    (is_white_turn : bool) (valid_moves : list Core.Move) (w w' : World)
    (result : option Core.Move) :
  find_best_move env fuel board is_white_turn valid_moves w = Some (result, w') ->
  killers_ok w'.
Proof.
  intros H. apply find_best_move_steps in H as [B H].
  apply (steps_killers B _ _ H). intros ply ks. simpl. by rewrite lookup_empty.
Qed.

Lemma search_keeps_killers_ok_witness :
  exists result w', find_best_move patient_env 100 mate_in_one_ref true mate_in_one_moves
      (mate_in_one_world 2) = Some (result, w') /\ killers_ok w'.
Proof.
  destruct (finished_inv
              (find_best_move patient_env 100 mate_in_one_ref true
                 mate_in_one_moves (mate_in_one_world 2)))
    as (result & w' & E); [vm_compute; reflexivity|].
  exists result, w'. split; [exact E|].
  exact (search_keeps_killers_ok patient_env 100 mate_in_one_ref true
           mate_in_one_moves (mate_in_one_world 2) w' result E).
Defined.

(** X7. After a call of [find_best_move] the counters are consistent: the
    first-move cutoffs are at least zero and at most the beta cutoffs, and
    the null-move cuts, the saved reductions and the nodes searched are
    not negative. *)
Theorem search_keeps_stats_ok (env : Env) (fuel : nat) (board : BoardRef)
    (is_white_turn : bool) (valid_moves : list Core.Move) (w w' : World)
    (result : option Core.Move) :
  find_best_move env fuel board is_white_turn valid_moves w = Some (result, w') ->
  stats_ok w'.
Proof.
  intros H. apply find_best_move_steps in H as [B H].
  apply (steps_stats B _ _ H). unfold stats_ok. simpl. lia.
Qed.

Lemma search_keeps_stats_ok_witness :
  exists result w', find_best_move patient_env 100 mate_in_one_ref true mate_in_one_moves
      (mate_in_one_world 2) = Some (result, w') /\ stats_ok w'.
Proof.
  destruct (finished_inv
              (find_best_move patient_env 100 mate_in_one_ref true
                 mate_in_one_moves (mate_in_one_world 2)))
    as (result & w' & E); [vm_compute; reflexivity|].
  exists result, w'. split; [exact E|].
  exact (search_keeps_stats_ok patient_env 100 mate_in_one_ref true
           mate_in_one_moves (mate_in_one_world 2) w' result E).
Defined.

(** X25. With [max_depth] at most 23, every history score is between
    -512 and 512 after a call of [find_best_move]. *)
Theorem search_keeps_history_bounded (env : Env) (fuel : nat) (board : BoardRef)
    (is_white_turn : bool) (valid_moves : list Core.Move) (w w' : World)
    (result : option Core.Move) :
  max_depth (config w) <= 23 ->
  find_best_move env fuel board is_white_turn valid_moves w = Some (result, w') ->
  history_bounded w'.
Proof.
  intros Hmax H.
  apply (find_best_move_evolves 512 22) in H; [|lia..].
  apply (steps_history_bounded 512 _ _ ltac:(lia) H).
  intros k v. simpl. by rewrite lookup_empty.
Qed.

Lemma search_keeps_history_bounded_witness :
  exists result w', find_best_move patient_env 100 mate_in_one_ref true mate_in_one_moves
      (mate_in_one_world 2) = Some (result, w') /\ history_bounded w'.
Proof.
  destruct (finished_inv
              (find_best_move patient_env 100 mate_in_one_ref true
                 mate_in_one_moves (mate_in_one_world 2)))
    as (result & w' & E); [vm_compute; reflexivity|].
  exists result, w'. split; [exact E|].
  apply (search_keeps_history_bounded patient_env 100 mate_in_one_ref true
           mate_in_one_moves (mate_in_one_world 2) w' result); [|exact E].
  vm_compute. discriminate.
Defined.

End EngineFacts.

(* ===================================================================== *)
(** ** The move generator of the engine *)
(* ===================================================================== *)

Module GeneratorFacts.
Import AI CaptureGeneratorFacts.

Section Sound.
Variables (board : Board) (row col : Z) (color : ascii) (move_type : MoveType).
Hypothesis Hfrom : is_valid_square row col = true.

Let good (m : Move) : Prop := sound_move board color m /\ fits move_type m.

Lemma valid_square_range (r c : Z) :
  is_valid_square r c = true <-> 0 <= r < 8 /\ 0 <= c < 8.
Proof. unfold is_valid_square. lia. Qed.

Lemma sound_quiet (pc : string) (r c : Z) :
  wants_quiet move_type = true ->
  is_valid_square r c = true -> (row, col) <> (r, c) ->
  Py.chr pc 0 = Some color ->
  Py.index2 board r c = Some "--" ->
  good (mkMove row col r c pc "" "").
Proof.
  intros Hw Hv Hne Hpc Ht. split; [|exact Hw].
  repeat split; simpl; try done.
  exists "--". split; [done|]. by left.
Qed.

Lemma sound_capture (pc t : string) (c0 : ascii) (r c : Z) :
  wants_captures move_type = true ->
  is_valid_square r c = true -> (row, col) <> (r, c) ->
  Py.chr pc 0 = Some color ->
  Py.index2 board r c = Some t -> t <> "--" ->
  Py.chr t 0 = Some c0 -> c0 <> color ->
  good (mkMove row col r c pc t "").
Proof.
  intros Hw Hv Hne Hpc Ht Hte Hc0 Hc.
  assert (Hn : t <> "") by (by eapply chr_nonempty).
  split.
  - repeat split; simpl; try done.
    exists t. split; [done|]. right. repeat split; try done.
    rewrite Hc0. congruence.
  - unfold fits. simpl. by destruct (String.eqb_spec t "").
Qed.

Lemma pawn_capture_sound direction dc l :
  wants_captures move_type = true ->
  direction = -1 \/ direction = 1 ->
  pawn_capture board row col color direction dc = Some l ->
  Forall good l.
Proof.
  intros Hw Hd. unfold pawn_capture. cbv zeta.
  destruct (is_valid_square (row + direction) (col + dc)) eqn:Hv;
    [|intros [= <-]; constructor].
  intros H. apply bind_Some in H as (t & Ht & H).
  destruct (String.eqb_spec t "--") as [->|Hne]; simpl in H;
    [injection H as <-; constructor|].
  apply bind_Some in H as (c0 & Hc0 & H).
  destruct (Ascii.eqb_spec c0 color) as [->|Hc]; simpl in H;
    injection H as <-; [constructor|].
  apply Forall_singleton.
  eapply sound_capture; eauto.
  intros [= ? ?]. lia.
Qed.

Lemma pawn_moves_sound l :
  _get_pawn_moves board row col color move_type = Some l ->
  Forall good l.
Proof.
  unfold _get_pawn_moves. cbv zeta. intros H.
  apply bind_Some in H as (quiet & Hq & H).
  apply bind_Some in H as (caps & Hc & [= <-]).
  set (direction := if Ascii.eqb color "w" then -1 else 1) in *.
  set (start_row := if Ascii.eqb color "w" then 6 else 1) in *.
  assert (Hd : direction = -1 \/ direction = 1)
    by (subst direction; destruct (Ascii.eqb color "w"); auto).
  assert (Hs : row = start_row ->
               is_valid_square (row + direction + direction) col = true).
  { intros ->. apply valid_square_range in Hfrom.
    apply valid_square_range. subst start_row direction.
    destruct (Ascii.eqb color "w"); lia. }
  clearbody direction start_row.
  apply Forall_app. split.
  - destruct (wants_quiet move_type) eqn:Hw; [|injection Hq as <-; constructor].
    destruct (is_valid_square (row + direction) col) eqn:Hv;
      [|injection Hq as <-; constructor].
    apply bind_Some in Hq as (t & Ht & Hq).
    destruct (String.eqb_spec t "--") as [->|Hne];
      [|injection Hq as <-; constructor].
    assert (H1 : good (mkMove row col (row + direction) col (tag color "p") "" "")).
    { apply sound_quiet; [done|done| intros [= ?]; lia |reflexivity|done]. }
    destruct (Z.eqb_spec row start_row) as [Hrow|Hrow].
    + apply bind_Some in Hq as (t2 & Ht2 & Hq).
      destruct (String.eqb_spec t2 "--") as [->|Hne2];
        injection Hq as <-; [|by apply Forall_singleton].
      apply Forall_cons. split; [done|]. apply Forall_singleton.
      apply sound_quiet; [done|by apply Hs| intros [= ?]; lia |reflexivity|done].
    + injection Hq as <-. by apply Forall_singleton.
  - destruct (wants_captures move_type) eqn:Hw; [|injection Hc as <-; constructor].
    apply bind_Some in Hc as (left & Hl & Hc).
    apply bind_Some in Hc as (right & Hr & [= <-]).
    apply Forall_app. split; by eapply pawn_capture_sound.
Qed.

Lemma slide_ray_sound pc dr dc steps l :
  Py.chr pc 0 = Some color ->
  Forall (fun i => (i * dr, i * dc) <> (0, 0)) steps ->
  slide_ray board row col color pc dr dc move_type steps = Some l ->
  Forall good l.
Proof.
  intros Hpc. revert l. induction steps as [|i rest IH]; intros l Hst; simpl.
  - intros [= <-]. constructor.
  - apply Forall_cons in Hst as [Hi Hst].
    destruct (is_valid_square (row + i * dr) (col + i * dc)) eqn:Hv; simpl;
      [|intros [= <-]; constructor].
    intros H. apply bind_Some in H as (t & Ht & H).
    assert (Hne : (row, col) <> (row + i * dr, col + i * dc)).
    { intros [= ? ?]. apply Hi. f_equal; lia. }
    destruct (String.eqb_spec t "--") as [->|Hte].
    + apply bind_Some in H as (more & Hmore & [= <-]).
      apply Forall_app. split; [|by apply IH].
      destruct (wants_quiet move_type) eqn:Hw; [|constructor].
      apply Forall_singleton. by apply sound_quiet.
    + apply bind_Some in H as (c0 & Hc0 & H).
      destruct (Ascii.eqb_spec c0 color) as [->|Hc]; simpl in H;
        injection H as <-; [constructor|].
      destruct (wants_captures move_type) eqn:Hw; [|constructor].
      apply Forall_singleton. by eapply sound_capture.
Qed.

Lemma range_1_8 : Py.range 1 8 = [1; 2; 3; 4; 5; 6; 7].
Proof. reflexivity. Qed.

Lemma slide_dirs_sound pc dirs l :
  Py.chr pc 0 = Some color ->
  Forall (fun d : Z * Z => d <> (0, 0)) dirs ->
  slide_dirs board row col color pc move_type dirs = Some l ->
  Forall good l.
Proof.
  intros Hpc. revert l.
  induction dirs as [|[dr dc] rest IH]; intros l Hd; cbn [slide_dirs].
  - intros [= <-]. constructor.
  - apply Forall_cons in Hd as [Hd0 Hd].
    intros H. apply bind_Some in H as (here & Hhere & H).
    apply bind_Some in H as (more & Hmore & [= <-]).
    apply Forall_app. split; [|by apply IH].
    eapply slide_ray_sound; [done| |exact Hhere].
    rewrite range_1_8.
    repeat constructor; intros [= ? ?]; apply Hd0; f_equal; lia.
Qed.

Lemma step_offsets_sound pc offs l :
  Py.chr pc 0 = Some color ->
  Forall (fun d : Z * Z => d <> (0, 0)) offs ->
  step_offsets board row col color pc move_type offs = Some l ->
  Forall good l.
Proof.
  intros Hpc. revert l.
  induction offs as [|[dr dc] rest IH]; intros l Hd; simpl.
  - intros [= <-]. constructor.
  - apply Forall_cons in Hd as [Hd0 Hd].
    intros H. apply bind_Some in H as (here & Hhere & H).
    apply bind_Some in H as (more & Hmore & [= <-]).
    apply Forall_app. split; [|by apply IH].
    destruct (is_valid_square (row + dr) (col + dc)) eqn:Hv;
      [|injection Hhere as <-; constructor].
    apply bind_Some in Hhere as (t & Ht & H).
    assert (Hne : (row, col) <> (row + dr, col + dc)).
    { intros [= ? ?]. apply Hd0. f_equal; lia. }
    destruct (String.eqb_spec t "--") as [->|Hte].
    + injection H as <-. destruct (wants_quiet move_type) eqn:Hw; [|constructor].
      apply Forall_singleton. by apply sound_quiet.
    + apply bind_Some in H as (c0 & Hc0 & H).
      destruct (Ascii.eqb_spec c0 color) as [->|Hc]; simpl in H;
        injection H as <-; [constructor|].
      destruct (wants_captures move_type) eqn:Hw; [|constructor].
      apply Forall_singleton. by eapply sound_capture.
Qed.

End Sound.

Lemma dirs_nonzero :
  Forall (fun d : Z * Z => d <> (0, 0)) rook_dirs /\
  Forall (fun d : Z * Z => d <> (0, 0)) bishop_dirs /\
  Forall (fun d : Z * Z => d <> (0, 0)) queen_dirs /\
  Forall (fun d : Z * Z => d <> (0, 0)) knight_offsets /\
  Forall (fun d : Z * Z => d <> (0, 0)) king_offsets.
Proof. repeat split; repeat constructor; discriminate. Qed.

Lemma piece_moves_sound board row col pc color move_type l :
  is_valid_square row col = true ->
  Py.index2 board row col = Some pc ->
  Py.chr pc 0 = Some color ->
  _get_piece_moves board row col pc move_type = Some l ->
  Forall (fun m => sound_move board color m /\ fits move_type m) l.
Proof.
  intros Hv Hpc Hc. unfold _get_piece_moves. intros H.
  apply bind_Some in H as (k & Hk & H). apply bind_Some in H as (color' & Hc' & H).
  assert (color' = color) as -> by congruence.
  destruct dirs_nonzero as (Hr & Hb & Hq & Hn & Hkg).
  assert (Hslide : forall dirs,
             Forall (fun d : Z * Z => d <> (0, 0)) dirs ->
             _get_sliding_moves board row col color dirs move_type = Some l ->
             Forall (fun m => sound_move board color m /\ fits move_type m) l).
  { intros dirs Hd Hs. unfold _get_sliding_moves in Hs.
    apply bind_Some in Hs as (p & Hp & Hs).
    assert (p = pc) as -> by congruence.
    by eapply slide_dirs_sound. }
  assert (Hstep : forall offs,
             Forall (fun d : Z * Z => d <> (0, 0)) offs ->
             (pc' ← Py.index2 board row col;
              step_offsets board row col color pc' move_type offs) = Some l ->
             Forall (fun m => sound_move board color m /\ fits move_type m) l).
  { intros offs Hd Hs.
    apply bind_Some in Hs as (p & Hp & Hs).
    assert (p = pc) as -> by congruence.
    by eapply step_offsets_sound. }
  destruct (Ascii.eqb (lower k) "p"); [by eapply pawn_moves_sound|].
  destruct (Ascii.eqb (lower k) "r"); [by apply (Hslide rook_dirs)|].
  destruct (Ascii.eqb (lower k) "n"); [by apply (Hstep knight_offsets)|].
  destruct (Ascii.eqb (lower k) "b"); [by apply (Hslide bishop_dirs)|].
  destruct (Ascii.eqb (lower k) "q"); [by apply (Hslide queen_dirs)|].
  destruct (Ascii.eqb (lower k) "k"); [by apply (Hstep king_offsets)|].
  injection H as <-. constructor.
Qed.

Lemma moves_at_sound board color move_type sq l :
  is_valid_square sq.1 sq.2 = true ->
  moves_at board color move_type sq = Some l ->
  Forall (fun m => sound_move board color m /\ fits move_type m) l.
Proof.
  destruct sq as [row col]. simpl. intros Hv. unfold moves_at. intros H.
  apply bind_Some in H as (pc & Hpc & H).
  destruct (negb _); [|injection H as <-; constructor].
  apply bind_Some in H as (c0 & Hc0 & H).
  destruct (Ascii.eqb_spec c0 color) as [->|]; [|injection H as <-; constructor].
  by eapply piece_moves_sound.
Qed.

(** X8. Every move that [generate_moves] returns stays on the board, moves
    a piece of the side to move, carries no special flag, and goes to an
    empty square or takes a piece of the other side, which it records in
    [captured]; with [CAPTURES] every move takes a piece, with [QUIET]
    none does. *)
Theorem generated_moves_are_sound (board : Board) (is_white_turn : bool)
    (move_type : MoveType) (l : list Move) :
  generate_moves board is_white_turn move_type = Some l ->
  forall m, m ∈ l ->
    sound_move board (if is_white_turn then "w"%char else "b"%char) m /\
    (move_type = CAPTURES -> captured m <> "") /\
    (move_type = QUIET -> captured m = "").
Proof.
  intros Hgen.
  assert (Hall : Forall (fun m =>
                   sound_move board (if is_white_turn then "w"%char else "b"%char) m
                   /\ fits move_type m) l).
  { unfold generate_moves in Hgen.
    eapply extend_all_Forall; [|exact Hgen].
    intros sq li Hsq. apply moves_at_sound.
    pose proof FingerprintFacts.squares_in_range as Hr.
    apply (proj1 (Forall_forall _ _) Hr) in Hsq.
    by apply valid_square_range. }
  intros m Hm. apply (proj1 (Forall_forall _ _) Hall) in Hm as [Hs Hf].
  split; [done|]. unfold fits in Hf.
  split; intros ->; simpl in Hf; by destruct (String.eqb_spec (captured m) "").
Qed.

Lemma generated_moves_are_sound_witness :
  exists l,
    generate_moves promotion_capture_board true ALL = Some l /\
    forall m, m ∈ l -> sound_move promotion_capture_board "w" m.
Proof.
  eexists. split; [vm_compute; reflexivity|].
  intros m Hm.
  apply (generated_moves_are_sound promotion_capture_board true ALL _
           ltac:(vm_compute; reflexivity) m Hm).
Defined.

(** *** The three move types *)

Lemma fits_quiet (move_type : MoveType) (m : Move) :
  captured m = "" -> fits move_type m <-> wants_quiet move_type = true.
Proof. unfold fits. by intros ->. Qed.

Lemma fits_takes (move_type : MoveType) (m : Move) :
  captured m <> "" -> fits move_type m <-> wants_captures move_type = true.
Proof. unfold fits. intros H. by destruct (String.eqb_spec (captured m) ""). Qed.

Lemma filter_fits_quiet (move_type : MoveType) (l : list Move) :
  Forall (fun m => captured m = "") l ->
  filter (fits move_type) l = if wants_quiet move_type then l else [].
Proof.
  induction 1 as [|m l Hm _ IH]; [by destruct (wants_quiet _)|].
  destruct (wants_quiet move_type) eqn:Hw.
  - rewrite filter_cons_True by (by apply fits_quiet). by rewrite IH.
  - rewrite filter_cons_False; [done|]. rewrite fits_quiet by done. congruence.
Qed.

Lemma filter_fits_takes (move_type : MoveType) (l : list Move) :
  Forall (fun m => captured m <> "") l ->
  filter (fits move_type) l = if wants_captures move_type then l else [].
Proof.
  induction 1 as [|m l Hm _ IH]; [by destruct (wants_captures _)|].
  destruct (wants_captures move_type) eqn:Hw.
  - rewrite filter_cons_True by (by apply fits_takes). by rewrite IH.
  - rewrite filter_cons_False; [done|]. rewrite fits_takes by done. congruence.
Qed.

Lemma pawn_capture_takes board row col color direction dc l :
  pawn_capture board row col color direction dc = Some l ->
  Forall (fun m => captured m <> "") l.
Proof.
  intros H. apply pawn_capture_plain in H.
  eapply Forall_impl; [exact H|]. by intros m (_ & _ & _ & ?).
Qed.

Lemma pawn_moves_split board row col color move_type la :
  _get_pawn_moves board row col color ALL = Some la ->
  _get_pawn_moves board row col color move_type = Some (filter (fits move_type) la).
Proof.
  unfold _get_pawn_moves. cbv zeta. simpl wants_quiet. simpl wants_captures.
  intros H. apply bind_Some in H as (quiet & Hq & H).
  apply bind_Some in H as (caps & Hc & [= <-]).
  rewrite filter_app.
  assert (Hquiet : Forall (fun m => captured m = "") quiet).
  { pose proof Hq as Hq'.
    destruct (is_valid_square _ col); [|injection Hq' as <-; constructor].
    apply bind_Some in Hq' as (t & Ht & Hq').
    destruct (String.eqb t "--"); [|injection Hq' as <-; constructor].
    destruct (row =? _).
    - apply bind_Some in Hq' as (t2 & Ht2 & Hq').
      destruct (String.eqb t2 "--"); injection Hq' as <-; by repeat constructor.
    - injection Hq' as <-. by repeat constructor. }
  assert (Hcaps : Forall (fun m => captured m <> "") caps).
  { apply bind_Some in Hc as (left & Hl & Hc).
    apply bind_Some in Hc as (right & Hr & [= <-]).
    apply Forall_app. split; by eapply pawn_capture_takes. }
  rewrite (filter_fits_quiet _ _ Hquiet), (filter_fits_takes _ _ Hcaps).
  destruct (wants_quiet move_type).
  - rewrite Hq. simpl. destruct (wants_captures move_type).
    + rewrite Hc. reflexivity.
    + simpl. reflexivity.
  - simpl. destruct (wants_captures move_type).
    + rewrite Hc. reflexivity.
    + reflexivity.
Qed.

Lemma slide_ray_split board row col color pc dr dc move_type steps la :
  slide_ray board row col color pc dr dc ALL steps = Some la ->
  slide_ray board row col color pc dr dc move_type steps
    = Some (filter (fits move_type) la).
Proof.
  revert la. induction steps as [|i rest IH]; intros la; simpl.
  - by intros [= <-].
  - destruct (negb (is_valid_square _ _)); [by intros [= <-]|].
    intros H. apply bind_Some in H as (t & Ht & H). rewrite Ht. simpl.
    destruct (String.eqb_spec t "--") as [->|Hte].
    + apply bind_Some in H as (more & Hmore & [= <-]).
      rewrite (IH _ Hmore). simpl. f_equal.
      change (mkMove row col (row + i * dr) (col + i * dc) pc "" "" :: more)
        with ([mkMove row col (row + i * dr) (col + i * dc) pc "" ""] ++ more).
      rewrite filter_app. f_equal. symmetry. apply filter_fits_quiet.
      constructor; [reflexivity|constructor].
    + apply bind_Some in H as (c0 & Hc0 & H). rewrite Hc0. simpl.
      destruct (negb (Ascii.eqb c0 color)); injection H as <-; [|done].
      assert (t <> "") by (by eapply chr_nonempty).
      f_equal. symmetry. apply filter_fits_takes.
      constructor; [assumption|constructor].
Qed.

Lemma slide_dirs_split board row col color pc move_type dirs la :
  slide_dirs board row col color pc ALL dirs = Some la ->
  slide_dirs board row col color pc move_type dirs
    = Some (filter (fits move_type) la).
Proof.
  revert la. induction dirs as [|[dr dc] rest IH]; intros la; cbn [slide_dirs].
  - by intros [= <-].
  - intros H. apply bind_Some in H as (here & Hhere & H).
    apply bind_Some in H as (more & Hmore & [= <-]).
    rewrite (slide_ray_split _ _ _ _ _ _ _ move_type _ _ Hhere). simpl.
    rewrite (IH _ Hmore). simpl. by rewrite filter_app.
Qed.

Lemma step_offsets_split board row col color pc move_type offs la :
  step_offsets board row col color pc ALL offs = Some la ->
  step_offsets board row col color pc move_type offs
    = Some (filter (fits move_type) la).
Proof.
  revert la. induction offs as [|[dr dc] rest IH]; intros la; simpl.
  - by intros [= <-].
  - intros H. apply bind_Some in H as (here & Hhere & H).
    apply bind_Some in H as (more & Hmore & [= <-]).
    rewrite (IH _ Hmore). rewrite filter_app.
    match goal with
    | |- ?e ≫= _ = _ => assert (Hh : e = Some (filter (fits move_type) here))
    end.
    { destruct (is_valid_square _ _); [|by injection Hhere as <-].
      apply bind_Some in Hhere as (t & Ht & H). rewrite Ht. simpl.
      destruct (String.eqb_spec t "--") as [->|Hte].
      - injection H as <-. f_equal. symmetry. apply filter_fits_quiet.
        constructor; [reflexivity|constructor].
      - apply bind_Some in H as (c0 & Hc0 & H). rewrite Hc0. simpl.
        destruct (negb (Ascii.eqb c0 color)); injection H as <-; [|done].
        assert (t <> "") by (by eapply chr_nonempty).
        f_equal. symmetry. apply filter_fits_takes.
        constructor; [assumption|constructor]. }
    rewrite Hh. reflexivity.
Qed.

Lemma piece_moves_split board row col pc move_type la :
  _get_piece_moves board row col pc ALL = Some la ->
  _get_piece_moves board row col pc move_type = Some (filter (fits move_type) la).
Proof.
  unfold _get_piece_moves. intros H.
  apply bind_Some in H as (k & Hk & H). apply bind_Some in H as (color & Hc & H).
  rewrite Hk, Hc. simpl.
  assert (Hslide : forall dirs,
             _get_sliding_moves board row col color dirs ALL = Some la ->
             _get_sliding_moves board row col color dirs move_type
               = Some (filter (fits move_type) la)).
  { intros dirs Hs. unfold _get_sliding_moves in *.
    apply bind_Some in Hs as (p & Hp & Hs). rewrite Hp. simpl.
    by apply slide_dirs_split. }
  assert (Hstep : forall offs,
             (pc' ← Py.index2 board row col;
              step_offsets board row col color pc' ALL offs) = Some la ->
             (pc' ← Py.index2 board row col;
              step_offsets board row col color pc' move_type offs)
               = Some (filter (fits move_type) la)).
  { intros offs Hs.
    apply bind_Some in Hs as (p & Hp & Hs). rewrite Hp. simpl.
    by apply step_offsets_split. }
  destruct (Ascii.eqb (lower k) "p"); [by apply pawn_moves_split|].
  destruct (Ascii.eqb (lower k) "r"); [by apply Hslide|].
  destruct (Ascii.eqb (lower k) "n"); [by apply (Hstep knight_offsets)|].
  destruct (Ascii.eqb (lower k) "b"); [by apply Hslide|].
  destruct (Ascii.eqb (lower k) "q"); [by apply Hslide|].
  destruct (Ascii.eqb (lower k) "k"); [by apply (Hstep king_offsets)|].
  by injection H as <-.
Qed.

Lemma moves_at_split board color move_type sq la :
  moves_at board color ALL sq = Some la ->
  moves_at board color move_type sq = Some (filter (fits move_type) la).
Proof.
  destruct sq as [row col]. unfold moves_at. intros H.
  apply bind_Some in H as (pc & Hpc & H). rewrite Hpc. simpl.
  destruct (negb _); [|by injection H as <-].
  apply bind_Some in H as (c0 & Hc0 & H). rewrite Hc0. simpl.
  destruct (Ascii.eqb _ _); [|by injection H as <-].
  by apply piece_moves_split.
Qed.

Lemma extend_all_split {A} (f g : A -> option (list Move)) (P : Move -> Prop)
    `{forall m, Decision (P m)} (items : list A) (la : list Move) :
  (forall i li, f i = Some li -> g i = Some (filter P li)) ->
  extend_all f items = Some la -> extend_all g items = Some (filter P la).
Proof.
  intros Hfg. revert la. induction items as [|x rest IH]; intros la; simpl.
  - by intros [= <-].
  - intros H'. apply bind_Some in H' as (here & Hhere & H').
    apply bind_Some in H' as (more & Hmore & [= <-]).
    rewrite (Hfg _ _ Hhere), (IH _ Hmore). simpl. by rewrite filter_app.
Qed.

(** X9. The list [generate_moves] returns for a move type is the list it
    returns for [ALL] restricted to the moves of that type, in the same
    order: with [CAPTURES] the moves that take a piece, with [QUIET] those
    that do not, with [ALL] all of them. *)
Theorem move_types_split_the_full_list (board : Board) (is_white_turn : bool)
    (move_type : MoveType) (la : list Move) :
  generate_moves board is_white_turn ALL = Some la ->
  generate_moves board is_white_turn move_type
    = Some (filter (fits move_type) la) /\
  (forall m, fits CAPTURES m <-> captured m <> "") /\
  (forall m, fits QUIET m <-> captured m = "") /\
  (forall m, fits ALL m).
Proof.
  intros H. split.
  - unfold generate_moves in *.
    eapply extend_all_split; [|exact H].
    intros sq li. apply moves_at_split.
  - unfold fits. simpl.
    repeat split; try (intros m; destruct (String.eqb_spec (captured m) ""));
      try done; by destruct (String.eqb_spec (captured m) "").
Qed.

Lemma move_types_split_the_full_list_witness :
  exists la,
    generate_moves promotion_capture_board true ALL = Some la /\
    generate_moves promotion_capture_board true CAPTURES
      = Some (filter (fits CAPTURES) la).
Proof.
  eexists. split; [vm_compute; reflexivity|].
  apply (move_types_split_the_full_list promotion_capture_board true CAPTURES).
  vm_compute. reflexivity.
Defined.

End GeneratorFacts.

(* ===================================================================== *)
(** ** The evaluation *)
(* ===================================================================== *)

Module EvaluatorFacts.
Import AI.

Lemma lower_is_p (k : ascii) :
  lower k = "p"%char -> k = "p"%char \/ k = "P"%char.
Proof.
  unfold lower. intros H.
  destruct (Nat.leb 65 (nat_of_ascii k) && Nat.leb (nat_of_ascii k) 90)%bool eqn:E.
  - right. apply andb_true_iff in E as [E1 E2].
    apply Nat.leb_le in E1, E2.
    apply (f_equal nat_of_ascii) in H.
    rewrite nat_ascii_embedding in H by lia.
    change (nat_of_ascii "p") with 112%nat in H.
    assert (nat_of_ascii k = 80%nat) as Hk by lia.
    apply (f_equal ascii_of_nat) in Hk. by rewrite ascii_nat_embedding in Hk.
  - by left.
Qed.

Lemma lower_not_upper (k : ascii) : lower k <> "N"%char /\ lower k <> "B"%char.
Proof.
  unfold lower.
  destruct (Nat.leb 65 (nat_of_ascii k) && Nat.leb (nat_of_ascii k) 90)%bool eqn:E.
  - apply andb_true_iff in E as [E1 E2]. apply Nat.leb_le in E1, E2.
    split; intros H; apply (f_equal nat_of_ascii) in H;
      rewrite nat_ascii_embedding in H by lia;
      [change (nat_of_ascii "N") with 78%nat in H
      |change (nat_of_ascii "B") with 66%nat in H]; lia.
  - split; intros ->; discriminate E.
Qed.

Lemma table_of_lowered (k : ascii) :
  piece_square_tables (lower k)
  = if Ascii.eqb (lower k) "p" then Some pawn_table else None.
Proof.
  unfold piece_square_tables. destruct (lower_not_upper k) as [HN HB].
  destruct (Ascii.eqb_spec (lower k) "p"); [done|].
  destruct (Ascii.eqb_spec (lower k) "N"); [done|].
  by destruct (Ascii.eqb_spec (lower k) "B").
Qed.

(** X10. [_evaluate_piece_square_bonus] looks its tables up under the
    lowered piece letter, so the only table it ever finds is the pawn
    table, for the letters [p] and [P]; the bonus of a list of piece
    positions is the bonus of its pawn entries alone. *)
Theorem piece_square_bonus_is_for_pawns_only
    (items : list (string * list (Z * Z))) (score v : Z) :
  (forall k tbl, piece_square_tables (lower k) = Some tbl ->
     tbl = pawn_table /\ (k = "p"%char \/ k = "P"%char)) /\
  (psq_loop items score = Some v ->
   psq_loop (filter (fun item => pawn_entry item = true) items) score = Some v).
Proof.
  split.
  - intros k tbl. rewrite table_of_lowered.
    destruct (Ascii.eqb_spec (lower k) "p") as [E|]; [|done].
    intros [= <-]. split; [done|]. by apply lower_is_p.
  - revert score. induction items as [|[pc positions] rest IH]; intros score;
      [done|].
    cbn [psq_loop]. rewrite filter_cons.
    destruct (Z.of_nat (length positions) =? 0) eqn:El.
    + intros H. apply IH in H. case_decide; [|done].
      cbn [psq_loop]. by rewrite El.
    + intros H. apply bind_Some in H as (color & Hc & H).
      apply bind_Some in H as (k & Hk & H).
      unfold pawn_entry. simpl. rewrite Hk.
      rewrite table_of_lowered in H.
      destruct (Ascii.eqb (lower k) "p") eqn:Ep.
      * rewrite decide_True by done. cbn [psq_loop]. rewrite El, Hc, Hk. simpl.
        rewrite table_of_lowered, Ep.
        apply bind_Some in H as (score' & Hs & H). rewrite Hs. simpl. by apply IH.
      * rewrite decide_False by done. by apply IH.
Qed.

Lemma piece_square_bonus_is_for_pawns_only_witness :
  psq_loop (filter (fun item => pawn_entry item = true)
              [("wN", [(7, 1)]); ("wp", [(6, 0)])]) 0 = Some 5.
Proof.
  apply (piece_square_bonus_is_for_pawns_only [("wN", [(7, 1)]); ("wp", [(6, 0)])] 0 5).
  vm_compute. reflexivity.
Defined.

(** X11. The score of a position with Black to move is the opposite of its
    score with White to move: no term of the evaluation, the mobility
    included, depends on the side to move. *)
Theorem evaluation_is_negated_for_black (cfg : AIConfig) (board : Board) :
  evaluate_position cfg board false
  = (fun v => - v) <$> evaluate_position cfg board true.
Proof.
  unfold evaluate_position, _evaluate_mobility.
  destruct (analyze_board _ _) as [info|]; [|done]. simpl.
  destruct (_evaluate_piece_square_bonus info); [|done]. simpl.
  destruct (_evaluate_king_safety board info); [|done]. simpl.
  destruct (_evaluate_pawn_structure board info); [|done]. simpl.
  destruct (generate_moves board true ALL); [|done]. simpl.
  by destruct (generate_moves board false ALL).
Qed.

Lemma find_in_row_absent (cells : list string) (king_piece : string) (col : Z) :
  king_piece ∉ cells -> find_in_row cells king_piece col = None.
Proof.
  revert col. induction cells as [|x rest IH]; intros col Hn; simpl; [done|].
  apply not_elem_of_cons in Hn as [Hx Hn].
  destruct (String.eqb_spec x king_piece); [congruence|]. by apply IH.
Qed.

Lemma find_king_absent (board : Board) (king_piece : string) (rows : list Z)
    (king_pos : option (Z * Z)) :
  wf_board board -> absent king_piece board ->
  Forall (fun r => 0 <= r < 8) rows ->
  find_king board king_piece rows king_pos = Some king_pos.
Proof.
  intros [Hlen Hrows] Habs. revert king_pos.
  induction rows as [|r rest IH]; intros king_pos Hr; cbn [find_king]; [done|].
  apply Forall_cons in Hr as [Hr0 Hr].
  destruct (Py.index board r) as [cells|] eqn:E;
    rewrite FingerprintFacts.index_in_range in E by lia.
  - cbn [mbind option_bind].
    assert (Hc : length cells = 8%nat)
      by (exact (proj1 (Forall_forall _ _) Hrows cells (list_elem_of_lookup_2 _ _ _ E))).
    assert (Ha : king_piece ∉ cells)
      by (exact (proj1 (Forall_forall _ _) Habs cells (list_elem_of_lookup_2 _ _ _ E))).
    rewrite find_in_row_absent.
    + rewrite Hc. change (Z.of_nat 8 <? 8) with false. cbv iota. by apply IH.
    + by rewrite take_ge by lia.
  - apply lookup_ge_None in E. lia.
Qed.

(** X12. On a board of eight rows of eight cells that does not hold the
    king of the side to move, [_is_king_in_check] answers [False]. *)
Theorem no_king_no_check (board : Board) (is_white_turn : bool) :
  wf_board board ->
  absent (if is_white_turn then "wK" else "bK") board ->
  _is_king_in_check board is_white_turn = Some false.
Proof.
  intros Hwf Habs. unfold _is_king_in_check.
  rewrite find_king_absent; [done|done|done|].
  repeat constructor; lia.
Qed.

Lemma no_king_no_check_witness :
  _is_king_in_check kingless_board false = Some false.
Proof.
  apply no_king_no_check.
  - split; [reflexivity|]. repeat constructor.
  - apply (bool_decide_unpack (absent "bK" kingless_board)). vm_compute. exact I.
Defined.

End EvaluatorFacts.

(* ===================================================================== *)
(** ** The valid moves and the position *)
(* ===================================================================== *)

Module ValidMoveFacts.
Import Core GameFacts.
Local Open Scope py_scope.

Lemma gen_ret {A} (p : View) (a : A) (R : A -> Prop) : R a -> gen p (Py.ret a) R.
Proof. intros Ha s a' s' Hs [= <- <-]. done. Qed.

Lemma gen_bind {A B} (p : View) (m : GS A) (k : A -> GS B)
    (Q : A -> Prop) (R : B -> Prop) :
  gen p m Q -> (forall a, Q a -> gen p (k a) R) -> gen p (Py.bind m k) R.
Proof.
  intros Hm Hk s b s' Hs H. apply bind_inv in H as (a & s1 & H1 & H2).
  destruct (Hm _ _ _ Hs H1) as [Hs1 Ha]. by eapply Hk.
Qed.

Lemma gen_weaken {A} (p : View) (m : GS A) (Q R : A -> Prop) :
  gen p m Q -> (forall a, Q a -> R a) -> gen p m R.
Proof. intros Hm HQR s a s' Hs H. destruct (Hm _ _ _ Hs H). auto. Qed.

Lemma gen_lift {A} (p : View) (o : option A) : gen p (Py.lift o) (fun a => o = Some a).
Proof.
  intros s a s' Hs. unfold Py.lift. destruct o; [|done]. by intros [= <- <-].
Qed.

Lemma gen_get (p : View) : gen p Py.get (fun s => view s = p).
Proof. by intros s a s' Hs [= <- <-]. Qed.

Lemma gen_modify (p : View) (g : GameState -> GameState) :
  (forall s, view (g s) = view s) -> gen p (Py.modify g) (fun _ => True).
Proof. intros Hg s a s' Hs [= _ <-]. by rewrite Hg. Qed.

Lemma gen_board_at (p : View) (r c : Z) :
  gen p (board_at r c) (fun x => Py.index2 (v_board p) r c = Some x).
Proof.
  intros s a s' Hs. unfold board_at.
  destruct (Py.index2 (board s) r c) eqn:E; [|done].
  intros [= <- <-]. by rewrite <- Hs.
Qed.

Lemma gen_new_move (p : View) (start_sq end_sq : Z * Z) (ep promo castle : bool) :
  gen p (new_move start_sq end_sq ep promo castle)
    (fun m => Move_init start_sq end_sq (v_board p) ep promo castle = Some m).
Proof.
  intros s a s' Hs. unfold new_move.
  destruct (Move_init _ _ (board s) _ _ _) eqn:E; [|done].
  intros [= <- <-]. by rewrite <- Hs.
Qed.

Lemma gen_check_scan (p : View) : gen p check_for_pins_and_checks_m (fun _ => True).
Proof.
  intros s a s' Hs. unfold check_for_pins_and_checks_m.
  destruct (check_for_pins_and_checks s); [|done]. by intros [= _ <-].
Qed.

Lemma gen_remove_pin (p : View) (pin : Ray) : gen p (remove_pin pin) (fun _ => True).
Proof.
  intros s a s' Hs. unfold remove_pin, Py.bind, Py.get, Py.lift, Py.put.
  destruct (remove_first _ _ _); [|done]. intros [= _ <-]. by rewrite <- Hs.
Qed.

Lemma gen_set_king_location (p : View) (ally_color : ascii) (sq : Z * Z) :
  gen p (set_king_location ally_color sq) (fun _ => True).
Proof.
  unfold set_king_location. destruct (Ascii.eqb _ _); by apply gen_modify.
Qed.

(** The fields of a move built by [Move.__init__]. *)
Lemma Move_init_fields (st en : Z * Z) (b : Board) (ep pp castle : bool) (m : Move) :
  Move_init st en b ep pp castle = Some m ->
  start_row m = st.1 /\ start_col m = st.2 /\ end_row m = en.1 /\ end_col m = en.2 /\
  Py.index2 b st.1 st.2 = Some (piece_moved m) /\
  (ep = false -> Py.index2 b en.1 en.2 = Some (piece_captured m)) /\
  enPassant m = ep /\ pawn_promotion m = pp /\ is_castle_move m = castle.
Proof.
  destruct st as [sr sc], en as [er ec]. unfold Move_init. intros H.
  apply bind_Some in H as (pm & Hpm & H).
  apply bind_Some in H as (pc & Hpc & H).
  apply bind_Some in H as (sid & _ & [= <-]). simpl.
  repeat split; try done. by intros ->.
Qed.

Lemma side_other (w : bool) :
  (if w then "b"%char else "w"%char) <> side w.
Proof. by destruct w. Qed.

(** A move to an empty square or onto a piece of the other side. *)
Lemma listed_plain (p : View) (st en : Z * Z) (m : Move) (t : string) :
  Move_init st en (v_board p) false false false = Some m ->
  Py.index2 (v_board p) en.1 en.2 = Some t ->
  Py.chr t 0 <> Some (side (v_white_to_move p)) ->
  listed p m.
Proof.
  intros H Ht Hc. apply Move_init_fields in H
    as (Hsr & Hsc & Her & Hec & Hpm & Hpc & Hep & Hpp & Hcm).
  rewrite <- Hsr, <- Hsc in Hpm. rewrite <- Her, <- Hec in Hpc, Ht.
  specialize (Hpc eq_refl).
  assert (piece_captured m = t) as Ht' by congruence.
  unfold listed. rewrite Hep, Hpp, Hcm. repeat split; try done.
  by rewrite Ht'.
Qed.

Lemma chr_empty_square : Py.chr "--" 0 = Some "-"%char.
Proof. reflexivity. Qed.

Lemma not_side_empty (w : bool) : Py.chr "--" 0 <> Some (side w).
Proof. by destruct w. Qed.

Section Generation.
Variable p : View.
Let P := Forall (listed p).

Lemma gen_slide_ray r c enemy_color piece_pinned pin_direction d0 d1 steps moves :
  enemy_color <> side (v_white_to_move p) ->
  P moves ->
  gen p (slide_ray r c enemy_color piece_pinned pin_direction d0 d1 steps moves) P.
Proof.
  intros He. revert moves. induction steps as [|i rest IH]; intros moves Hm;
    cbn [slide_ray]; [by apply gen_ret|].
  cbv zeta. destruct (in_board _ _); [|by apply gen_ret].
  destruct (_ || _); [|by apply IH].
  eapply gen_bind; [apply gen_board_at|]. intros end_piece Hend.
  destruct (String.eqb_spec end_piece "--") as [->|Hne].
  - eapply gen_bind; [apply gen_new_move|]. intros m Hmv.
    apply IH. apply Forall_app. split; [done|]. apply Forall_singleton.
    eapply listed_plain; [exact Hmv|exact Hend|apply not_side_empty].
  - eapply gen_bind; [apply gen_lift|]. intros e0 He0.
    destruct (Ascii.eqb_spec e0 enemy_color) as [->|]; [|by apply gen_ret].
    eapply gen_bind; [apply gen_new_move|]. intros m Hmv.
    apply gen_ret. apply Forall_app. split; [done|]. apply Forall_singleton.
    eapply listed_plain; [exact Hmv|exact Hend|]. rewrite He0. congruence.
Qed.

Lemma gen_slide_dirs r c enemy_color piece_pinned pin_direction dirs moves :
  enemy_color <> side (v_white_to_move p) ->
  P moves ->
  gen p (slide_dirs r c enemy_color piece_pinned pin_direction dirs moves) P.
Proof.
  intros He. revert moves. induction dirs as [|[d0 d1] rest IH]; intros moves Hm;
    cbn [slide_dirs]; [by apply gen_ret|].
  eapply gen_bind; [by apply gen_slide_ray|]. intros moves' Hm'. by apply IH.
Qed.

Lemma gen_get_sliding_moves r c moves dirs :
  P moves -> gen p (get_sliding_moves r c moves dirs) P.
Proof.
  intros Hm. unfold get_sliding_moves.
  eapply gen_bind; [apply gen_get|]. intros s Hs. cbv zeta.
  eapply gen_bind with (Q := fun _ => True).
  { destruct (find_pin _ _ _); [|by apply gen_ret].
    eapply gen_bind; [apply gen_board_at|]. intros pc _.
    eapply gen_bind; [apply gen_lift|]. intros k _.
    destruct (negb _); [apply gen_remove_pin|by apply gen_ret]. }
  intros _ _. apply gen_slide_dirs; [|done].
  rewrite <- Hs. simpl. apply side_other.
Qed.

Lemma gen_knight_loop r c ally_color piece_pinned offs moves :
  ally_color = side (v_white_to_move p) ->
  P moves ->
  gen p (knight_loop r c ally_color piece_pinned offs moves) P.
Proof.
  intros Ha. revert moves. induction offs as [|[m0 m1] rest IH]; intros moves Hm;
    cbn [knight_loop]; [by apply gen_ret|].
  cbv zeta. destruct (in_board _ _); [|by apply IH].
  destruct (negb piece_pinned); [|by apply IH].
  eapply gen_bind; [apply gen_board_at|]. intros end_piece Hend.
  eapply gen_bind; [apply gen_lift|]. intros e0 He0.
  destruct (Ascii.eqb_spec e0 ally_color) as [->|Hne]; simpl; [by apply IH|].
  eapply gen_bind; [apply gen_new_move|]. intros m Hmv.
  apply IH. apply Forall_app. split; [done|]. apply Forall_singleton.
  eapply listed_plain; [exact Hmv|exact Hend|]. rewrite He0. congruence.
Qed.

Lemma gen_get_knight_move r c moves :
  P moves -> gen p (get_knight_move r c moves) P.
Proof.
  intros Hm. unfold get_knight_move.
  eapply gen_bind; [apply gen_get|]. intros s Hs. cbv zeta.
  eapply gen_bind with (Q := fun _ => True).
  { destruct (find_pin _ _ _); [apply gen_remove_pin|by apply gen_ret]. }
  intros _ _. apply gen_knight_loop; [|done]. by rewrite <- Hs.
Qed.

Lemma gen_king_loop r c ally_color offs moves :
  ally_color = side (v_white_to_move p) ->
  P moves ->
  gen p (king_loop r c ally_color offs moves) P.
Proof.
  intros Ha. revert moves. induction offs as [|[m0 m1] rest IH]; intros moves Hm;
    cbn [king_loop]; [by apply gen_ret|].
  cbv zeta. destruct (in_board _ _); [|by apply IH].
  eapply gen_bind; [apply gen_board_at|]. intros end_piece Hend.
  eapply gen_bind; [apply gen_lift|]. intros e0 He0.
  destruct (Ascii.eqb_spec e0 ally_color) as [->|Hne]; simpl; [by apply IH|].
  eapply gen_bind; [apply gen_set_king_location|]. intros _ _.
  eapply gen_bind; [apply gen_check_scan|]. intros [[ic ps] cs] _.
  eapply gen_bind with (Q := P).
  { destruct (negb ic); [|by apply gen_ret].
    eapply gen_bind; [apply gen_new_move|]. intros m Hmv.
    apply gen_ret. apply Forall_app. split; [done|]. apply Forall_singleton.
    eapply listed_plain; [exact Hmv|exact Hend|]. rewrite He0. congruence. }
  intros moves' Hm'.
  eapply gen_bind; [apply gen_set_king_location|]. intros _ _. by apply IH.
Qed.

Lemma gen_get_king_move r c moves :
  P moves -> gen p (get_king_move r c moves) P.
Proof.
  intros Hm. unfold get_king_move.
  eapply gen_bind; [apply gen_get|]. intros s Hs. cbv zeta.
  apply gen_king_loop; [|done]. by rewrite <- Hs.
Qed.

Lemma ep_is_true (ep : option PyTuple) (r c : Z) :
  ep_is ep r c = true -> ep = Some [r; c].
Proof.
  unfold ep_is. destruct ep as [[|a [|b [|? ?]]]|]; try done.
  intros H. apply andb_true_iff in H as [Ha Hb].
  apply Z.eqb_eq in Ha, Hb. by subst.
Qed.

(** The moves of a pawn. *)
Lemma listed_pawn_step (st en : Z * Z) (pp : bool) (m : Move) (t pc : string) :
  Move_init st en (v_board p) false pp false = Some m ->
  Py.index2 (v_board p) en.1 en.2 = Some t ->
  Py.chr t 0 <> Some (side (v_white_to_move p)) ->
  Py.index2 (v_board p) st.1 st.2 = Some pc -> Py.chr pc 1 = Some "p"%char ->
  (pp = true -> en.1 = last_row (v_white_to_move p)) ->
  listed p m.
Proof.
  intros H Ht Hc Hpc Hk Hlast. apply Move_init_fields in H
    as (Hsr & Hsc & Her & Hec & Hpm & Hcap & Hep & Hpp & Hcm).
  specialize (Hcap eq_refl).
  assert (piece_captured m = t) as Ht' by congruence.
  assert (piece_moved m = pc) as Hpm' by congruence.
  unfold listed. rewrite Hsr, Hsc, Her, Hec, Hep, Hpp, Hcm.
  split; [exact Hpm|].
  split; [intros _; split; [exact Hcap|by rewrite Ht']|].
  split; [intros ->; rewrite Hpm'; auto|].
  split; done.
Qed.

Lemma listed_en_passant (st en : Z * Z) (m : Move) (pc : string) :
  Move_init st en (v_board p) true false false = Some m ->
  v_enPassant_possible p = Some [en.1; en.2] ->
  Py.index2 (v_board p) st.1 st.2 = Some pc -> Py.chr pc 1 = Some "p"%char ->
  listed p m.
Proof.
  intros H Hep' Hpc Hk. apply Move_init_fields in H
    as (Hsr & Hsc & Her & Hec & Hpm & _ & Hep & Hpp & Hcm).
  assert (piece_moved m = pc) as Hpm' by congruence.
  unfold listed. rewrite Hsr, Hsc, Her, Hec, Hep, Hpp, Hcm.
  split; [exact Hpm|].
  split; [done|]. split; [done|].
  split; [intros _; rewrite Hpm'; auto|done].
Qed.

Lemma gen_pawn_captures r c move_amount back_row enemy_color piece_pinned
    pin_direction dc st pc :
  enemy_color <> side (v_white_to_move p) ->
  back_row = last_row (v_white_to_move p) ->
  Py.index2 (v_board p) r c = Some pc -> Py.chr pc 1 = Some "p"%char ->
  P st.1 -> (st.2 = true -> r + move_amount = back_row) ->
  gen p (pawn_captures r c move_amount back_row enemy_color piece_pinned
           pin_direction dc st)
    (fun st' => P st'.1 /\ (st'.2 = true -> r + move_amount = back_row)).
Proof.
  intros He Hb Hpc Hk Hm Hpp. unfold pawn_captures.
  destruct (_ || _); [|by apply gen_ret].
  eapply gen_bind; [apply gen_board_at|]. intros t Ht.
  eapply gen_bind; [apply gen_lift|]. intros t0 Ht0.
  eapply gen_bind
    with (Q := fun st' => P st'.1 /\ (st'.2 = true -> r + move_amount = back_row)).
  { destruct (Ascii.eqb_spec t0 enemy_color) as [->|]; [|by apply gen_ret].
    cbv zeta. eapply gen_bind; [apply gen_new_move|]. intros m Hmv.
    apply gen_ret. simpl. split.
    - apply Forall_app. split; [done|]. apply Forall_singleton.
      eapply listed_pawn_step; [exact Hmv|exact Ht| |exact Hpc|exact Hk|].
      + rewrite Ht0. congruence.
      + simpl. rewrite <- Hb.
        destruct (Z.eqb_spec (r + move_amount) back_row); [done|]. exact Hpp.
    - destruct (Z.eqb_spec (r + move_amount) back_row); [done|]. exact Hpp. }
  intros st1 [Hm1 Hpp1].
  eapply gen_bind; [apply gen_get|]. intros s Hs.
  destruct (ep_is _ _ _) eqn:Hep; [|by apply gen_ret].
  eapply gen_bind; [apply gen_new_move|]. intros m Hmv.
  apply gen_ret. simpl. split; [|done].
  apply Forall_app. split; [done|]. apply Forall_singleton.
  eapply listed_en_passant; [exact Hmv| |exact Hpc|exact Hk].
  apply ep_is_true in Hep. by rewrite <- Hs.
Qed.

Lemma gen_get_pawn_move r c moves pc :
  Py.index2 (v_board p) r c = Some pc -> Py.chr pc 1 = Some "p"%char ->
  P moves -> gen p (get_pawn_move r c moves) P.
Proof.
  intros Hpc Hk Hm. unfold get_pawn_move.
  eapply gen_bind; [apply gen_get|]. intros s Hs. cbv zeta.
  eapply gen_bind with (Q := fun _ => True).
  { destruct (find_pin _ _ _); [apply gen_remove_pin|by apply gen_ret]. }
  intros _ _.
  assert (Hw : white_to_move s = v_white_to_move p) by (by rewrite <- Hs).
  set (cfg := if white_to_move s then (-1, 6, 0, "b"%char) else (1, 1, 7, "w"%char)).
  assert (Hcfg : cfg.2 <> side (v_white_to_move p) /\
                 cfg.1.2 = last_row (v_white_to_move p)).
  { subst cfg. rewrite Hw. by destruct (v_white_to_move p). }
  destruct cfg as [[[move_amount start_row] back_row] enemy_color].
  simpl in Hcfg. destruct Hcfg as [He Hb].
  eapply gen_bind; [apply gen_board_at|]. intros f Hf.
  eapply gen_bind
    with (Q := fun st => P st.1 /\ (st.2 = true -> r + move_amount = back_row)).
  { destruct (String.eqb_spec f "--") as [->|]; [|by apply gen_ret].
    destruct (_ || _); [|by apply gen_ret].
    eapply gen_bind; [apply gen_new_move|]. intros m Hmv.
    assert (Hl : listed p m).
    { eapply listed_pawn_step;
        [exact Hmv|exact Hf|apply not_side_empty|exact Hpc|exact Hk|].
      simpl. rewrite <- Hb.
      by destruct (Z.eqb_spec (r + move_amount) back_row). }
    assert (Hpp : (if r + move_amount =? back_row then true else false) = true ->
                  r + move_amount = back_row)
      by (by destruct (Z.eqb_spec (r + move_amount) back_row)).
    destruct (r =? start_row).
    - eapply gen_bind; [apply gen_board_at|]. intros f2 Hf2.
      destruct (String.eqb_spec f2 "--") as [->|].
      + eapply gen_bind; [apply gen_new_move|]. intros m2 Hmv2.
        apply gen_ret. simpl. split; [|done].
        apply Forall_app. split; [done|].
        apply Forall_cons. split; [done|]. apply Forall_singleton.
        eapply listed_pawn_step;
          [exact Hmv2|exact Hf2|apply not_side_empty|exact Hpc|exact Hk|done].
      + apply gen_ret. simpl. split; [|done].
        apply Forall_app. split; [done|]. by apply Forall_singleton.
    - apply gen_ret. simpl. split; [|done].
      apply Forall_app. split; [done|]. by apply Forall_singleton. }
  intros st [Hst Hpp].
  eapply gen_bind
    with (Q := fun st => P st.1 /\ (st.2 = true -> r + move_amount = back_row)).
  { destruct (0 <=? c - 1); [|by apply gen_ret].
    by eapply gen_pawn_captures. }
  intros st1 [Hst1 Hpp1].
  eapply gen_bind
    with (Q := fun st => P st.1 /\ (st.2 = true -> r + move_amount = back_row)).
  { destruct (c + 1 <=? 7); [|by apply gen_ret].
    by eapply gen_pawn_captures. }
  intros st2 [Hst2 _]. by apply gen_ret.
Qed.

Lemma gen_dispatch kind r c moves pc :
  Py.index2 (v_board p) r c = Some pc -> Py.chr pc 1 = Some kind ->
  P moves -> gen p (dispatch kind r c moves) P.
Proof.
  intros Hpc Hk Hm. unfold dispatch.
  destruct (Ascii.eqb_spec kind "p") as [->|]; [by eapply gen_get_pawn_move|].
  destruct (Ascii.eqb kind "R"); [by apply gen_get_sliding_moves|].
  destruct (Ascii.eqb kind "N"); [by apply gen_get_knight_move|].
  destruct (Ascii.eqb kind "B"); [by apply gen_get_sliding_moves|].
  destruct (Ascii.eqb kind "Q"); [by apply gen_get_sliding_moves|].
  destruct (Ascii.eqb kind "K"); [by apply gen_get_king_move|].
  by apply gen_ret.
Qed.

Lemma gen_all_moves_loop sqs moves :
  P moves -> gen p (all_moves_loop sqs moves) P.
Proof.
  revert moves. induction sqs as [|[row col] rest IH]; intros moves Hm;
    cbn [all_moves_loop]; [by apply gen_ret|].
  eapply gen_bind; [apply gen_board_at|]. intros pc Hpc.
  eapply gen_bind; [apply gen_lift|]. intros turn Hturn.
  eapply gen_bind; [apply gen_get|]. intros s Hs.
  destruct (_ || _); [|by apply IH].
  eapply gen_bind; [apply gen_lift|]. intros kind Hkind.
  eapply gen_bind; [exact (gen_dispatch kind row col moves pc Hpc Hkind Hm)|].
  intros moves' Hm'. by apply IH.
Qed.

End Generation.

Lemma gen_get_all_possible_moves (p : View) :
  gen p get_all_possible_moves (Forall (listed p)).
Proof. apply gen_all_moves_loop. constructor. Qed.

(** The side to move is switched for the time of the scan, and switched
    back. *)
Lemma gen_square_under_attack (p : View) (row col : Z) :
  gen p (square_under_attack row col) (fun _ => True).
Proof.
  intros s a s' Hs. unfold square_under_attack. intros H.
  apply bind_inv in H as ([] & s1 & H1 & H). injection H1 as <-.
  apply bind_inv in H as (ms & s2 & H2 & H).
  apply bind_inv in H as ([] & s3 & H3 & H). injection H3 as <-.
  injection H as _ <-.
  set (s1 := set_white_to_move (negb (white_to_move s)) s) in *.
  destruct (gen_get_all_possible_moves (view s1) s1 ms s2 eq_refl H2) as [Hv _].
  split; [|done]. rewrite <- Hs.
  assert (Hw : white_to_move s2 = negb (white_to_move s))
    by (apply (f_equal v_white_to_move) in Hv; exact Hv).
  unfold view in *. simpl. rewrite Hw, negb_involutive.
  injection Hv as -> _ -> -> -> -> -> -> -> -> ->. reflexivity.
Qed.

Lemma listed_castle (p : View) (row col dc : Z) (m : Move) :
  Move_init (row, col) (row, col + dc) (v_board p) false false true = Some m ->
  Py.index2 (v_board p) row (col + dc) = Some "--" ->
  dc = 2 \/ dc = -2 ->
  listed p m.
Proof.
  intros H Ht Hdc. apply Move_init_fields in H
    as (Hsr & Hsc & Her & Hec & Hpm & Hcap & Hep & Hpp & Hcm).
  simpl in *. specialize (Hcap eq_refl).
  assert (piece_captured m = "--") as Ht' by congruence.
  unfold listed. rewrite Hsr, Hsc, Her, Hec, Hep, Hpp, Hcm.
  split; [exact Hpm|].
  split; [intros _; split; [exact Hcap|rewrite Ht'; apply not_side_empty]|].
  split; [done|]. split; [done|].
  intros _. split; [done|]. split; [lia|exact Ht'].
Qed.

Lemma gen_get_kingside_castle_moves (p : View) (row col : Z) (moves : list Move) :
  Forall (listed p) moves ->
  gen p (get_kingside_castle_moves row col moves) (Forall (listed p)).
Proof.
  intros Hm. unfold get_kingside_castle_moves.
  eapply gen_bind; [apply gen_board_at|]. intros a Ha.
  eapply gen_bind with
    (Q := fun free : bool =>
            free = true -> Py.index2 (v_board p) row (col + 2) = Some "--").
  { destruct (String.eqb a "--"); [|by apply gen_ret].
    eapply gen_bind; [apply gen_board_at|]. intros b Hb.
    apply gen_ret. intros Hf. apply String.eqb_eq in Hf. by subst. }
  intros [|] Hfree; [|by apply gen_ret].
  eapply gen_bind; [apply gen_square_under_attack|]. intros u1 _.
  eapply gen_bind with (Q := fun _ => True).
  { destruct (negb u1); [|by apply gen_ret].
    eapply gen_bind; [apply gen_square_under_attack|]. intros u2 _.
    by apply gen_ret. }
  intros [|] _; [|by apply gen_ret].
  eapply gen_bind; [apply gen_new_move|]. intros m Hmv.
  apply gen_ret. apply Forall_app. split; [done|]. apply Forall_singleton.
  eapply (listed_castle p row col 2); [exact Hmv|by apply Hfree|by left].
Qed.

Lemma gen_get_queenside_castle_moves (p : View) (row col : Z) (moves : list Move) :
  Forall (listed p) moves ->
  gen p (get_queenside_castle_moves row col moves) (Forall (listed p)).
Proof.
  intros Hm. unfold get_queenside_castle_moves.
  eapply gen_bind; [apply gen_board_at|]. intros a Ha.
  eapply gen_bind with
    (Q := fun free : bool =>
            free = true -> Py.index2 (v_board p) row (col - 2) = Some "--").
  { destruct (String.eqb a "--"); [|by apply gen_ret].
    eapply gen_bind; [apply gen_board_at|]. intros b Hb.
    destruct (String.eqb_spec b "--") as [->|]; [|by apply gen_ret].
    eapply gen_bind; [apply gen_board_at|]. intros d Hd.
    by apply gen_ret. }
  intros [|] Hfree; [|by apply gen_ret].
  eapply gen_bind; [apply gen_square_under_attack|]. intros u1 _.
  eapply gen_bind with (Q := fun _ => True).
  { destruct (negb u1); [|by apply gen_ret].
    eapply gen_bind; [apply gen_square_under_attack|]. intros u2 _.
    by apply gen_ret. }
  intros [|] _; [|by apply gen_ret].
  eapply gen_bind; [apply gen_new_move|]. intros m Hmv.
  apply gen_ret. apply Forall_app. split; [done|]. apply Forall_singleton.
  eapply (listed_castle p row col (-2)); [exact Hmv|by apply Hfree|by right].
Qed.

Lemma gen_get_castle_moves (p : View) (row col : Z) (moves : list Move) :
  Forall (listed p) moves ->
  gen p (get_castle_moves row col moves) (Forall (listed p)).
Proof.
  intros Hm. unfold get_castle_moves.
  eapply gen_bind; [apply gen_square_under_attack|]. intros [|] _;
    [by apply gen_ret|].
  eapply gen_bind; [apply gen_get|]. intros s Hs.
  eapply gen_bind with (Q := Forall (listed p)).
  { destruct (_ || _); [by apply gen_get_kingside_castle_moves|by apply gen_ret]. }
  intros moves1 Hm1.
  eapply gen_bind; [apply gen_get|]. intros s1 Hs1.
  destruct (_ || _); [by apply gen_get_queenside_castle_moves|by apply gen_ret].
Qed.

Lemma remove_first_Forall {A} (eqb : A -> A -> bool) (x : A) (l l' : list A)
    (Q : A -> Prop) :
  remove_first eqb x l = Some l' -> Forall Q l -> Forall Q l'.
Proof.
  revert l'. induction l as [|y rest IH]; intros l'; simpl; [done|].
  intros H Hl. apply Forall_cons in Hl as [Hy Hrest].
  destruct (eqb y x); [by injection H as <-|].
  apply bind_Some in H as (rest' & Hr & [= <-]).
  apply Forall_cons. split; [done|]. by apply IH.
Qed.

Lemma drop_unhelpful_Forall (idxs : list Z) (valid_squares : list (Z * Z))
    (moves moves' : list Move) (Q : Move -> Prop) :
  drop_unhelpful idxs valid_squares moves = Some moves' ->
  Forall Q moves -> Forall Q moves'.
Proof.
  revert moves. induction idxs as [|i rest IH]; intros moves; simpl.
  - by intros [= <-].
  - intros H Hm.
    apply bind_Some in H as (m & _ & H).
    apply bind_Some in H as (k & _ & H).
    destruct (negb _); [|by eapply IH].
    destruct (negb _); [|by eapply IH].
    apply bind_Some in H as (moves1 & Hr & H).
    eapply IH; [exact H|]. by eapply remove_first_Forall.
Qed.

Lemma gen_get_valid_moves (p : View) :
  gen p get_valid_moves (Forall (listed p)).
Proof.
  unfold get_valid_moves.
  eapply gen_bind; [apply gen_check_scan|]. intros [[ic ps] cs] _.
  eapply gen_bind; [by apply gen_modify|]. intros _ _.
  eapply gen_bind; [apply gen_get|]. intros s Hs.
  destruct (if white_to_move s then _ else _) as [king_row king_col].
  eapply gen_bind with (Q := Forall (listed p)).
  { destruct (in_check s); [|apply gen_get_all_possible_moves].
    destruct (_ =? 1); [|by apply gen_get_king_move].
    eapply gen_bind; [apply gen_get_all_possible_moves|]. intros moves Hm.
    eapply gen_bind; [apply gen_get|]. intros s1 _.
    eapply gen_bind; [apply gen_lift|]. intros [[[check_row check_col] c2] c3] _.
    eapply gen_bind; [apply gen_board_at|]. intros piece_checking _.
    eapply gen_bind; [apply gen_lift|]. intros k _.
    eapply gen_weaken; [apply gen_lift|]. intros moves' H. simpl in H.
    by eapply drop_unhelpful_Forall. }
  intros moves Hm.
  eapply gen_bind; [apply gen_get|]. intros s2 _.
  eapply gen_bind with (Q := Forall (listed p)).
  { destruct (negb _); [by apply gen_get_castle_moves|by apply gen_ret]. }
  intros moves' Hm'.
  eapply gen_bind with (Q := fun _ => True).
  { destruct (_ =? 0).
    - eapply gen_bind; [apply gen_get|]. intros s3 _.
      destruct (in_check s3); by apply gen_modify.
    - eapply gen_bind; [by apply gen_modify|]. intros _ _. by apply gen_modify. }
  intros _ _. by apply gen_ret.
Qed.

(** X13. [get_valid_moves] leaves the board, the side to move, the
    en-passant target, the castling rights, the move log and the other
    logs as they are.  Every move it returns starts on a square that holds
    its [piece_moved]; unless it is an en-passant capture, its
    [piece_captured] is what stands on its end square, and that is not a
    piece of the side to move; a promotion is a pawn move to the last row;
    an en-passant capture is a pawn move onto the en-passant target; a
    castling goes two columns along its row onto an empty square. *)
Theorem valid_moves_belong_to_the_position (s s' : GameState) (ms : list Move) :
  get_valid_moves s = Some (ms, s') ->
  view s' = view s /\ forall m, m ∈ ms -> listed (view s) m.
Proof.
  intros H. destruct (gen_get_valid_moves (view s) s ms s' eq_refl H) as [Hv Hm].
  split; [exact Hv|]. by apply Forall_forall.
Qed.

Lemma valid_moves_belong_to_the_position_witness :
  exists ms s',
    get_valid_moves GameState_init = Some (ms, s') /\
    view s' = view GameState_init /\
    forall m, m ∈ ms -> listed (view GameState_init) m.
Proof.
  destruct (get_valid_moves GameState_init) as [[ms s']|] eqn:E.
  - exists ms, s'. split; [reflexivity|].
    exact (valid_moves_belong_to_the_position GameState_init s' ms E).
  - exfalso. vm_compute in E. discriminate E.
Defined.

End ValidMoveFacts.

(* ===================================================================== *)
(** ** Making and undoing a move *)
(* ===================================================================== *)

Module MakeUndoFacts.
Import Core GameFacts.
Local Open Scope py_scope.

Local Ltac dead := split; [done|intros (? & ? & ?); done].

Lemma slot_lt (n : nat) (i : Z) (k : nat) : slot n i = Some k -> (k < n)%nat.
Proof.
  unfold slot. destruct ((0 <=? i) && (i <? Z.of_nat n)) eqn:E1.
  - intros [= <-]. lia.
  - destruct ((- Z.of_nat n <=? i) && (i <? 0)) eqn:E2; [|done].
    intros [= <-]. lia.
Qed.

Lemma index_slot {A} (l : list A) (i : Z) :
  Py.index l i = slot (length l) i ≫= (l !!.).
Proof.
  unfold Py.index, slot. destruct (_ && _); [done|]. by destruct (_ && _).
Qed.

Lemma setitem_slot {A} (l : list A) (i : Z) (x : A) :
  Py.setitem l i x = (fun k => <[k:=x]> l) <$> slot (length l) i.
Proof.
  unfold Py.setitem, slot. destruct (_ && _); [done|]. by destruct (_ && _).
Qed.

Lemma index2_slot2 (b : Board) (r c : Z) (x : string) :
  Py.index2 b r c = Some x <-> exists k, slot2 b r c = Some k /\ get2 b k = Some x.
Proof.
  unfold Py.index2, slot2, get2. unfold Board in *. rewrite index_slot.
  destruct (slot (length b) r) as [kr|]; simpl; [|dead].
  destruct (b !! kr) as [row|] eqn:Er; simpl; rewrite ?Er; [|dead].
  rewrite index_slot.
  destruct (slot (length row) c) as [kc|]; simpl; [|dead].
  split.
  - intros H. exists (kr, kc). simpl. by rewrite Er.
  - intros (k & [= <-] & H). simpl in H. by rewrite Er in H.
Qed.

Lemma setitem2_slot2 (b b' : Board) (r c : Z) (x : string) :
  Py.setitem2 b r c x = Some b' <->
  exists k, slot2 b r c = Some k /\ b' = put2 k x b.
Proof.
  unfold Py.setitem2, slot2, put2. unfold Board in *. rewrite index_slot.
  destruct (slot (length b) r) as [kr|] eqn:Ek; simpl; [|dead].
  destruct (b !! kr) as [row|] eqn:Er; simpl; rewrite ?Er; [|dead].
  rewrite setitem_slot.
  destruct (slot (length row) c) as [kc|]; simpl; [|dead].
  rewrite setitem_slot, Ek. simpl.
  split.
  - intros [= <-]. exists (kr, kc). simpl. by rewrite Er.
  - intros (k & [= <-] & ->). simpl. by rewrite Er.
Qed.

Lemma slot2_put2 (b : Board) (k : nat * nat) (x : string) (r c : Z) :
  slot2 (put2 k x b) r c = slot2 b r c.
Proof.
  unfold slot2, put2. unfold Board in *.
  destruct (b !! k.1) as [row|] eqn:Er; [|done].
  rewrite length_insert.
  destruct (slot (length b) r) as [kr|]; simpl; [|done].
  destruct (decide (k.1 = kr)) as [<-|Hne].
  - rewrite list_lookup_insert_eq by (by eapply lookup_lt_Some).
    rewrite Er. simpl. by rewrite length_insert.
  - by rewrite list_lookup_insert_ne.
Qed.

Lemma put2_put2 (k : nat * nat) (x y : string) (b : Board) :
  put2 k x (put2 k y b) = put2 k x b.
Proof.
  unfold put2. unfold Board in *.
  destruct (b !! k.1) as [row|] eqn:Er; [|by rewrite Er].
  rewrite list_lookup_insert_eq by (by eapply lookup_lt_Some).
  by rewrite !list_insert_insert_eq.
Qed.

Lemma put2_comm (k k' : nat * nat) (x y : string) (b : Board) :
  k <> k' -> put2 k x (put2 k' y b) = put2 k' y (put2 k x b).
Proof.
  intros Hne. unfold put2. unfold Board in *.
  destruct (decide (k.1 = k'.1)) as [Hr|Hr].
  - rewrite <- Hr. destruct (b !! k.1) as [row|] eqn:Er; [|by rewrite Er].
    rewrite !list_lookup_insert_eq by (by eapply lookup_lt_Some).
    rewrite !list_insert_insert_eq. f_equal.
    apply list_insert_insert_ne. intros Hc. apply Hne.
    destruct k, k'. simpl in *. congruence.
  - destruct (b !! k.1) as [row|] eqn:Er, (b !! k'.1) as [row'|] eqn:Er'.
    all: rewrite ?list_lookup_insert_ne by done; rewrite ?Er, ?Er'; try done.
    by apply list_insert_insert_ne.
Qed.

Lemma put2_id (k : nat * nat) (x : string) (b : Board) :
  get2 b k = Some x -> put2 k x b = b.
Proof.
  unfold get2, put2. unfold Board in *. destruct (b !! k.1) as [row|] eqn:Er; [|done]. simpl.
  intros H. rewrite (list_insert_id row) by done. by apply list_insert_id.
Qed.

(** The board after a move and its undoing, square by square. *)
Lemma board_round_trip (b : Board) (S E : nat * nat) (pm pc : string)
    (promo : option string) :
  get2 b S = Some pm -> get2 b E = Some pc ->
  let made := put2 S "--" (put2 E pm b) in
  let bm := match promo with Some x => put2 E x made | None => made end in
  put2 E pc (put2 S pm bm) = b.
Proof.
  intros HS HE made bm. subst bm made.
  destruct (decide (S = E)) as [->|Hne].
  - destruct promo; rewrite !put2_put2; by apply put2_id.
  - assert (put2 S pm (put2 S "--" (put2 E pm b)) = put2 E pm b) as H1.
    { rewrite put2_put2, put2_comm by done. f_equal. by apply put2_id. }
    destruct promo as [x|].
    + rewrite (put2_comm S E) by done. rewrite H1, !put2_put2. by apply put2_id.
    + rewrite H1, put2_put2. by apply put2_id.
Qed.

Lemma pop_snoc {A} (l : list A) (x : A) : pop (l ++ [x]) = Some (x, l).
Proof.
  unfold pop. rewrite reverse_app. simpl. by rewrite reverse_involutive.
Qed.

Lemma pop_inv {A} (l rest : list A) (x : A) :
  pop l = Some (x, rest) -> l = rest ++ [x].
Proof.
  unfold pop. destruct (reverse l) as [|y r] eqn:E; [done|].
  intros [= <- <-]. apply (f_equal reverse) in E.
  rewrite reverse_involutive in E. by rewrite E, reverse_cons.
Qed.

Lemma board_put_inv (r c : Z) (x : string) (s s' : GameState) (u : unit) :
  board_put r c x s = Some (u, s') ->
  exists k, slot2 (board s) r c = Some k /\ s' = set_board (put2 k x (board s)) s.
Proof.
  unfold board_put. destruct (Py.setitem2 _ _ _ _) as [b'|] eqn:E; [|done].
  intros [= _ <-]. apply setitem2_slot2 in E as (k & Hk & ->). eauto.
Qed.

Lemma board_put_slot (r c : Z) (x : string) (s : GameState) (k : nat * nat) :
  slot2 (board s) r c = Some k ->
  board_put r c x s = Some (tt, set_board (put2 k x (board s)) s).
Proof.
  intros Hk. unfold board_put.
  assert (Py.setitem2 (board s) r c x = Some (put2 k x (board s))) as ->; [|done].
  apply setitem2_slot2. eauto.
Qed.

(** What [make_move] does with a move that is neither an en-passant
    capture nor a castling, field by field. *)
Lemma make_move_plain (m : Move) (s s1 : GameState) :
  make_move m s = Some (tt, s1) ->
  enPassant m = false -> is_castle_move m = false ->
  exists S E promo mv,
    slot2 (board s) (start_row m) (start_col m) = Some S /\
    slot2 (board s) (end_row m) (end_col m) = Some E /\
    board s1 = (let made := put2 S "--" (put2 E (piece_moved m) (board s)) in
                match promo with Some x => put2 E x made | None => made end) /\
    move_log s1 = move_log s ++ [mv] /\
    start_row mv = start_row m /\ start_col mv = start_col m /\
    end_row mv = end_row m /\ end_col mv = end_col m /\
    piece_moved mv = piece_moved m /\ piece_captured mv = piece_captured m /\
    enPassant mv = false /\ is_castle_move mv = false /\
    pawn_promotion mv = pawn_promotion m /\
    castle_rights_before mv = Some (current_castling_rights s) /\
    en_passant_before mv = enPassant_possible s /\
    white_to_move s1 = negb (white_to_move s) /\
    white_king_location s1 =
      (if String.eqb (piece_moved m) "wK" then (end_row m, end_col m)
       else white_king_location s) /\
    black_king_location s1 =
      (if String.eqb (piece_moved m) "wK" then black_king_location s
       else if String.eqb (piece_moved m) "bK" then (end_row m, end_col m)
       else black_king_location s) /\
    current_castling_rights s1 =
      update_castle_rights m (current_castling_rights s) /\
    castle_rights_log s1 = castle_rights_log s ++ [current_castling_rights s1] /\
    enPassant_possible_log s1 =
      enPassant_possible_log s ++ [enPassant_possible s1] /\
    hash_board s1 = board s1 /\
    (in_check s1, pins s1, checks s1) = (in_check s, pins s, checks s) /\
    (checkmate s1, stalemate s1) = (checkmate s, stalemate s).
Proof.
  intros H Hep Hcm. unfold make_move in H.
  apply bind_inv in H as (s0 & s0' & H0 & H). injection H0 as <- <-.
  cbv zeta in H.
  set (mv := set_en_passant_before _ _) in H.
  apply bind_inv in H as ([] & sa & Ha & H).
  apply board_put_inv in Ha as (E & HE & ->).
  change (slot2 (board s) (end_row m) (end_col m) = Some E) in HE.
  apply bind_inv in H as ([] & sb & Hb & H).
  apply board_put_inv in Hb as (S & HS & ->).
  cbn [board set_board] in HS. rewrite slot2_put2 in HS.
  change (slot2 (board s) (start_row m) (start_col m) = Some S) in HS.
  apply bind_inv in H as ([] & sc & Hc & H). injection Hc as <-.
  apply bind_inv in H as ([] & sd & Hd & H). injection Hd as <-.
  apply bind_inv in H as ([] & se & He & H).
  apply bind_inv in H as ([] & sf & Hf & H).
  apply bind_inv in H as (mv' & sg & Hg & H).
  apply bind_inv in H as ([] & sh & Hh & H).
  apply bind_inv in H as ([] & si & Hi & H). injection Hi as <-.
  apply bind_inv in H as ([] & sj & Hj & H). injection Hj as <-.
  apply bind_inv in H as ([] & sk & Hk & H). injection Hk as <-.
  injection H as <-.
  (* the king *)
  unfold handle_king_move in He. change (piece_moved mv) with (piece_moved m) in He.
  (* the en-passant target *)
  unfold handle_en_passant in Hf.
  apply bind_inv in Hf as (k & sf1 & Hk & Hf).
  unfold Py.lift in Hk. destruct (Py.chr (piece_moved mv) 1); [|done].
  injection Hk as <- <-.
  apply bind_inv in Hf as ([] & sf2 & Hf2 & Hf).
  change (enPassant mv) with (enPassant m) in Hf. rewrite Hep in Hf.
  injection Hf as <-.
  (* the promotion *)
  unfold handle_pawn_promotion in Hg.
  change (pawn_promotion mv) with (pawn_promotion m) in Hg.
  (* the castling *)
  unfold handle_castling in Hh.
  assert (is_castle_move mv' = false) as Hcm'.
  { destruct (pawn_promotion m).
    - apply bind_inv in Hg as (sx & sx' & _ & Hg).
      apply bind_inv in Hg as ([] & sy & _ & Hg).
      apply bind_inv in Hg as (c0 & sy' & _ & Hg).
      apply bind_inv in Hg as ([] & sz & _ & Hg).
      apply bind_inv in Hg as ([] & sz' & _ & Hg).
      injection Hg as <- _. exact Hcm.
    - injection Hg as <- _. exact Hcm. }
  rewrite Hcm' in Hh. injection Hh as <-.
  exists S, E.
  destruct (pawn_promotion m) eqn:Hpp.
  - apply bind_inv in Hg as (sx & sx' & Hx & Hg). injection Hx as <- <-.
    cbv zeta in Hg.
    apply bind_inv in Hg as ([] & sy & Hy & Hg). injection Hy as <-.
    apply bind_inv in Hg as (c0 & sy' & Hc0 & Hg).
    unfold Py.lift in Hc0. destruct (Py.chr (piece_moved mv) 0) as [c0'|]; [|done].
    injection Hc0 as <- <-.
    apply bind_inv in Hg as ([] & sz & Hz & Hg).
    apply board_put_inv in Hz as (E' & HE' & ->).
    apply bind_inv in Hg as ([] & sz' & Hz' & Hg). injection Hz' as <-.
    injection Hg as <- <-.
    assert (E' = E) as ->.
    { destruct (String.eqb (piece_moved m) "wK");
        [|destruct (String.eqb (piece_moved m) "bK")];
        injection He as <-; destruct (_ && _); injection Hf2 as <-;
        cbn in HE'; unfold update_logged_move, Py.modify in HE';
        cbn in HE'; rewrite pop_snoc in HE'; cbn in HE';
        rewrite !slot2_put2 in HE'; congruence. }
    clear HE' Hcm'. eexists (Some _), _.
    destruct (String.eqb (piece_moved m) "wK");
      [|destruct (String.eqb (piece_moved m) "bK")];
      injection He as <-; destruct (_ && _); injection Hf2 as <-;
      cbn; rewrite ?pop_snoc; cbn;
      repeat split; first [assumption | reflexivity].
  - injection Hg as <- <-. exists None, mv.
    destruct (String.eqb (piece_moved m) "wK");
      [|destruct (String.eqb (piece_moved m) "bK")];
      injection He as <-; destruct (_ && _); injection Hf2 as <-;
      cbn; repeat split; first [assumption | reflexivity].
Qed.

(** What [undo_move] does when the last move of the log is neither an
    en-passant capture nor a castling, field by field. *)
Lemma undo_move_plain (s1 : GameState) (rest : list Move) (mv : Move)
    (S E : nat * nat) (cr : CastleRights) :
  move_log s1 = rest ++ [mv] ->
  enPassant mv = false -> is_castle_move mv = false ->
  castle_rights_before mv = Some cr ->
  slot2 (board s1) (start_row mv) (start_col mv) = Some S ->
  slot2 (board s1) (end_row mv) (end_col mv) = Some E ->
  exists s2,
    undo_move s1 = Some (true, s2) /\
    board s2 = put2 E (piece_captured mv) (put2 S (piece_moved mv) (board s1)) /\
    move_log s2 = rest /\
    white_to_move s2 = negb (white_to_move s1) /\
    white_king_location s2 =
      (if String.eqb (piece_moved mv) "wK" then (start_row mv, start_col mv)
       else white_king_location s1) /\
    black_king_location s2 =
      (if String.eqb (piece_moved mv) "wK" then black_king_location s1
       else if String.eqb (piece_moved mv) "bK" then (start_row mv, start_col mv)
       else black_king_location s1) /\
    current_castling_rights s2 = cr /\
    enPassant_possible s2 = en_passant_before mv /\
    castle_rights_log s2 = castle_rights_log s1 /\
    enPassant_possible_log s2 = enPassant_possible_log s1 /\
    hash_board s2 = board s2 /\
    (in_check s2, pins s2, checks s2) = (in_check s1, pins s1, checks s1) /\
    checkmate s2 = false /\ stalemate s2 = false.
Proof.
  intros Hlog Hep Hcm Hcr HS HE.
  unfold undo_move, undo_king_move, undo_en_passant, undo_castling.
  unfold Py.bind, Py.get, Py.modify, Py.ret.
  rewrite Hlog, pop_snoc, Hep, Hcm, Hcr. cbv beta iota.
  rewrite (board_put_slot _ _ _ _ S) by exact HS. cbv beta iota.
  assert (slot2 (board (set_board (put2 S (piece_moved mv) (board (set_move_log rest s1)))
                          (set_move_log rest s1)))
            (end_row mv) (end_col mv) = Some E) as HE'
    by (cbn [board set_board set_move_log]; by rewrite slot2_put2).
  destruct (pawn_promotion mv);
    rewrite (board_put_slot _ _ _ _ E) by exact HE'; cbv beta iota;
    (destruct (String.eqb (piece_moved mv) "wK");
     [|destruct (String.eqb (piece_moved mv) "bK")]);
    eexists; (split; [reflexivity|]); cbn; repeat split; reflexivity.
Qed.

(** X14. Let a move be neither an en-passant capture nor a castling, let
    its [piece_moved] and [piece_captured] be what stands on its two
    squares, and let the cached location of a king that moves be its start
    square.  Then [undo_move] after [make_move] returns [True] and gives
    back the board, the side to move, the castling rights, the en-passant
    target, both king locations and the move log; it lowers [checkmate]
    and [stalemate]; the two logs of castling rights and en-passant
    targets keep the entry that [make_move] added. *)
Theorem make_then_undo_restores_position (m : Move) (s s1 : GameState) :
  enPassant m = false -> is_castle_move m = false ->
  Py.index2 (board s) (start_row m) (start_col m) = Some (piece_moved m) ->
  Py.index2 (board s) (end_row m) (end_col m) = Some (piece_captured m) ->
  (piece_moved m = "wK" -> white_king_location s = (start_row m, start_col m)) ->
  (piece_moved m = "bK" -> black_king_location s = (start_row m, start_col m)) ->
  make_move m s = Some (tt, s1) ->
  exists s2,
    undo_move s1 = Some (true, s2) /\
    position s2 = position s /\
    move_log s2 = move_log s /\
    hash_board s2 = board s /\
    (in_check s2, pins s2, checks s2) = (in_check s, pins s, checks s) /\
    checkmate s2 = false /\ stalemate s2 = false /\
    castle_rights_log s2 = castle_rights_log s ++ [current_castling_rights s1] /\
    enPassant_possible_log s2 =
      enPassant_possible_log s ++ [enPassant_possible s1].
Proof.
  intros Hep Hcm Hpm Hpc Hwk Hbk Hmake.
  destruct (make_move_plain m s s1 Hmake Hep Hcm)
    as (S & E & promo & mv & HS & HE & Hb & Hlog & Hsr & Hsc & Her & Hec & Hm
        & Hc & Hep' & Hcm' & _ & Hcr & Hepb & Hw & Hwl & Hbl & _ & Hcl & Hel
        & _ & Hinfo & _).
  apply index2_slot2 in Hpm as (S' & HS' & HgS).
  apply index2_slot2 in Hpc as (E' & HE' & HgE).
  assert (S' = S) as -> by congruence. assert (E' = E) as -> by congruence.
  assert (forall r c, slot2 (board s1) r c = slot2 (board s) r c) as Hslots.
  { intros r c. rewrite Hb. destruct promo; cbv zeta; by rewrite !slot2_put2. }
  destruct (undo_move_plain s1 (move_log s) mv S E (current_castling_rights s))
    as (s2 & Hundo & Hb2 & Hlog2 & Hw2 & Hwl2 & Hbl2 & Hcr2 & Hep2 & Hcl2
        & Hel2 & Hh2 & Hinfo2 & Hmate & Hstale); try done.
  { by rewrite Hslots, Hsr, Hsc. }
  { by rewrite Hslots, Her, Hec. }
  assert (board s2 = board s) as Hboard.
  { rewrite Hb2, Hb, Hm, Hc. by apply board_round_trip. }
  exists s2. split; [exact Hundo|].
  split.
  { unfold position. rewrite Hboard, Hw2, Hw, negb_involutive, Hcr2, Hep2, Hepb.
    rewrite Hwl2, Hbl2, Hwl, Hbl, Hm, Hsr, Hsc.
    destruct (String.eqb_spec (piece_moved m) "wK") as [Hk|_].
    - by rewrite (Hwk Hk).
    - destruct (String.eqb_spec (piece_moved m) "bK") as [Hk|_]; [|done].
      by rewrite (Hbk Hk). }
  split; [exact Hlog2|]. split; [by rewrite Hh2|].
  split; [by rewrite Hinfo2|].
  split; [exact Hmate|]. split; [exact Hstale|].
  split; [by rewrite Hcl2|by rewrite Hel2].
Qed.

Lemma make_then_undo_restores_position_witness :
  exists s1 s2,
    make_move king_g6_f6 stalemate_state = Some (tt, s1) /\
    undo_move s1 = Some (true, s2) /\
    position s2 = position stalemate_state.
Proof.
  destruct (make_move king_g6_f6 stalemate_state) as [[[] s1]|] eqn:E.
  - destruct (make_then_undo_restores_position king_g6_f6 stalemate_state s1
                eq_refl eq_refl eq_refl eq_refl (fun _ => eq_refl)
                ltac:(discriminate) E)
      as (s2 & Hundo & Hpos & _).
    exists s1, s2. split; [reflexivity|]. split; [exact Hundo|exact Hpos].
  - exfalso. vm_compute in E. discriminate E.
Defined.

Lemma kb_ret {A} (a : A) : keeps_bookkeeping (Py.ret a).
Proof. by intros s a' s' [= _ <-]. Qed.

Lemma kb_bind {A B} (m : GS A) (k : A -> GS B) :
  keeps_bookkeeping m -> (forall a, keeps_bookkeeping (k a)) ->
  keeps_bookkeeping (Py.bind m k).
Proof.
  intros Hm Hk s b s' H. apply bind_inv in H as (a & s1 & H1 & H2).
  rewrite (Hk _ _ _ _ H2). by eapply Hm.
Qed.

Lemma kb_lift {A} (o : option A) : keeps_bookkeeping (Py.lift o).
Proof. intros s a s'. unfold Py.lift. destruct o; [|done]. by intros [= _ <-]. Qed.

Lemma kb_get : keeps_bookkeeping (@Py.get GameState).
Proof. by intros s a s' [= _ <-]. Qed.

Lemma kb_modify (g : GameState -> GameState) :
  (forall s, bookkeeping (g s) = bookkeeping s) -> keeps_bookkeeping (Py.modify g).
Proof. intros Hg s a s' [= _ <-]. apply Hg. Qed.

Lemma kb_board_at (r c : Z) : keeps_bookkeeping (board_at r c).
Proof.
  intros s a s'. unfold board_at. destruct (Py.index2 _ _ _); [|done].
  by intros [= _ <-].
Qed.

Lemma kb_board_put (r c : Z) (x : string) : keeps_bookkeeping (board_put r c x).
Proof.
  intros s a s'. unfold board_put. destruct (Py.setitem2 _ _ _ _); [|done].
  by intros [= _ <-].
Qed.

Lemma kb_update_logged_move (mv : Move) : keeps_bookkeeping (update_logged_move mv).
Proof.
  intros s a s'. unfold update_logged_move. intros [= _ <-].
  destruct (pop (move_log s)) as [[x rest]|] eqn:E; [|done].
  apply pop_inv in E. unfold bookkeeping. cbn. rewrite E.
  by rewrite !length_app.
Qed.

Local Ltac kb_step :=
  match goal with
  | |- keeps_bookkeeping (Py.ret _) => apply kb_ret
  | |- keeps_bookkeeping (Py.bind _ _) => apply kb_bind; [|intros ?]
  | |- keeps_bookkeeping (Py.lift _) => apply kb_lift
  | |- keeps_bookkeeping Py.get => apply kb_get
  | |- keeps_bookkeeping (Py.modify _) => apply kb_modify; intros ?; reflexivity
  | |- keeps_bookkeeping (board_at _ _) => apply kb_board_at
  | |- keeps_bookkeeping (board_put _ _ _) => apply kb_board_put
  | |- keeps_bookkeeping (update_logged_move _) => apply kb_update_logged_move
  | |- keeps_bookkeeping (if ?b then _ else _) => destruct b
  end.

Lemma kb_handle_king_move (mv : Move) : keeps_bookkeeping (handle_king_move mv).
Proof. unfold handle_king_move. repeat kb_step. Qed.

Lemma kb_handle_en_passant (mv : Move) : keeps_bookkeeping (handle_en_passant mv).
Proof. unfold handle_en_passant. repeat kb_step. Qed.

Lemma kb_handle_pawn_promotion (mv : Move) :
  keeps_bookkeeping (handle_pawn_promotion mv).
Proof. unfold handle_pawn_promotion. repeat kb_step. Qed.

Lemma kb_handle_castling (mv : Move) : keeps_bookkeeping (handle_castling mv).
Proof. unfold handle_castling. repeat kb_step. Qed.

(** The move that [handle_pawn_promotion] hands on differs from its
    argument in [promoted_to] only. *)
Lemma handle_pawn_promotion_move (mv mv' : Move) (s s' : GameState) :
  handle_pawn_promotion mv s = Some (mv', s') ->
  forall cr, update_castle_rights mv' cr = update_castle_rights mv cr.
Proof.
  unfold handle_pawn_promotion. destruct (pawn_promotion mv).
  - intros H. apply bind_inv in H as (sx & sx' & _ & H).
    apply bind_inv in H as ([] & sy & _ & H).
    apply bind_inv in H as (c0 & sy' & _ & H).
    apply bind_inv in H as ([] & sz & _ & H).
    apply bind_inv in H as ([] & sz' & _ & H).
    by injection H as <- _.
  - by intros [= <- _].
Qed.

Lemma update_castle_rights_within (mv : Move) (cr : CastleRights) :
  rights_within (update_castle_rights mv cr) cr.
Proof.
  unfold update_castle_rights, rights_within.
  repeat match goal with
         | |- context [if ?b then _ else _] => destruct b
         end; cbn; repeat split; intros; first [assumption | discriminate].
Qed.

Lemma update_castle_rights_king (mv : Move) (cr : CastleRights) :
  (piece_moved mv = "wK" ->
   wks (update_castle_rights mv cr) = false /\
   wqs (update_castle_rights mv cr) = false) /\
  (piece_moved mv = "bK" ->
   bks (update_castle_rights mv cr) = false /\
   bqs (update_castle_rights mv cr) = false).
Proof.
  unfold update_castle_rights.
  split; intros ->; cbn [String.eqb Ascii.eqb Bool.eqb];
    repeat match goal with
           | |- context [if ?b then _ else _] => destruct b
           end; cbn; split; reflexivity.
Qed.

(** X15. After [make_move] the castling rights are those of
    [update_castle_rights]: every right that holds afterwards held before,
    and a move of a king leaves its side no right.  The side to move is
    switched, the move log is one longer, and the current castling rights
    and en-passant target are appended to their logs. *)
Theorem make_move_never_restores_castling_rights (m : Move) (s s1 : GameState) :
  make_move m s = Some (tt, s1) ->
  current_castling_rights s1 = update_castle_rights m (current_castling_rights s) /\
  rights_within (current_castling_rights s1) (current_castling_rights s) /\
  (piece_moved m = "wK" ->
   wks (current_castling_rights s1) = false /\
   wqs (current_castling_rights s1) = false) /\
  (piece_moved m = "bK" ->
   bks (current_castling_rights s1) = false /\
   bqs (current_castling_rights s1) = false) /\
  white_to_move s1 = negb (white_to_move s) /\
  length (move_log s1) = Datatypes.S (length (move_log s)) /\
  castle_rights_log s1 = castle_rights_log s ++ [current_castling_rights s1] /\
  enPassant_possible_log s1 =
    enPassant_possible_log s ++ [enPassant_possible s1].
Proof.
  intros H. unfold make_move in H.
  apply bind_inv in H as (s0 & s0' & H0 & H). injection H0 as <- <-.
  cbv zeta in H.
  set (mv := set_en_passant_before _ _) in H.
  apply bind_inv in H as ([] & sa & Ha & H). apply kb_board_put in Ha.
  apply bind_inv in H as ([] & sb & Hb & H). apply kb_board_put in Hb.
  apply bind_inv in H as ([] & sc & Hc & H). injection Hc as <-.
  apply bind_inv in H as ([] & sd & Hd & H). injection Hd as <-.
  apply bind_inv in H as ([] & se & He & H). apply kb_handle_king_move in He.
  apply bind_inv in H as ([] & sf & Hf & H). apply kb_handle_en_passant in Hf.
  apply bind_inv in H as (mv' & sg & Hg & H).
  pose proof (handle_pawn_promotion_move _ _ _ _ Hg) as Hmv.
  apply kb_handle_pawn_promotion in Hg.
  apply bind_inv in H as ([] & sh & Hh & H). apply kb_handle_castling in Hh.
  apply bind_inv in H as ([] & si & Hi & H). injection Hi as <-.
  apply bind_inv in H as ([] & sj & Hj & H). injection Hj as <-.
  apply bind_inv in H as ([] & sk & Hk & H). injection Hk as <-.
  injection H as <-.
  rewrite Hg, Hf, He in Hh. clear Hg Hf He. unfold bookkeeping in *.
  cbn in Hh. rewrite length_app in Hh. cbn in Hh.
  injection Hb as Hb1 Hb2 Hb3 Hb4 Hb5. injection Ha as Ha1 Ha2 Ha3 Ha4 Ha5.
  cbn in Hb1, Hb2, Hb3, Hb4, Hb5.
  injection Hh as Hh1 Hh2 Hh3 Hh4 Hh5.
  cbn. rewrite Hh5, Hh4, Hh3, Hh2, Hh1, Hmv, Hb5, Hb4, Hb3, Hb2, Hb1.
  rewrite Ha5, Ha4, Ha3, Ha2, Ha1.
  change (update_castle_rights mv) with (update_castle_rights m).
  split; [reflexivity|].
  split; [apply update_castle_rights_within|].
  split; [apply update_castle_rights_king|].
  split; [apply update_castle_rights_king|].
  split; [reflexivity|]. split; [lia|]. split; reflexivity.
Qed.

Lemma make_move_never_restores_castling_rights_witness :
  exists s1,
    make_move king_g6_f6 stalemate_state = Some (tt, s1) /\
    rights_within (current_castling_rights s1)
      (current_castling_rights stalemate_state) /\
    white_to_move s1 = negb (white_to_move stalemate_state).
Proof.
  destruct (make_move king_g6_f6 stalemate_state) as [[[] s1]|] eqn:E.
  - destruct (make_move_never_restores_castling_rights king_g6_f6
                stalemate_state s1 E) as (_ & Hr & _ & _ & Hw & _).
    exists s1. split; [reflexivity|]. split; [exact Hr|exact Hw].
  - exfalso. vm_compute in E. discriminate E.
Defined.

End MakeUndoFacts.

(* ===================================================================== *)
(** ** The scan for pins and checks *)
(* ===================================================================== *)

Module CheckScanFacts.
Import Core.

Lemma snoc_not_nil {A} (l : list A) (x : A) : l ++ [x] <> [].
Proof. by destruct l. Qed.

Lemma ray_scan_ok (b : Board) (enemy_color ally_color : ascii)
    (start_row start_col j d0 d1 : Z) (steps : list Z)
    (possible_pin : option Ray) (acc acc' : CheckInfo) :
  scan_ok b enemy_color ally_color acc ->
  (forall p, possible_pin = Some p -> ray_on b ally_color p /\ ray_not_king b p) ->
  ray_scan b enemy_color ally_color start_row start_col j d0 d1 steps
    possible_pin acc = Some acc' ->
  scan_ok b enemy_color ally_color acc'.
Proof.
  revert possible_pin acc.
  induction steps as [|i rest IH]; intros possible_pin acc Hacc Hpin;
    cbn [ray_scan]; [by intros [= <-]|].
  cbv zeta. destruct (in_board _ _) eqn:Hin; [|by intros [= <-]].
  intros H.
  apply bind_Some in H as (end_piece & Hep & H).
  apply bind_Some in H as (c0 & Hc0 & H).
  apply bind_Some in H as (ally & Hally & H).
  destruct ally.
  - destruct possible_pin as [p|]; [by injection H as <-|].
    eapply IH; [exact Hacc| |exact H].
    intros p [= <-].
    destruct (Ascii.eqb_spec c0 ally_color) as [->|]; [|done].
    apply bind_Some in Hally as (k & Hk & [= Hnk]).
    split.
    + split; [exact Hin|]. by exists end_piece.
    + intros pc Hpc. rewrite Hep in Hpc. injection Hpc as <-.
      rewrite Hk. intros [= ->]. done.
  - destruct (Ascii.eqb_spec c0 enemy_color) as [->|].
    + apply bind_Some in H as (piece_type & Hpt & H).
      destruct (attacks_along _ _ _ _); [|by injection H as <-].
      destruct acc as [[ic ps] cs]. destruct Hacc as (Hic & Hcs & Hps).
      destruct possible_pin as [p|]; injection H as <-.
      * split; [done|]. split; [done|].
        apply Forall_app. split; [done|]. apply Forall_singleton. by apply Hpin.
      * split; [split; [intros _; apply snoc_not_nil|done]|].
        split; [|done].
        apply Forall_app. split; [done|]. apply Forall_singleton.
        split; [exact Hin|]. by exists end_piece.
    + by eapply IH.
Qed.

Lemma rays_scan_ok (b : Board) (enemy_color ally_color : ascii)
    (start_row start_col j : Z) (dirs : list (Z * Z)) (acc acc' : CheckInfo) :
  scan_ok b enemy_color ally_color acc ->
  rays_scan b enemy_color ally_color start_row start_col j dirs acc = Some acc' ->
  scan_ok b enemy_color ally_color acc'.
Proof.
  revert j acc. induction dirs as [|[d0 d1] rest IH]; intros j acc Hacc;
    cbn [rays_scan]; [by intros [= <-]|].
  intros H. apply bind_Some in H as (acc1 & H1 & H).
  eapply IH; [|exact H]. eapply ray_scan_ok; [exact Hacc| |exact H1]. done.
Qed.

Lemma knight_scan_ok (b : Board) (enemy_color ally_color : ascii)
    (start_row start_col : Z) (offs : list (Z * Z)) (acc acc' : CheckInfo) :
  scan_ok b enemy_color ally_color acc ->
  knight_scan b enemy_color start_row start_col offs acc = Some acc' ->
  scan_ok b enemy_color ally_color acc'.
Proof.
  revert acc. induction offs as [|[m0 m1] rest IH]; intros acc Hacc;
    cbn [knight_scan]; [by intros [= <-]|].
  cbv zeta. destruct (in_board _ _) eqn:Hin; [|by apply IH].
  intros H.
  apply bind_Some in H as (end_piece & Hep & H).
  apply bind_Some in H as (c0 & Hc0 & H).
  apply bind_Some in H as (hit & Hhit & H).
  destruct hit; [|by eapply IH].
  destruct acc as [[ic ps] cs]. destruct Hacc as (Hic & Hcs & Hps).
  eapply IH; [|exact H].
  split; [split; [intros _; apply snoc_not_nil|done]|].
  split; [|done].
  apply Forall_app. split; [done|]. apply Forall_singleton.
  split; [exact Hin|]. exists end_piece. split; [done|].
  destruct (Ascii.eqb_spec c0 enemy_color) as [->|]; [done|].
  by injection Hhit.
Qed.

(** X16. [check_for_pins_and_checks] reports a check exactly when its list
    of checks is not empty.  Every entry of that list is a square of the
    board that holds a piece of the other side; every pin is a square of
    the board that holds a piece of the side to move other than its
    king. *)
Theorem check_scan_lists_pieces_on_the_board (s : GameState) (ic : bool)
    (ps cs : list Ray) :
  check_for_pins_and_checks s = Some (ic, ps, cs) ->
  let ally := if white_to_move s then "w"%char else "b"%char in
  let enemy := if white_to_move s then "b"%char else "w"%char in
  (ic = true <-> cs <> []) /\
  (forall e, e ∈ cs -> ray_on (board s) enemy e) /\
  (forall e, e ∈ ps -> ray_on (board s) ally e /\ ray_not_king (board s) e).
Proof.
  unfold check_for_pins_and_checks. intros H.
  assert (scan_ok (board s) (if white_to_move s then "b"%char else "w"%char)
            (if white_to_move s then "w"%char else "b"%char) (ic, ps, cs))
    as (Hic & Hcs & Hps).
  { destruct (white_to_move s).
    - destruct (white_king_location s) as [r c].
      apply bind_Some in H as (acc & H1 & H).
      eapply knight_scan_ok; [|exact H]. eapply rays_scan_ok; [|exact H1].
      split; [done|]. split; constructor.
    - destruct (black_king_location s) as [r c].
      apply bind_Some in H as (acc & H1 & H).
      eapply knight_scan_ok; [|exact H]. eapply rays_scan_ok; [|exact H1].
      split; [done|]. split; constructor. }
  split; [exact Hic|]. split; by apply Forall_forall.
Qed.

Lemma check_scan_lists_pieces_on_the_board_witness :
  check_for_pins_and_checks rook_check_state = Some (true, [], [(0, 4, -1, 0)]) /\
  ray_on (board rook_check_state) "b" (0, 4, -1, 0).
Proof.
  assert (Hscan : check_for_pins_and_checks rook_check_state
                  = Some (true, [], [(0, 4, -1, 0)]))
    by (vm_compute; reflexivity).
  split; [exact Hscan|].
  destruct (check_scan_lists_pieces_on_the_board rook_check_state true []
              [(0, 4, -1, 0)] Hscan) as (_ & Hcs & _).
  apply Hcs. left.
Defined.

End CheckScanFacts.

(* ===================================================================== *)
(** ** Moves of the game and moves of the engine *)
(* ===================================================================== *)

Module ConversionFacts.
Import AI.

Lemma convert_move_squares (board : Board) (m : Core.Move) (im : Move) :
  convert_move board m = Some im -> move_squares im = squares_of m.
Proof.
  unfold convert_move. intros H.
  apply bind_Some in H as (pc & _ & H).
  apply bind_Some in H as (target & _ & H).
  by injection H as <-.
Qed.

Lemma convert_back_head (im : Move) (m : Core.Move) (rest : list Core.Move) :
  _convert_back_to_original_move im (m :: rest) =
  if decide (squares_of m = move_squares im) then Some m
  else _convert_back_to_original_move im rest.
Proof.
  cbn [_convert_back_to_original_move]. unfold squares_of, move_squares.
  destruct (Z.eqb_spec (Core.start_row m) (from_row im)),
           (Z.eqb_spec (Core.start_col m) (from_col im)),
           (Z.eqb_spec (Core.end_row m) (to_row im)),
           (Z.eqb_spec (Core.end_col m) (to_col im)); cbn [andb];
    case_decide; congruence.
Qed.

Lemma convert_moves_length (board : Board) (original : list Core.Move)
    (internal : list Move) :
  _convert_moves board original = Some internal ->
  length internal = length original.
Proof.
  revert internal. induction original as [|m0 rest IH]; intros internal;
    cbn [_convert_moves]; [by intros [= <-]|].
  intros H. apply bind_Some in H as (im0 & _ & H).
  apply bind_Some in H as (more & Hmore & [= <-]).
  cbn. f_equal. by apply IH.
Qed.

Lemma convert_moves_lookup (board : Board) (original : list Core.Move)
    (internal : list Move) (i : nat) (m : Core.Move) (im : Move) :
  _convert_moves board original = Some internal ->
  original !! i = Some m -> internal !! i = Some im ->
  convert_move board m = Some im.
Proof.
  revert internal i. induction original as [|m0 rest IH]; intros internal i;
    cbn [_convert_moves]; [done|].
  intros H. apply bind_Some in H as (im0 & Him0 & H).
  apply bind_Some in H as (more & Hmore & [= <-]).
  destruct i as [|i]; cbn.
  - by intros [= <-] [= <-].
  - by apply IH.
Qed.

Lemma convert_back_first (im : Move) (original : list Core.Move) (i : nat)
    (m : Core.Move) :
  original !! i = Some m -> squares_of m = move_squares im ->
  (forall j m', (j < i)%nat -> original !! j = Some m' ->
                squares_of m' <> squares_of m) ->
  _convert_back_to_original_move im original = Some m.
Proof.
  revert i. induction original as [|m0 rest IH]; intros i Hm Hsq Hfirst; [done|].
  rewrite convert_back_head. destruct i as [|i].
  - injection Hm as ->. by rewrite decide_True.
  - rewrite decide_False.
    + apply (IH i); [done..|]. intros j m' Hj Hm'.
      apply (Hfirst (Datatypes.S j)); [lia|done].
    + rewrite <- Hsq. apply (Hfirst 0%nat); [lia|done].
Qed.

(** X17. [_convert_moves] returns one move for each move it is given, with
    the same four coordinates, and [_convert_back_to_original_move] maps
    it back to the move it came from, provided no earlier move of the list
    has the same four coordinates. *)
Theorem converted_move_is_found_again (board : Board) (original : list Core.Move)
    (internal : list Move) (i : nat) (m : Core.Move) (im : Move) :
  _convert_moves board original = Some internal ->
  original !! i = Some m -> internal !! i = Some im ->
  (forall j m', (j < i)%nat -> original !! j = Some m' ->
                squares_of m' <> squares_of m) ->
  length internal = length original /\
  move_squares im = squares_of m /\
  _convert_back_to_original_move im original = Some m.
Proof.
  intros Hc Hm Hi Hfirst.
  pose proof (convert_moves_lookup _ _ _ _ _ _ Hc Hm Hi) as Him.
  apply convert_move_squares in Him.
  split; [by eapply convert_moves_length|]. split; [done|].
  by eapply convert_back_first.
Qed.

Lemma converted_move_is_found_again_witness :
  _convert_moves Core.initial_board Core.pawn_and_knight
    = Some [mkMove 6 4 4 4 "wp" "" ""; mkMove 7 6 5 5 "wN" "" ""] /\
  _convert_back_to_original_move (mkMove 7 6 5 5 "wN" "" "") Core.pawn_and_knight
    = Core.pawn_and_knight !! 1%nat.
Proof.
  assert (Hc : _convert_moves Core.initial_board Core.pawn_and_knight
               = Some [mkMove 6 4 4 4 "wp" "" ""; mkMove 7 6 5 5 "wN" "" ""])
    by (vm_compute; reflexivity).
  split; [exact Hc|].
  refine (proj2 (proj2 (converted_move_is_found_again Core.initial_board
            Core.pawn_and_knight _ 1%nat _ _ Hc eq_refl eq_refl _))).
  intros [|j] m' Hj; [|lia]. intros [= <-]. discriminate.
Defined.

End ConversionFacts.

(* ===================================================================== *)
(** ** Answering a check *)
(* ===================================================================== *)

Module CheckAnswerFacts.
Import Core.

Lemma Move_eqb_refl (m : Move) : Move_eqb m m = true.
Proof.
  unfold Move_eqb. rewrite !Z.eqb_refl, String.eqb_refl.
  by destruct (pawn_promotion m), (enPassant m), (is_castle_move m).
Qed.

Lemma Move_eqb_piece (y x : Move) :
  Move_eqb y x = true -> piece_moved y = piece_moved x.
Proof.
  unfold Move_eqb. rewrite !andb_true_iff, String.eqb_eq. tauto.
Qed.

Lemma Move_eqb_answers (valid_squares : list (Z * Z)) (y x : Move) :
  Move_eqb y x = true ->
  answers_check valid_squares y = answers_check valid_squares x.
Proof.
  unfold Move_eqb, answers_check. rewrite !andb_true_iff, !Z.eqb_eq, String.eqb_eq.
  intros [[[[[[[_ _] -> ] -> ] -> ] _] _] _]. done.
Qed.

(** [moves.remove(moves[i])] takes out the first move equal to [moves[i]],
    which stands at position [i] or before it. *)
Lemma remove_first_among (valid_squares : list (Z * Z)) (pre suf : list Move)
    (x : Move) :
  answers_check valid_squares x = false ->
  is_Some (Py.chr (piece_moved x) 1) ->
  exists p,
    remove_first Move_eqb x (pre ++ x :: suf) = Some (p ++ suf) /\
    length p = length pre /\
    filter (fun m => answers_check valid_squares m = true) p
    = filter (fun m => answers_check valid_squares m = true) pre /\
    (Forall (fun m => is_Some (Py.chr (piece_moved m) 1)) p <->
     Forall (fun m => is_Some (Py.chr (piece_moved m) 1)) pre).
Proof.
  intros Hx Hdx. induction pre as [|y pre IH]; cbn [app remove_first].
  - rewrite Move_eqb_refl. by exists [].
  - destruct (Move_eqb y x) eqn:Eyx.
    + exists (pre ++ [x]). rewrite <- app_assoc. split; [done|].
      split; [rewrite length_app; simpl; lia|]. split.
      * rewrite filter_app, (filter_cons _ x), filter_nil.
        rewrite decide_False by (by rewrite Hx). rewrite app_nil_r.
        rewrite (filter_cons _ y), decide_False; [done|].
        by rewrite (Move_eqb_answers _ _ _ Eyx), Hx.
      * rewrite Forall_app, Forall_singleton, Forall_cons.
        rewrite (Move_eqb_piece _ _ Eyx). tauto.
    + destruct IH as (p & -> & Hl & Hf & Hd). exists (y :: p).
      split; [done|]. split; [simpl; lia|]. split.
      * by rewrite !filter_cons, Hf.
      * by rewrite !Forall_cons, Hd.
Qed.

Lemma range_down_snoc (n : nat) :
  range_down (Z.of_nat (Datatypes.S n)) = Z.of_nat n :: range_down (Z.of_nat n).
Proof.
  unfold range_down, Py.range. rewrite !Z.sub_0_r, !Nat2Z.id.
  rewrite seq_S, map_app, reverse_app. cbn. reflexivity.
Qed.

Lemma index_middle {A} (pre suf : list A) (x : A) :
  Py.index (pre ++ x :: suf) (Z.of_nat (length pre)) = Some x.
Proof.
  unfold Py.index. rewrite length_app. cbn [length].
  destruct (Z.leb_spec 0 (Z.of_nat (length pre))); [|lia].
  destruct (Z.ltb_spec (Z.of_nat (length pre))
              (Z.of_nat (length pre + Datatypes.S (length suf)))); [|lia].
  cbn [andb]. rewrite Nat2Z.id. by apply list_lookup_middle.
Qed.

(** The loop, from index [length pre - 1] down: the moves after [pre] have
    been looked at and are left alone. *)
Lemma drop_unhelpful_prefix (valid_squares : list (Z * Z)) (n : nat) :
  forall pre suf : list Move,
  length pre = n ->
  drop_unhelpful (range_down (Z.of_nat n)) valid_squares (pre ++ suf)
  = if bool_decide (Forall (fun m => is_Some (Py.chr (piece_moved m) 1)) pre)
    then Some (filter (fun m => answers_check valid_squares m = true) pre ++ suf)
    else None.
Proof.
  induction n as [|n IH]; intros pre suf Hn.
  - destruct pre; [|done]. by rewrite bool_decide_eq_true_2.
  - destruct pre as [|x pre _] using rev_ind; [done|].
    rewrite length_app in Hn. cbn in Hn.
    assert (length pre = n) as Hn' by lia.
    rewrite range_down_snoc. cbn [drop_unhelpful].
    rewrite <- app_assoc. cbn [app]. rewrite <- Hn', index_middle, Hn'.
    cbn [mbind option_bind].
    destruct (Py.chr (piece_moved x) 1) as [k|] eqn:Hx; cbn [mbind option_bind].
    2:{ rewrite bool_decide_eq_false_2; [done|].
        intros H. apply Forall_app in H as [_ H].
        apply Forall_singleton in H as [? H]. congruence. }
    assert (Hdef : Forall (fun m => is_Some (Py.chr (piece_moved m) 1)) (pre ++ [x])
                   <-> Forall (fun m => is_Some (Py.chr (piece_moved m) 1)) pre).
    { rewrite Forall_app, Forall_singleton. split; [tauto|]. eauto. }
    rewrite (bool_decide_ext _ _ Hdef).
    rewrite filter_app, filter_cons, filter_nil.
    assert (Hans : answers_check valid_squares x
                   = Ascii.eqb k "K" ||
                     existsb (sq_eqb (end_row x, end_col x)) valid_squares)
      by (unfold answers_check; by rewrite Hx).
    destruct (Ascii.eqb k "K") eqn:EK; cbn [negb orb] in *.
    + rewrite decide_True by done. rewrite <- app_assoc. cbn [app]. by apply IH.
    + destruct (existsb _ valid_squares) eqn:Ev; cbn [negb].
      * rewrite decide_True by done. rewrite <- app_assoc. cbn [app]. by apply IH.
      * rewrite decide_False by (by rewrite Hans). rewrite app_nil_r.
        destruct (remove_first_among valid_squares pre suf x Hans)
          as (p & -> & Hl & Hf & Hd); [eauto|].
        cbn [mbind option_bind]. rewrite IH by lia.
        by rewrite Hf, (bool_decide_ext _ _ Hd).
Qed.

(** X18. The loop of [get_valid_moves] that removes the moves which do not
    answer a single check leaves exactly the king moves and the moves onto
    one of the squares [valid_squares], in their order, whether or not
    some moves of the list are equal in the sense of [Move.__eq__]; it
    raises an error exactly when the name of some piece moved has no
    second character. *)
Theorem drop_unhelpful_keeps_the_answers (valid_squares : list (Z * Z))
    (moves : list Move) :
  (Forall (fun m => is_Some (Py.chr (piece_moved m) 1)) moves ->
   drop_unhelpful (range_down (Z.of_nat (length moves))) valid_squares moves
   = Some (filter (fun m => answers_check valid_squares m = true) moves)) /\
  (~ Forall (fun m => is_Some (Py.chr (piece_moved m) 1)) moves ->
   drop_unhelpful (range_down (Z.of_nat (length moves))) valid_squares moves
   = None).
Proof.
  pose proof (drop_unhelpful_prefix valid_squares (length moves) moves [] eq_refl)
    as H.
  rewrite !app_nil_r in H. rewrite H.
  split; intros Hd.
  - by rewrite bool_decide_eq_true_2.
  - by rewrite bool_decide_eq_false_2.
Qed.

Lemma drop_unhelpful_keeps_the_answers_witness :
  drop_unhelpful (range_down 2) [(4, 4)] pawn_and_knight
  = Some [mkMove 6 4 4 4 "wp" "--" false false false None None None 6444 321].
Proof.
  apply (proj1 (drop_unhelpful_keeps_the_answers [(4, 4)] pawn_and_knight)).
  repeat constructor; eexists; reflexivity.
Defined.

End CheckAnswerFacts.

(* ===================================================================== *)
(** ** The notation of a move *)
(* ===================================================================== *)

Module NotationFacts.
Import Core Book.

Lemma cols_to_files_lookup (c : Z) :
  cols_to_files !! c =
  if (0 <=? c) && (c <? 8) then Some (String (file_letter c) "") else None.
Proof.
  destruct (decide (c = 0)) as [->|]; [reflexivity|].
  destruct (decide (c = 1)) as [->|]; [reflexivity|].
  destruct (decide (c = 2)) as [->|]; [reflexivity|].
  destruct (decide (c = 3)) as [->|]; [reflexivity|].
  destruct (decide (c = 4)) as [->|]; [reflexivity|].
  destruct (decide (c = 5)) as [->|]; [reflexivity|].
  destruct (decide (c = 6)) as [->|]; [reflexivity|].
  destruct (decide (c = 7)) as [->|]; [reflexivity|].
  unfold cols_to_files, dict_of. cbn [foldl map files_to_cols_items fst snd].
  rewrite !lookup_insert_ne by done. rewrite lookup_empty.
  destruct (Z.leb_spec 0 c), (Z.ltb_spec c 8); cbn [andb]; try done. lia.
Qed.

Lemma rows_to_ranks_lookup (r : Z) :
  rows_to_ranks !! r =
  if (0 <=? r) && (r <? 8) then Some (String (rank_digit r) "") else None.
Proof.
  destruct (decide (r = 0)) as [->|]; [reflexivity|].
  destruct (decide (r = 1)) as [->|]; [reflexivity|].
  destruct (decide (r = 2)) as [->|]; [reflexivity|].
  destruct (decide (r = 3)) as [->|]; [reflexivity|].
  destruct (decide (r = 4)) as [->|]; [reflexivity|].
  destruct (decide (r = 5)) as [->|]; [reflexivity|].
  destruct (decide (r = 6)) as [->|]; [reflexivity|].
  destruct (decide (r = 7)) as [->|]; [reflexivity|].
  unfold rows_to_ranks, dict_of. cbn [foldl map ranks_to_rows_items fst snd].
  rewrite !lookup_insert_ne by done. rewrite lookup_empty.
  destruct (Z.leb_spec 0 r), (Z.ltb_spec r 8); cbn [andb]; try done. lia.
Qed.

Lemma get_rank_file_spec (r c : Z) :
  get_rank_file r c =
  if in_board r c then Some (String (file_letter c) (String (rank_digit r) ""))
  else None.
Proof.
  unfold get_rank_file, in_board.
  rewrite cols_to_files_lookup, rows_to_ranks_lookup.
  destruct (0 <=? r), (r <? 8), (0 <=? c), (c <? 8); reflexivity.
Qed.

Lemma ord_file_letter (c : Z) : 0 <= c < 8 -> ord (file_letter c) - ord "a" = c.
Proof.
  intros Hc. unfold ord, file_letter. rewrite nat_ascii_embedding by lia.
  change (Z.of_nat (nat_of_ascii "a")) with 97. lia.
Qed.

Lemma int_rank_digit (r : Z) : 0 <= r < 8 -> int_of_char (rank_digit r) = Some (8 - r).
Proof.
  intros Hr. unfold int_of_char, ord, rank_digit.
  rewrite nat_ascii_embedding by lia. rewrite Z2Nat.id by lia.
  destruct (Z.leb_spec 48 (56 - r)); [|lia].
  destruct (Z.leb_spec (56 - r) 57); [|lia]. cbn [andb]. f_equal. lia.
Qed.

Lemma in_board_range (r c : Z) : in_board r c = true -> 0 <= r < 8 /\ 0 <= c < 8.
Proof. unfold in_board. lia. Qed.

Lemma algebraic_to_move_four (a b c d : ascii) :
  algebraic_to_move (String a (String b (String c (String d "")))) =
  d1 ← int_of_char b; d3 ← int_of_char d;
  Some (Some ((8 - d1, ord a - ord "a"), (8 - d3, ord c - ord "a"))).
Proof. reflexivity. Qed.

(** X19. When [get_chess_notation] gives a notation, both squares of the
    move are on the board, the notation is made of the file letter and
    rank digit of the start square and of the end square, and
    [algebraic_to_move] reads it back to the coordinates of the move. *)
Theorem notation_is_read_back (m : Move) (n : string) :
  get_chess_notation m = Some n ->
  in_board (start_row m) (start_col m) = true /\
  in_board (end_row m) (end_col m) = true /\
  n = String (file_letter (start_col m)) (String (rank_digit (start_row m))
        (String (file_letter (end_col m)) (String (rank_digit (end_row m)) ""))) /\
  algebraic_to_move n
  = Some (Some ((start_row m, start_col m), (end_row m, end_col m))).
Proof.
  unfold get_chess_notation. rewrite !get_rank_file_spec.
  destruct (in_board (start_row m) (start_col m)) eqn:Hs; [|done].
  destruct (in_board (end_row m) (end_col m)) eqn:He; [|done].
  intros [= <-]. split; [done|]. split; [done|]. split; [reflexivity|].
  apply in_board_range in Hs as [Hsr Hsc], He as [Her Hec].
  etransitivity;
    [exact (algebraic_to_move_four (file_letter (start_col m))
              (rank_digit (start_row m)) (file_letter (end_col m))
              (rank_digit (end_row m)))|].
  rewrite !int_rank_digit by done. cbn [mbind option_bind].
  rewrite !ord_file_letter by done.
  repeat f_equal; lia.
Qed.

Lemma notation_is_read_back_witness :
  get_chess_notation
    (mkMove 6 4 4 4 "wp" "--" false false false None None None 6444 321)
  = Some "e2e4" /\
  algebraic_to_move "e2e4" = Some (Some ((6, 4), (4, 4))).
Proof.
  assert (H : get_chess_notation
                (mkMove 6 4 4 4 "wp" "--" false false false None None None 6444 321)
              = Some "e2e4") by (vm_compute; reflexivity).
  split; [exact H|].
  exact (proj2 (proj2 (proj2 (notation_is_read_back _ _ H)))).
Defined.

End NotationFacts.

(* ===================================================================== *)
(** ** The valid moves of a side in check *)
(* ===================================================================== *)

Module CheckedFacts.
Import Core GameFacts ValidMoveFacts CheckAnswerFacts.
Local Open Scope py_scope.

(** *** Parts of the state that move generation leaves alone *)

Section Frame.
Context {X : Type} (f : GameState -> X).
Hypothesis f_pins : forall ps s, f (set_pins ps s) = f s.
Hypothesis f_white_king : forall k s, f (set_white_king_location k s) = f s.
Hypothesis f_black_king : forall k s, f (set_black_king_location k s) = f s.

Lemma ko_ret {A} (a : A) : keeps_on f (Py.ret a).
Proof. by intros s a' s' [= _ <-]. Qed.

Lemma ko_bind {A B} (m : GS A) (k : A -> GS B) :
  keeps_on f m -> (forall a, keeps_on f (k a)) -> keeps_on f (Py.bind m k).
Proof.
  intros Hm Hk s b s' H. apply bind_inv in H as (a & s1 & H1 & H2).
  rewrite (Hk _ _ _ _ H2). by eapply Hm.
Qed.

Lemma ko_lift {A} (o : option A) : keeps_on f (Py.lift o).
Proof. intros s a s'. unfold Py.lift. destruct o; [|done]. by intros [= _ <-]. Qed.

Lemma ko_get : keeps_on f (Py.get (S := GameState)).
Proof. by intros s a s' [= _ <-]. Qed.

Lemma ko_modify (g : GameState -> GameState) :
  (forall s, f (g s) = f s) -> keeps_on f (Py.modify g).
Proof. intros Hg s a s' [= _ <-]. apply Hg. Qed.

Lemma ko_board_at (r c : Z) : keeps_on f (board_at r c).
Proof.
  intros s a s'. unfold board_at. destruct (Py.index2 _ _ _); [|done].
  by intros [= _ <-].
Qed.

Lemma ko_new_move (start_sq end_sq : Z * Z) (ep promo castle : bool) :
  keeps_on f (new_move start_sq end_sq ep promo castle).
Proof.
  intros s a s'. unfold new_move. destruct (Move_init _ _ _ _ _ _); [|done].
  by intros [= _ <-].
Qed.

Lemma ko_check_scan : keeps_on f check_for_pins_and_checks_m.
Proof.
  intros s a s'. unfold check_for_pins_and_checks_m.
  destruct (check_for_pins_and_checks s); [|done]. by intros [= _ <-].
Qed.

Lemma ko_remove_pin (p : Ray) : keeps_on f (remove_pin p).
Proof.
  intros s a s'. unfold remove_pin, Py.bind, Py.get, Py.lift, Py.put.
  destruct (remove_first _ _ _); [|done]. intros [= _ <-]. apply f_pins.
Qed.

Lemma ko_set_king_location ally_color sq :
  keeps_on f (set_king_location ally_color sq).
Proof.
  unfold set_king_location. destruct (Ascii.eqb _ _); by apply ko_modify.
Qed.

Ltac ko_step :=
  match goal with
  | |- keeps_on _ (Py.ret _) => apply ko_ret
  | |- keeps_on _ (Py.bind _ _) => apply ko_bind; [|intros ?]
  | |- keeps_on _ (Py.lift _) => apply ko_lift
  | |- keeps_on _ Py.get => apply ko_get
  | |- keeps_on _ (board_at _ _) => apply ko_board_at
  | |- keeps_on _ (new_move _ _ _ _ _) => apply ko_new_move
  | |- keeps_on _ check_for_pins_and_checks_m => apply ko_check_scan
  | |- keeps_on _ (remove_pin _) => apply ko_remove_pin
  | |- keeps_on _ (set_king_location _ _) => apply ko_set_king_location
  | H : _ |- keeps_on _ _ => solve [apply H]
  | |- keeps_on _ (if ?b then _ else _) => destruct b
  | |- keeps_on _ (match ?x with _ => _ end) => destruct x
  | |- keeps_on _ (let '(_, _) := ?x in _) => destruct x
  end.

Ltac ko := repeat ko_step.

Lemma ko_pawn_captures r c move_amount back_row enemy_color piece_pinned
    pin_direction dc st :
  keeps_on f (pawn_captures r c move_amount back_row enemy_color piece_pinned
                pin_direction dc st).
Proof. unfold pawn_captures. ko. Qed.

Lemma ko_get_pawn_move r c moves : keeps_on f (get_pawn_move r c moves).
Proof. unfold get_pawn_move. ko; apply ko_pawn_captures. Qed.

Lemma ko_slide_ray r c enemy_color piece_pinned pin_direction d0 d1 steps moves :
  keeps_on f (slide_ray r c enemy_color piece_pinned pin_direction d0 d1 steps moves).
Proof. revert moves. induction steps as [|i rest IH]; intros moves; simpl; ko. Qed.

Lemma ko_slide_dirs r c enemy_color piece_pinned pin_direction dirs moves :
  keeps_on f (slide_dirs r c enemy_color piece_pinned pin_direction dirs moves).
Proof.
  revert moves. induction dirs as [|[d0 d1] rest IH]; intros moves;
    cbn [slide_dirs]; ko. apply ko_slide_ray.
Qed.

Lemma ko_get_sliding_moves r c moves dirs :
  keeps_on f (get_sliding_moves r c moves dirs).
Proof. unfold get_sliding_moves. ko; apply ko_slide_dirs. Qed.

Lemma ko_knight_loop r c ally_color piece_pinned offs moves :
  keeps_on f (knight_loop r c ally_color piece_pinned offs moves).
Proof. revert moves. induction offs as [|[m0 m1] rest IH]; intros moves; simpl; ko. Qed.

Lemma ko_get_knight_move r c moves : keeps_on f (get_knight_move r c moves).
Proof. unfold get_knight_move. ko; apply ko_knight_loop. Qed.

Lemma ko_king_loop r c ally_color offs moves :
  keeps_on f (king_loop r c ally_color offs moves).
Proof. revert moves. induction offs as [|[m0 m1] rest IH]; intros moves; simpl; ko. Qed.

Lemma ko_get_king_move r c moves : keeps_on f (get_king_move r c moves).
Proof. unfold get_king_move. ko; apply ko_king_loop. Qed.

Lemma ko_dispatch kind r c moves : keeps_on f (dispatch kind r c moves).
Proof.
  unfold dispatch, get_rook_move, get_bishop_move, get_queen_move.
  ko; first [apply ko_get_pawn_move | apply ko_get_sliding_moves
            | apply ko_get_knight_move | apply ko_get_king_move].
Qed.

Lemma ko_all_moves_loop sqs moves : keeps_on f (all_moves_loop sqs moves).
Proof.
  revert moves. induction sqs as [|[row col] rest IH]; intros moves; simpl; ko.
  apply ko_dispatch.
Qed.

Lemma ko_get_all_possible_moves : keeps_on f get_all_possible_moves.
Proof. apply ko_all_moves_loop. Qed.

End Frame.

Lemma checks_kept (s s' : GameState) (moves : list Move) :
  get_all_possible_moves s = Some (moves, s') -> checks s' = checks s.
Proof. by apply (ko_get_all_possible_moves checks). Qed.

Lemma checks_kept_king (r c : Z) (s s' : GameState) (moves moves' : list Move) :
  get_king_move r c moves s = Some (moves', s') -> checks s' = checks s.
Proof. by apply (ko_get_king_move checks). Qed.

(** The moves of the king start on the square that was asked for. *)
Lemma gen_king_loop_start (p : View) r c ally_color offs moves :
  Forall (fun m => (start_row m, start_col m) = (r, c)) moves ->
  gen p (king_loop r c ally_color offs moves)
    (Forall (fun m => (start_row m, start_col m) = (r, c))).
Proof.
  revert moves. induction offs as [|[m0 m1] rest IH]; intros moves Hm;
    cbn [king_loop]; [by apply gen_ret|].
  cbv zeta. destruct (in_board _ _); [|by apply IH].
  eapply gen_bind; [apply gen_board_at|]. intros end_piece _.
  eapply gen_bind; [apply gen_lift|]. intros e0 _.
  destruct (negb _); [|by apply IH].
  eapply gen_bind; [apply gen_set_king_location|]. intros _ _.
  eapply gen_bind; [apply gen_check_scan|]. intros [[ic ps] cs] _.
  eapply gen_bind
    with (Q := Forall (fun m => (start_row m, start_col m) = (r, c))).
  { destruct (negb ic); [|by apply gen_ret].
    eapply gen_bind; [apply gen_new_move|]. intros m Hmv.
    apply gen_ret. apply Forall_app. split; [done|]. apply Forall_singleton.
    apply Move_init_fields in Hmv as (-> & -> & _). done. }
  intros moves' Hm'.
  eapply gen_bind; [apply gen_set_king_location|]. intros _ _. by apply IH.
Qed.

(** X24. When the scan finds the side to move in check, the valid moves
    answer the check.  With one checking piece, every valid move is a move
    of a king or ends on one of the squares [get_valid_moves] computes
    from the check: the square of a checking knight, or the squares from
    the king up to the checking piece.  With any other number of checks,
    every valid move starts on the square of the king.  The state is left
    with [in_check] raised and with the checks the scan found. *)
Theorem valid_moves_answer_the_check (s s' : GameState) (ms : list Move)
    (ps cs : list Ray) :
  get_valid_moves s = Some (ms, s') ->
  check_for_pins_and_checks s = Some (true, ps, cs) ->
  in_check s' = true /\ checks s' = cs /\
  (forall check, cs = [check] ->
     exists pc k,
       Py.index2 (board s) check.1.1.1 check.1.1.2 = Some pc /\
       Py.chr pc 1 = Some k /\
       forall m, m ∈ ms ->
         answers_check (check_squares (king_location s) check k) m = true) /\
  (length cs <> 1%nat ->
   forall m, m ∈ ms -> (start_row m, start_col m) = king_location s).
Proof.
  intros H Hscan. unfold get_valid_moves in H.
  apply bind_inv in H as (info & sa & Hinfo & H).
  unfold check_for_pins_and_checks_m in Hinfo. rewrite Hscan in Hinfo.
  injection Hinfo as <- <-.
  apply bind_inv in H as ([] & sb & Hb & H). injection Hb as <-.
  apply bind_inv in H as (s0 & s0' & H0 & H). injection H0 as <- <-.
  set (sb := set_check_info true ps cs s) in *.
  change (if white_to_move sb then white_king_location sb
          else black_king_location sb) with (king_location s) in H.
  destruct (king_location s) as [king_row king_col] eqn:Hking.
  apply bind_inv in H as (moves & s1 & Hmoves & H).
  change (in_check sb) with true in Hmoves.
  change (checks sb) with cs in Hmoves.
  cbv iota in Hmoves.
  (* what the generation returns, and the state it leaves *)
  assert (in_check s1 = true /\ checks s1 = cs /\
          (forall check, cs = [check] ->
             exists pc k,
               Py.index2 (board s) check.1.1.1 check.1.1.2 = Some pc /\
               Py.chr pc 1 = Some k /\
               forall m, m ∈ moves ->
                 answers_check (check_squares (king_row, king_col) check k) m
                 = true) /\
          (length cs <> 1%nat ->
           forall m, m ∈ moves -> (start_row m, start_col m) = (king_row, king_col)))
    as (Hic & Hcs & Hone & Hmany).
  { destruct (Z.eqb_spec (Z.of_nat (length cs)) 1) as [Hlen|Hlen].
    - destruct cs as [|check [|? ?]]; try (simpl in Hlen; lia).
      apply bind_inv in Hmoves as (all & sc & Hall & Hmoves).
      pose proof (kf_get_all_possible_moves _ _ _ Hall) as Hflags.
      pose proof (checks_kept _ _ _ Hall) as Hchecks.
      destruct (gen_get_all_possible_moves (view sb) sb all sc eq_refl Hall)
        as [Hview _].
      apply bind_inv in Hmoves as (sd & sd' & Hd & Hmoves). injection Hd as <- <-.
      apply bind_inv in Hmoves as (check' & se & He & Hmoves).
      unfold Py.lift in He. rewrite Hchecks in He. injection He as <- <-.
      destruct check as [[[check_row check_col] c2] c3].
      apply bind_inv in Hmoves as (pc & sf & Hpc & Hmoves).
      unfold board_at in Hpc.
      destruct (Py.index2 (board sc) check_row check_col) as [pc'|] eqn:Epc;
        [|done].
      injection Hpc as <- <-.
      apply bind_inv in Hmoves as (k & sg & Hk & Hmoves).
      unfold Py.lift in Hk. destruct (Py.chr pc' 1) as [k'|] eqn:Ek; [|done].
      injection Hk as <- <-.
      unfold Py.lift in Hmoves.
      pose proof (drop_unhelpful_prefix
                    (if Ascii.eqb k' "N" then [(check_row, check_col)]
                     else block_squares king_row king_col check_row check_col
                            c2 c3 (Py.range 1 8))
                    (length all) all [] eq_refl) as Hdrop.
      rewrite !app_nil_r in Hdrop. rewrite Hdrop in Hmoves.
      destruct (bool_decide _); [|done]. injection Hmoves as <- <-.
      split; [by injection Hflags|]. split; [exact Hchecks|].
      split; [|done].
      intros check [= <-]. exists pc', k'.
      split; [|split; [exact Ek|]].
      + apply (f_equal v_board) in Hview. cbn in Hview. by rewrite <- Hview.
      + intros m Hm. apply list_elem_of_filter in Hm as [Hm _]. exact Hm.
    - pose proof (kf_get_king_move _ _ _ _ _ _ Hmoves) as Hflags.
      pose proof (checks_kept_king _ _ _ _ _ _ Hmoves) as Hchecks.
      split; [by injection Hflags|]. split; [exact Hchecks|].
      split.
      + intros check ->. simpl in Hlen. lia.
      + intros _. apply Forall_forall.
        unfold get_king_move in Hmoves.
        apply bind_inv in Hmoves as (sx & sx' & Hx & Hmoves).
        injection Hx as <- <-.
        by destruct (gen_king_loop_start (view sb) _ _ _ _ _ ltac:(constructor)
                       sb moves s1 eq_refl Hmoves). }
  apply bind_inv in H as (s2 & s2' & H2 & H). injection H2 as <- <-.
  rewrite Hic in H. cbn [negb] in H.
  apply bind_inv in H as (moves' & s3 & H3 & H). injection H3 as <- <-.
  apply bind_inv in H as ([] & s4 & H4 & H). injection H as <- <-.
  assert (in_check s4 = in_check s1 /\ checks s4 = checks s1) as [-> ->].
  { destruct (Z.of_nat (length moves) =? 0).
    - apply bind_inv in H4 as (sy & sy' & Hy & H4). injection Hy as <- <-.
      rewrite Hic in H4. by injection H4 as <-.
    - apply bind_inv in H4 as ([] & sy & Hy & H4). injection Hy as <-.
      by injection H4 as <-. }
  done.
Qed.

Lemma valid_moves_answer_the_check_witness :
  exists ms s' pc k,
    get_valid_moves rook_check_state = Some (ms, s') /\
    in_check s' = true /\
    Py.index2 (board rook_check_state) 0 4 = Some pc /\
    Py.chr pc 1 = Some k /\
    forall m, m ∈ ms ->
      answers_check (check_squares (king_location rook_check_state)
                       (0, 4, -1, 0) k) m = true.
Proof.
  assert (Hscan : check_for_pins_and_checks rook_check_state
                  = Some (true, [], [(0, 4, -1, 0)]))
    by (vm_compute; reflexivity).
  destruct (get_valid_moves rook_check_state) as [[ms s']|] eqn:E.
  - destruct (valid_moves_answer_the_check rook_check_state s' ms [] [(0, 4, -1, 0)]
                E Hscan) as (Hic & _ & Hone & _).
    destruct (Hone (0, 4, -1, 0) eq_refl) as (pc & k & Hpc & Hk & Hm).
    exists ms, s', pc, k. repeat split; assumption.
  - exfalso. vm_compute in E. discriminate E.
Defined.

End CheckedFacts.

(* ===================================================================== *)
(** ** Making and undoing a castling *)
(* ===================================================================== *)

Module CastlingFacts.
Import Core GameFacts MakeUndoFacts.
Local Open Scope py_scope.

Lemma slot_nonneg (n : nat) (i : Z) (k : nat) :
  0 <= i -> slot n i = Some k -> k = Z.to_nat i.
Proof.
  intros Hi. unfold slot.
  destruct ((0 <=? i) && (i <? Z.of_nat n)); [by intros [= <-]|].
  destruct (Z.ltb_spec i 0); [lia|]. by rewrite andb_false_r.
Qed.

Lemma slot2_nonneg (b : Board) (r c : Z) (k : nat * nat) :
  0 <= r -> 0 <= c -> slot2 b r c = Some k -> k = (Z.to_nat r, Z.to_nat c).
Proof.
  intros Hr Hc H. unfold slot2 in H.
  apply bind_Some in H as (kr & Hkr & H).
  apply bind_Some in H as (row & Hrow & H).
  apply bind_Some in H as (kc & Hkc & [= <-]).
  apply slot_nonneg in Hkr, Hkc; [|done..]. by subst.
Qed.

Lemma get2_put2_eq (b : Board) (k : nat * nat) (x y : string) :
  get2 b k = Some y -> get2 (put2 k x b) k = Some x.
Proof.
  unfold get2, put2. unfold Board in *.
  destruct (b !! k.1) as [row|] eqn:Er; [|done]. cbn [mbind option_bind].
  intros Hy. rewrite list_lookup_insert_eq by (by eapply lookup_lt_Some).
  cbn [mbind option_bind]. apply list_lookup_insert_eq. by eapply lookup_lt_Some.
Qed.

Lemma get2_put2_ne (b : Board) (k k' : nat * nat) (x : string) :
  k <> k' -> get2 (put2 k x b) k' = get2 b k'.
Proof.
  intros Hne. unfold get2, put2. unfold Board in *.
  destruct (b !! k.1) as [row|] eqn:Er; [|done].
  destruct (decide (k.1 = k'.1)) as [Hr|Hr].
  - rewrite <- Hr. rewrite list_lookup_insert_eq by (by eapply lookup_lt_Some).
    rewrite Er. cbn [mbind option_bind]. apply list_lookup_insert_ne.
    intros Hc. apply Hne. destruct k, k'. simpl in *. congruence.
  - by rewrite list_lookup_insert_ne.
Qed.

Lemma board_at_slot (r c : Z) (s : GameState) (k : nat * nat) (x : string) :
  slot2 (board s) r c = Some k -> get2 (board s) k = Some x ->
  board_at r c s = Some (x, s).
Proof.
  intros Hk Hx. unfold board_at.
  assert (Py.index2 (board s) r c = Some x) as ->; [|done].
  apply index2_slot2. eauto.
Qed.

Lemma board_at_inv (r c : Z) (s s' : GameState) (x : string) :
  board_at r c s = Some (x, s') ->
  s' = s /\ exists k, slot2 (board s) r c = Some k /\ get2 (board s) k = Some x.
Proof.
  unfold board_at. destruct (Py.index2 _ _ _) as [y|] eqn:E; [|done].
  intros [= <- <-]. split; [done|]. by apply index2_slot2.
Qed.

(** The board after a castling and its undoing: [S] and [E] are the two
    squares of the king, [R] and [F] those the rook leaves and reaches. *)
Lemma castle_round_trip (b : Board) (S E R F : nat * nat) (pm pc x : string) :
  S <> E -> S <> R -> S <> F -> E <> R -> E <> F -> R <> F ->
  get2 b S = Some pm -> get2 b E = Some pc -> get2 b R = Some x ->
  get2 b F = Some "--" ->
  let made := put2 R "--" (put2 F x (put2 S "--" (put2 E pm b))) in
  put2 F "--" (put2 R x (put2 E pc (put2 S pm made))) = b.
Proof.
  intros HSE HSR HSF HER HEF HRF HS HE HR HF made. subst made.
  rewrite (put2_comm S R), (put2_comm S F), put2_put2 by done.
  rewrite (put2_comm E R), (put2_comm E F), (put2_comm E S), put2_put2 by done.
  rewrite (put2_put2 E).
  rewrite (put2_comm R F), (put2_put2 F) by done.
  rewrite (put2_id E), (put2_id S), (put2_id R), (put2_id F); done.
Qed.

Lemma handle_castling_rook (mv : Move) :
  is_castle_move mv = true ->
  handle_castling mv =
  (rook <- board_at (end_row mv) (rook_from mv) ;;
   board_put (end_row mv) (rook_to mv) rook ;;;
   board_put (end_row mv) (rook_from mv) "--").
Proof.
  intros H. unfold handle_castling, rook_from, rook_to. rewrite H.
  by destruct (end_col mv - start_col mv =? 2).
Qed.

Lemma undo_castling_rook (mv : Move) :
  is_castle_move mv = true ->
  undo_castling mv =
  (rook <- board_at (end_row mv) (rook_to mv) ;;
   board_put (end_row mv) (rook_from mv) rook ;;;
   board_put (end_row mv) (rook_to mv) "--").
Proof.
  intros H. unfold undo_castling, rook_from, rook_to. rewrite H.
  by destruct (end_col mv - start_col mv =? 2).
Qed.

(** What [make_move] does with a castling, field by field. *)
Lemma make_move_castle (m : Move) (s s1 : GameState) :
  make_move m s = Some (tt, s1) ->
  enPassant m = false -> pawn_promotion m = false -> is_castle_move m = true ->
  exists S E R F x mv,
    slot2 (board s) (start_row m) (start_col m) = Some S /\
    slot2 (board s) (end_row m) (end_col m) = Some E /\
    slot2 (board s) (end_row m) (rook_from m) = Some R /\
    slot2 (board s) (end_row m) (rook_to m) = Some F /\
    get2 (put2 S "--" (put2 E (piece_moved m) (board s))) R = Some x /\
    board s1 = put2 R "--" (put2 F x
                 (put2 S "--" (put2 E (piece_moved m) (board s)))) /\
    move_log s1 = move_log s ++ [mv] /\
    start_row mv = start_row m /\ start_col mv = start_col m /\
    end_row mv = end_row m /\ end_col mv = end_col m /\
    piece_moved mv = piece_moved m /\ piece_captured mv = piece_captured m /\
    enPassant mv = false /\ is_castle_move mv = true /\
    pawn_promotion mv = false /\
    castle_rights_before mv = Some (current_castling_rights s) /\
    en_passant_before mv = enPassant_possible s /\
    white_to_move s1 = negb (white_to_move s) /\
    white_king_location s1 =
      (if String.eqb (piece_moved m) "wK" then (end_row m, end_col m)
       else white_king_location s) /\
    black_king_location s1 =
      (if String.eqb (piece_moved m) "wK" then black_king_location s
       else if String.eqb (piece_moved m) "bK" then (end_row m, end_col m)
       else black_king_location s) /\
    castle_rights_log s1 = castle_rights_log s ++ [current_castling_rights s1] /\
    enPassant_possible_log s1 =
      enPassant_possible_log s ++ [enPassant_possible s1] /\
    (in_check s1, pins s1, checks s1) = (in_check s, pins s, checks s).
Proof.
  intros H Hep Hpp Hcm. unfold make_move in H.
  apply bind_inv in H as (s0 & s0' & H0 & H). injection H0 as <- <-.
  cbv zeta in H.
  set (mv := set_en_passant_before _ _) in H.
  apply bind_inv in H as ([] & sa & Ha & H).
  apply board_put_inv in Ha as (E & HE & ->).
  change (slot2 (board s) (end_row m) (end_col m) = Some E) in HE.
  apply bind_inv in H as ([] & sb & Hb & H).
  apply board_put_inv in Hb as (S & HS & ->).
  cbn [board set_board] in HS. rewrite slot2_put2 in HS.
  change (slot2 (board s) (start_row m) (start_col m) = Some S) in HS.
  apply bind_inv in H as ([] & sc & Hc & H). injection Hc as <-.
  apply bind_inv in H as ([] & sd & Hd & H). injection Hd as <-.
  apply bind_inv in H as ([] & se & He & H).
  apply bind_inv in H as ([] & sf & Hf & H).
  apply bind_inv in H as (mv' & sg & Hg & H).
  apply bind_inv in H as ([] & sh & Hh & H).
  apply bind_inv in H as ([] & si & Hi & H). injection Hi as <-.
  apply bind_inv in H as ([] & sj & Hj & H). injection Hj as <-.
  apply bind_inv in H as ([] & sk & Hk & H). injection Hk as <-.
  injection H as <-.
  unfold handle_king_move in He. change (piece_moved mv) with (piece_moved m) in He.
  unfold handle_en_passant in Hf.
  apply bind_inv in Hf as (k & sf1 & Hk & Hf).
  unfold Py.lift in Hk. destruct (Py.chr (piece_moved mv) 1); [|done].
  injection Hk as <- <-.
  apply bind_inv in Hf as ([] & sf2 & Hf2 & Hf).
  change (enPassant mv) with (enPassant m) in Hf. rewrite Hep in Hf.
  injection Hf as <-.
  unfold handle_pawn_promotion in Hg.
  change (pawn_promotion mv) with (pawn_promotion m) in Hg. rewrite Hpp in Hg.
  injection Hg as <- <-.
  rewrite handle_castling_rook in Hh by exact Hcm.
  change (end_row mv) with (end_row m) in Hh.
  change (rook_from mv) with (rook_from m) in Hh.
  change (rook_to mv) with (rook_to m) in Hh.
  apply bind_inv in Hh as (x & sh1 & Hx & Hh).
  apply board_at_inv in Hx as (-> & R & HR & Hx).
  apply bind_inv in Hh as ([] & sh2 & Hh2 & Hh).
  apply board_put_inv in Hh2 as (F & HF & ->).
  apply board_put_inv in Hh as (R' & HR' & ->).
  assert (board sf2 = put2 S "--" (put2 E (piece_moved m) (board s))) as Hb2.
  { destruct (String.eqb (piece_moved m) "wK");
      [|destruct (String.eqb (piece_moved m) "bK")];
      injection He as <-; destruct (_ && _); injection Hf2 as <-; reflexivity. }
  cbn [board set_board] in HR'. rewrite slot2_put2 in HR'.
  assert (R' = R) as -> by congruence.
  rewrite Hb2 in HR, HF, Hx. rewrite !slot2_put2 in HR, HF.
  exists S, E, R, F, x, mv.
  destruct (String.eqb (piece_moved m) "wK");
    [|destruct (String.eqb (piece_moved m) "bK")];
    injection He as <-; destruct (_ && _); injection Hf2 as <-;
    cbn; repeat split; first [assumption | reflexivity].
Qed.

(** What [undo_move] does when the last move of the log is a castling. *)
Lemma undo_move_castle (s1 : GameState) (rest : list Move) (mv : Move)
    (S E R F : nat * nat) (cr : CastleRights) (y : string) :
  move_log s1 = rest ++ [mv] ->
  enPassant mv = false -> is_castle_move mv = true ->
  castle_rights_before mv = Some cr ->
  slot2 (board s1) (start_row mv) (start_col mv) = Some S ->
  slot2 (board s1) (end_row mv) (end_col mv) = Some E ->
  slot2 (board s1) (end_row mv) (rook_from mv) = Some R ->
  slot2 (board s1) (end_row mv) (rook_to mv) = Some F ->
  get2 (put2 E (piece_captured mv) (put2 S (piece_moved mv) (board s1))) F
    = Some y ->
  exists s2,
    undo_move s1 = Some (true, s2) /\
    board s2 = put2 F "--" (put2 R y
                 (put2 E (piece_captured mv) (put2 S (piece_moved mv) (board s1)))) /\
    move_log s2 = rest /\
    white_to_move s2 = negb (white_to_move s1) /\
    white_king_location s2 =
      (if String.eqb (piece_moved mv) "wK" then (start_row mv, start_col mv)
       else white_king_location s1) /\
    black_king_location s2 =
      (if String.eqb (piece_moved mv) "wK" then black_king_location s1
       else if String.eqb (piece_moved mv) "bK" then (start_row mv, start_col mv)
       else black_king_location s1) /\
    current_castling_rights s2 = cr /\
    enPassant_possible s2 = en_passant_before mv /\
    castle_rights_log s2 = castle_rights_log s1 /\
    enPassant_possible_log s2 = enPassant_possible_log s1 /\
    hash_board s2 = board s2 /\
    (in_check s2, pins s2, checks s2) = (in_check s1, pins s1, checks s1) /\
    checkmate s2 = false /\ stalemate s2 = false.
Proof.
  intros Hlog Hep Hcm Hcr HS HE HR HF Hy.
  unfold undo_move. unfold Py.bind at 1, Py.get at 1. cbv beta iota.
  rewrite Hlog, pop_snoc. cbv beta iota.
  rewrite (undo_castling_rook mv Hcm).
  unfold undo_king_move, undo_en_passant.
  unfold Py.bind, Py.get, Py.modify, Py.ret.
  rewrite Hep, Hcr. cbv beta iota.
  rewrite (board_put_slot _ _ _ _ S) by exact HS. cbv beta iota.
  assert (slot2 (board (set_board (put2 S (piece_moved mv) (board (set_move_log rest s1)))
                          (set_move_log rest s1)))
            (end_row mv) (end_col mv) = Some E) as HE'
    by (cbn [board set_board set_move_log]; by rewrite slot2_put2).
  destruct (pawn_promotion mv);
    rewrite (board_put_slot _ _ _ _ E) by exact HE'; cbv beta iota;
    (destruct (String.eqb (piece_moved mv) "wK");
     [|destruct (String.eqb (piece_moved mv) "bK")]);
    (erewrite (board_at_slot _ _ _ F y);
     [|cbn; by rewrite !slot2_put2|cbn; exact Hy]);
    (erewrite (board_put_slot _ _ _ _ R);
     [|cbn; by rewrite !slot2_put2]); cbv beta iota;
    (erewrite (board_put_slot _ _ _ _ F);
     [|cbn; by rewrite !slot2_put2]); cbv beta iota;
    eexists; (split; [reflexivity|]); cbn; repeat split; reflexivity.
Qed.

(** X21. A castling is undone exactly.  Let a castling stay on its row and
    move the king two columns, with a non-negative row and non-negative
    columns for the king and for the rook; let its [piece_moved] and
    [piece_captured] be what stands on its two squares, let the square
    the rook goes to be empty, and let the cached location of the king
    that moves be its start square.  Then [undo_move] after [make_move]
    returns [True] and gives back the board, the side to move, the
    castling rights, the en-passant target, both king locations and the
    move log. *)
Theorem castling_is_undone (m : Move) (s s1 : GameState) :
  is_castle_move m = true -> enPassant m = false -> pawn_promotion m = false ->
  end_row m = start_row m ->
  end_col m = start_col m + 2 \/ end_col m = start_col m - 2 ->
  0 <= start_row m -> 0 <= start_col m -> 0 <= rook_from m ->
  Py.index2 (board s) (start_row m) (start_col m) = Some (piece_moved m) ->
  Py.index2 (board s) (end_row m) (end_col m) = Some (piece_captured m) ->
  Py.index2 (board s) (end_row m) (rook_to m) = Some "--" ->
  (piece_moved m = "wK" -> white_king_location s = (start_row m, start_col m)) ->
  (piece_moved m = "bK" -> black_king_location s = (start_row m, start_col m)) ->
  make_move m s = Some (tt, s1) ->
  exists s2,
    undo_move s1 = Some (true, s2) /\
    position s2 = position s /\
    move_log s2 = move_log s /\
    hash_board s2 = board s /\
    checkmate s2 = false /\ stalemate s2 = false.
Proof.
  intros Hcm Hep Hpp Hrow Hcol Hr0 Hc0 Hf0 Hpm Hpc Hto Hwk Hbk Hmake.
  destruct (make_move_castle m s s1 Hmake Hep Hpp Hcm)
    as (S & E & R & F & x & mv & HS & HE & HR & HF & Hx & Hb & Hlog & Hsr & Hsc
        & Her & Hec & Hm & Hc & Hep' & Hcm' & _ & Hcr & Hepb & Hw & Hwl & Hbl
        & _ & _ & _).
  apply index2_slot2 in Hpm as (S' & HS' & HgS).
  apply index2_slot2 in Hpc as (E' & HE' & HgE).
  apply index2_slot2 in Hto as (F' & HF' & HgF).
  assert (S' = S) as -> by congruence. assert (E' = E) as -> by congruence.
  assert (F' = F) as -> by congruence.
  (* the four squares are different *)
  assert (0 <= end_col m /\ 0 <= rook_to m /\
          start_col m <> end_col m /\ start_col m <> rook_from m /\
          start_col m <> rook_to m /\ end_col m <> rook_from m /\
          end_col m <> rook_to m /\ rook_from m <> rook_to m)
    as (He0 & Ht0 & D1 & D2 & D3 & D4 & D5 & D6).
  { unfold rook_from, rook_to in *.
    destruct (Z.eqb_spec (end_col m - start_col m) 2); lia. }
  rewrite Hrow in HE, HR, HF.
  apply slot2_nonneg in HS as HS'', HE as HE'', HR as HR'', HF as HF''; try done.
  assert (S <> E /\ S <> R /\ S <> F /\ E <> R /\ E <> F /\ R <> F)
    as (N1 & N2 & N3 & N4 & N5 & N6).
  { subst S E R F. repeat split; intros [= H]; apply Z2Nat.inj in H; lia. }
  rewrite <- Hrow in HE, HR, HF.
  assert (get2 (board s) R = Some x) as HgR.
  { rewrite !get2_put2_ne in Hx by done. exact Hx. }
  assert (forall r c, slot2 (board s1) r c = slot2 (board s) r c) as Hslots.
  { intros r c. rewrite Hb. by rewrite !slot2_put2. }
  destruct (undo_move_castle s1 (move_log s) mv S E R F
              (current_castling_rights s) x)
    as (s2 & Hundo & Hb2 & Hlog2 & Hw2 & Hwl2 & Hbl2 & Hcr2 & Hep2 & _
        & _ & Hh2 & _ & Hmate & Hstale); try done.
  { by rewrite Hslots, Hsr, Hsc. }
  { by rewrite Hslots, Her, Hec. }
  { unfold rook_from. by rewrite Hslots, Her, Hec, Hsc. }
  { unfold rook_to. by rewrite Hslots, Her, Hec, Hsc. }
  { rewrite Hb. rewrite !(get2_put2_ne _ _ F) by done.
    eapply get2_put2_eq. rewrite !get2_put2_ne by done. exact HgF. }
  assert (board s2 = board s) as Hboard.
  { rewrite Hb2, Hb, Hm, Hc. by apply castle_round_trip. }
  exists s2. split; [exact Hundo|].
  split.
  { unfold position. rewrite Hboard, Hw2, Hw, negb_involutive, Hcr2, Hep2, Hepb.
    rewrite Hwl2, Hbl2, Hwl, Hbl, Hm, Hsr, Hsc.
    destruct (String.eqb_spec (piece_moved m) "wK") as [Hk|_].
    - by rewrite (Hwk Hk).
    - destruct (String.eqb_spec (piece_moved m) "bK") as [Hk|_]; [|done].
      by rewrite (Hbk Hk). }
  split; [exact Hlog2|]. split; [by rewrite Hh2|].
  split; [exact Hmate|exact Hstale].
Qed.

Lemma castling_is_undone_witness :
  exists s1 s2,
    make_move castle_e1_g1 castle_ready = Some (tt, s1) /\
    undo_move s1 = Some (true, s2) /\
    position s2 = position castle_ready.
Proof.
  destruct (make_move castle_e1_g1 castle_ready) as [[[] s1]|] eqn:E.
  - destruct (castling_is_undone castle_e1_g1 castle_ready s1)
      as (s2 & Hundo & Hpos & _);
      [reflexivity|reflexivity|reflexivity|reflexivity|left; reflexivity
      |vm_compute; discriminate|vm_compute; discriminate
      |vm_compute; discriminate
      |vm_compute; reflexivity|vm_compute; reflexivity|vm_compute; reflexivity
      |intros _; vm_compute; reflexivity|discriminate|exact E|].
    exists s1, s2. split; [reflexivity|]. split; [exact Hundo|exact Hpos].
  - exfalso. vm_compute in E. discriminate E.
Defined.

End CastlingFacts.

(* ===================================================================== *)
(** ** The move made on a copy of the board *)
(* ===================================================================== *)

Module CopyMakeFacts.
Import AI MakeUndoFacts.

Lemma index_seq (n k : nat) (r : Z) :
  Py.index (seq n k) r = (fun i => (n + i)%nat) <$> Core.slot k r.
Proof.
  rewrite index_slot, length_seq.
  destruct (Core.slot k r) as [i|] eqn:E; [|done]. simpl.
  apply lookup_seq_lt. by eapply slot_lt.
Qed.

Lemma rows_of_seq (h0 rows : list (list string)) :
  rows_of (h0 ++ rows) (seq (length h0) (length rows)) = Some rows.
Proof.
  revert h0. induction rows as [|row rest IH]; intros h0; [done|].
  cbn [length seq rows_of].
  rewrite list_lookup_middle by done. cbn [mbind option_bind].
  replace (h0 ++ row :: rest) with ((h0 ++ [row]) ++ rest)
    by (by rewrite <- app_assoc).
  replace (Datatypes.S (length h0)) with (length (h0 ++ [row]))
    by (rewrite length_app; simpl; lia).
  by rewrite IH.
Qed.

(** A write through a board of new rows is the update of the list of these
    rows. *)
Lemma write2_new_rows (h0 rows : list (list string)) (r c : Z) (x : string)
    (w w' : World) (u : unit) :
  heap w = h0 ++ rows ->
  write2 (seq (length h0) (length rows)) r c x w = Some (u, w') ->
  exists rows',
    Py.setitem2 rows r c x = Some rows' /\ heap w' = h0 ++ rows' /\
    length rows' = length rows.
Proof.
  intros Hh. unfold write2, Py.bind, Py.lift, Py.get, Py.put.
  rewrite index_seq.
  destruct (Core.slot (length rows) r) as [kr|] eqn:Ek; [|done]. cbn [fmap option_fmap option_map].
  rewrite Hh, lookup_app_r by lia.
  replace (length h0 + kr - length h0)%nat with kr by lia.
  destruct (rows !! kr) as [row|] eqn:Er; [|done].
  destruct (Py.setitem row c x) as [row'|] eqn:Es; [|done].
  intros [= _ <-]. exists (<[kr := row']> rows).
  split; [|split].
  - unfold Py.setitem2. rewrite index_slot, Ek. cbn [mbind option_bind].
    rewrite Er, Es. by rewrite setitem_slot, Ek.
  - cbn [heap set_heap].
    rewrite insert_app_r_alt by lia.
    by replace (length h0 + kr - length h0)%nat with kr by lia.
  - by rewrite length_insert.
Qed.

(** X22. For a move without a special flag, [_make_move] returns a new board
    whose rows are those of the board it was given, with the piece of the
    move on the target square and the start square empty: what the two
    assignments make of a copy of the rows. *)
Theorem make_move_copies_and_moves (board : BoardRef) (move : Move)
    (w w' : World) (new_board : BoardRef) :
  unflagged move ->
  _make_move board move w = Some (new_board, w') ->
  exists rows placed moved,
    rows_of (heap w) board = Some rows /\
    Py.setitem2 rows (to_row move) (to_col move) (piece move) = Some placed /\
    Py.setitem2 placed (from_row move) (from_col move) "--" = Some moved /\
    rows_of (heap w') new_board = Some moved /\
    rows_of (heap w') board = Some rows.
Proof.
  intros (Hp & He & Hc) H. unfold _make_move in H.
  unfold Py.bind at 1 in H. unfold load in H.
  destruct (rows_of (heap w) board) as [rows|] eqn:Hrows; [|done].
  unfold Py.bind at 1 in H. rewrite SearchFacts.copy_rows_spec in H.
  set (w1 := set_heap (heap w ++ rows) w) in H.
  apply GameFacts.bind_inv in H as ([] & w2 & H2 & H).
  apply GameFacts.bind_inv in H as ([] & w3 & H3 & H).
  apply GameFacts.bind_inv in H as ([] & w4 & H4 & H).
  injection H as <- <-.
  destruct (write2_new_rows (heap w) rows _ _ _ w1 w2 () eq_refl H2)
    as (placed & Hplaced & Hh2 & Hl2).
  rewrite <- Hl2 in H3.
  destruct (write2_new_rows (heap w) placed _ _ _ w2 w3 () Hh2 H3)
    as (moved & Hmoved & Hh3 & Hl3).
  assert (w4 = w3) as ->.
  { destruct (String.eqb_spec (special_flag move) "promotion"); [done|].
    destruct (String.eqb_spec (special_flag move) "en_passant"); [done|].
    destruct (String.eqb_spec (special_flag move) "castle"); [done|].
    by injection H4. }
  exists rows, placed, moved. repeat split; try done.
  - rewrite Hh3, <- Hl2, <- Hl3. apply rows_of_seq.
  - eapply SearchFacts.rows_of_prefix; [|exact Hrows]. rewrite Hh3. by eexists.
Qed.

Lemma make_move_copies_and_moves_witness :
  exists new_board w' moved,
    _make_move mate_in_one_ref (mkMove 6 4 4 4 "wp" "" "") (mate_in_one_world 1)
      = Some (new_board, w') /\
    rows_of (heap w') new_board = Some moved /\
    rows_of (heap w') mate_in_one_ref = Some mate_in_one_board.
Proof.
  destruct (SearchFacts.finished_inv
              (_make_move mate_in_one_ref (mkMove 6 4 4 4 "wp" "" "")
                 (mate_in_one_world 1)))
    as (new_board & w' & E); [vm_compute; reflexivity|].
  destruct (make_move_copies_and_moves mate_in_one_ref
              (mkMove 6 4 4 4 "wp" "" "") (mate_in_one_world 1) w' new_board)
    as (rows & placed & moved & Hrows & _ & _ & Hnew & Hold);
    [repeat split; discriminate|exact E|].
  exists new_board, w', moved. split; [exact E|]. split; [exact Hnew|].
  rewrite Hold. rewrite <- Hrows. vm_compute. reflexivity.
Defined.

End CopyMakeFacts.

(* ===================================================================== *)
(** ** The move selected by two clicks *)
(* ===================================================================== *)

Module ControllerFacts.
Import Core Controller.

Lemma Move_eqb_true (a b : Move) :
  Move_eqb a b = true <->
  start_row a = start_row b /\ start_col a = start_col b /\
  end_row a = end_row b /\ end_col a = end_col b /\
  piece_moved a = piece_moved b /\ pawn_promotion a = pawn_promotion b /\
  enPassant a = enPassant b /\ is_castle_move a = is_castle_move b.
Proof.
  unfold Move_eqb. rewrite !andb_true_iff, !Z.eqb_eq, String.eqb_eq.
  rewrite !Bool.eqb_true_iff. tauto.
Qed.

(** X23. The move that a pair of clicks selects among the valid moves is
    never an en-passant capture, a promotion or a castling: the move built
    from the clicks carries no flag, and [Move.__eq__] compares the flags.
    The move selected is the first valid move without a flag that goes
    from the first clicked square to the second. *)
Theorem clicks_select_plain_moves_only (player_clicks : (Z * Z) * (Z * Z))
    (board : Board) (valid_moves : list Move) (m : Move) :
  clicked_move player_clicks board valid_moves = Some (Some m) ->
  m ∈ valid_moves /\
  enPassant m = false /\ pawn_promotion m = false /\ is_castle_move m = false /\
  (start_row m, start_col m) = player_clicks.1 /\
  (end_row m, end_col m) = player_clicks.2 /\
  Py.index2 board (start_row m) (start_col m) = Some (piece_moved m) /\
  exists i, valid_moves !! i = Some m /\
    forall j m', (j < i)%nat -> valid_moves !! j = Some m' ->
      (start_row m', start_col m', end_row m', end_col m') <>
        (start_row m, start_col m, end_row m, end_col m) \/
      piece_moved m' <> piece_moved m \/
      enPassant m' = true \/ pawn_promotion m' = true \/ is_castle_move m' = true.
Proof.
  unfold clicked_move. destruct player_clicks as [[sr sc] [er ec]]. intros H.
  apply bind_Some in H as (a & Ha & [= Hf]).
  unfold Move_init in Ha. cbn [fst snd] in Ha.
  apply bind_Some in Ha as (pm & Hpm & Ha).
  apply bind_Some in Ha as (pc & Hpc & Ha).
  apply bind_Some in Ha as (sid & _ & [= <-]).
  assert (Hfirst : exists i, valid_moves !! i = Some m /\
            Move_eqb (mkMove sr sc er ec pm pc false false false None None None
                        (sr * 1000 + sc * 100 + er * 10 + ec) sid) m = true /\
            forall j m', (j < i)%nat -> valid_moves !! j = Some m' ->
              Move_eqb (mkMove sr sc er ec pm pc false false false None None None
                          (sr * 1000 + sc * 100 + er * 10 + ec) sid) m' = false).
  { clear Hpm Hpc. revert Hf. induction valid_moves as [|v rest IH]; [done|].
    cbn [find]. destruct (Move_eqb _ v) eqn:Ev.
    - intros [= ->]. exists 0%nat. split; [done|]. split; [done|]. intros j m' Hj. lia.
    - intros Hf. destruct (IH Hf) as (i & Hi & Hm & Hbefore).
      exists (Datatypes.S i). split; [done|]. split; [done|].
      intros [|j] m' Hj; cbn.
      + by intros [= <-].
      + apply Hbefore. lia. }
  destruct Hfirst as (i & Hi & Hm & Hbefore).
  apply Move_eqb_true in Hm. cbn in Hm.
  destruct Hm as (<- & <- & <- & <- & <- & Hpp & Hep & Hcm).
  split; [by eapply list_elem_of_lookup_2|].
  repeat split; try done.
  exists i. split; [done|]. intros j m' Hj Hm'.
  specialize (Hbefore j m' Hj Hm').
  destruct (decide ((start_row m', start_col m', end_row m', end_col m')
                    = (sr, sc, er, ec))) as [[= <- <- <- <-]|]; [|by left].
  right. destruct (decide (piece_moved m' = pm)) as [<-|]; [|by left].
  right. destruct (enPassant m') eqn:E1; [by left|].
  destruct (pawn_promotion m') eqn:E2; [by right; left|].
  destruct (is_castle_move m') eqn:E3; [by right; right|].
  exfalso. unfold Move_eqb in Hbefore. cbn in Hbefore.
  rewrite !Z.eqb_refl, String.eqb_refl, E1, E2, E3 in Hbefore. done.
Qed.

Lemma clicks_select_plain_moves_only_witness :
  exists m,
    clicked_move ((6, 4), (4, 4)) initial_board pawn_and_knight = Some (Some m) /\
    m ∈ pawn_and_knight /\ is_castle_move m = false.
Proof.
  eexists. split; [reflexivity|].
  destruct (clicks_select_plain_moves_only ((6, 4), (4, 4)) initial_board
              pawn_and_knight _ eq_refl) as (H1 & _ & _ & H2 & _).
  split; [exact H1|exact H2].
Defined.

End ControllerFacts.

(* ===================================================================== *)
(** ** The castlings on offer *)
(* ===================================================================== *)

Module CastleOfferFacts.
Import Core GameFacts ValidMoveFacts.
Local Open Scope py_scope.

Lemma castles_added_none (p : View) (row col : Z) (moves : list Move) (n : nat) :
  castles_added p row col moves n moves.
Proof.
  exists []. split; [by rewrite app_nil_r|]. split; [simpl; lia|constructor].
Qed.

Lemma castles_added_more (p : View) (row col : Z) (moves ms : list Move) (n : nat)
    (m : Move) :
  castles_added p row col moves n ms -> castle_offer p row col m ->
  castles_added p row col moves (S n) (ms ++ [m]).
Proof.
  intros (added & -> & Hl & Hf) Hm. exists (added ++ [m]).
  split; [by rewrite app_assoc|]. split.
  - rewrite length_app. simpl. lia.
  - apply Forall_app. split; [done|by apply Forall_singleton].
Qed.

Lemma castles_added_le (p : View) (row col : Z) (moves ms : list Move) (n k : nat) :
  (n <= k)%nat -> castles_added p row col moves n ms ->
  castles_added p row col moves k ms.
Proof. intros Hn (added & -> & Hl & Hf). exists added. repeat split; [lia|done]. Qed.

Lemma gen_kingside_offer (p : View) (row col : Z) (moves ms : list Move) (n : nat) :
  (v_white_to_move p && wks (v_castling_rights p))
    || (negb (v_white_to_move p) && bks (v_castling_rights p)) = true ->
  castles_added p row col moves n ms ->
  gen p (get_kingside_castle_moves row col ms)
    (castles_added p row col moves (S n)).
Proof.
  intros Hright Hms. unfold get_kingside_castle_moves.
  pose proof (castles_added_le p row col moves ms n (S n) ltac:(lia) Hms) as Hms'.
  eapply gen_bind; [apply gen_board_at|]. intros a Ha.
  eapply gen_bind with
    (Q := fun free : bool =>
            free = true -> a = "--" /\
                           Py.index2 (v_board p) row (col + 2) = Some "--").
  { destruct (String.eqb_spec a "--") as [->|]; [|by apply gen_ret].
    eapply gen_bind; [apply gen_board_at|]. intros b Hb.
    apply gen_ret. intros Hf. apply String.eqb_eq in Hf. by subst. }
  intros [|] Hfree; [|by apply gen_ret].
  destruct (Hfree eq_refl) as [-> Hb].
  eapply gen_bind; [apply gen_square_under_attack|]. intros u1 _.
  eapply gen_bind with (Q := fun _ => True).
  { destruct (negb u1); [|by apply gen_ret].
    eapply gen_bind; [apply gen_square_under_attack|]. intros u2 _.
    by apply gen_ret. }
  intros [|] _; [|by apply gen_ret].
  eapply gen_bind; [apply gen_new_move|]. intros m Hmv.
  apply gen_ret. apply castles_added_more; [done|].
  apply Move_init_fields in Hmv
    as (Hsr & Hsc & Her & Hec & _ & _ & Hep & Hpp & Hcm).
  simpl in *. unfold castle_offer. repeat split; try done. left. done.
Qed.

Lemma gen_queenside_offer (p : View) (row col : Z) (moves ms : list Move) (n : nat) :
  (v_white_to_move p && wqs (v_castling_rights p))
    || (negb (v_white_to_move p) && bqs (v_castling_rights p)) = true ->
  castles_added p row col moves n ms ->
  gen p (get_queenside_castle_moves row col ms)
    (castles_added p row col moves (S n)).
Proof.
  intros Hright Hms. unfold get_queenside_castle_moves.
  pose proof (castles_added_le p row col moves ms n (S n) ltac:(lia) Hms) as Hms'.
  eapply gen_bind; [apply gen_board_at|]. intros a Ha.
  eapply gen_bind with
    (Q := fun free : bool =>
            free = true -> a = "--" /\
                           Py.index2 (v_board p) row (col - 2) = Some "--" /\
                           Py.index2 (v_board p) row (col - 3) = Some "--").
  { destruct (String.eqb_spec a "--") as [->|]; [|by apply gen_ret].
    eapply gen_bind; [apply gen_board_at|]. intros b Hb.
    destruct (String.eqb_spec b "--") as [->|]; [|by apply gen_ret].
    eapply gen_bind; [apply gen_board_at|]. intros d Hd.
    apply gen_ret. intros Hf. apply String.eqb_eq in Hf. by subst. }
  intros [|] Hfree; [|by apply gen_ret].
  destruct (Hfree eq_refl) as (-> & Hb & Hd).
  eapply gen_bind; [apply gen_square_under_attack|]. intros u1 _.
  eapply gen_bind with (Q := fun _ => True).
  { destruct (negb u1); [|by apply gen_ret].
    eapply gen_bind; [apply gen_square_under_attack|]. intros u2 _.
    by apply gen_ret. }
  intros [|] _; [|by apply gen_ret].
  eapply gen_bind; [apply gen_new_move|]. intros m Hmv.
  apply gen_ret. apply castles_added_more; [done|].
  apply Move_init_fields in Hmv
    as (Hsr & Hsc & Her & Hec & _ & _ & Hep & Hpp & Hcm).
  simpl in *. unfold castle_offer. repeat split; try done. right. done.
Qed.

Lemma gen_castle_offers (p : View) (row col : Z) (moves : list Move) :
  gen p (get_castle_moves row col moves) (castles_added p row col moves 2).
Proof.
  unfold get_castle_moves.
  eapply gen_bind; [apply gen_square_under_attack|]. intros [|] _;
    [apply gen_ret, castles_added_none|].
  eapply gen_bind; [apply gen_get|]. intros s Hs.
  eapply gen_bind with (Q := castles_added p row col moves 1).
  { destruct (_ || _) eqn:E.
    - apply gen_kingside_offer; [|apply castles_added_none].
      revert E. unfold view in Hs. by subst p.
    - apply gen_ret, castles_added_none. }
  intros moves1 Hm1.
  eapply gen_bind; [apply gen_get|]. intros s1 Hs1.
  destruct (_ || _) eqn:E.
  - apply gen_queenside_offer; [|done].
    revert E. unfold view in Hs1. by subst p.
  - apply gen_ret. apply (castles_added_le p row col moves moves1 1 2); [lia|done].
Qed.

(** X26. [get_castle_moves] leaves the position as it is and only appends
    to the moves it was given: at most two moves, each a castling of the
    king on [(row, col)] along its row.  A castling two columns to the
    right is appended only when the side to move has its king-side right
    and the two squares right of the king are empty; one two columns to
    the left only when the side has its queen-side right and the three
    squares left of the king are empty.  When the king's square is found
    attacked the moves are returned as given. *)
Theorem castling_needs_right_and_room (row col : Z) (moves ms : list Move)
    (s s' : GameState) :
  get_castle_moves row col moves s = Some (ms, s') ->
  view s' = view s /\
  (exists added, ms = moves ++ added /\ (length added <= 2)%nat /\
     forall m, m ∈ added -> castle_offer (view s) row col m) /\
  (forall s1, square_under_attack row col s = Some (true, s1) -> ms = moves).
Proof.
  intros H.
  destruct (gen_castle_offers (view s) row col moves s ms s' eq_refl H)
    as [Hv (added & -> & Hl & Hf)].
  split; [exact Hv|]. split.
  - exists added. split; [done|]. split; [done|]. by apply Forall_forall.
  - intros s1 Hu. revert H. unfold get_castle_moves, Py.bind at 1.
    rewrite Hu. unfold Py.ret. intros [= H _]. done.
Qed.

Lemma castling_needs_right_and_room_witness :
  exists ms s',
    get_castle_moves 7 4 [] castle_ready = Some (ms, s') /\
    view s' = view castle_ready /\
    (exists added, ms = [] ++ added /\ (length added <= 2)%nat /\
       forall m, m ∈ added -> castle_offer (view castle_ready) 7 4 m).
Proof.
  destruct (get_castle_moves 7 4 [] castle_ready) as [[ms s']|] eqn:E.
  - exists ms, s'. split; [reflexivity|].
    destruct (castling_needs_right_and_room 7 4 [] ms castle_ready s' E)
      as (Hv & Ha & _).
    split; [exact Hv|exact Ha].
  - exfalso. vm_compute in E. discriminate E.
Defined.

End CastleOfferFacts.

(* ===================================================================== *)
(** ** The end-of-game flags *)
(* ===================================================================== *)

Module FlagFacts.
Import Core GameFacts ValidMoveFacts CheckedFacts.
Local Open Scope py_scope.

(** *** The scan reads the board, the side to move and its king square *)

Lemma scan_same (s s' : GameState) :
  place (white_to_move s) s' = place (white_to_move s) s ->
  check_for_pins_and_checks s' = check_for_pins_and_checks s.
Proof.
  unfold place, king_of. intros [= Hb Hw Hk].
  unfold check_for_pins_and_checks. rewrite Hb, Hw.
  destruct (white_to_move s); by rewrite Hk.
Qed.

(** *** Move generation gives back the cached king square *)

Lemma steady_keeps {A} (w : bool) (p : Board * bool * (Z * Z)) (m : GS A) :
  keeps_on (place w) m -> steady w p m.
Proof. intros Hm s a s' Hp H. by rewrite (Hm _ _ _ H). Qed.

Lemma steady_ret {A} (w : bool) p (a : A) : steady w p (Py.ret a).
Proof. by intros s a' s' Hp [= _ <-]. Qed.

Lemma steady_bind {A B} (w : bool) p (m : GS A) (k : A -> GS B) :
  steady w p m -> (forall a, steady w p (k a)) -> steady w p (Py.bind m k).
Proof.
  intros Hm Hk s b s' Hp H. apply bind_inv in H as (a & s1 & H1 & H2).
  eapply Hk; [|exact H2]. by eapply Hm.
Qed.

Lemma steady_get_bind {B} (w : bool) p (k : GameState -> GS B) :
  (forall s0, place w s0 = p -> steady w p (k s0)) ->
  steady w p (Py.bind Py.get k).
Proof.
  intros Hk s b s' Hp H. apply bind_inv in H as (s0 & s1 & H1 & H2).
  injection H1 as <- <-. by eapply Hk.
Qed.

Lemma place_pins (w : bool) (ps : list Ray) (s : GameState) :
  place w (set_pins ps s) = place w s.
Proof. by destruct w. Qed.

Lemma place_set_king (w t : bool) (sq : Z * Z) (s : GameState) (u : unit)
    (s' : GameState) :
  set_king_location (side t) sq s = Some (u, s') ->
  place w s' = (board s, white_to_move s, if Bool.eqb t w then sq else king_of w s).
Proof. destruct t, w; by intros [= _ <-]. Qed.

Lemma steady_king_loop (w : bool) (b : Board) (t : bool) (k : Z * Z) (r c : Z)
    (offs : list (Z * Z)) (moves : list Move) :
  (t = w -> (r, c) = k) ->
  steady w (b, t, k) (king_loop r c (side t) offs moves).
Proof.
  intros Hk. revert moves.
  induction offs as [|[m0 m1] rest IH]; intros moves; cbn [king_loop];
    [apply steady_ret|].
  cbv zeta. destruct (in_board _ _); [|apply IH].
  intros s a s' Hp H.
  apply bind_inv in H as (end_piece & s1 & H1 & H).
  apply (ko_board_at (place w)) in H1 as Hp1. rewrite Hp in Hp1. clear H1.
  apply bind_inv in H as (e0 & s2 & H2 & H).
  apply (ko_lift (place w)) in H2 as Hp2. rewrite Hp1 in Hp2. clear H2.
  destruct (negb _); [|by eapply IH].
  apply bind_inv in H as ([] & s3 & H3 & H).
  apply (place_set_king w t) in H3.
  apply bind_inv in H as ([[ic ps] cs] & s4 & H4 & H).
  apply (ko_check_scan (place w)) in H4 as Hp4. clear H4.
  apply bind_inv in H as (moves' & s5 & H5 & H).
  assert (place w s5 = place w s4) as Hp5.
  { destruct (negb ic).
    - apply bind_inv in H5 as (m & s6 & H6 & H5). injection H5 as _ <-.
      by apply (ko_new_move (place w)) in H6.
    - by injection H5 as _ <-. }
  clear H5.
  apply bind_inv in H as ([] & s6 & H6 & H).
  apply (place_set_king w t) in H6.
  eapply IH; [|exact H].
  assert (place w s5 = (b, t, if Bool.eqb t w then (r + m0, c + m1) else k))
    as Hs5.
  { rewrite Hp5, Hp4, H3. unfold place in Hp2. by injection Hp2 as -> -> ->. }
  unfold place in Hs5. injection Hs5 as Hb5 Ht5 Hk5.
  rewrite H6, Hb5, Ht5. f_equal.
  destruct (Bool.eqb t w) eqn:E; [|exact Hk5].
  apply eqb_prop in E. by apply Hk.
Qed.

Lemma steady_get_king_move (w : bool) (b : Board) (t : bool) (k : Z * Z)
    (r c : Z) (moves : list Move) :
  (t = w -> (r, c) = k) ->
  steady w (b, t, k) (get_king_move r c moves).
Proof.
  intros Hk s a s' Hp H. unfold get_king_move in H.
  apply bind_inv in H as (s0 & s0' & H0 & H). injection H0 as <- <-.
  assert (white_to_move s = t) as Ht by (unfold place in Hp; by injection Hp).
  rewrite Ht in H. by eapply (steady_king_loop w b t k r c).
Qed.

Lemma steady_dispatch (w : bool) (b : Board) (t : bool) (k : Z * Z)
    (kind : ascii) (r c : Z) (moves : list Move) :
  (kind = "K"%char -> t = w -> (r, c) = k) ->
  steady w (b, t, k) (dispatch kind r c moves).
Proof.
  intros Hk. unfold dispatch, get_rook_move, get_bishop_move, get_queen_move.
  repeat match goal with
         | |- steady _ _ (if Ascii.eqb kind ?x then _ else _) =>
             destruct (Ascii.eqb_spec kind x)
         end;
    first [ apply steady_keeps, ko_get_pawn_move, place_pins
          | apply steady_keeps, ko_get_sliding_moves, place_pins
          | apply steady_keeps, ko_get_knight_move, place_pins
          | apply steady_get_king_move; auto
          | apply steady_ret ].
Qed.

Lemma turn_own_king (t : bool) (pc : string) (turn kind : ascii) :
  Py.chr pc 0 = Some turn -> Py.chr pc 1 = Some kind ->
  (Ascii.eqb turn "w" && t) || (Ascii.eqb turn "b" && negb t) = true ->
  kind = "K"%char -> own_king t pc = true.
Proof.
  intros H0 H1 Ht ->. unfold own_king. rewrite H0, H1.
  destruct t; simpl in *.
  - rewrite andb_true_r, andb_false_r, orb_false_r in Ht. by rewrite Ht.
  - rewrite andb_true_r, andb_false_r in Ht. simpl in Ht. by rewrite Ht.
Qed.

Lemma steady_all_moves_loop (w : bool) (b : Board) (t : bool) (k : Z * Z)
    (sqs : list (Z * Z)) (moves : list Move) :
  (forall sq, sq ∈ sqs -> sq ∈ squares) ->
  kings_at b w k ->
  steady w (b, t, k) (all_moves_loop sqs moves).
Proof.
  intros Hsqs Hk. revert moves.
  induction sqs as [|[row col] rest IH]; intros moves; cbn [all_moves_loop];
    [apply steady_ret|].
  assert (forall sq, sq ∈ rest -> sq ∈ squares) as Hrest
    by (intros sq Hsq; apply Hsqs; by right).
  specialize (IH Hrest).
  intros s a s' Hp H.
  apply bind_inv in H as (pc & s1 & H1 & H).
  unfold board_at in H1.
  destruct (Py.index2 (board s) row col) as [pc'|] eqn:Epc; [|done].
  injection H1 as <- <-.
  apply bind_inv in H as (turn & s2 & H2 & H).
  unfold Py.lift in H2. destruct (Py.chr pc' 0) as [turn'|] eqn:E0; [|done].
  injection H2 as <- <-.
  apply bind_inv in H as (s0 & s0' & H0 & H). injection H0 as <- <-.
  assert (board s = b /\ white_to_move s = t) as [Hb Ht]
    by (unfold place in Hp; by injection Hp).
  destruct (_ || _) eqn:Eturn; [|by eapply IH].
  apply bind_inv in H as (kind & s3 & H3 & H).
  unfold Py.lift in H3. destruct (Py.chr pc' 1) as [kind'|] eqn:E1; [|done].
  injection H3 as <- <-.
  apply bind_inv in H as (moves' & s4 & H4 & H).
  eapply IH; [|exact H].
  eapply (steady_dispatch w b t k); [|exact Hp|exact H4].
  intros -> <-. apply (Hk (row, col) pc').
  - apply Hsqs. left.
  - by rewrite <- Hb.
  - rewrite Ht in Eturn. by eapply turn_own_king.
Qed.

Lemma steady_get_all_possible_moves (w : bool) (b : Board) (t : bool) (k : Z * Z) :
  kings_at b w k -> steady w (b, t, k) get_all_possible_moves.
Proof. intros Hk. by apply steady_all_moves_loop. Qed.

Lemma steady_square_under_attack (w : bool) (b : Board) (t : bool) (k : Z * Z)
    (row col : Z) :
  kings_at b w k -> steady w (b, t, k) (square_under_attack row col).
Proof.
  intros Hk s a s' Hp H. unfold square_under_attack in H.
  apply bind_inv in H as ([] & s1 & H1 & H). injection H1 as <-.
  apply bind_inv in H as (opponent_moves & s2 & H2 & H).
  apply (steady_get_all_possible_moves w b (negb t) k Hk) in H2.
  - apply bind_inv in H as ([] & s3 & H3 & H). injection H3 as <-.
    injection H as _ <-. unfold place in *. destruct w; simpl in *;
      injection H2 as -> Ht ->; rewrite Ht, negb_involutive; done.
  - unfold place in *. destruct w; simpl in *; by injection Hp as -> -> ->.
Qed.

Ltac steady_step Hk :=
  match goal with
  | |- steady _ _ (Py.ret _) => apply steady_ret
  | |- steady _ _ (Py.bind _ _) => apply steady_bind; [|intros ?]
  | |- steady _ _ (board_at _ _) => apply steady_keeps, ko_board_at
  | |- steady _ _ (new_move _ _ _ _ _) => apply steady_keeps, ko_new_move
  | |- steady _ _ (Py.lift _) => apply steady_keeps, ko_lift
  | |- steady _ _ Py.get => apply steady_keeps, ko_get
  | |- steady _ _ (square_under_attack _ _) =>
      apply steady_square_under_attack, Hk
  | |- steady _ _ get_all_possible_moves =>
      apply steady_get_all_possible_moves, Hk
  | |- steady _ _ (if ?x then _ else _) => destruct x
  end.

Lemma steady_get_castle_moves (w : bool) (b : Board) (t : bool) (k : Z * Z)
    (row col : Z) (moves : list Move) :
  kings_at b w k -> steady w (b, t, k) (get_castle_moves row col moves).
Proof.
  intros Hk.
  unfold get_castle_moves, get_kingside_castle_moves, get_queenside_castle_moves.
  repeat steady_step Hk.
Qed.

(** A call of [get_valid_moves] in a state whose cached king square is
    where the king of the side to move stands leaves the board, the side
    to move and that square as they are. *)
Lemma get_valid_moves_steady (s s' : GameState) (ms : list Move) :
  own_king_cached s = true ->
  get_valid_moves s = Some (ms, s') ->
  place (white_to_move s) s' = place (white_to_move s) s.
Proof.
  intros Hc.
  set (w := white_to_move s). set (p := place w s).
  assert (kings_at (board s) w (king_of w s)) as Hk.
  { intros sq pc Hsq Hpc Hown. unfold own_king_cached in Hc.
    rewrite forallb_forall in Hc. apply list_elem_of_In in Hsq.
    specialize (Hc sq Hsq). rewrite Hpc in Hc. fold w in Hc. rewrite Hown in Hc.
    simpl in Hc. unfold sq_eqb in Hc. unfold king_location in Hc. fold w in Hc.
    destruct sq as [a b], (king_of w s) as [c d] eqn:E.
    unfold king_of in E. subst w. destruct (white_to_move s); rewrite E in Hc;
      simpl in Hc; apply andb_true_iff in Hc as [?%Z.eqb_eq ?%Z.eqb_eq];
      by subst. }
  revert s' ms.
  assert (steady w (board s, w, king_of w s) get_valid_moves) as Hst.
  { unfold get_valid_moves.
    apply steady_bind; [apply steady_keeps, ko_check_scan|]. intros [[ic ps] cs].
    apply steady_bind; [by apply steady_keeps, ko_modify|]. intros [].
    apply steady_get_bind. intros s1 Hp1.
    assert ((if white_to_move s1 then white_king_location s1
             else black_king_location s1) = king_of w s) as ->.
    { unfold place, king_of in Hp1. injection Hp1 as _ -> Hk1.
      unfold king_of. by destruct w. }
    destruct (king_of w s) as [king_row king_col] eqn:Eking.
    apply steady_bind.
    - destruct (in_check s1); [|by apply steady_get_all_possible_moves].
      destruct (_ =? 1); [|by apply steady_get_king_move].
      apply steady_bind; [by apply steady_get_all_possible_moves|]. intros moves.
      apply steady_get_bind. intros s2 _.
      apply steady_bind; [apply steady_keeps, ko_lift|].
      intros [[[check_row check_col] c2] c3].
      apply steady_bind; [apply steady_keeps, ko_board_at|]. intros pc.
      apply steady_bind; [apply steady_keeps, ko_lift|]. intros kd.
      apply steady_keeps, ko_lift.
    - intros moves. apply steady_get_bind. intros s2 _.
      apply steady_bind.
      + destruct (negb _); [by apply steady_get_castle_moves|apply steady_ret].
      + intros moves'. apply steady_bind; [|intros; apply steady_ret].
        destruct (_ =? 0).
        * apply steady_get_bind. intros s3 _.
          destruct (in_check s3); by apply steady_keeps, ko_modify.
        * apply steady_bind; [by apply steady_keeps, ko_modify|]. intros _.
          by apply steady_keeps, ko_modify. }
  intros s' ms H. by eapply Hst.
Qed.

(** *** The flags after a call *)

Lemma played_flags_fit (s : GameState) : played s -> flags_fit s = true.
Proof.
  intros Hp. apply played_flags_clear in Hp as [Hc Hs].
  unfold flags_fit. rewrite Hc, Hs. by destruct (check_for_pins_and_checks s) as [[[[] ?] ?]|].
Qed.

Lemma play1_played (c : Z * Z * Z * Z) (s s' : GameState) :
  play1 c s = Some s' -> played s'.
Proof.
  unfold play1. intros H.
  destruct (get_valid_moves s) as [[ms s1]|] eqn:Hv; [|done].
  destruct (pick c ms) as [m|] eqn:Hp; [|done].
  destruct (make_move m s1) as [[[] s2]|] eqn:Hm; [|done].
  injection H as <-.
  eapply played_make_move; eauto using pick_elem.
Qed.

(** A game of at least one move ends in a position of a game. *)
Lemma play_played (cs : list (Z * Z * Z * Z)) (s s' : GameState) :
  cs <> [] -> play cs s = Some s' -> played s'.
Proof.
  revert s. induction cs as [|c rest IH]; intros s Hne; [done|]. simpl.
  destruct (play1 c s) as [s1|] eqn:H1; [|done].
  destruct rest as [|c' rest'].
  - intros [= <-]. by eapply play1_played.
  - by apply IH.
Qed.

Lemma own_king_cached_same (s s' : GameState) :
  place (white_to_move s) s' = place (white_to_move s) s ->
  own_king_cached s' = own_king_cached s.
Proof.
  unfold place. intros [= Hb Hw Hk].
  unfold own_king_cached, king_location. rewrite Hb, Hw.
  unfold king_of in Hk. by destruct (white_to_move s); rewrite Hk.
Qed.

(** C8. Take a state in which no raised flag contradicts the position:
    every state of a game (the initial state, a state after [make_move] of
    a move that [get_valid_moves] returned, a state after [undo_move]),
    where no flag is raised, and every state whose [checkmate] flag is
    raised only with the side to move in check and whose [stalemate] flag
    only with it not in check.  After a call of [get_valid_moves] there,
    [in_check] is what the scan of the position for checks on the king of
    the side to move finds; [checkmate] is true exactly when that side is
    in check and the returned list is empty; [stalemate] is true exactly
    when it is not in check and the list is empty; with a non-empty list
    both flags are false.  When the king of the side to move stands on
    its cached square, the state after the call is again such a state, so
    that the same holds of the next call. *)
Theorem get_valid_moves_sets_flags (s s' : GameState) (ms : list Move) :
  played s \/ flags_fit s = true ->
  get_valid_moves s = Some (ms, s') ->
  exists ic ps cs,
    check_for_pins_and_checks s = Some (ic, ps, cs) /\
    in_check s' = ic /\
    (checkmate s' = true <-> ic = true /\ ms = []) /\
    (stalemate s' = true <-> ic = false /\ ms = []) /\
    (ms <> [] -> checkmate s' = false /\ stalemate s' = false) /\
    (own_king_cached s = true ->
     flags_fit s' = true /\ own_king_cached s' = true).
Proof.
  intros Hfit H.
  assert (flags_fit s = true) as Hf
    by (destruct Hfit as [Hp|Hf]; [by apply played_flags_fit|exact Hf]).
  clear Hfit.
  destruct (get_valid_moves_flags _ _ _ H) as ((ps & cs & Hscan) & Hne & Hcm & Hsm).
  exists (in_check s'), ps, cs.
  split; [exact Hscan|]. split; [reflexivity|].
  unfold flags_fit in Hf. rewrite Hscan in Hf.
  apply andb_true_iff in Hf as [Hf1 Hf2].
  assert ((checkmate s' = true <-> in_check s' = true /\ ms = []) /\
          (stalemate s' = true <-> in_check s' = false /\ ms = [])) as [Hc Hs].
  { destruct ms as [|m rest].
    - destruct (in_check s') eqn:Hic.
      + destruct (Hcm eq_refl eq_refl) as [-> ->].
        destruct (stalemate s); [done|]. intuition congruence.
      + destruct (Hsm eq_refl eq_refl) as [-> ->].
        destruct (checkmate s); [done|]. intuition congruence.
    - destruct (Hne ltac:(done)) as [-> ->]. intuition congruence. }
  split; [exact Hc|]. split; [exact Hs|]. split; [exact Hne|].
  intros Hk.
  pose proof (get_valid_moves_steady s s' ms Hk H) as Hp.
  split; [|by rewrite (own_king_cached_same s s' Hp)].
  unfold flags_fit. rewrite (scan_same s s' Hp), Hscan.
  destruct (checkmate s') eqn:Ec, (stalemate s') eqn:Es, (in_check s') eqn:Ei;
    try reflexivity; exfalso.
  - destruct (proj1 Hs eq_refl) as [? _]. done.
  - destruct (proj1 Hc eq_refl) as [? _]. done.
  - destruct (proj1 Hc eq_refl) as [? _]. done.
  - destruct (proj1 Hs eq_refl) as [? _]. done.
Qed.

Lemma get_valid_moves_sets_flags_witness :
  (exists ps cs s1 s2,
     played mated_state /\
     check_for_pins_and_checks mated_state = Some (true, ps, cs) /\
     get_valid_moves mated_state = Some ([], s1) /\
     checkmate s1 = true /\ stalemate s1 = false /\
     get_valid_moves s1 = Some ([], s2) /\
     checkmate s2 = true /\ stalemate s2 = false) /\
  (exists ps cs s1,
     played stalemated_state /\
     check_for_pins_and_checks stalemated_state = Some (false, ps, cs) /\
     get_valid_moves stalemated_state = Some ([], s1) /\
     checkmate s1 = false /\ stalemate s1 = true).
Proof.
  split.
  - assert (Hplayed : played mated_state).
    { apply (play_played game_fools_mate GameState_init);
        [discriminate|vm_compute; reflexivity]. }
    assert (Hrun : match get_valid_moves mated_state with
                   | Some ([], s1) =>
                       match get_valid_moves s1 with
                       | Some ([], _) => true
                       | _ => false
                       end
                   | _ => false
                   end = true) by (vm_compute; reflexivity).
    assert (Hking : own_king_cached mated_state = true)
      by (vm_compute; reflexivity).
    assert (Hin : match check_for_pins_and_checks mated_state with
                  | Some (ic, _, _) => ic
                  | None => false
                  end = true) by (vm_compute; reflexivity).
    destruct (get_valid_moves mated_state) as [[[|m ms] s1]|] eqn:E1;
      [|discriminate Hrun|discriminate Hrun].
    destruct (get_valid_moves s1) as [[[|m ms] s2]|] eqn:E2;
      [|discriminate Hrun|discriminate Hrun].
    clear Hrun.
    destruct (get_valid_moves_sets_flags mated_state s1 [] (or_introl Hplayed) E1)
      as (ic & ps & cs & Hscan & _ & Hc & Hs & _ & Hnext).
    rewrite Hscan in Hin. subst ic.
    destruct (Hnext Hking) as [Hfit1 _]. clear Hnext.
    destruct (get_valid_moves_sets_flags s1 s2 [] (or_intror Hfit1) E2)
      as (ic2 & ps2 & cs2 & Hscan2 & _ & Hc2 & Hs2 & _).
    pose proof (proj2 Hc (conj eq_refl eq_refl)) as Hcm1.
    assert (stalemate s1 = false) as Hsm1.
    { destruct (stalemate s1); [|reflexivity].
      destruct (proj1 Hs eq_refl) as [Hx _]. discriminate Hx. }
    assert (ic2 = true) as Hic2.
    { unfold flags_fit in Hfit1. rewrite Hscan2, Hcm1 in Hfit1.
      destruct ic2; [reflexivity|discriminate Hfit1]. }
    rewrite Hic2 in Hc2, Hs2.
    exists ps, cs, s1, s2.
    split; [exact Hplayed|]. split; [exact Hscan|]. split; [reflexivity|].
    split; [exact Hcm1|]. split; [exact Hsm1|]. split; [exact E2|].
    split; [exact (proj2 Hc2 (conj eq_refl eq_refl))|].
    destruct (stalemate s2); [|reflexivity].
    destruct (proj1 Hs2 eq_refl) as [Hx _]. discriminate Hx.
  - assert (Hplayed : played stalemated_state).
    { apply (play_played game_stalemate GameState_init);
        [discriminate|vm_compute; reflexivity]. }
    assert (Hrun : match get_valid_moves stalemated_state with
                   | Some ([], _) => true
                   | _ => false
                   end = true) by (vm_compute; reflexivity).
    assert (Hin : match check_for_pins_and_checks stalemated_state with
                  | Some (ic, _, _) => negb ic
                  | None => false
                  end = true) by (vm_compute; reflexivity).
    destruct (get_valid_moves stalemated_state) as [[[|m ms] s1]|] eqn:E1;
      [|discriminate Hrun|discriminate Hrun].
    clear Hrun.
    destruct (get_valid_moves_sets_flags stalemated_state s1 []
                (or_introl Hplayed) E1)
      as (ic & ps & cs & Hscan & _ & Hc & Hs & _).
    rewrite Hscan in Hin. destruct ic; [discriminate Hin|]. clear Hin.
    exists ps, cs, s1.
    split; [exact Hplayed|]. split; [exact Hscan|]. split; [reflexivity|].
    split; [|exact (proj2 Hs (conj eq_refl eq_refl))].
    destruct (checkmate s1); [|reflexivity].
    destruct (proj1 Hc eq_refl) as [Hx _]. discriminate Hx.
Defined.

End FlagFacts.
